(* ===== verification/_CoqProject ===== *)
-Q . S2P
Prelude.v
GoList.v
GoString.v
Logging.v
GoReflect.v
Utils.v
Buffers.v
Md5.v
HashRing.v
Mongo.v
Redis.v
SyncQueue.v
Uuid.v
TimeWheel.v
Config.v
Mail.v
Modle.v
NetSession.v
NetApi.v
NetServer.v
NetPool.v
Iter.v
ThreadPool.v
EcsSystems.v
Tasks.v
EcsObject.v
EcsTree.v
EcsComponents.v
EcsBase.v
EcsFactory.v
EcsDebug.v
Persist.v
Float64.v
Selector.v
Master.v
Location.v
Node.v
Getters.v
Groups.v
GroupsTree.v
Launcher.v
Setup.v
Boot.v
FirstFrame.v
Serve.v
Child.v
Cluster.v
Located.v
NetStart.v
Gate.v
Web.v
RpcClient.v
RpcServer.v
Services.v
Awaken.v
RpcConn.v
RpcSystem.v
RpcDebug.v
RpcCodec.v
ActorId.v
ActorBase.v
ActorNet.v
Actor.v
