(* ===== verification/Prelude.v ===== *)
(** * The happy server framework: verification library

    happy (src/) is a framework for game servers in Go: a node is a tree of objects
    with components, driven by a frame loop; nodes find each other through a master
    and a location server, talk by RPC, and carry actors, gates and databases. This
    library models its packages and proves what makes them correct, or shows where
    they are not.

    ** How Go is rendered

    Below this comment: [outcome] (a goroutine returns, panics or is stuck for ever),
    [result] (a value or an error), [prog S A] (a program over a shared store that
    survives a panic) with [recovering] for deferred recovers and [deferring] for
    other deferred calls, the total-correctness triple [wp], lists and fixed-width
    integers. A fatal error of Go's, the unlocking of a mutex that is not locked, is a panic
    that neither of these catches ([fatal], [ended_by_fatal], [goes_on]); other panics that
    nothing recovers end the process too, which the models of goroutines have as a state
    or leave as the panic. Sequential code is a [prog]; pointers that are shared are keys of maps
    in the store, mutexes that are not reentrant are fields of it. Goroutines are
    steps: a function answers the state after an event, or [None] while it has to
    wait, and [rtc] of the step relation is every interleaving. What runs under one
    lock is one step, unless it waits or calls out while it holds the lock. Code that
    is not in the repository is an argument or a class of operations, with what its
    documentation promises as named laws, and each theorem that needs such laws has
    a witness in which they hold. Loops that are not structural carry fuel: the
    walks over the object tree take [objects_fuel], one more than the number of
    objects, and EcsTree proves it enough; Iter, Mongo, Utils and Selector have
    lemmas that say which fuel gives the result, and running out is [Stuck], which
    the theorems exclude.

    ** The parts, their files and their theorems

    Of Go itself: GoList (container/list), GoString (strings), GoReflect (the types
    and methods reflect shows), Float64 (IEEE doubles), Md5.

    The object system, hECS/. EcsObject has objects, component bases, runtimes and
    their iterators over one store [World], an operation of object.go per definition;
    EcsTree proves the forest invariant over every operation, with the one that hangs,
    RemoveComponentsByType, and what AddObject, RemoveObject, Destroy, the walks and the
    enumerations do ([tree_invariant], [AddObject_result],
    [Destroy_result], [ObjectsInChildren_enumerates]); EcsComponents what AddComponent
    does on every branch and how far uniqueness is enforced; EcsBase what a component sees of
    its object and runtime ([base_of_component]), and what it misses when it was added
    before its object was attached ([late_component]), and the list of custom systems
    ([customs_once]). EcsSystems has the four
    systems of system_*.go and the frame of runtime.go: the order of the stages, once
    and only once for what is queued, termination of a frame. Tasks has the other
    goroutines of a runtime (ScheduleTask, UpdateFrameByInterval) and Locker,
    EcsFactory and Persist the templates (object_factory.go, template.go) with their
    round trips, over the components' own states beside the store
    ([template_roundtrip]), Groups the component groups of hCluster/ComponentGroup.go,
    which are attached through AddObject and AddComponent, with the tree they leave in
    GroupsTree;
    EcsDebug is the printer of Object.Debug. Iter and ThreadPool are the packages
    of hCommon that hECS runs on: the systems hand their calls to the pool. In it a task's
    end and the start of the next pending one are two steps, between which Wait can pass.

    The cluster, hCluster/. Selector has the ways to choose among nodes, over the
    balancers of liblb as a class; Master the master's handlers and its time-out loop
    ([master_invariant], with the calls that panic and so end the process;
    [silent_node_closed]); Location the location server's copy of
    the master's tables; Node the clients of a node with many
    goroutines connecting at once ([GetNodeClient_single_flight]) and the look-ups
    ([GetNodeGroup_lists_role] relates them to the master's component); Getters the
    goroutines that look for location servers ([getters_recover]); Child the
    node's side of the connection to its master, against the component of Master
    ([child_invariant], [reports_after_close], [child_races], [Destroy_deadlocks]); Cluster
    any number of such nodes with one master, until a call ends it, and what a look-up finds
    ([look_up_finds_reporters], over the definitions of Child, Master and Selector);
    Located the same with a location server ([location_finds_reporters]).

    RPC, hRpc/. RpcClient has senders, the reading goroutine, Close and the heartbeat
    ([calls_complete_once], [Close_blocks_for_ever]); RpcServer registration by
    reflection, the reading loop, the concurrent calls over the shared list of requests
    and the methods' counters ([one_response_each], [register_resolves],
    [calls_counted]); RpcSystem any number of the clients with one server
    ([remote_calls], over the definitions of both, with the refused one-way requests that
    answer a call); RpcCodec what the codecs put on a
    stream, and the goroutines that answer on it step by step, which RpcServer has as
    one ([frames_arrive], [answers_whole]); RpcDebug the debug page
    ([debug_page_fixed]); RpcConn the deadline of a server's connection over time, beside
    the requests it was read, and the handshake over HTTP ([deadline_kept], [dial_http]); Services the services that the
    framework's components register, and that every call of the framework to one of them
    resolves to a method of the types it sends and expects ([node_services]). RpcSystem takes arguments that
    gob can encode; what happens otherwise is [refused_argument_shifts] in RpcCodec.

    Actors, hActor/. ActorId has addresses, groups, the proxy's registries and the
    caller's cache, ActorBase the base of components with handlers and the calls of
    services, Actor the tellers, the dispatcher and the handlers of one actor, in which a
    teller that has been woken reads its answer in a step of its own ([actor_answers]); ActorNet the proxies of any number of nodes
    together, from a message's address to the component it reaches ([emit_one_hop]) and
    from a service's name to its reply ([service_reaches_actor]).

    The network, hNet/. NetSession has frames, connections and sessions; NetApi the
    tables of message types and the routing ([message_reaches_its_method]); NetServer
    the handlers of packets, what of their panics is contained ([packets_contained]), and
    the count of connections; NetPool the workers and the
    order of packets ([sessions_in_order]); NetStart the servers of a process, from
    StartUp to Shutdown, over the one pool they share ([shutdown_ends_everyone]); Web the
    routers of the HTTP servers and the responses as gin's writer commits them, with the
    middleware for other origins of hCommon ([select_gate_serves], [posted_stays_counted]).

    Launching, hBaseComponent/ and hConfig/. Config loads and writes the files;
    Launcher overrides the configuration and completes roles and groups; Serve is the
    life of a node over an interface of the above ([drain_asks_everyone]); Gate has the
    default gate, with Go's wait group under it ([gate_released]), and the stateless gate;
    Boot the framework's own components with what they
    require, and the tree of a node that NewServerNode (happy.go) and Serve put together
    ([node_tree], [shutdown_keeps_child]); FirstFrame the first frame on that tree,
    which wakes up, starts and updates exactly its components ([first_frame]); Setup
    what NewServerNode and the launcher's Initialize set up by the configuration, but for
    LogPath, which nothing reads ([node_configured]); Awaken how the components of a node wake up: they find the
    node's component in the tree of Boot, register on the server of Services, and the
    gates start the servers of NetStart, whose goroutines listen or end the process
    ([node_comes_up]); Modle the databases of a
    node, over Mongo (hDataBase/mongo: every operation closes the session it copies, and uses
    it and what it got from it only before that, [sessions_returned]) and Redis (hDataBase/redis).

    Utilities, hCommon/ and hTimer/. Utils has the deep copy that the master's tables
    are handed out by ([Copy_deep]), When, Try and StartProcedure; HashRing consistent
    hashing ([ring_moves_little]); SyncQueue the blocking queue; Uuid the generator of
    identifiers ([uuids_distinct]); Buffers the pooled conversions between strings and
    bytes and GenId ([pooled_bytes], [GenId_distinct]); TimeWheel the timers of RPC and
    actors; Logging the functions of hLog and the files their lines go to ([hlog_written]);
    Mail the mailer of the process ([mails_addressed], [mails_mix]).

    ** Groups of theorems

    Invariants over every reachable state (tree, uniqueness, master, requests and
    responses, workers, child), functional results on every branch (AddComponent,
    AddObject, Destroy, queries, copies, shutdown), refinement (a look-up against the
    master's table, remote calls against the handlers' own returns, messages between
    nodes against one delivery), equivalence (the debug page however the maps are
    walked), round trips (templates, messages, registration, configuration), termination
    and liveness (frames, enumerations, pool, queue), bounds (timers, reports after a
    close, identifiers, deadlines), and errors (refusals, contained panics). The theorems
    with "blocks", "lost", "races" or "panics" in their names or statements prove faults
    of the code from a run that reaches them, as do [shutdown_keeps_child],
    [shutdown_ends_everyone], [no_place_hangs_up], [error_calls_again], [late_component] and
    [critical_is_error].

    ** Not modelled

    hNet/messageProtocol (one call of jsoniter each way; the protocol is an argument of
    NetApi), DefaultServer of happy.go (a variable that keeps NewServerNode's answer), what
    custom systems do (user code), the loops of the libraries that listen (what gin's Run
    does once it serves, and the upgrade to a websocket, an argument of Web),
    and what logging, mail, gin, the drivers of the databases and the codecs do behind the
    classes and arguments that stand for them. Boot runs no Initialize: those of the
    framework's components are in the files of their components, in Setup and in Awaken, and
    none of them changes the tree, so that Awaken takes the finished tree; there the master
    does not hold the node back at CheckNodeStatus, which is Serve's. Maps that the code
    hands out while others write them (Master.GetALLNodeStatus) are values, so that the
    concurrent access to one is modelled only in Located; a panic of an inquiry ends the
    master in Cluster, that of a location server's is only the answer that does not come. *)
From stdpp Require Export base tactics option list list_numbers numbers gmap strings
  fin_maps fin_map_dom sorting relations.

(** ** Outcomes of a Go call

    A goroutine either returns, panics, or never returns ([Stuck]: it waits for
    a lock, a channel or a condition that never comes, or loops for ever). *)
Inductive panic :=
| IndexOutOfRange
| SliceBounds
| NilDereference
| DivideByZero
| MakeNegativeLen
| UnlockUnlocked
| NegativeWaitGroup
| PanicVal (msg : string).

(** Go's fatal errors, which no [recover] catches: the process ends. Of the panics here it
    is the unlocking of a mutex that is not locked. *)
Definition fatal (p : panic) : bool := match p with UnlockUnlocked => true | _ => false end.

Inductive outcome (A : Type) :=
| Ret (a : A)
| Panic (p : panic)
| Stuck.
Arguments Ret {A} _.
Arguments Panic {A} _.
Arguments Stuck {A}.

Definition ended_by_fatal {A} (r : outcome A) : bool := match r with Panic p => fatal p | _ => false end.
(** The call came to an end that leaves the process alive. *)
Definition goes_on {A} (r : outcome A) : bool :=
  match r with Ret _ => true | Panic p => negb (fatal p) | Stuck => false end.

(** A Go [(value, error)] pair of which exactly one side is meaningful. *)
Inductive result (E A : Type) :=
| Ok (a : A)
| Err (e : E).
Arguments Ok {E A} _.
Arguments Err {E A} _.

#[global] Instance panic_eq_dec : EqDecision panic.
Proof. solve_decision. Defined.
#[global] Instance outcome_eq_dec `{EqDecision A} : EqDecision (outcome A).
Proof. solve_decision. Defined.
#[global] Instance result_eq_dec `{EqDecision E, EqDecision A} : EqDecision (result E A).
Proof. solve_decision. Defined.

(** ** The outcome monad *)
#[global] Instance outcome_ret : MRet outcome := λ A a, Ret a.
#[global] Instance outcome_bind : MBind outcome := λ A B f m,
  match m with Ret a => f a | Panic p => Panic p | Stuck => Stuck end.

Lemma outcome_bind_Ret {A B} (m : outcome A) (f : A → outcome B) (b : B) :
  m ≫= f = Ret b ↔ ∃ a, m = Ret a ∧ f a = Ret b.
Proof. destruct m; naive_solver. Qed.

(** ** Programs: a shared store, threaded through calls that may panic

    The store survives a panic, as Go's heap does, so that a deferred
    [recover] sees what the interrupted code had already changed. *)
Definition prog (S A : Type) : Type := S → S * outcome A.

#[global] Instance prog_ret {S} : MRet (prog S) := λ A a s, (s, Ret a).
#[global] Instance prog_bind {S} : MBind (prog S) := λ A B f m s,
  match m s with
  | (s', Ret a) => f a s'
  | (s', Panic p) => (s', Panic p)
  | (s', Stuck) => (s', Stuck)
  end.

Lemma bind_Ret {S A B} (m : prog S A) (f : A → prog S B) s s' a :
  m s = (s', Ret a) → (m ≫= f) s = f a s'.
Proof. intros H. unfold mbind, prog_bind. by rewrite H. Qed.
Lemma bind_Panic {S A B} (m : prog S A) (f : A → prog S B) s s' p :
  m s = (s', Panic p) → (m ≫= f) s = (s', Panic p).
Proof. intros H. unfold mbind, prog_bind. by rewrite H. Qed.
Lemma bind_Stuck {S A B} (m : prog S A) (f : A → prog S B) s s' :
  m s = (s', Stuck) → (m ≫= f) s = (s', Stuck).
Proof. intros H. unfold mbind, prog_bind. by rewrite H. Qed.
Lemma bind_assoc {S A B C} (m : prog S A) (f : A → prog S B) (g : B → prog S C) s :
  ((m ≫= f) ≫= g) s = (m ≫= λ a, f a ≫= g) s.
Proof. unfold mbind, prog_bind. by destruct (m s) as [s' [a|p|]]. Qed.

Section prog_ops.
Context {S : Type}.
Definition get_state : prog S S := λ s, (s, Ret s).
Definition put_state (s : S) : prog S unit := λ _, (s, Ret tt).
Definition modify (f : S → S) : prog S unit := λ s, (f s, Ret tt).
Definition panicking {A} (p : panic) : prog S A := λ s, (s, Panic p).
Definition stuck {A} : prog S A := λ s, (s, Stuck).
Definition of_outcome {A} (o : outcome A) : prog S A := λ s, (s, o).
(** [defer recover()]: the handler runs on the store the panic left; a fatal error ends
    the process past every deferred function. *)
Definition recovering {A} (m : prog S A) (handler : panic → prog S A) : prog S A := λ s,
  match m s with
  | (s', Panic p) => if fatal p then (s', Panic p) else handler p s'
  | r => r
  end.
(** [defer cleanup()]: it runs when [m] returns and when it panics. *)
Definition deferring {A} (m : prog S A) (cleanup : prog S unit) : prog S A := λ s,
  match m s with
  | (s', Stuck) => (s', Stuck)
  | (s', r) =>
      if ended_by_fatal r then (s', r) else
      match cleanup s' with
      | (s'', Ret _) => (s'', r)
      | (s'', Panic p) => (s'', Panic p)
      | (s'', Stuck) => (s'', Stuck)
      end
  end.
(** [for _, x := range l { body x }] *)
Fixpoint for_each {A} (l : list A) (body : A → prog S unit) : prog S unit :=
  match l with
  | [] => mret tt
  | x :: l => body x ≫= λ _, for_each l body
  end.
End prog_ops.

(** ** Total correctness of programs

    [wp m Q E s]: started in [s], [m] does not get stuck; it returns a value and a
    store that satisfy [Q], or panics leaving a store that satisfies [E]. *)
Section wp.
Context {S : Type}.

Definition wp {A} (m : prog S A) (Q : A → S → Prop) (E : panic → S → Prop) (s : S) : Prop :=
  match m s with
  | (s', Ret a) => Q a s'
  | (s', Panic p) => E p s'
  | (_, Stuck) => False
  end.

Lemma wp_mono {A} (m : prog S A) (Q Q' : A → S → Prop) (E E' : panic → S → Prop) s :
  wp m Q E s → (∀ a s', Q a s' → Q' a s') → (∀ p s', E p s' → E' p s') → wp m Q' E' s.
Proof. unfold wp. destruct (m s) as [s' [a|p|]]; auto. Qed.

Lemma wp_ret {A} (a : A) (Q : A → S → Prop) E s : Q a s → wp (mret a) Q E s.
Proof. done. Qed.

Lemma wp_bind {A B} (m : prog S A) (f : A → prog S B) Q E s :
  wp m (λ a s', wp (f a) Q E s') E s → wp (m ≫= f) Q E s.
Proof. unfold wp, mbind, prog_bind. by destruct (m s) as [s' [a|p|]]. Qed.

Lemma wp_bind_inv {A B} (m : prog S A) (f : A → prog S B) Q E s :
  wp (m ≫= f) Q E s → wp m (λ a s', wp (f a) Q E s') E s.
Proof. unfold wp, mbind, prog_bind. by destruct (m s) as [s' [a|p|]]. Qed.

Lemma wp_get (Q : S → S → Prop) E s : Q s s → wp get_state Q E s.
Proof. done. Qed.

Lemma wp_modify (f : S → S) (Q : unit → S → Prop) E s : Q tt (f s) → wp (modify f) Q E s.
Proof. done. Qed.

Lemma wp_recovering {A} (m : prog S A) (h : panic → prog S A) Q E s :
  wp m Q (λ p s', if fatal p then E p s' else wp (h p) Q E s') s → wp (recovering m h) Q E s.
Proof. unfold wp, recovering. destruct (m s) as [s' [a|p|]]; [done| |done]. by destruct (fatal p). Qed.

(** A loop, with what holds after the elements already visited. *)
Lemma wp_for_each {A} (l : list A) (body : A → prog S unit) (I : list A → S → Prop) E s :
  I [] s →
  (∀ pre x post s', l = pre ++ x :: post → I pre s' →
     wp (body x) (λ _ s'', I (pre ++ [x]) s'') E s') →
  wp (for_each l body) (λ _ s', I l s') E s.
Proof.
  intros H0 Hbody.
  assert (∀ pre post s', l = pre ++ post → I pre s' →
            wp (for_each post body) (λ _ s'', I l s'') E s') as Hgen.
  { intros pre post. revert pre. induction post as [|x post IH]; intros pre s' El HI; simpl.
    - apply wp_ret. rewrite app_nil_r in El. by subst.
    - apply wp_bind. eapply wp_mono; [by eapply Hbody| |done].
      intros [] s'' HI'. eapply IH; [|exact HI']. by rewrite <- app_assoc. }
  by apply (Hgen []).
Qed.

(** From a total-correctness triple without panics to the returned value. *)
Lemma wp_Ret {A} (m : prog S A) Q s :
  wp m Q (λ _ _, False) s → ∃ s' a, m s = (s', Ret a) ∧ Q a s'.
Proof. unfold wp. destruct (m s) as [s' [a|p|]]; naive_solver. Qed.
End wp.

(** ** Tactics *)

(** Two equations with the same left-hand side: equate their right-hand sides. *)
Ltac same_lhs :=
  repeat match goal with
  | A : ?t = _, B : ?t = _ |- _ => rewrite A in B; simplify_eq
  end.

(** A run that is known to return: equate store and value. *)
Ltac ret_eq E := cbv [mret prog_ret] in E; simplify_eq/=.

(** Unfold the program monad down to its matches. *)
Ltac unfold_prog := unfold mbind, mret, prog_bind, prog_ret in *; simpl in *.

(** ** Lists *)

(** The list without the first element that satisfies a predicate, if any does. *)
Fixpoint remove_first {A} (P : A → Prop) `{∀ x, Decision (P x)} (l : list A) : option (list A) :=
  match l with
  | [] => None
  | x :: l => if decide (P x) then Some l else (x ::.) <$> remove_first P l
  end.

Section remove_first.
Context {A : Type} (P : A → Prop) `{∀ x, Decision (P x)}.
Implicit Types l k : list A.

Lemma remove_first_None l : remove_first P l = None ↔ Forall (λ x, ¬ P x) l.
Proof.
  induction l as [|x l IH]; simpl; [split; [constructor|done]|].
  rewrite Forall_cons, <- IH. case_decide; [naive_solver|].
  rewrite fmap_None. naive_solver.
Qed.

Lemma remove_first_Some l k :
  remove_first P l = Some k ↔
  ∃ l1 x l2, l = l1 ++ x :: l2 ∧ k = l1 ++ l2 ∧ P x ∧ Forall (λ y, ¬ P y) l1.
Proof.
  revert k. induction l as [|x l IH]; intros k; simpl.
  - split; [done|]. intros (l1 & x & l2 & E & _). by destruct l1.
  - case_decide as HP.
    + split; [intros [= <-]; exists [], x, l; auto|].
      intros ([|y l1] & z & l2 & E & -> & Hz & Hl1); simplify_eq/=; [done|].
      by apply Forall_cons in Hl1 as [? _].
    + rewrite fmap_Some. setoid_rewrite IH. split.
      * intros (? & (l1 & z & l2 & -> & -> & Hz & Hl1) & ->).
        exists (x :: l1), z, l2. auto.
      * intros ([|y l1] & z & l2 & E & -> & Hz & Hl1); simplify_eq/=; [done|].
        apply Forall_cons in Hl1 as [? ?]. naive_solver.
Qed.
End remove_first.

Lemma remove_first_eq_Permutation `{EqDecision A} (x : A) l k :
  remove_first (x =.) l = Some k → l ≡ₚ x :: k.
Proof.
  intros (l1 & y & l2 & -> & -> & <- & _)%remove_first_Some. by rewrite Permutation_middle.
Qed.

Lemma remove_first_elem_of `{EqDecision A} (x : A) l :
  x ∈ l → is_Some (remove_first (x =.) l).
Proof.
  intros Hx. rewrite <- not_eq_None_Some, remove_first_None, Forall_forall.
  intros Hf. by apply (Hf x Hx).
Qed.

(** ** Transition systems

    A concurrent component is a state and a partial function that runs one event.
    Its step relation is [step_of]; a list of events run one after another is a path
    of that relation, and every path is such a run. *)
Lemma rtc_preserves {A} (R : relation A) (I : A → Prop) x y :
  (∀ x y, I x → R x y → I y) → I x → rtc R x y → I y.
Proof. intros Hs Hx Hr. induction Hr; eauto. Qed.

Section runs.
Context {E S : Type} (run : E → S → option S).
Fixpoint runs (l : list E) (s : S) : option S :=
  match l with [] => Some s | e :: l => run e s ≫= runs l end.
Definition step_of : relation S := λ s s', ∃ e, run e s = Some s'.

Lemma runs_app l k s : runs (l ++ k) s = runs l s ≫= runs k.
Proof. revert s. induction l as [|e l IH]; intros s; simpl; [done|]. by destruct (run e s); simpl. Qed.
Lemma runs_steps l s s' : runs l s = Some s' → rtc step_of s s'.
Proof.
  revert s. induction l as [|e l IH]; intros s; simpl; [by intros [= <-]|].
  intros (s1 & H1 & Hs)%bind_Some. eapply rtc_l; [by exists e|auto].
Qed.
Lemma steps_runs s s' : rtc step_of s s' → ∃ l, runs l s = Some s'.
Proof.
  induction 1 as [s|s s1 s' [e H1] _ [l IH]]; [by exists []|]. exists (e :: l). simpl. by rewrite H1.
Qed.
End runs.

(** ** Fixed-width integers *)
Definition uwrap (w z : Z) : Z := (z `mod` 2 ^ w)%Z.
Definition swrap (w z : Z) : Z := ((z + 2 ^ (w - 1)) `mod` 2 ^ w - 2 ^ (w - 1))%Z.
Abbreviation int64 := (swrap 64).
Abbreviation int32 := (swrap 32).
Abbreviation uint64 := (uwrap 64).
Abbreviation uint32 := (uwrap 32).
Definition in_int64 (z : Z) : Prop := (- 2 ^ 63 ≤ z < 2 ^ 63)%Z.

Lemma swrap_small w z :
  (0 < w)%Z → (- 2 ^ (w - 1) ≤ z < 2 ^ (w - 1))%Z → swrap w z = z.
Proof.
  intros Hw Hz. unfold swrap.
  assert (2 ^ w = 2 * 2 ^ (w - 1))%Z as E.
  { rewrite <- Z.pow_succ_r by lia. f_equal. lia. }
  rewrite Z.mod_small by lia. lia.
Qed.
Lemma int64_small z : in_int64 z → int64 z = z.
Proof. intros H. apply swrap_small; [lia|]. exact H. Qed.
Lemma uwrap_small w z : (0 ≤ z < 2 ^ w)%Z → uwrap w z = z.
Proof. apply Z.mod_small. Qed.
Lemma uwrap_range w z : (0 ≤ w)%Z → (0 ≤ uwrap w z < 2 ^ w)%Z.
Proof. intros. apply Z.mod_pos_bound. lia. Qed.
