(* ===== verification/GoList.v ===== *)
(** * container/list, as far as the framework uses it

    A [golist] is the sequence of its elements; an element is a pair of an
    address (unique in the list, never reused) and its value.  [next_of]
    is [Element.Next]: the successor, or nothing for the last element and for
    an element that is no longer in the list ([List.Remove] clears the
    element's [list] field, and [Next] then answers nil). *)
From S2P Require Import Prelude.

Record golist (A : Type) := GoList { gl_fresh : nat; gl_elems : list (nat * A) }.
Arguments GoList {A} _ _.
Arguments gl_fresh {A} _.
Arguments gl_elems {A} _.

Section golist.
Context {A : Type}.
Implicit Types l : golist A.

Definition gl_new : golist A := GoList 0 [].
Definition gl_values l : list A := (gl_elems l).*2.
Definition PushBack (v : A) l : golist A :=
  GoList (S (gl_fresh l)) (gl_elems l ++ [(gl_fresh l, v)]).
Definition PushBackList (other l : golist A) : golist A :=
  fold_left (λ acc v, PushBack v acc) (gl_values other) l.
Definition Front l : option (nat * A) := head (gl_elems l).
Definition gl_len l : nat := length (gl_elems l).
Definition gl_remove (e : nat) l : golist A :=
  GoList (gl_fresh l) (filter (λ x, x.1 ≠ e) (gl_elems l)).
Fixpoint after (e : nat) (xs : list (nat * A)) : option (nat * A) :=
  match xs with
  | [] => None
  | x :: xs => if decide (x.1 = e) then head xs else after e xs
  end.
Definition next_of (e : nat) l : option (nat * A) := after e (gl_elems l).

Definition gl_wf l : Prop :=
  NoDup (gl_elems l).*1 ∧ Forall (λ x, x.1 < gl_fresh l) (gl_elems l).

Lemma gl_new_wf : gl_wf gl_new.
Proof. split; constructor. Qed.

Lemma PushBack_values v l : gl_values (PushBack v l) = gl_values l ++ [v].
Proof. unfold gl_values, PushBack; simpl. by rewrite fmap_app. Qed.

Lemma PushBack_wf v l : gl_wf l → gl_wf (PushBack v l).
Proof.
  intros [Hnd Hlt]. split; simpl.
  - rewrite fmap_app. apply NoDup_app. split_and!; [done| |apply NoDup_singleton].
    intros e (x & -> & Hx)%list_elem_of_fmap. simpl.
    rewrite list_elem_of_singleton. rewrite Forall_forall in Hlt.
    specialize (Hlt x Hx). lia.
  - apply Forall_app. split; [|repeat constructor; simpl; lia].
    eapply Forall_impl; [exact Hlt|]. simpl; intros; lia.
Qed.

Lemma PushBackList_values o l :
  gl_values (PushBackList o l) = gl_values l ++ gl_values o.
Proof.
  unfold PushBackList. generalize (gl_values o) as vs. intros vs. revert l.
  induction vs as [|v vs IH]; intros l; simpl; [by rewrite app_nil_r|].
  by rewrite IH, PushBack_values, <- app_assoc.
Qed.

Lemma PushBackList_wf o l : gl_wf l → gl_wf (PushBackList o l).
Proof.
  unfold PushBackList. generalize (gl_values o) as vs. intros vs. revert l.
  induction vs as [|v vs IH]; intros l Hl; simpl; [done|].
  by apply IH, PushBack_wf.
Qed.

Lemma gl_remove_wf e l : gl_wf l → gl_wf (gl_remove e l).
Proof.
  intros [Hnd Hlt]. split; simpl.
  - eapply sublist_NoDup; [exact Hnd|]. apply fmap_sublist, sublist_filter.
  - rewrite Forall_forall in *. intros x [_ Hx]%list_elem_of_filter. auto.
Qed.

Lemma not_mem_filter_addr e (xs : list (nat * A)) :
  e ∉ xs.*1 → filter (λ x, x.1 ≠ e) xs = xs.
Proof.
  induction xs as [|x xs IH]; intros Hni; [done|].
  rewrite filter_cons, decide_True by set_solver. f_equal. apply IH. set_solver.
Qed.

(** Removing the front element pops the first value. *)
Lemma gl_remove_front e v l xs :
  gl_wf l → gl_elems l = (e, v) :: xs → gl_values (gl_remove e l) = xs.*2.
Proof.
  intros [Hnd _] E. unfold gl_values, gl_remove; simpl. rewrite E in *.
  apply NoDup_cons in Hnd as [Hni _]. simpl in Hni.
  rewrite filter_cons, decide_False by (simpl; tauto).
  by rewrite not_mem_filter_addr.
Qed.

(** An element that was removed has no successor. *)
Lemma after_absent e (xs : list (nat * A)) : e ∉ xs.*1 → after e xs = None.
Proof.
  induction xs as [|x xs IH]; intros Hni; simpl; [done|].
  rewrite decide_False by set_solver. apply IH. set_solver.
Qed.

Lemma next_of_removed e l : next_of e (gl_remove e l) = None.
Proof.
  apply after_absent. intros (x & -> & Hx)%list_elem_of_fmap.
  by apply list_elem_of_filter in Hx as [? _].
Qed.

Lemma after_split e v (pre suf : list (nat * A)) :
  NoDup (pre ++ (e, v) :: suf).*1 → after e (pre ++ (e, v) :: suf) = head suf.
Proof.
  induction pre as [|x pre IH]; simpl; intros Hnd.
  - by rewrite decide_True.
  - apply NoDup_cons in Hnd as [Hni Hnd].
    rewrite decide_False; [by apply IH|].
    intros <-. apply Hni. rewrite fmap_app. set_solver.
Qed.
Lemma gl_remove_split pre e v suf l :
  gl_wf l → gl_elems l = pre ++ (e, v) :: suf → gl_elems (gl_remove e l) = pre ++ suf.
Proof.
  intros [Hnd _] E. unfold gl_remove; simpl. rewrite E in *. rewrite fmap_app in Hnd. simpl in Hnd.
  apply NoDup_app in Hnd as (_ & Hpre & Hsuf). apply NoDup_cons in Hsuf as [Hsuf _].
  rewrite filter_app, filter_cons, decide_False by (simpl; tauto).
  rewrite !not_mem_filter_addr; [done|done|]. intros Hin. apply (Hpre e Hin). left.
Qed.

End golist.

#[global] Arguments gl_remove {A} e l : simpl never.
#[global] Arguments PushBack {A} v l : simpl never.

#[export] Hint Resolve gl_new_wf PushBack_wf PushBackList_wf gl_remove_wf : golist.
