(* ===== verification/GoString.v ===== *)
(** * Strings of Go's standard library

    The functions of package strings (and of unicode) that the source calls, on
    strings of bytes, with the laws the round trips need. *)
From Stdlib Require Import Ascii.
From S2P Require Import Prelude.

(** Does the byte occur? *)
Fixpoint has_char (sep : ascii) (s : string) : bool :=
  match s with
  | EmptyString => false
  | String c s => if decide (c = sep) then true else has_char sep s
  end.

(** [strings.Split(s, sep)] for a separator of one byte. *)
Fixpoint Split (sep : ascii) (s : string) : list string :=
  match s with
  | EmptyString => [""]
  | String c s =>
      if decide (c = sep) then "" :: Split sep s
      else match Split sep s with
           | [] => [String c ""]
           | x :: xs => String c x :: xs
           end
  end.

(** [strings.Join] *)
Fixpoint Join (sep : string) (l : list string) : string :=
  match l with
  | [] => ""
  | [x] => x
  | x :: xs => x +:+ sep +:+ Join sep xs
  end.

(** The parts before and after the last occurrence: what [strings.LastIndex(s, sep)]
    and the two slices around it give; [None] is the index -1. *)
Fixpoint cut_last (sep : ascii) (s : string) : option (string * string) :=
  match s with
  | EmptyString => None
  | String c s =>
      match cut_last sep s with
      | Some (a, b) => Some (String c a, b)
      | None => if decide (c = sep) then Some ("", s) else None
      end
  end.

(** [unicode.IsUpper] of the first character, for a name that starts with an ASCII
    character. *)
Definition isExported (name : string) : bool :=
  match name with
  | EmptyString => false
  | String c _ => bool_decide (65 ≤ nat_of_ascii c ≤ 90)%nat
  end.

(** [strings.Trim] with one byte to cut off. *)
Fixpoint TrimLeft (c : ascii) (s : string) : string :=
  match s with
  | EmptyString => ""
  | String d s' => if decide (d = c) then TrimLeft c s' else s
  end.
Fixpoint TrimRight (c : ascii) (s : string) : string :=
  match s with
  | EmptyString => ""
  | String d s =>
      match TrimRight c s with
      | EmptyString => if decide (d = c) then "" else String d ""
      | t => String d t
      end
  end.
Definition Trim (c : ascii) (s : string) : string := TrimRight c (TrimLeft c s).

(** [strings.TrimSpace], for ASCII text. *)
Definition is_space (c : ascii) : bool :=
  let n := nat_of_ascii c in bool_decide (9 ≤ n ≤ 13)%nat || bool_decide (n = 32%nat).
Fixpoint TrimLeftSpace (s : string) : string :=
  match s with
  | EmptyString => ""
  | String d s' => if is_space d then TrimLeftSpace s' else s
  end.
Fixpoint TrimRightSpace (s : string) : string :=
  match s with
  | EmptyString => ""
  | String d s =>
      match TrimRightSpace s with
      | EmptyString => if is_space d then "" else String d ""
      | t => String d t
      end
  end.
Definition TrimSpace (s : string) : string := TrimRightSpace (TrimLeftSpace s).

(** [strings.Repeat] *)
Definition copies (s : string) (n : nat) : string := Nat.iter n (String.append s) "".
Definition Repeat (s : string) (count : Z) : outcome string :=
  if decide (count < 0)%Z then Panic (PanicVal "strings: negative Repeat count")
  else Ret (copies s (Z.to_nat count)).

(** ** Laws *)
Lemma string_app_cons c (a b : string) : String c a +:+ b = String c (a +:+ b).
Proof. done. Qed.
Lemma string_app_nil_r (s : string) : s +:+ "" = s.
Proof. induction s as [|c s IH]; [done|]. by rewrite string_app_cons, IH. Qed.
Lemma string_app_assoc (a b c : string) : (a +:+ b) +:+ c = a +:+ (b +:+ c).
Proof. induction a as [|x a IH]; [done|]. by rewrite !string_app_cons, IH. Qed.

Lemma has_char_app sep a b : has_char sep (a +:+ b) = has_char sep a || has_char sep b.
Proof. induction a as [|c a IH]; [done|]. rewrite string_app_cons. simpl. by case_decide. Qed.

Lemma Split_no_sep sep s : has_char sep s = false → Split sep s = [s].
Proof.
  induction s as [|c s IH]; [done|]. simpl. case_decide; [done|]. intros Hs. by rewrite IH.
Qed.

Lemma Split_ne sep s : Split sep s ≠ [].
Proof. destruct s as [|c s]; [done|]. simpl. case_decide; [done|]. by destruct (Split sep s). Qed.

Lemma Split_app sep a b :
  has_char sep a = false → Split sep (a +:+ String sep b) = a :: Split sep b.
Proof.
  induction a as [|c a IH]; [simpl; by rewrite decide_True|]. rewrite string_app_cons. simpl.
  case_decide; [done|].
  intros Ha. by rewrite IH.
Qed.

(** Joining and splitting again. *)
Lemma Split_Join sep (l : list string) :
  l ≠ [] → Forall (λ s, has_char sep s = false) l → Split sep (Join (String sep "") l) = l.
Proof.
  intros Hne Hl. induction Hl as [|x l Hx Hl IH]; [done|]. destruct l as [|y l].
  - by apply Split_no_sep.
  - change (Join (String sep "") (x :: y :: l)) with (x +:+ String sep (Join (String sep "") (y :: l))).
    rewrite Split_app by done. f_equal. by apply IH.
Qed.

Lemma Join_Split sep s : Join (String sep "") (Split sep s) = s.
Proof.
  induction s as [|c s IH]; [done|]. simpl. pose proof (Split_ne sep s) as Hne. case_decide as Hc.
  - subst. destruct (Split sep s) as [|x xs]; [done|].
    change (Join (String sep "") ("" :: x :: xs)) with (String sep (Join (String sep "") (x :: xs))).
    by rewrite IH.
  - destruct (Split sep s) as [|x [|y ys]]; [done|simpl in *; by rewrite IH|].
    change (String c (Join (String sep "") (x :: y :: ys)) = String c s). f_equal. exact IH.
Qed.

Lemma Split_parts sep s : Forall (λ p, has_char sep p = false) (Split sep s).
Proof.
  induction s as [|c s IH]; simpl; [by repeat constructor|]. case_decide as Hc; [by constructor|].
  destruct (Split sep s) as [|x xs]; [constructor; [simpl; by rewrite decide_False|constructor]|].
  apply Forall_cons in IH as [Hx Hxs]. constructor; [|done]. simpl. by rewrite decide_False.
Qed.

Lemma cut_last_none sep s : cut_last sep s = None ↔ has_char sep s = false.
Proof.
  induction s as [|c s IH]; simpl; [done|].
  destruct (cut_last sep s) as [[a b]|] eqn:E; repeat case_decide; split; try done.
  - intros Hs. apply IH in Hs. done.
  - intros _. by apply IH.
Qed.

Lemma cut_last_app sep a b : has_char sep b = false → cut_last sep (a +:+ String sep b) = Some (a, b).
Proof.
  intros Hb. induction a as [|c a IH].
  - change ("" +:+ String sep b) with (String sep b). simpl.
    apply cut_last_none in Hb. rewrite Hb. by rewrite decide_True.
  - rewrite string_app_cons. simpl. by rewrite IH.
Qed.

Lemma cut_last_Some sep s a b :
  cut_last sep s = Some (a, b) → s = a +:+ String sep b ∧ has_char sep b = false.
Proof.
  revert a. induction s as [|c s IH]; intros a; simpl; [done|].
  destruct (cut_last sep s) as [[a' b']|] eqn:E.
  - intros [= <- <-]. destruct (IH _ eq_refl) as [-> ?]. done.
  - case_decide; [|done]. intros [= <- <-]. subst. split; [done|]. by apply cut_last_none.
Qed.

(** *** Cutting off and repeating *)

(** Is there nothing but that byte? *)
Fixpoint only (c : ascii) (s : string) : bool :=
  match s with EmptyString => true | String d s => bool_decide (d = c) && only c s end.

Lemma only_app c a b : only c (a +:+ b) = only c a && only c b.
Proof. induction a as [|d a IH]; [done|]. rewrite string_app_cons. simpl. by rewrite IH, andb_assoc. Qed.
Lemma TrimRight_empty c s : TrimRight c s = "" ↔ only c s = true.
Proof.
  induction s as [|d s IH]; [done|]. simpl. rewrite andb_true_iff, bool_decide_eq_true, <- IH.
  destruct (TrimRight c s); [case_decide; naive_solver|naive_solver].
Qed.
Lemma Trim_empty c s : Trim c s = "" ↔ only c s = true.
Proof.
  unfold Trim. rewrite TrimRight_empty. induction s as [|d s IH]; [done|]. simpl. case_decide as Hd.
  - by rewrite (bool_decide_true (d = c)).
  - simpl. by rewrite (bool_decide_false (d = c)).
Qed.

Lemma copies_add s m n : copies s (m + n) = copies s m +:+ copies s n.
Proof. induction m as [|m IH]; [done|]. simpl. by rewrite IH, string_app_assoc. Qed.
Lemma copies_no_char c s n : has_char c s = false → has_char c (copies s n) = false.
Proof. intros Hs. induction n as [|n IH]; [done|]. simpl. by rewrite has_char_app, Hs. Qed.

(** *** Lines *)
Definition nl : ascii := "010".
Definition unlines (ls : list string) : string := foldr (λ l s, l +:+ String nl s) "" ls.

Lemma unlines_app a b : unlines (a ++ b) = unlines a +:+ unlines b.
Proof. induction a as [|l a IH]; [done|]. simpl. by rewrite IH, string_app_assoc. Qed.
Lemma Split_unlines ls :
  Forall (λ l, has_char nl l = false) ls → Split nl (unlines ls) = ls ++ [""].
Proof. induction 1 as [|l ls Hl _ IH]; [done|]. simpl. by rewrite Split_app, IH. Qed.
