(* ===== verification/Logging.v ===== *)
(** * hLog: the loggers

    common.go: the functions that write a line, as what they are in the library that
    writes it (op/go-logging), and the backends that InitLogger installs. *)
From S2P Require Import Prelude.

Module hLog.

(** The library's levels: 0 to 5, from critical to debug. *)
Definition CRITICAL : Z := 0.
Definition ERROR : Z := 1.
Definition WARNING : Z := 2.
Definition NOTICE : Z := 3.
Definition INFO : Z := 4.
Definition DEBUG : Z := 5.

(** The methods of the library's logger, and how a call ends after the line is written. *)
Inductive method :=
| LDebug | LDebugf | LInfo | LInfof | LNotice | LNoticef | LWarning | LWarningf | LError | LErrorf
| LCritical | LCriticalf | LFatal | LFatalf | LPanic | LPanicf.
Inductive ending := Returns | Exits | Panics.

(** The variables of the package. *)
Inductive entry :=
| Debug | Debugf | Info | Infof | Notice | Noticef | Warn | Warnf | Error | Errorf
| Critical | Criticalf | Fatal | Fatalf | Panic | Panicf.
Definition entry_method (e : entry) : method :=
  match e with
  | Debug => LDebug
  | Debugf => LDebugf
  | Info => LInfo
  | Infof => LInfof
  | Notice => LNotice
  | Noticef => LNoticef
  | Warn => LWarning
  | Warnf => LWarningf
  | Error => LError
  | Errorf => LErrorf
  | Critical => LError
  | Criticalf => LCriticalf
  | Fatal => LFatal
  | Fatalf => LFatalf
  | Panic => LPanic
  | Panicf => LPanicf
  end.

(** lumberjack.Logger, and the process's standard output. *)
Inductive sink :=
| Lumberjack (Filename : string) (MaxSize : Z) (Compress : bool) (MaxAge MaxBackups : Z) (LocalTime : bool)
| Stdout.

(** At which level the methods write, and how they end. *)
Definition documented_level (m : method) : Z :=
  match m with
  | LDebug | LDebugf => DEBUG
  | LInfo | LInfof => INFO
  | LNotice | LNoticef => NOTICE
  | LWarning | LWarningf => WARNING
  | LError | LErrorf => ERROR
  | LCritical | LCriticalf | LFatal | LFatalf | LPanic | LPanicf => CRITICAL
  end.
Definition documented_ending (m : method) : ending :=
  match m with LFatal | LFatalf => Exits | LPanic | LPanicf => Panics | _ => Returns end.

(** What the source asks of the library, with what its documentation promises: where a
    line of a level goes, and how the methods end. *)
Class GoLogging (B : Type) := {
  NewLogBackend : sink → B;
  NewBackendFormatter : B → B;
  AddModuleLevel : B → B;
  SetLevel : Z → B → B;
  SetBackend : list B → B;
  writes : B → Z → list sink;
  method_level : method → Z;
  method_ending : method → ending;
  writes_backend s lv : (0 ≤ lv ≤ 5)%Z → writes (NewLogBackend s) lv = [s];
  writes_formatter b lv : writes (NewBackendFormatter b) lv = writes b lv;
  writes_level b l lv : writes (SetLevel l (AddModuleLevel b)) lv = if decide (lv ≤ l)%Z then writes b lv else [];
  writes_all bs lv : writes (SetBackend bs) lv = bs ≫= λ b, writes b lv;
  level_of m : method_level m = documented_level m;
  ending_of m : method_ending m = documented_ending m }.

Section hlog.
Context `{GoLogging B}.

Definition log_file (fileName : string) (fileSize fileMax : Z) : sink :=
  Lumberjack ("./logs/" +:+ fileName +:+ ".log") fileSize true 7 fileMax true.
Definition error_file (fileName : string) (fileSize fileMax : Z) : sink :=
  Lumberjack ("./logs/" +:+ fileName +:+ "-error.log") fileSize false 7 fileMax true.

(** [InitLogger]: the backend of the process afterwards. *)
Definition InitLogger (fileName : string) (fileSize fileMax logLv : Z) (LogConsolePrint : bool) : B :=
  let backendFile := NewLogBackend (log_file fileName fileSize fileMax) in
  let backendFileErr := NewLogBackend (error_file fileName fileSize fileMax) in
  let backendFileFormatter := NewBackendFormatter backendFile in
  let backendFileErrFormatter := NewBackendFormatter backendFileErr in
  let backendFileLeveled := SetLevel logLv (AddModuleLevel backendFileFormatter) in
  let backendFileErrLeveled := SetLevel ERROR (AddModuleLevel backendFileErrFormatter) in
  let backend2 :=
    if LogConsolePrint then let backend2 := NewLogBackend Stdout in Some (NewBackendFormatter backend2) else None in
  match backend2 with
  | None => SetBackend [backendFileLeveled; backendFileErrLeveled]
  | Some backend2Formatter => SetBackend [backendFileLeveled; backendFileErrLeveled; backend2Formatter]
  end.

(** A call of one of the functions: where its line goes, and how it ends. *)
Definition hlog (backend : B) (e : entry) : list sink * ending :=
  (writes backend (method_level (entry_method e)), method_ending (entry_method e)).

(** Where the lines of each level go: to the node's file when the configured level lets
    them, from ERROR upwards to the file of errors whatever that level is, and to the
    console whenever it is asked for. *)
Lemma hlog_written name size max lv console e :
  let l := method_level (entry_method e) in
  hlog (InitLogger name size max lv console) e =
    ((if decide (l ≤ lv)%Z then [log_file name size max] else []) ++
     (if decide (l ≤ ERROR)%Z then [error_file name size max] else []) ++
     (if console then [Stdout] else []), method_ending (entry_method e)).
Proof.
  intros l. assert (0 ≤ l ≤ 5)%Z as Hl by (unfold l; rewrite level_of; by destruct e).
  unfold hlog. f_equal. fold l. unfold InitLogger.
  destruct console; rewrite writes_all; csimpl; rewrite !writes_level, !writes_formatter, !writes_backend by done;
    rewrite ?app_nil_r; done.
Qed.

(** At the level 0 a node's file has the lines of [Criticalf], [Fatal] and [Panic] and not
    those of [Critical], which are written as errors; the file of errors has them all. A
    call of [Fatal] ends the process: the panic that the launcher has behind it is never
    reached. *)
Lemma critical_is_error name size max console :
  let b := InitLogger name size max CRITICAL console in
  hlog b Critical = hlog b Error ∧ log_file name size max ∉ (hlog b Critical).1 ∧
  (∀ e, e ∈ [Criticalf; Fatal; Fatalf; Panic; Panicf] →
     log_file name size max ∈ (hlog b e).1 ∧ error_file name size max ∈ (hlog b e).1) ∧
  (hlog b Fatal).2 = Exits.
Proof.
  intros b. unfold b. rewrite !hlog_written, !level_of, !ending_of. split; [done|]. split.
  - simpl. destruct console; rewrite ?not_elem_of_cons; split_and?; try done; apply not_elem_of_nil.
  - split; [|done]. intros e He. rewrite hlog_written, !level_of.
    repeat (apply elem_of_cons in He as [->|He]; [simpl; split; [by left|right; by left]|]).
    by apply elem_of_nil in He.
Qed.
End hlog.

(** The library as a function from levels to sinks. *)
#[export] Instance levels_logging : GoLogging (Z → list sink).
Proof.
  refine {|
    NewLogBackend s _ := [s];
    NewBackendFormatter b := b;
    AddModuleLevel b := b;
    SetLevel l b lv := if decide (lv ≤ l)%Z then b lv else [];
    SetBackend bs lv := bs ≫= λ b, b lv;
    writes b lv := b lv;
    method_level := documented_level;
    method_ending := documented_ending |}; done.
Defined.

Example debug_lines : (hlog (B := Z → list sink) (InitLogger "gate" 10 10 INFO true) Debug).1 = [Stdout].
Proof. reflexivity. Qed.
End hLog.
