(* ===== verification/GoReflect.v ===== *)
(** * Types and methods, as package reflect shows them

    What the registration of RPC services and of message handlers looks at. *)
From S2P Require Import Prelude GoString.

Inductive kind := KMap | KSlice | KOther.
Inductive gotype :=
| TPtr (elem : gotype)
| TType (pkg name : string) (k : kind).

#[global] Instance kind_eq_dec : EqDecision kind.
Proof. solve_decision. Defined.
#[global] Instance gotype_eq_dec : EqDecision gotype.
Proof. solve_decision. Defined.

Definition type_name (t : gotype) : string := match t with TPtr _ => "" | TType _ n _ => n end.
Definition is_ptr (t : gotype) : bool := match t with TPtr _ => true | _ => false end.

(** [reflect.Method]; the first of [rm_In] is the receiver. *)
Record rmethod := mkRMethod {
  rm_Name : string;
  rm_PkgPath : string;
  rm_In : list gotype;
  rm_Out : list gotype }.

Fixpoint isExportedOrBuiltinType (t : gotype) : bool :=
  match t with
  | TPtr t => isExportedOrBuiltinType t
  | TType pkg name _ => isExported name || bool_decide (pkg = "")
  end.

(** Types are keys of maps. *)
Fixpoint gotype_tree (t : gotype) : gen_tree (string * string * nat) :=
  match t with
  | TPtr t => GenNode 0 [gotype_tree t]
  | TType pkg name k => GenLeaf (pkg, name, match k with KMap => 0 | KSlice => 1 | KOther => 2 end)
  end.
Fixpoint tree_gotype (t : gen_tree (string * string * nat)) : option gotype :=
  match t with
  | GenNode 0 [t] => TPtr <$> tree_gotype t
  | GenLeaf (pkg, name, k) => Some (TType pkg name (match k with 0 => KMap | 1 => KSlice | _ => KOther end))
  | _ => None
  end.
#[global] Instance gotype_countable : Countable gotype.
Proof.
  apply (inj_countable gotype_tree tree_gotype). intros t.
  induction t as [t IH|pkg name []]; simpl; [by rewrite IH|done..].
Defined.
