(* ===== verification/Utils.v ===== *)
(** * Utils: deep copies and procedures (hCommon/utils.go, try.go)

    [Copy] over a heap of pointers, arrays of slices and maps, with the theorem
    that it returns a copy that shares nothing with the original; [When], [Try]
    and [StartProcedure] as programs; [FormatMem]. *)
From S2P Require Import Prelude.
From stdpp Require Import pretty.

(** ** Values and memory *)
Inductive basic :=
| BBool (b : bool)
| BInt (z : Z)
| BString (s : string)
| BRef (l : option nat).   (* a function or a channel *)
#[global] Instance basic_eq_dec : EqDecision basic.
Proof. solve_decision. Defined.

(** A value, by its kind; a field of a struct says whether it is exported, a slice
    is its array's address, the offset, the length and the capacity. *)
Inductive value :=
| VBasic (b : basic)
| VArray (l : list value)
| VPtr (l : option nat)
| VIface (v : option value)
| VTime (t : Z)
| VStruct (fields : list (bool * value))
| VSlice (s : option (nat * nat * nat * nat))
| VMap (l : option nat).

Inductive object :=
| OVal (v : value)
| OArr (l : list value)
| OMap (es : list (value * value)).
Abbreviation heap := (gmap nat object).

Definition zero_basic (b : basic) : basic :=
  match b with BBool _ => BBool false | BInt _ => BInt 0 | BString _ => BString "" | BRef _ => BRef None end.
(** The zero value of the type of a value. *)
Fixpoint zero_of (v : value) : value :=
  match v with
  | VBasic b => VBasic (zero_basic b)
  | VArray l => VArray (zero_of <$> l)
  | VPtr _ => VPtr None
  | VIface _ => VIface None
  | VTime _ => VTime 0
  | VStruct fields => VStruct ((λ f, (f.1, zero_of f.2)) <$> fields)
  | VSlice _ => VSlice None
  | VMap _ => VMap None
  end.

(** Go's [==] on the kinds that can be keys. *)
Fixpoint go_eqb (a b : value) : bool :=
  match a, b with
  | VBasic x, VBasic y => bool_decide (x = y)
  | VPtr x, VPtr y => bool_decide (x = y)
  | VMap x, VMap y => bool_decide (x = y)
  | VTime x, VTime y => bool_decide (x = y)
  | VIface None, VIface None => true
  | VIface (Some x), VIface (Some y) => go_eqb x y
  | VArray xs, VArray ys =>
      (fix go xs ys := match xs, ys with
                       | [], [] => true
                       | x :: xs, y :: ys => go_eqb x y && go xs ys
                       | _, _ => false
                       end) xs ys
  | VStruct xs, VStruct ys =>
      (fix go xs ys := match xs, ys with
                       | [], [] => true
                       | x :: xs, y :: ys => go_eqb x.2 y.2 && go xs ys
                       | _, _ => false
                       end) xs ys
  | _, _ => false
  end.
(** [SetMapIndex] *)
Fixpoint set_index (k v : value) (es : list (value * value)) : list (value * value) :=
  match es with
  | [] => [(k, v)]
  | e :: es => if go_eqb e.1 k then (e.1, v) :: es else e :: set_index k v es
  end.

Definition alloc (o : object) : prog heap nat := λ h,
  let l := fresh (dom h) in (<[l:=o]> h, Ret l).

(** ** Copy

    The values with a method [DeepCopy] are copied by it. A new object is entered
    in memory when what it holds is known: nothing refers to it before. *)
Section copy.
Context (DeepCopy : value → option (prog heap value)).

(** [src.Interface().(Interface)]: of an interface, its dynamic value. *)
Definition copier (src : value) : option (prog heap value) :=
  match src with
  | VIface None => None
  | VIface (Some v) => (λ m, m ≫= λ v', mret (VIface (Some v'))) <$> DeepCopy v
  | v => DeepCopy v
  end.

(** The entries of a map: the value, then the key, by [Copy(key.Interface())]. *)
Definition copy_key (rec : value → prog heap value) (k : value) : prog heap value :=
  match k with
  | VIface None => panicking (PanicVal "reflect: call of reflect.Value.SetMapIndex on zero Value")
  | VIface (Some d) => rec d ≫= λ d', mret (VIface (Some d'))
  | _ => rec k
  end.
Fixpoint copy_entries (rec : value → prog heap value) (es acc : list (value * value))
  : prog heap (list (value * value)) :=
  match es with
  | [] => mret acc
  | e :: es =>
      rec e.2 ≫= λ v', copy_key rec e.1 ≫= λ k', copy_entries rec es (set_index k' v' acc)
  end.

Definition view (arr : list value) (off len : nat) : list value := take len (drop off arr).

Fixpoint copyRecursive (fuel : nat) (src : value) : prog heap value :=
  match fuel with
  | O => stuck
  | S fuel =>
      match copier src with
      | Some m => m
      | None =>
          match src with
          | VPtr None | VIface None | VSlice None | VMap None => mret src
          | VPtr (Some l) =>
              get_state ≫= λ h,
              match h !! l with
              | Some (OVal v) =>
                  copyRecursive fuel v ≫= λ v', alloc (OVal v') ≫= λ l', mret (VPtr (Some l'))
              | _ => panicking NilDereference
              end
          | VIface (Some v) => copyRecursive fuel v ≫= λ v', mret (VIface (Some v'))
          | VTime t => mret (VTime t)
          | VStruct fields =>
              mapM (λ f : bool * value,
                if f.1 then copyRecursive fuel f.2 ≫= λ v', mret (true, v')
                else mret (false, zero_of f.2)) fields ≫= λ fields',
              mret (VStruct fields')
          | VSlice (Some (l, off, len, cap)) =>
              get_state ≫= λ h,
              match h !! l with
              | Some (OArr arr) =>
                  mapM (copyRecursive fuel) (view arr off len) ≫= λ vs,
                  alloc (OArr (vs ++ (zero_of <$> view arr (off + len) (cap - len)))) ≫= λ l',
                  mret (VSlice (Some (l', 0, len, cap)))
              | _ => panicking NilDereference
              end
          | VMap (Some l) =>
              get_state ≫= λ h,
              match h !! l with
              | Some (OMap es) =>
                  copy_entries (copyRecursive fuel) es [] ≫= λ es',
                  alloc (OMap es') ≫= λ l', mret (VMap (Some l'))
              | _ => panicking NilDereference
              end
          | VBasic _ | VArray _ => mret src
          end
      end
  end.

(** [Copy] of an interface. *)
Definition Copy (fuel : nat) (src : option value) : prog heap (option value) :=
  match src with
  | None => mret None
  | Some v => copyRecursive fuel v ≫= λ v', mret (Some v')
  end.
End copy.

(** ** The copy is deep *)
Section deep.
Context (DeepCopy : value → option (prog heap value)).

(** [finite h n v]: following its pointers, slices and maps, the value ends after
    fewer than [n] steps, or at a value whose [DeepCopy] returns and leaves the memory
    as it was; the keys of its maps are basic, without [DeepCopy], and distinct. *)
Fixpoint finite (h : heap) (n : nat) (v : value) : Prop :=
  match n with
  | O => False
  | S n =>
      match copier DeepCopy v with
      | Some m => ∀ h1, h ⊆ h1 → ∃ h2 v', m h1 = (h2, Ret v') ∧ h1 ⊆ h2
      | None =>
      match v with
      | VPtr (Some l) => ∃ v, h !! l = Some (OVal v) ∧ finite h n v
      | VIface (Some v) => finite h n v
      | VStruct fields => Forall (λ f : bool * value, f.1 = true → finite h n f.2) fields
      | VSlice (Some (l, off, len, cap)) =>
          ∃ arr, h !! l = Some (OArr arr) ∧ Forall (finite h n) (view arr off len)
      | VMap (Some l) =>
          ∃ es, h !! l = Some (OMap es) ∧ NoDup es.*1 ∧
            Forall (λ e : value * value, (∃ b, e.1 = VBasic b ∧ DeepCopy (VBasic b) = None) ∧ finite h n e.2) es
      | _ => True
      end
      end
  end.

(** [copied h0 h' n v v']: in the memory [h'] the value [v'] is what [v] is in [h0],
    down to depth [n], at addresses [h0] does not have; of a value with a [DeepCopy] it
    is what that method answered. *)
Fixpoint copied (h0 h' : heap) (n : nat) (v v' : value) : Prop :=
  match n with
  | O => False
  | S n =>
      match copier DeepCopy v with
      | Some m => ∃ h1 h2, h0 ⊆ h1 ∧ m h1 = (h2, Ret v')
      | None =>
      match v, v' with
      | VPtr (Some l), VPtr (Some l') =>
          l' ∉ dom h0 ∧ ∃ x x', h0 !! l = Some (OVal x) ∧ h' !! l' = Some (OVal x') ∧ copied h0 h' n x x'
      | VIface (Some x), VIface (Some x') => copied h0 h' n x x'
      | VStruct fields, VStruct fields' =>
          Forall2 (λ f f' : bool * value, f'.1 = f.1 ∧ if f.1 then copied h0 h' n f.2 f'.2 else f'.2 = zero_of f.2) fields fields'
      | VSlice (Some (l, off, len, cap)), VSlice (Some (l', off', len', cap')) =>
          l' ∉ dom h0 ∧ off' = 0 ∧ len' = len ∧ cap' = cap ∧
          ∃ arr arr', h0 !! l = Some (OArr arr) ∧ h' !! l' = Some (OArr arr') ∧
            Forall2 (copied h0 h' n) (view arr off len) (view arr' 0 (length (view arr off len)))
      | VMap (Some l), VMap (Some l') =>
          l' ∉ dom h0 ∧ ∃ es es', h0 !! l = Some (OMap es) ∧ h' !! l' = Some (OMap es') ∧
            Forall2 (λ e e' : value * value, e'.1 = e.1 ∧ copied h0 h' n e.2 e'.2) es es'
      | VPtr (Some _), _ | VIface (Some _), _ | VStruct _, _ | VSlice (Some _), _ | VMap (Some _), _ => False
      | _, _ => v' = v
      end
      end
  end.

Lemma copied_mono h0 h1 h2 n v v' :
  (∀ l, l ∉ dom h0 → l ∈ dom h1 → h2 !! l = h1 !! l) → copied h0 h1 n v v' → copied h0 h2 n v v'.
Proof.
  intros Hh. revert v v'. induction n as [|n IH]; [done|]. intros v v' Hc.
  assert (∀ l o, l ∉ dom h0 → h1 !! l = Some o → h2 !! l = Some o) as Hl.
  { intros l o Hl Ho. rewrite Hh; [done|done|]. by apply elem_of_dom_2 in Ho. }
  simpl in Hc |- *. destruct (copier DeepCopy v); [done|].
  destruct v as [b|l|[l|]|[x|]|t|fs|[[[[l off] len] cap]|]|[l|]]; destruct v' as [| |[l'|]|[x'|]| |fs'|[[[[l' off'] len'] cap']|]|[l'|]];
    simpl in *; try done.
  - destruct Hc as (Hf & x & x' & E & E' & Hx). split; [done|]. exists x, x'. eauto.
  - by apply IH.
  - eapply Forall2_impl; [exact Hc|]. intros f f' [E Hf]. split; [done|]. destruct f.1; auto.
  - destruct Hc as (Hf & -> & -> & -> & arr & arr' & E & E' & Hx). split; [done|]. do 3 (split; [done|]).
    exists arr, arr'. split; [done|]. split; [auto|]. eapply Forall2_impl; [exact Hx|]. auto.
  - destruct Hc as (Hf & es & es' & E & E' & Hx). split; [done|]. exists es, es'.
    split; [done|]. split; [auto|]. eapply Forall2_impl; [exact Hx|]. intros e e' [? ?]. auto.
Qed.

(** What a copying program does to one value, from any later memory. *)
Definition copies (h0 : heap) (n : nat) (v : value) (m : prog heap value) : Prop :=
  ∀ h, h0 ⊆ h → ∃ h' v', m h = (h', Ret v') ∧ h ⊆ h' ∧ copied h0 h' n v v'.

Lemma copied_later h0 h1 h2 n v v' : h1 ⊆ h2 → copied h0 h1 n v v' → copied h0 h2 n v v'.
Proof.
  intros Hs. apply copied_mono. intros l _ [o Ho]%elem_of_dom. rewrite Ho. by eapply lookup_weaken.
Qed.

Lemma alloc_run h o : ∃ l, alloc o h = (<[l:=o]> h, Ret l) ∧ l ∉ dom h ∧ h ⊆ <[l:=o]> h.
Proof.
  exists (fresh (dom h)). split; [done|]. pose proof (is_fresh (dom h)) as Hf. split; [done|].
  apply insert_subseteq. by apply not_elem_of_dom.
Qed.

(** Copying the elements of a list one after the other. *)
Lemma mapM_copies {A B} (rec : A → prog heap B) (R : heap → A → B → Prop) h0 (l : list A) :
  (∀ h1 h2 a b, h1 ⊆ h2 → R h1 a b → R h2 a b) →
  (∀ a, a ∈ l → ∀ h, h0 ⊆ h → ∃ h' b, rec a h = (h', Ret b) ∧ h ⊆ h' ∧ R h' a b) →
  ∀ h, h0 ⊆ h → ∃ h' l', mapM rec l h = (h', Ret l') ∧ h ⊆ h' ∧ Forall2 (R h') l l'.
Proof.
  intros Hm. induction l as [|a l IH]; intros Hl h Hh; simpl.
  - exists h, []. split; [done|]. split; [done|constructor].
  - destruct (Hl a (list_elem_of_here _ _) h Hh) as (h1 & b & E1 & Hs1 & Hb).
    destruct (IH (λ x Hx, Hl x (list_elem_of_further _ _ _ Hx)) h1) as (h2 & l' & E2 & Hs2 & Hl').
    { by etrans. }
    rewrite (bind_Ret _ _ _ _ _ E1), (bind_Ret _ _ _ _ _ E2).
    exists h2, (b :: l'). split; [done|]. split; [by etrans|]. constructor; [by eapply Hm|done].
Qed.

Lemma set_index_new b v acc :
  Forall (λ e : value * value, ∃ x, e.1 = VBasic x) acc → VBasic b ∉ acc.*1 →
  set_index (VBasic b) v acc = acc ++ [(VBasic b, v)].
Proof.
  induction acc as [|e acc IH]; [done|]. intros [[x Ex] Hf]%Forall_cons Hn. simpl.
  rewrite Ex. simpl. rewrite bool_decide_eq_false_2; [|intros ->; apply Hn; simpl; rewrite Ex; left].
  f_equal. apply IH; [done|]. intros Hin. apply Hn. by right.
Qed.

Lemma copy_entries_copies rec h0 n es : 
  NoDup es.*1 → Forall (λ e : value * value, (∃ b, e.1 = VBasic b ∧ ∀ h, rec (VBasic b) h = (h, Ret (VBasic b))) ∧ copies h0 n e.2 (rec e.2)) es →
  ∀ acc h, h0 ⊆ h → Forall (λ e : value * value, ∃ x, e.1 = VBasic x) acc →
    (∀ k, k ∈ acc.*1 → k ∉ es.*1) →
  ∃ h' es', copy_entries rec es acc h = (h', Ret (acc ++ es')) ∧ h ⊆ h' ∧
    Forall2 (λ e e' : value * value, e'.1 = e.1 ∧ copied h0 h' n e.2 e'.2) es es'.
Proof.
  induction es as [|[k v] es IH]; intros Hnd Hes acc h Hh Hacc Hdis; simpl.
  - exists h, []. rewrite app_nil_r. split; [done|]. split; [done|constructor].
  - apply Forall_cons in Hes as [[(b & Eb & Hkey) Hv] Hes]. simpl in Eb, Hv. subst k.
    apply NoDup_cons in Hnd as [Hk Hnd]. destruct (Hv h Hh) as (h1 & v' & E1 & Hs1 & Hc1).
    rewrite (bind_Ret _ _ _ _ _ E1), (bind_Ret (copy_key rec (VBasic b)) _ h1 h1 _ (Hkey h1)).
    rewrite (set_index_new b v' acc Hacc) by (intros Hin; by apply (Hdis _ Hin); left).
    destruct (IH Hnd Hes (acc ++ [(VBasic b, v')]) h1) as (h2 & es' & E2 & Hs2 & Hc2).
    + by etrans.
    + apply Forall_app. split; [done|]. constructor; [by exists b|constructor].
    + intros k Hin. rewrite fmap_app in Hin. apply elem_of_app in Hin as [Hin|Hin].
      * intros Hin'. apply (Hdis k Hin). by right.
      * apply list_elem_of_singleton in Hin as ->. done.
    + rewrite E2, <- app_assoc. exists h2, ((VBasic b, v') :: es'). split; [done|]. split; [by etrans|].
      constructor; [|done]. split; [done|]. by eapply copied_later.
Qed.

Lemma copyRecursive_copies n v h0 : finite h0 n v → copies h0 n v (copyRecursive DeepCopy n v).
Proof.
  revert v. induction n as [|n IH]; intros v Hf h Hh; [done|].
  assert (∀ l o, h0 !! l = Some o → h !! l = Some o) as Hl by (intros; by eapply lookup_weaken).
  assert (∀ l, l ∉ dom h → l ∉ dom h0) as Hd.
  { intros l Hn Hin. apply Hn. by apply (subseteq_dom _ _ Hh). }
  cbn [finite copyRecursive copied] in Hf |- *.
  destruct (copier DeepCopy v) as [m|] eqn:Ek.
  { destruct (Hf h Hh) as (h2 & v' & E & Hs). exists h2, v'. split; [done|]. split; [done|]. by exists h, h2. }
  destruct v as [b|l|[l|]|[x|]|t|fs|[[[[l off] len] cap]|]|[l|]]; simpl in Hf |- *;
    try (by eexists h, _; split; [reflexivity|]).
  - destruct Hf as (x & Ex & Hx). rewrite (bind_Ret get_state _ h h h eq_refl), (Hl _ _ Ex).
    destruct (IH x Hx h Hh) as (h1 & x' & E1 & Hs1 & Hc). rewrite (bind_Ret _ _ _ _ _ E1).
    destruct (alloc_run h1 (OVal x')) as (l' & Ea & Hn & Hs2). rewrite (bind_Ret _ _ _ _ _ Ea).
    eexists _, _. split; [reflexivity|]. split; [by etrans|]. split.
    { apply Hd. intros Hin. apply Hn. by apply (subseteq_dom _ _ Hs1). }
    exists x, x'. split; [done|]. rewrite lookup_insert_eq. split; [done|]. by eapply copied_later.
  - destruct (IH x Hf h Hh) as (h1 & x' & E1 & Hs1 & Hc). rewrite (bind_Ret _ _ _ _ _ E1).
    by eexists _, _.
  - edestruct (mapM_copies (λ f : bool * value,
        if f.1 then copyRecursive DeepCopy n f.2 ≫= λ v', mret (true, v') else mret (false, zero_of f.2))
      (λ h' f f', f'.1 = f.1 ∧ if f.1 then copied h0 h' n f.2 f'.2 else f'.2 = zero_of f.2) h0 fs)
      as (h1 & fs' & E1 & Hs1 & Hc); [| |exact Hh|].
    + intros h1 h2 a b Hs [Ea Hb]. split; [done|]. destruct a.1; [by eapply copied_later|done].
    + intros [e x] Hin h2 Hh2. rewrite Forall_forall in Hf. specialize (Hf _ Hin). simpl in *.
      destruct e.
      * destruct (IH x (Hf eq_refl) h2 Hh2) as (h3 & x' & E3 & Hs3 & Hc3). rewrite (bind_Ret _ _ _ _ _ E3).
        eexists h3, _. split; [reflexivity|]. by split.
      * eexists h2, _. split; [reflexivity|]. by split.
    + rewrite (bind_Ret _ _ _ _ _ E1). by eexists _, _.
  - destruct Hf as (arr & Ea & Hv). rewrite (bind_Ret get_state _ h h h eq_refl), (Hl _ _ Ea).
    edestruct (mapM_copies (copyRecursive DeepCopy n) (λ h', copied h0 h' n) h0 (view arr off len))
      as (h1 & vs & E1 & Hs1 & Hc); [| |exact Hh|].
    + intros h1 h2 a b Hs Hb. by eapply copied_later.
    + intros a Hin. rewrite Forall_forall in Hv. apply IH, Hv, Hin.
    + rewrite (bind_Ret _ _ _ _ _ E1).
      destruct (alloc_run h1 (OArr (vs ++ (zero_of <$> view arr (off + len) (cap - len))))) as (l' & Eal & Hn & Hs2).
      rewrite (bind_Ret _ _ _ _ _ Eal). eexists _, _. split; [reflexivity|]. split; [by etrans|]. split.
      { apply Hd. intros Hin. apply Hn. by apply (subseteq_dom _ _ Hs1). }
      do 3 (split; [done|]). eexists arr, _. split; [done|]. rewrite lookup_insert_eq. split; [done|].
      assert (∀ tl, view (vs ++ tl) 0 (length (view arr off len)) = vs) as ->.
      { intros tl. rewrite (Forall2_length _ _ _ Hc). unfold view. rewrite drop_0. apply take_app_length. }
      eapply Forall2_impl; [exact Hc|]. intros a b Hab. by eapply copied_later.
  - destruct Hf as (es & Ee & Hnd & Hes). rewrite (bind_Ret get_state _ h h h eq_refl), (Hl _ _ Ee).
    destruct (decide (es = [])) as [->|Hne].
    + simpl. rewrite (bind_Ret (mret []) _ h h [] eq_refl).
      destruct (alloc_run h (OMap [])) as (l' & Eal & Hn & Hs2). rewrite (bind_Ret _ _ _ _ _ Eal).
      eexists _, _. split; [reflexivity|]. split; [done|]. split; [by apply Hd|].
      exists [], []. rewrite lookup_insert_eq. split; [done|]. split; [done|constructor].
    + destruct n as [|n].
      { destruct es as [|e es]; [done|]. apply Forall_cons in Hes as [[_ []] _]. }
      destruct (copy_entries_copies (copyRecursive DeepCopy (S n)) h0 (S n) es Hnd) with (acc := @nil (value * value)) (h := h)
        as (h1 & es' & E1 & Hs1 & Hc); [|done|constructor|by intros k Hk%elem_of_nil|].
      * eapply Forall_impl; [exact Hes|]. intros e [(b & Eb & Hb) Hv]. split; [|by apply IH].
        exists b. split; [done|]. intros h2. simpl. by rewrite Hb.
      * simpl app in E1. rewrite (bind_Ret _ _ _ _ _ E1).
        destruct (alloc_run h1 (OMap es')) as (l' & Eal & Hn & Hs2). rewrite (bind_Ret _ _ _ _ _ Eal).
        eexists _, _. split; [reflexivity|]. split; [by etrans|]. split.
        { apply Hd. intros Hin. apply Hn. by apply (subseteq_dom _ _ Hs1). }
        exists es, es'. split; [done|]. rewrite lookup_insert_eq. split; [done|].
        eapply Forall2_impl; [exact Hc|]. intros a b [Ea Hab]. split; [done|]. by eapply copied_later.
Qed.

(** ** Values that do not end *)

(** What a value holds and the copy goes into. *)
Inductive child (h : heap) : value → value → Prop :=
| child_ptr l v : h !! l = Some (OVal v) → child h (VPtr (Some l)) v
| child_iface v : child h (VIface (Some v)) v
| child_field fs v : (true, v) ∈ fs → child h (VStruct fs) v
| child_elem l off len cap arr v : h !! l = Some (OArr arr) → v ∈ view arr off len →
    child h (VSlice (Some (l, off, len, cap))) v
| child_entry l es k v : h !! l = Some (OMap es) → (k, v) ∈ es → child h (VMap (Some l)) v.

(** Values of [P] lead from one to another for ever: a cycle of any length, through
    pointers, interfaces, structs, slices and maps. *)
Definition endless (h : heap) (P : value → Prop) : Prop :=
  ∀ v, P v → copier DeepCopy v = None ∧ ∃ u, child h v u ∧ P u.

(** Programs that leave the memory there is as it is. *)
Definition grows {A} (m : prog heap A) : Prop := ∀ h, h ⊆ (m h).1.

Lemma grows_bind {A B} (m : prog heap A) (f : A → prog heap B) :
  grows m → (∀ a, grows (f a)) → grows (m ≫= f).
Proof.
  intros Hm Hf h. specialize (Hm h). unfold mbind, prog_bind. destruct (m h) as [h1 [a|p|]]; simpl in *; [|done|done].
  etrans; [exact Hm|apply Hf].
Qed.
Lemma grows_alloc o : grows (alloc o).
Proof. intros h. by destruct (alloc_run h o) as (l & -> & _ & Hs). Qed.
Lemma grows_mapM {A B} (rec : A → prog heap B) l : (∀ a, grows (rec a)) → grows (mapM rec l).
Proof.
  intros Hr. induction l as [|a l IH]; simpl; [by intros h|].
  apply grows_bind; [apply Hr|intros b]. by apply grows_bind; [apply IH|intros l' h].
Qed.

Context (DeepCopy_grows : ∀ v m, DeepCopy v = Some m → grows m).

Lemma copier_grows v m : copier DeepCopy v = Some m → grows m.
Proof.
  destruct v as [b|l|l|[x|]|t|fs|s|l]; simpl; try done; try apply DeepCopy_grows.
  rewrite fmap_Some. intros (m0 & Hm & ->). apply grows_bind; [by eapply DeepCopy_grows|by intros v h].
Qed.

Lemma copyRecursive_grows fuel v : grows (copyRecursive DeepCopy fuel v).
Proof.
  revert v. induction fuel as [|fuel IH]; intros v; [by intros h|]. cbn [copyRecursive].
  destruct (copier DeepCopy v) as [m|] eqn:Ek; [by eapply copier_grows|].
  destruct v as [b|l|[l|]|[x|]|t|fs|[[[[l off] len] cap]|]|[l|]]; try by intros h.
  - apply grows_bind; [by intros h|intros h]. destruct (h !! l) as [[]|]; try by intros h'.
    apply grows_bind; [apply IH|intros v']. apply grows_bind; [apply grows_alloc|by intros l' h'].
  - apply grows_bind; [apply IH|by intros v' h'].
  - apply grows_bind; [|by intros v' h']. apply grows_mapM. intros f. destruct f.1; [|by intros h'].
    apply grows_bind; [apply IH|by intros v' h'].
  - apply grows_bind; [by intros h|intros h]. destruct (h !! l) as [[]|]; try by intros h'.
    apply grows_bind; [by apply grows_mapM|intros vs]. apply grows_bind; [apply grows_alloc|by intros l' h'].
  - apply grows_bind; [by intros h|intros h]. destruct (h !! l) as [[]|]; try by intros h'.
    apply grows_bind; [|intros vs; apply grows_bind; [apply grows_alloc|by intros l' h']].
    generalize (@nil (value * value)). induction es as [|e es IHes]; intros acc; simpl; [by intros h'|].
    apply grows_bind; [apply IH|intros v']. apply grows_bind; [|intros k'; apply IHes].
    destruct e.1 as [b|?|?|[d|]|?|?|?|?]; try apply IH; [|by intros h'].
    apply grows_bind; [apply IH|by intros d' h'].
Qed.

(** [m] does not return a value. *)
Definition fails {A} (r : heap * outcome A) : Prop := ∀ a, r.2 ≠ Ret a.

Lemma fails_bind {A B} (m : prog heap A) (f : A → prog heap B) h : fails (m h) → fails ((m ≫= f) h).
Proof.
  intros Hm b. unfold mbind, prog_bind. destruct (m h) as [h1 [a|p|]]; [|done|done].
  exfalso. by apply (Hm a).
Qed.
Lemma fails_later {A B} (m : prog heap A) (f : A → prog heap B) h0 h : h0 ⊆ h → grows m →
  (∀ a h', h0 ⊆ h' → fails (f a h')) → fails ((m ≫= f) h).
Proof.
  intros Hh Hm Hf b. specialize (Hm h). unfold mbind, prog_bind.
  destruct (m h) as [h1 [a|p|]]; simpl in Hm; [|done|done]. apply Hf. by etrans.
Qed.
Lemma fails_mapM {A B} (rec : A → prog heap B) l a h0 h : h0 ⊆ h → (∀ a, grows (rec a)) → a ∈ l →
  (∀ h', h0 ⊆ h' → fails (rec a h')) → fails (mapM rec l h).
Proof.
  intros Hh Hg Hin Ha. revert h Hh. induction l as [|b l IH]; intros h Hh; [by apply elem_of_nil in Hin|].
  simpl. apply elem_of_cons in Hin as [->|Hin]; [by apply fails_bind, Ha|].
  apply (fails_later _ _ h0); [done|apply Hg|]. intros b' h' Hh'. apply fails_bind. by apply IH.
Qed.

Lemma endless_fails h0 P fuel v h : endless h0 P → P v → h0 ⊆ h → fails (copyRecursive DeepCopy fuel v h).
Proof.
  intros He. revert v h. induction fuel as [|fuel IH]; intros v h Hv Hh; [done|]. cbn [copyRecursive].
  destruct (He v Hv) as (-> & u & Hc & Hu).
  assert (∀ h', h0 ⊆ h' → fails (copyRecursive DeepCopy fuel u h')) as Hfail by (intros; by apply IH).
  destruct Hc as [l v Hl|v|fs v Hin|l off len cap arr v Hl Hin|l es k v Hl Hin].
  - rewrite (bind_Ret get_state _ h h h eq_refl), (lookup_weaken _ _ _ _ Hl Hh). by apply fails_bind, Hfail.
  - by apply fails_bind, Hfail.
  - apply fails_bind, (fails_mapM _ _ (true, v) h0); [done| |done|].
    + intros f. destruct f.1; [|by intros h']. apply grows_bind; [apply copyRecursive_grows|by intros v' h'].
    + intros h' Hh'. by apply fails_bind, Hfail.
  - rewrite (bind_Ret get_state _ h h h eq_refl), (lookup_weaken _ _ _ _ Hl Hh).
    apply fails_bind, (fails_mapM _ _ v h0); [done|intros; apply copyRecursive_grows|done|done].
  - rewrite (bind_Ret get_state _ h h h eq_refl), (lookup_weaken _ _ _ _ Hl Hh).
    apply fails_bind. clear Hl. revert h Hh. generalize (@nil (value * value)).
    induction es as [|e es IHes]; intros acc h Hh; [by apply elem_of_nil in Hin|]. simpl.
    apply elem_of_cons in Hin as [<-|Hin]; [by apply fails_bind, Hfail|].
    apply (fails_later _ _ h0); [done|apply copyRecursive_grows|]. intros v' h1 Hh1.
    apply (fails_later _ _ h0); [done| |intros k' h2 Hh2; by apply IHes].
    destruct e.1 as [b|?|?|[d|]|?|?|?|?]; try apply copyRecursive_grows; [|by intros h'].
    apply grows_bind; [apply copyRecursive_grows|by intros d' h'].
Qed.

(** C25: [Copy] returns, on every value that ends and whose maps have basic keys, a copy
    down to its last pointer or to a value that copies itself: it leaves the original's
    memory as it was, everything of the copy is at new addresses, and so it stays the
    same whatever is written to the original later. On a value that does not end, a
    cycle of any length through pointers, interfaces, structs, slices or maps, it never
    returns a copy. A value with a method [DeepCopy] is what that method answers, and
    arrays are not copied but for their elements' pointers, which stay those of the
    original. *)
Theorem Copy_deep h n v :
  (finite h n v → ∃ h' v', Copy DeepCopy n (Some v) h = (h', Ret (Some v')) ∧ h ⊆ h' ∧
     ∀ h'', (∀ l, l ∉ dom h → h'' !! l = h' !! l) → copied h h'' n v v') ∧
  (∀ P, endless h P → P v → ∀ fuel r, (Copy DeepCopy fuel (Some v) h).2 ≠ Ret r) ∧
  (∀ m h' v', copier DeepCopy v = Some m → m h = (h', Ret v') →
     Copy DeepCopy (S n) (Some v) h = (h', Ret (Some v'))) ∧
  (∀ vs, DeepCopy (VArray vs) = None →
     Copy DeepCopy (S n) (Some (VArray vs)) h = (h, Ret (Some (VArray vs)))).
Proof.
  split; [|split; [|split]].
  - intros Hf. destruct (copyRecursive_copies n v h Hf h) as (h' & v' & E & Hs & Hc); [done|].
    exists h', v'. split; [unfold Copy; by rewrite (bind_Ret _ _ _ _ _ E)|]. split; [done|].
    intros h'' Hh. eapply copied_mono; [|exact Hc]. intros l Hl _. by apply Hh.
  - intros P He Hv fuel r. unfold Copy. by apply fails_bind, (endless_fails h P).
  - intros m h' v' Hm E. unfold Copy. rewrite (bind_Ret _ _ h h' v'); [done|]. cbn [copyRecursive]. by rewrite Hm.
  - intros vs Hvs. unfold Copy. rewrite (bind_Ret _ _ h h (VArray vs)); [done|].
    cbn [copyRecursive copier]. by rewrite Hvs.
Qed.
End deep.

(** The master's nodes: a map of pointers to structs with slices and maps. *)
Definition nodes_memory : heap :=
  <[0 := OMap [(VBasic (BString "10.0.0.5:7001"), VPtr (Some 1))]]>
  (<[1 := OVal (VStruct [(true, VTime 5); (true, VBasic (BString "10.0.0.5:7001")); (true, VSlice (Some (2, 0, 1, 2)));
                         (true, VMap (Some 3)); (false, VBasic (BInt 9))])]>
  (<[2 := OArr [VBasic (BString "gate"); VBasic (BString "")]]>
  (<[3 := OMap [(VBasic (BString "netAddr"), VIface (Some (VBasic (BString "gate:5555"))))]]> ∅))).

(** Two structs that point to one another. *)
Definition ring_memory : heap :=
  <[0 := OVal (VStruct [(true, VPtr (Some 1))])]> (<[1 := OVal (VStruct [(true, VIface (Some (VPtr (Some 0))))])]> ∅).
Definition on_ring (v : value) : Prop :=
  v ∈ [VPtr (Some 0); VStruct [(true, VPtr (Some 1))]; VPtr (Some 1);
       VStruct [(true, VIface (Some (VPtr (Some 0))))]; VIface (Some (VPtr (Some 0)))].
Definition no_copier : value → option (prog heap value) := λ _, None.

Lemma ring_endless : endless no_copier ring_memory on_ring.
Proof.
  intros v Hv. unfold on_ring in *. rewrite !elem_of_cons, elem_of_nil in Hv.
  destruct_or! Hv; try done; subst; (split; [done|]).
  - exists (VStruct [(true, VPtr (Some 1))]). split; [by apply child_ptr|]. by right; left.
  - exists (VPtr (Some 1)). split; [apply child_field; by left|]. do 2 right. by left.
  - exists (VStruct [(true, VIface (Some (VPtr (Some 0))))]). split; [by apply child_ptr|]. do 3 right. by left.
  - exists (VIface (Some (VPtr (Some 0)))). split; [apply child_field; by left|]. do 4 right. by left.
  - exists (VPtr (Some 0)). split; [apply child_iface|]. by left.
Qed.

Lemma Copy_deep_witness :
  (∃ h' v', Copy no_copier 6 (Some (VMap (Some 0))) nodes_memory = (h', Ret (Some v')) ∧ nodes_memory ⊆ h' ∧
     ∀ h'', (∀ l, l ∉ dom nodes_memory → h'' !! l = h' !! l) → copied no_copier nodes_memory h'' 6 (VMap (Some 0)) v') ∧
  (Copy no_copier 6 (Some (VMap (Some 0))) nodes_memory).2 = Ret (Some (VMap (Some 7))) ∧
  (∀ fuel r, (Copy no_copier fuel (Some (VPtr (Some 0))) ring_memory).2 ≠ Ret r).
Proof.
  assert (∀ v m, no_copier v = Some m → grows m) as Hg by done.
  split; [|split; [vm_compute; reflexivity|]].
  - apply (Copy_deep no_copier Hg nodes_memory 6 (VMap (Some 0))).
    simpl. eexists. split; [reflexivity|]. split; [apply NoDup_singleton|].
    apply Forall_singleton. split; [by eexists|]. simpl. eexists. split; [reflexivity|].
    apply Forall_cons; split; [done|]. apply Forall_cons; split; [done|].
    apply Forall_cons; split; [|apply Forall_cons; split; [|by apply Forall_singleton]].
    + intros _. simpl. eexists. split; [reflexivity|]. by apply Forall_singleton.
    + intros _. simpl. eexists. split; [reflexivity|]. split; [apply NoDup_singleton|].
      apply Forall_singleton. split; [by eexists|done].
  - apply (Copy_deep no_copier Hg ring_memory 0 (VPtr (Some 0))) with (P := on_ring); [exact ring_endless|by left].
Defined.

(** ** Waiting, trying, procedures *)
Section procedures.
Context {St : Type}.

(** [for _, cond := range conditions]: the first that fails ends the round. *)
Fixpoint round (conditions : list (prog St bool)) : prog St bool :=
  match conditions with
  | [] => mret true
  | cond :: conditions => cond ≫= λ b, if (b : bool) then round conditions else mret false
  end.
(** [sleep] is what the other goroutines do during an interval. *)
Fixpoint When (fuel : nat) (sleep : prog St unit) (conditions : list (prog St bool)) : prog St unit :=
  match fuel with
  | O => stuck
  | S fuel => round conditions ≫= λ pass, if (pass : bool) then mret tt else sleep ≫= λ _, When fuel sleep conditions
  end.

(** A panic of the task goes to the first [catch], or to the log. *)
Definition Try (task : prog St unit) (catch : list (panic → prog St unit)) : prog St unit :=
  recovering task (λ p, match catch with c :: _ => c p | [] => mret tt end).

Record Procedure := mkProcedure { Task : prog St unit; Condition : prog St bool }.
Definition StartProcedure (fuel : nat) (sleep : prog St unit) (tasks : list Procedure) : prog St unit :=
  for_each tasks (λ task, When fuel sleep [Condition task] ≫= λ _, Try (Task task) []).

(** Conditions that only look. *)
Definition looks (f : St → bool) : prog St bool := λ s, (s, Ret (f s)).
Lemma round_looks fs s : round (looks <$> fs) s = (s, Ret (forallb (λ f, f s) fs)).
Proof.
  induction fs as [|f fs IH]; [done|]. simpl. unfold mbind, prog_bind. simpl. destruct (f s); [apply IH|done].
Qed.

(** When returns in the first round in which all conditions hold, whatever others
    do in the intervals, and never as long as one fails in each. *)
Theorem When_first_round fuel (others : St → St) fs s :
  (∀ k, k < fuel → forallb (λ f, f (Nat.iter k others s)) fs = true →
     (∀ j, j < k → forallb (λ f, f (Nat.iter j others s)) fs = false) →
     When fuel (modify others) (looks <$> fs) s = (Nat.iter k others s, Ret tt)) ∧
  ((∀ j, j < fuel → forallb (λ f, f (Nat.iter j others s)) fs = false) →
     (When fuel (modify others) (looks <$> fs) s).2 = Stuck).
Proof.
  revert s. induction fuel as [|fuel IH]; intros s; [split; [lia|done]|].
  assert (∀ j, Nat.iter (S j) others s = Nat.iter j others (others s)) as Hit.
  { intros j. by rewrite Nat.iter_succ_r. }
  destruct (IH (others s)) as [IH1 IH2]. split.
  - intros [|k] Hk Ht Hf; simpl.
    + rewrite (bind_Ret _ _ _ _ _ (round_looks fs s)). simpl in Ht. by rewrite Ht.
    + rewrite (bind_Ret _ _ _ _ _ (round_looks fs s)). pose proof (Hf 0 ltac:(lia)) as H0. simpl in H0.
      rewrite H0, (bind_Ret (modify others) _ s (others s) tt eq_refl).
      change (others (Nat.iter k others s)) with (Nat.iter (S k) others s). rewrite Hit.
      apply IH1; [lia|by rewrite <- Hit|]. intros j Hj. rewrite <- Hit. apply Hf. lia.
  - intros Hf. simpl. rewrite (bind_Ret _ _ _ _ _ (round_looks fs s)).
    pose proof (Hf 0 ltac:(lia)) as H0. simpl in H0.
    rewrite H0, (bind_Ret (modify others) _ s (others s) tt eq_refl).
    apply IH2. intros j Hj. rewrite <- Hit. apply Hf. lia.
Qed.

(** A task that panics is caught: the procedure goes on with the next one. *)
Lemma Try_returns task s : (task s).2 ≠ Stuck → ended_by_fatal (task s).2 = false →
  ∃ s', Try task [] s = (s', Ret tt).
Proof. unfold Try, recovering. destruct (task s) as [s' [[]|p|]]; simpl; intros Hs Hf; rewrite ?Hf; by eauto. Qed.
Lemma When_true fuel sleep (f : St → bool) s : f s = true → When (S fuel) sleep [looks f] s = (s, Ret tt).
Proof. intros Hf. simpl. unfold mbind, prog_bind. simpl. by rewrite Hf. Qed.
Theorem StartProcedure_goes_on fuel sleep (tasks : list Procedure) s :
  Forall (λ t, ∃ f, Condition t = looks f ∧ (∀ s, f s = true) ∧
    ∀ s, (Task t s).2 ≠ Stuck ∧ ended_by_fatal (Task t s).2 = false) tasks →
  ∃ s', StartProcedure (S fuel) sleep tasks s = (s', Ret tt).
Proof.
  intros Hall. revert s. induction Hall as [|t tasks (f & Ef & Hf & Ht) Hall IH]; intros s.
  - by exists s.
  - destruct (Try_returns (Task t) s (proj1 (Ht s)) (proj2 (Ht s))) as [s1 E1]. destruct (IH s1) as [s2 E2]. exists s2.
    unfold StartProcedure in *. simpl for_each.
    assert ((When (S fuel) sleep [Condition t] ≫= λ _, Try (Task t) []) s = (s1, Ret tt)) as E.
    { rewrite Ef, (bind_Ret _ _ _ _ _ (When_true fuel sleep f s (Hf s))). exact E1. }
    by rewrite (bind_Ret _ _ _ _ _ E).
Qed.
End procedures.

(** ** FormatMem, of the integer part of the quantity *)
Definition KB : Z := Z.shiftl 1 10.
Definition MB : Z := Z.shiftl 1 20.
Definition GB : Z := Z.shiftl 1 30.
Definition FormatMem (d : Z) : string :=
  if decide (d < KB)%Z then pretty d +:+ "KB"
  else if decide (KB ≤ d < MB)%Z then pretty (Z.quot d KB) +:+ "KB"
  else if decide (MB ≤ d < GB)%Z then pretty (Z.quot d MB) +:+ "MB"
  else pretty (Z.quot d GB) +:+ "GB".
Example FormatMem_unit : (FormatMem 512, FormatMem (512 * 1024)) = ("512KB", "512KB").
Proof. vm_compute. reflexivity. Qed.
