(* ===== verification/Buffers.v ===== *)
(** * hCommon: the pooled buffers and the snowflake identifiers of utils.go

    [StrToBytes] and [BytesToStr] write into a bytes.Buffer taken from a sync.Pool and
    put it back before they return; the first hands out the buffer's own array. Theorems:
    what both answer, and what becomes of the bytes when the buffer is used again. *)
From Stdlib Require Import Ascii.
From S2P Require Import Prelude.

(** ** The memory behind the buffers

    A buffer that has been reset is its array, or none yet; the capacity is the length of
    the array. [pooled] are the buffers in the pool. A slice is the first bytes of an
    array. *)
Abbreviation bytes := (list ascii).
Record memory := mkMemory { arrays : gmap positive bytes; pooled : list (option positive) }.
Record slice := mkSlice { s_array : option positive; s_len : nat }.

Definition array_of (a : option positive) (m : memory) : bytes := default [] (a ≫= λ a, arrays m !! a).
Definition read (s : slice) (m : memory) : bytes := take (s_len s) (array_of (s_array s) m).

(** [pool.Get()]: any buffer of the pool, or a new one; [pool.Put]. *)
Definition pool_Get (i : option nat) (m : memory) : option positive * memory :=
  match i ≫= λ i, (i,.) <$> pooled m !! i with
  | Some (i, b) => (b, mkMemory (arrays m) (delete i (pooled m)))
  | None => (None, m)
  end.
Definition pool_Put (b : option positive) (m : memory) : memory := mkMemory (arrays m) (pooled m ++ [b]).

Section buffers.
(** The capacity of the array that a write of so many bytes makes, which the package
    promises to be enough. *)
Context (grow : nat → nat → nat).

(** [buffer.Write] after [buffer.Reset]; the bytes may come from the buffer's own array,
    which [copy] allows. *)
Definition buffer_Write (data : bytes) (b : option positive) (m : memory) : option positive * memory :=
  let old := array_of b m in
  if decide (length data ≤ length old)
  then (b, match b with
           | Some a => mkMemory (<[a := data ++ drop (length data) old]> (arrays m)) (pooled m)
           | None => m
           end)
  else
    let a := fresh (dom (arrays m)) in
    (Some a, mkMemory (<[a := data ++ replicate (grow (length old) (length data) - length data) zero]> (arrays m)) (pooled m)).

Definition StrToBytes (i : option nat) (strData : string) (m : memory) : slice * memory :=
  let '(b, m) := pool_Get i m in
  let '(b, m) := buffer_Write (String.list_ascii_of_string strData) b m in
  (mkSlice b (String.length strData), pool_Put b m).
Definition BytesToStr (i : option nat) (b : slice) (m : memory) : string * memory :=
  let '(buffer, m) := pool_Get i m in
  let data := read b m in
  let '(buffer, m) := buffer_Write data buffer m in
  (String.string_of_list_ascii (read (mkSlice buffer (length data)) m), pool_Put buffer m).

(** Every buffer in the pool has an array of its own. *)
Record memory_ok (m : memory) : Prop := {
  mm_known a : Some a ∈ pooled m → is_Some (arrays m !! a);
  mm_apart i j a : pooled m !! i = Some (Some a) → pooled m !! j = Some (Some a) → i = j }.

(** A buffer that has been taken: known, and not in the pool any more. *)
Definition held (b : option positive) (m : memory) : Prop :=
  memory_ok m ∧ ∀ a, b = Some a → is_Some (arrays m !! a) ∧ Some a ∉ pooled m.

Lemma pool_Get_held i m : memory_ok m →
  let '(b, m') := pool_Get i m in held b m' ∧ arrays m' = arrays m ∧ (∀ x, x ∈ pooled m' → x ∈ pooled m).
Proof.
  intros Hm. unfold pool_Get. destruct (i ≫= _) as [[j b]|] eqn:E; [|split; [by split|done]].
  apply bind_Some in E as (j' & -> & E). apply fmap_Some in E as (b' & Hb & [= -> ->]).
  assert (∀ x k, delete j' (pooled m) !! k = Some x → ∃ k', k' ≠ j' ∧ pooled m !! k' = Some x ∧
    k = if decide (k' < j') then k' else k' - 1) as Hdel.
  { intros x k Hk. destruct (decide (k < j')) as [Hlt|Hge].
    - rewrite list_lookup_delete_lt in Hk by done. exists k. by rewrite decide_True by lia; repeat split; [lia|].
    - rewrite list_lookup_delete_ge in Hk by lia. exists (S k). rewrite decide_False by lia.
      split; [lia|]. split; [done|lia]. }
  simpl. split; [|split; [done|]].
  - split; [split; simpl|].
    + intros a [k Hk]%list_elem_of_lookup. destruct (Hdel _ _ Hk) as (k' & _ & Hk' & _).
      apply (mm_known m Hm). by eapply list_elem_of_lookup_2.
    + intros k1 k2 a H1 H2. destruct (Hdel _ _ H1) as (q1 & _ & G1 & ->), (Hdel _ _ H2) as (q2 & _ & G2 & ->).
      by rewrite (mm_apart m Hm q1 q2 a G1 G2).
    + intros a ->. split; [apply (mm_known m Hm); by eapply list_elem_of_lookup_2|].
      intros [k Hk]%list_elem_of_lookup. destruct (Hdel _ _ Hk) as (q & Hq & G & _).
      apply Hq. by eapply (mm_apart m Hm).
  - intros x [k Hk]%list_elem_of_lookup. destruct (Hdel _ _ Hk) as (q & _ & G & _). by eapply list_elem_of_lookup_2.
Qed.

(** A write gives the bytes back, and touches no array but the buffer's. *)
Lemma buffer_Write_reads data b m : held b m →
  let '(b', m') := buffer_Write data b m in
  held b' m' ∧ read (mkSlice b' (length data)) m' = data ∧ pooled m' = pooled m ∧
  (∀ a, Some a ≠ b → is_Some (arrays m !! a) → arrays m' !! a = arrays m !! a) ∧
  (length data ≤ length (array_of b m) → b' = b ∧ array_of b m' = data ++ drop (length data) (array_of b m)).
Proof.
  intros Hh. pose proof Hh as [Hm Hb]. unfold buffer_Write.
  assert (∀ a (x : bytes) i, pooled i = pooled m → arrays i = <[a := x]> (arrays m) → Some a ∉ pooled m → held (Some a) i) as Hheld.
  { intros a x [ar po] Hp Ha Hnin. simpl in *. subst. split; [split; simpl|].
    - intros a' Ha'. apply lookup_insert_is_Some. destruct (decide (a = a')); [by left|right].
      split; [done|by apply (mm_known m Hm)].
    - apply (mm_apart m Hm).
    - intros a' [= <-]. simpl. by rewrite lookup_insert_eq. }
  destruct (decide _) as [Hle|Hgt].
  - destruct b as [a|].
    + destruct (Hb a eq_refl) as [[old Ho] Hnin]. unfold read, array_of in *. simpl in *. rewrite Ho in *. simpl in *.
      split_and!; [by eapply Hheld|rewrite lookup_insert_eq; simpl; by rewrite take_app_length|done| |].
      * intros a' Hne Ha'. apply lookup_insert_ne. congruence.
      * intros _. by rewrite lookup_insert_eq.
    + unfold array_of in *. simpl in *. destruct data; [|simpl in Hle; lia]. by split_and!.
  - set (a := fresh (dom (arrays m))). assert (arrays m !! a = None) as Ha by (apply not_elem_of_dom, is_fresh).
    split_and!; [eapply Hheld; [done..|]| |done| |by intros ?].
    + intros Hin. apply (mm_known m Hm) in Hin as [? ?]. congruence.
    + unfold read, array_of. simpl. rewrite lookup_insert_eq. simpl. by rewrite take_app_length.
    + intros a' _ [x Hx]. apply lookup_insert_ne. congruence.
Qed.

Lemma pool_Put_ok b m : held b m → memory_ok (pool_Put b m) ∧ arrays (pool_Put b m) = arrays m.
Proof.
  intros [Hm Hb]. split; [|done]. split; simpl.
  - intros a [Ha|Ha%list_elem_of_singleton]%elem_of_app; [by apply (mm_known m Hm)|by apply Hb].
  - intros i j a Hi Hj. apply lookup_app_Some in Hi as [Hi|[Hli Hi]], Hj as [Hj|[Hlj Hj]].
    + by eapply (mm_apart m Hm).
    + apply list_lookup_singleton_Some in Hj as [_ Hj]. destruct (Hb a Hj) as [_ Hn].
      destruct Hn. by eapply list_elem_of_lookup_2.
    + apply list_lookup_singleton_Some in Hi as [_ Hi]. destruct (Hb a Hi) as [_ Hn].
      destruct Hn. by eapply list_elem_of_lookup_2.
    + apply list_lookup_singleton_Some in Hi as [? _], Hj as [? _]. lia.
Qed.

Lemma string_bytes_length s : length (String.list_ascii_of_string s) = String.length s.
Proof. induction s; simpl; congruence. Qed.

(** The bytes that [StrToBytes] answers are those of the string. *)
Lemma StrToBytes_reads i s m : memory_ok m →
  let '(b, m') := StrToBytes i s m in memory_ok m' ∧ read b m' = String.list_ascii_of_string s.
Proof.
  intros Hm. unfold StrToBytes. pose proof (pool_Get_held i m Hm) as HG. destruct (pool_Get i m) as [b m1].
  destruct HG as (Hh & _). pose proof (buffer_Write_reads (String.list_ascii_of_string s) b m1 Hh) as HW.
  destruct (buffer_Write _ b m1) as [b' m2]. destruct HW as (Hh2 & Hr & _).
  destruct (pool_Put_ok b' m2 Hh2) as [Hm' Ha]. split; [done|]. rewrite string_bytes_length in Hr.
  unfold read, array_of in *. by rewrite Ha.
Qed.
Lemma BytesToStr_reads i b m : memory_ok m →
  let '(s, m') := BytesToStr i b m in memory_ok m' ∧ s = String.string_of_list_ascii (read b m).
Proof.
  intros Hm. unfold BytesToStr. pose proof (pool_Get_held i m Hm) as HG. destruct (pool_Get i m) as [buf m1].
  destruct HG as (Hh & Ha1 & _). assert (read b m1 = read b m) as Er by (unfold read, array_of; by rewrite Ha1).
  pose proof (buffer_Write_reads (read b m1) buf m1 Hh) as HW.
  destruct (buffer_Write _ buf m1) as [buf' m2]. destruct HW as (Hh2 & Hr & _).
  split; [by apply pool_Put_ok|]. by rewrite Hr, Er.
Qed.

(** The two functions are inverse to each other, whichever buffers they are given: also
    when the second gets the buffer whose array it reads from. But the bytes last only as
    long as nobody uses that buffer: a call of [StrToBytes] to which the pool gives it
    writes its own string over the beginning. *)
Theorem pooled_bytes i s m : memory_ok m →
  let '(b, m1) := StrToBytes i s m in
  (∀ j, (BytesToStr j b m1).1 = s) ∧
  (∀ j t, pooled m1 !! j = Some (s_array b) → String.length t ≤ String.length s →
     read b (StrToBytes (Some j) t m1).2 =
       String.list_ascii_of_string t ++ drop (String.length t) (String.list_ascii_of_string s)).
Proof.
  intros Hm. pose proof (StrToBytes_reads i s m Hm) as H1.
  assert (s_len (StrToBytes i s m).1 = String.length s) as Hlen.
  { unfold StrToBytes. destruct (pool_Get i m) as [b m1]. by destruct (buffer_Write _ b m1). }
  destruct (StrToBytes i s m) as [b m1]. destruct H1 as [Hm1 Hr]. simpl in Hlen. split.
  - intros j. pose proof (BytesToStr_reads j b m1 Hm1) as H2. destruct (BytesToStr j b m1) as [s' m2].
    destruct H2 as [_ ->]. simpl. rewrite Hr. apply String.string_of_list_ascii_of_string.
  - intros j t Hj Ht. unfold StrToBytes. pose proof (pool_Get_held (Some j) m1 Hm1) as HG.
    unfold pool_Get in HG |- *. simpl in HG |- *. rewrite Hj in HG |- *. simpl in HG |- *.
    destruct HG as (Hh & _). set (m2 := mkMemory _ _) in *.
    assert (array_of (s_array b) m2 = array_of (s_array b) m1) as Ea by done.
    assert (String.length s ≤ length (array_of (s_array b) m1)) as Hcap.
    { apply (f_equal length) in Hr. unfold read in Hr. rewrite length_take, string_bytes_length, Hlen in Hr. lia. }
    pose proof (buffer_Write_reads (String.list_ascii_of_string t) (s_array b) m2 Hh) as HW.
    destruct (buffer_Write _ _ m2) as [b' m3]. destruct HW as (_ & _ & _ & _ & HW).
    rewrite string_bytes_length, Ea in HW. destruct (HW ltac:(lia)) as [-> Hm3]. simpl.
    unfold read in Hr |- *. change (array_of (s_array b) (pool_Put (s_array b) m3)) with (array_of (s_array b) m3).
    rewrite Hm3, Hlen in *. rewrite <- (string_bytes_length t) at 2.
    rewrite take_app_ge by (rewrite string_bytes_length; lia). rewrite string_bytes_length. f_equal.
    rewrite <- Hr, skipn_firstn_comm. done.
Qed.
End buffers.

Lemma pooled_bytes_witness : ∃ b m1,
  StrToBytes (λ c n, n + c) None "hello" (mkMemory ∅ []) = (b, m1) ∧
  read b (StrToBytes (λ c n, n + c) (Some 0) "J" m1).2 = String.list_ascii_of_string "Jello".
Proof.
  assert (memory_ok (mkMemory ∅ [])) as H0 by (split; simpl; [intros a Ha; by apply elem_of_nil in Ha|done]).
  pose proof (pooled_bytes (λ c n, n + c) None "hello" (mkMemory ∅ []) H0) as H.
  destruct (StrToBytes (λ c n, n + c) None "hello" (mkMemory ∅ [])) as [b m1] eqn:E. exists b, m1. split; [done|].
  vm_compute in E. injection E as <- <-. destruct H as [_ H].
  exact (H 0 "J" eq_refl ltac:(simpl; lia)).
Defined.

(** ** Identifiers of the snowflake library

    A node numbers the identifiers of one millisecond, behind the time since the epoch
    and its own number. *)
Definition snowflake_Epoch : Z := 1568811840476.
Class Snowflake := {
  snowflake_node : Type;
  NewNode : Z → option snowflake_node;
  (** the identifier that [Generate] answers at a time, with the node afterwards *)
  Generate : Z → snowflake_node → Z * snowflake_node }.
(** What the library documents: node numbers of ten bits, the time in milliseconds in 41
    bits, and a sequence of twelve bits that a new node starts at zero. *)
Definition in_time (now : Z) : Prop := (0 ≤ now - snowflake_Epoch < 2 ^ 41)%Z.
Class SnowflakeLaws `(Snowflake) := {
  NewNode_range id : is_Some (NewNode id) ↔ (0 ≤ id < 2 ^ 10)%Z;
  Generate_first id n now : NewNode id = Some n → in_time now →
    (Generate now n).1 = Z.lor (Z.lor (Z.shiftl (now - snowflake_Epoch) 22) (Z.shiftl id 12)) 0 }.

Definition GenId `{Snowflake} (now id : Z) : Z :=
  match NewNode id with None => (-1)%Z | Some node => (Generate now node).1 end.

Lemma first_id_sum t id : (0 ≤ id < 2 ^ 10)%Z →
  Z.lor (Z.lor (Z.shiftl t 22) (Z.shiftl id 12)) 0 = (t * 2 ^ 22 + id * 2 ^ 12)%Z.
Proof.
  intros Hid. rewrite Z.lor_0_r. assert (Z.land (Z.shiftl t 22) (Z.shiftl id 12) = 0%Z) as H0.
  { apply Z.bits_inj'. intros n Hn. rewrite Z.land_spec, Z.bits_0, !Z.shiftl_spec by lia.
    destruct (decide (n < 22)%Z); [by rewrite Z.testbit_neg_r by lia|].
    rewrite <- (Z.mod_small id (2 ^ 10)) by lia. by rewrite Z.mod_pow2_bits_high, andb_false_r by lia. }
  rewrite <- (Z.add_0_r (Z.lor _ _)), <- H0, Z.add_lor_land.
  by rewrite !Z.shiftl_mul_pow2 by lia.
Qed.

(** Two identifiers are the same exactly when they were made in the same millisecond under
    the same number: a node for each identifier always begins its sequence anew, so that
    the sequence of the library never tells two of them apart. A number out of range is
    answered with -1, which is no identifier of any time after the epoch. *)
Theorem GenId_distinct `{SnowflakeLaws} now id now' id' :
  in_time now → in_time now' → (0 ≤ id < 2 ^ 10)%Z → (0 ≤ id' < 2 ^ 10)%Z →
  (GenId now id = GenId now' id' ↔ now = now' ∧ id = id') ∧ (0 ≤ GenId now id < 2 ^ 63)%Z ∧
  (∀ bad, ¬ (0 ≤ bad < 2 ^ 10)%Z → GenId now bad = (-1)%Z).
Proof.
  intros Ht Ht' Hid Hid'.
  assert (∀ now id, in_time now → (0 ≤ id < 2 ^ 10)%Z →
    GenId now id = ((now - snowflake_Epoch) * 2 ^ 22 + id * 2 ^ 12)%Z) as HG.
  { intros t i Hi Hr. unfold GenId. apply NewNode_range in Hr as Hn. destruct Hn as [n Hn]. rewrite Hn.
    by rewrite (Generate_first i n t Hn Hi), first_id_sum. }
  rewrite !HG by done. unfold in_time in Ht. split_and!; [lia..|].
  intros bad Hbad. unfold GenId. destruct (NewNode bad) eqn:E; [|done]. destruct Hbad.
  apply NewNode_range. by rewrite E.
Qed.

#[local] Instance plain_snowflake : Snowflake := {
  snowflake_node := Z;
  NewNode id := if decide (0 ≤ id < 2 ^ 10)%Z then Some id else None;
  Generate now n := (Z.lor (Z.lor (Z.shiftl (now - snowflake_Epoch) 22) (Z.shiftl n 12)) 0, n) }.
#[local] Instance plain_snowflake_laws : SnowflakeLaws plain_snowflake.
Proof.
  split.
  - intros id. simpl. case_decide; split; try done.
  - intros id n now. simpl. case_decide; [by intros [= <-]|done].
Qed.
Lemma GenId_distinct_witness : GenId 1600000000000 1 = GenId 1600000000000 1 ∧
  GenId 1600000000000 1 ≠ GenId 1600000000000 2.
Proof.
  split; [done|]. intros E.
  destruct (GenId_distinct 1600000000000 1 1600000000000 2
    ltac:(split; done) ltac:(split; done) ltac:(lia) ltac:(lia)) as [[H _] _].
  by destruct (H E) as [_ ?].
Defined.
