(* ===== verification/Md5.v ===== *)
(** * crypto/md5, encoding/hex

    The digest that hCommon uses (RFC 1321), on lists of bytes given as numbers below
    256, with test vectors. *)
From Stdlib Require Import Ascii.
From S2P Require Import Prelude.
Local Open Scope Z_scope.

(** [[]byte(s)] *)
Fixpoint bytes_of (s : string) : list Z :=
  match s with
  | EmptyString => []
  | String c s => Z.of_nat (nat_of_ascii c) :: bytes_of s
  end.

(** 32-bit arithmetic. *)
Definition add32 (a b : Z) : Z := uint32 (a + b).
Definition not32 (a : Z) : Z := Z.lxor a 4294967295.
Definition rotl32 (a s : Z) : Z := Z.lor (uint32 (Z.shiftl a s)) (Z.shiftr a (32 - s)).

(** The constants floor(2^32 * |sin(i+1)|) and the rotations. *)
Definition md5_T : list Z :=
  [3614090360; 3905402710; 606105819; 3250441966; 4118548399; 1200080426;
   2821735955; 4249261313; 1770035416; 2336552879; 4294925233; 2304563134;
   1804603682; 4254626195; 2792965006; 1236535329; 4129170786; 3225465664;
   643717713; 3921069994; 3593408605; 38016083; 3634488961; 3889429448;
   568446438; 3275163606; 4107603335; 1163531501; 2850285829; 4243563512;
   1735328473; 2368359562; 4294588738; 2272392833; 1839030562; 4259657740;
   2763975236; 1272893353; 4139469664; 3200236656; 681279174; 3936430074;
   3572445317; 76029189; 3654602809; 3873151461; 530742520; 3299628645;
   4096336452; 1126891415; 2878612391; 4237533241; 1700485571; 2399980690;
   4293915773; 2240044497; 1873313359; 4264355552; 2734768916; 1309151649;
   4149444226; 3174756917; 718787259; 3951481745].
Definition md5_S (i : nat) : Z :=
  nth (i `mod` 4) (nth (i / 16) [[7; 12; 17; 22]; [5; 9; 14; 20]; [4; 11; 16; 23]; [6; 10; 15; 21]] []) 0.

(** A little-endian word of four bytes, and back. *)
Definition le_word (b : list Z) : Z :=
  match b with
  | [a; b; c; d] => Z.lor (Z.lor a (Z.shiftl b 8)) (Z.lor (Z.shiftl c 16) (Z.shiftl d 24))
  | _ => 0
  end.
Definition le_bytes (n : nat) (w : Z) : list Z :=
  (λ i, Z.land (Z.shiftr w (8 * Z.of_nat i)) 255) <$> seq 0 n.

Fixpoint chunks (fuel n : nat) (l : list Z) : list (list Z) :=
  match fuel, l with
  | S fuel, _ :: _ => take n l :: chunks fuel n (drop n l)
  | _, _ => []
  end.

(** One 1 bit, zeros, and the length in bits: a multiple of 64 bytes. *)
Definition md5_pad (msg : list Z) : list Z :=
  let n := length msg in
  msg ++ 128 :: replicate ((119 - n `mod` 64) `mod` 64) 0 ++ le_bytes 8 (uint64 (8 * Z.of_nat n)).

Definition md5_round (m : list Z) (st : Z * Z * Z * Z) (i : nat) : Z * Z * Z * Z :=
  let '(a, b, c, d) := st in
  let '(f, g) :=
    (if (i <? 16)%nat then (Z.lor (Z.land b c) (Z.land (not32 b) d), i)
     else if (i <? 32)%nat then (Z.lor (Z.land d b) (Z.land (not32 d) c), (5 * i + 1) `mod` 16)
     else if (i <? 48)%nat then (Z.lxor b (Z.lxor c d), (3 * i + 5) `mod` 16)
     else (Z.lxor c (Z.lor b (not32 d)), (7 * i) `mod` 16))%nat in
  let f := add32 (add32 f a) (add32 (nth i md5_T 0) (nth g m 0)) in
  (d, add32 b (rotl32 f (md5_S i)), b, c).

Definition md5_block (st : Z * Z * Z * Z) (block : list Z) : Z * Z * Z * Z :=
  let m := le_word <$> chunks 16 4 block in
  let '(a0, b0, c0, d0) := st in
  let '(a, b, c, d) := foldl (md5_round m) st (seq 0 64) in
  (add32 a0 a, add32 b0 b, add32 c0 c, add32 d0 d).

(** [md5.New(); Write; Sum(nil)] *)
Definition md5_sum (msg : list Z) : list Z :=
  let padded := md5_pad msg in
  let '(a, b, c, d) := foldl md5_block (1732584193, 4023233417, 2562383102, 271733878)
                         (chunks (length padded) 64 padded) in
  le_bytes 4 a ++ le_bytes 4 b ++ le_bytes 4 c ++ le_bytes 4 d.

(** [hex.EncodeToString] *)
Definition hex_digit (n : Z) : ascii := ascii_of_nat (Z.to_nat (if decide (n < 10) then 48 + n else 87 + n)).
Fixpoint hex (l : list Z) : string :=
  match l with
  | [] => EmptyString
  | b :: l => String (hex_digit (Z.shiftr b 4)) (String (hex_digit (Z.land b 15)) (hex l))
  end.

(** hCommon/utils.go *)
Definition MD5 (str : string) : string := hex (md5_sum (bytes_of str)).

Example md5_empty : MD5 "" = "d41d8cd98f00b204e9800998ecf8427e".
Proof. vm_compute. reflexivity. Qed.
Example md5_abc : MD5 "abc" = "900150983cd24fb0d6963f7d28e17f72".
Proof. vm_compute. reflexivity. Qed.
Example md5_two_blocks :
  MD5 "12345678901234567890123456789012345678901234567890123456789012345678901234567890" =
    "57edf4a22be3c955ac49da2e2107b67a".
Proof. vm_compute. reflexivity. Qed.

Lemma md5_sum_length msg : length (md5_sum msg) = 16%nat.
Proof. unfold md5_sum. destruct (foldl _ _ _) as [[[a b] c] d]. by rewrite !length_app. Qed.
