(* ===== verification/HashRing.v ===== *)
(** * hCommon: the consistent hash ring

    hashring.go.  A ring is rebuilt from its nodes whenever they change: each node
    gets points on the circle of 32-bit keys, and a key belongs to the node of the
    first point behind it. *)
From stdpp Require Import pretty.
From S2P Require Import Prelude Md5.

Abbreviation HashKey := Z.

Record HashRing := mkRing {
  ring : gmap HashKey string;
  sortedKeys : list HashKey;
  nodes : list string;
  weights : gmap string Z }.

(** [hashVal] of four bytes, and [hashDigest]. *)
Definition hashVal (bKey : list Z) : HashKey := le_word bKey.
Definition hashDigest (key : string) : list Z := md5_sum (bytes_of key).
Definition GenKey (key : string) : HashKey := hashVal (take 4 (hashDigest key)).

(** [fmt.Sprintf("%s-%d", node, j)] *)
Definition node_key (node : string) (j : nat) : string := node +:+ "-" +:+ pretty (N.of_nat j).

(** The three keys of one turn of the loop over [j], and all those of a node. *)
Definition keys_of_turn (node : string) (j : nat) : list HashKey :=
  (λ i, hashVal (take 4 (drop (i * 4) (hashDigest (node_key node j))))) <$> seq 0 3.
Definition points (node : string) (factor : Z) : list HashKey :=
  seq 0 (Z.to_nat factor) ≫= keys_of_turn node.

Definition weight_of (ws : gmap string Z) (node : string) : Z := default 1%Z (ws !! node).
Definition total_weight (ns : list string) (ws : gmap string Z) : Z :=
  foldl (λ t node, t + weight_of ws node)%Z 0%Z ns.

(** [math.Floor(float64(40*len*weight) / float64(total))]: below 2^53 the quotient of
    the two doubles has the floor of the exact one; a sum of weights that is zero
    gives no points. *)
Definition factor_of (ns : list string) (ws : gmap string Z) (node : string) : Z :=
  ((40 * Z.of_nat (length ns) * weight_of ws node) / total_weight ns ws)%Z.

(** The points in the order in which the loops write them. *)
Definition written (ns : list string) (ws : gmap string Z) : list (HashKey * string) :=
  ns ≫= λ node, (λ k, (k, node)) <$> points node (factor_of ns ws node).
Definition write_ring (l : list (HashKey * string)) : gmap HashKey string :=
  foldl (λ m '(k, n), <[k := n]> m) ∅ l.

(** [generateCircle], into an empty ring *)
Definition generateCircle (ns : list string) (ws : gmap string Z) : HashRing :=
  let l := written ns ws in mkRing (write_ring l) (merge_sort Z.le l.*1) ns ws.

Definition NewHashRing (ns : list string) : HashRing := generateCircle ns ∅.
(** [NewWithWeights]; [ns] are the keys of the map in the order [range] gives them. *)
Definition NewWithWeights (ns : list string) (ws : gmap string Z) : HashRing := generateCircle ns ws.

(** The weights differ from the ring's. *)
Definition weights_changed (ws : gmap string Z) (h : HashRing) : bool :=
  if decide (size ws = size (weights h))
  then bool_decide (¬ map_Forall (λ node w, weights h !! node = Some w) ws) else true.
Definition UpdateWithWeights (ns : list string) (ws : gmap string Z) (h : HashRing) : HashRing :=
  if weights_changed ws h then NewWithWeights ns ws else h.

(** [sort.Search(len(nodes), func(i) { nodes[i] > key })] *)
Fixpoint Search (key : HashKey) (l : list HashKey) : nat :=
  match l with
  | [] => 0
  | k :: l => if decide (key < k)%Z then 0 else S (Search key l)
  end.

Definition GetNodePos (stringKey : string) (h : HashRing) : option nat :=
  if decide (ring h = ∅) then None
  else
    let pos := Search (GenKey stringKey) (sortedKeys h) in
    Some (if decide (pos = length (sortedKeys h)) then 0 else pos).

Definition node_at (h : HashRing) (pos : nat) : outcome string :=
  match sortedKeys h !! pos with
  | Some k => Ret (default "" (ring h !! k))
  | None => Panic IndexOutOfRange
  end.

Definition GetNode (stringKey : string) (h : HashRing) : outcome (option string) :=
  match GetNodePos stringKey h with
  | None => Ret None
  | Some pos => n ← node_at h pos; Ret (Some n)
  end.

(** [GetNodes]: [vals] are the nodes of the points from [pos] on, once round. *)
Fixpoint GetNodes_loop (size : Z) (vals : list string) (result : list string) : list string :=
  match vals with
  | [] => result
  | val :: vals =>
      let result := if decide (val ∈ result) then result else result ++ [val] in
      if decide (Z.of_nat (length result) = size) then result else GetNodes_loop size vals result
  end.
Definition vals_from (h : HashRing) (pos : nat) : list string :=
  (λ k, default "" (ring h !! k)) <$> (drop pos (sortedKeys h) ++ take pos (sortedKeys h)).
Definition GetNodes (stringKey : string) (size : Z) (h : HashRing) : outcome (list string * bool) :=
  match GetNodePos stringKey h with
  | None => Ret ([], false)
  | Some pos =>
      if decide (Z.of_nat (length (nodes h)) < size)%Z then Ret ([], false)
      else if decide (size < 0)%Z then Panic MakeNegativeLen
      else let result := GetNodes_loop size (vals_from h pos) [] in
           Ret (result, bool_decide (Z.of_nat (length result) = size))
  end.

Definition AddWeightedNode (node : string) (weight : Z) (h : HashRing) : HashRing :=
  if decide (weight ≤ 0)%Z then h
  else if decide (node ∈ nodes h) then h
  else generateCircle (nodes h ++ [node]) (<[node := weight]> (weights h)).
Definition AddNode (node : string) (h : HashRing) : HashRing := AddWeightedNode node 1 h.

Definition UpdateWeightedNode (node : string) (weight : Z) (h : HashRing) : HashRing :=
  if decide (weight ≤ 0)%Z then h
  else match weights h !! node with
       | None => h
       | Some w => if decide (w = weight) then h
                   else generateCircle (nodes h) (<[node := weight]> (weights h))
       end.

Definition RemoveNode (node : string) (h : HashRing) : HashRing :=
  let ns := filter (λ n, n ≠ node) (nodes h) in
  if decide (length ns = length (nodes h)) then h else generateCircle ns (delete node (weights h)).

(** ** The circle *)

(** The last writer of a key owns it. *)
Lemma write_ring_Some l k n :
  write_ring l !! k = Some n ↔ ∃ l1 l2, l = l1 ++ (k, n) :: l2 ∧ k ∉ l2.*1.
Proof.
  unfold write_ring. induction l as [|[k' n'] l IH] using rev_ind.
  - simpl. rewrite lookup_empty. split; [done|]. intros (l1 & l2 & E & _). by destruct l1.
  - rewrite foldl_app. simpl. destruct (decide (k' = k)) as [->|Hne].
    + rewrite lookup_insert_eq. split.
      * intros [= ->]. exists l, []. split; [done|apply not_elem_of_nil].
      * intros (l1 & l2 & E & Hk). destruct l2 as [|x l2 _] using rev_ind.
        -- apply app_inj_tail in E as [_ [= ->]]. done.
        -- rewrite app_comm_cons, app_assoc in E. apply app_inj_tail in E as [_ <-].
           exfalso. apply Hk. rewrite fmap_app. apply elem_of_app. right. by left.
    + rewrite lookup_insert_ne, IH by done. split.
      * intros (l1 & l2 & -> & Hk). exists l1, (l2 ++ [(k', n')]).
        split; [by rewrite <- app_assoc|]. rewrite fmap_app, not_elem_of_app. split; [done|].
        simpl. intros ?%list_elem_of_singleton. congruence.
      * intros (l1 & l2 & E & Hk). destruct l2 as [|x l2 _] using rev_ind.
        -- apply app_inj_tail in E as [_ [= ? ?]]. congruence.
        -- rewrite app_comm_cons, app_assoc in E. apply app_inj_tail in E as [-> <-].
           exists l1, l2. split; [done|]. rewrite fmap_app, not_elem_of_app in Hk. by destruct Hk.
Qed.

Lemma write_ring_dom l k : is_Some (write_ring l !! k) ↔ k ∈ l.*1.
Proof.
  unfold write_ring. induction l as [|[k' n'] l IH] using rev_ind; simpl.
  - rewrite lookup_empty. split; [by intros []|by intros ?%elem_of_nil].
  - rewrite foldl_app, fmap_app, elem_of_app. simpl. rewrite list_elem_of_singleton, <- IH.
    destruct (decide (k' = k)) as [->|Hne].
    + rewrite lookup_insert_eq. split; [by right|by eexists].
    + rewrite lookup_insert_ne by done. naive_solver.
Qed.

Lemma write_ring_dom_nil k n : write_ring [] !! k = Some n → False.
Proof. done. Qed.

(** [k] is the point a key falls to on the circle of the points [S]. *)
Definition falls_to (S : list HashKey) (key k : HashKey) : Prop :=
  k ∈ S ∧ ((key < k ∧ ∀ x, x ∈ S → key < x → k ≤ x)%Z ∨
           ((∀ x, x ∈ S → x ≤ key) ∧ (∀ x, x ∈ S → k ≤ x))%Z).

Lemma falls_to_unique S key k k' : falls_to S key k → falls_to S key k' → k = k'.
Proof.
  intros [Hk [[H1 H2]|[H1 H2]]] [Hk' [[H3 H4]|[H3 H4]]].
  - specialize (H2 k' Hk' H3). specialize (H4 k Hk H1). lia.
  - specialize (H3 k Hk). lia.
  - specialize (H1 k' Hk'). lia.
  - specialize (H2 k' Hk'). specialize (H4 k Hk). lia.
Qed.

Lemma falls_to_subset S S' key k :
  (∀ x, x ∈ S → x ∈ S') → k ∈ S → falls_to S' key k → falls_to S key k.
Proof.
  intros Hsub Hk [_ [[H1 H2]|[H1 H2]]]; split; try done; [left|right]; split; auto.
Qed.

Lemma Search_spec key l :
  StronglySorted Z.le l →
  (∀ k, l !! Search key l = Some k → (key < k)%Z ∧ ∀ x, x ∈ l → (key < x → k ≤ x)%Z) ∧
  (Search key l = length l → ∀ x, x ∈ l → (x ≤ key)%Z) ∧ Search key l ≤ length l.
Proof.
  induction 1 as [|a l Hs IH Ha]; simpl.
  { split_and!; [done|by intros _ x ?%elem_of_nil|done]. }
  rewrite Forall_forall in Ha. destruct IH as (IH1 & IH2 & IH3). case_decide as Hlt; simpl.
  - split_and!; [|done|lia]. intros k [= <-]. split; [done|]. intros x [->|Hx]%elem_of_cons _; [lia|].
    by apply Ha.
  - split_and!; [|intros E x [->|Hx]%elem_of_cons; [lia|apply IH2; [lia|done]]|lia].
    intros k Hk. destruct (IH1 k Hk) as [? Hmin]. split; [done|].
    intros x [->|Hx]%elem_of_cons Hkx; [lia|by apply Hmin].
Qed.

(** What [GetNode] answers. *)
Lemma GetNode_spec stringKey ns ws :
  let h := generateCircle ns ws in
  (written ns ws = [] ∧ GetNode stringKey h = Ret None) ∨
  ∃ k n, falls_to (written ns ws).*1 (GenKey stringKey) k ∧ ring h !! k = Some n ∧
    GetNode stringKey h = Ret (Some n).
Proof.
  intros h. unfold GetNode, GetNodePos. simpl. set (l := written ns ws).
  destruct (decide (write_ring l = ∅)) as [He|Hne].
  - left. split; [|done]. destruct l as [|[k n] l'] eqn:E; [done|].
    assert (is_Some (write_ring ((k, n) :: l') !! k)) as Hs by (apply write_ring_dom; by left).
    rewrite He, lookup_empty in Hs. by destruct Hs.
  - right. set (sk := merge_sort Z.le l.*1).
    assert (StronglySorted Z.le sk) as Hs by (apply StronglySorted_merge_sort; apply _).
    assert (sk ≡ₚ l.*1) as Hp by apply merge_sort_Permutation.
    destruct (Search_spec (GenKey stringKey) sk Hs) as (H1 & H2 & H3).
    assert (sk ≠ []) as Hsk.
    { intros E. rewrite E in Hp. apply Hne. assert (l = []) as ->; [|done].
      symmetry in Hp. apply Permutation_nil_r in Hp. by apply fmap_nil_inv in Hp. }
    set (pos := if decide (Search (GenKey stringKey) sk = length sk) then 0 else Search (GenKey stringKey) sk).
    assert (∃ k, sk !! pos = Some k ∧ falls_to l.*1 (GenKey stringKey) k) as (k & Hk & Hf).
    { unfold pos. destruct (decide _) as [E|E].
      - destruct sk as [|k sk'] eqn:Esk; [done|]. exists k. split; [done|].
        split; [rewrite <- Hp; by left|right]. split.
        + intros x Hx. apply (H2 E). by rewrite Hp.
        + intros x Hx. rewrite <- Hp in Hx. apply elem_of_cons in Hx as [->|Hx]; [done|].
          inversion_clear Hs as [|? ? _ Hall]. rewrite Forall_forall in Hall. by apply Hall.
      - assert (Search (GenKey stringKey) sk < length sk) as Hlt by lia.
        destruct (lookup_lt_is_Some_2 _ _ Hlt) as [k Hk]. exists k. split; [done|].
        destruct (H1 k Hk) as [Hkk Hmin]. split; [|left; split; [done|]].
        + rewrite <- Hp. by eapply list_elem_of_lookup_2.
        + intros x Hx. apply Hmin. by rewrite Hp. }
    assert (is_Some (write_ring l !! k)) as [n Hn] by (apply write_ring_dom, Hf).
    exists k, n. split_and!; [done|done|]. unfold node_at. simpl.
    fold l sk. fold pos. rewrite Hk. simpl. by rewrite Hn.
Qed.

(** ** Adding and removing nodes *)
Definition unit_weights (ns : list string) (ws : gmap string Z) : Prop :=
  Forall (λ node, weight_of ws node = 1%Z) ns.

Lemma total_weight_unit ns ws : unit_weights ns ws → total_weight ns ws = Z.of_nat (length ns).
Proof.
  intros Hw. unfold total_weight.
  assert (∀ t, foldl (λ t node, t + weight_of ws node)%Z t ns = (t + Z.of_nat (length ns))%Z) as H; [|apply H].
  induction Hw as [|n ns Hn _ IH]; intros t; simpl; [lia|]. rewrite IH, Hn. lia.
Qed.

Definition unit_points (ns : list string) : list (HashKey * string) :=
  ns ≫= λ node, (λ k, (k, node)) <$> points node 40.

Lemma written_unit ns ws : unit_weights ns ws → written ns ws = unit_points ns.
Proof.
  intros Hw. apply Forall_bind_ext, Forall_forall. intros node Hn. unfold factor_of.
  rewrite total_weight_unit by done. rewrite (proj1 (Forall_forall _ _) Hw node Hn).
  assert (length ns ≠ 0) by (by destruct ns; [apply elem_of_nil in Hn|]).
  do 2 f_equal. rewrite Z.mul_1_r. apply Z.div_mul. lia.
Qed.

(** Every node's weight is 1 in the rings that [NewHashRing] makes and in those that
    [AddNode] and [RemoveNode] make of them. *)
Lemma unit_add ns ws node :
  unit_weights ns ws → unit_weights (ns ++ [node]) (<[node := 1%Z]> ws).
Proof.
  intros Hw. apply Forall_app. split.
  - eapply Forall_impl; [exact Hw|]. intros x. unfold weight_of.
    destruct (decide (x = node)) as [->|Hne]; [by rewrite lookup_insert_eq|by rewrite lookup_insert_ne].
  - apply Forall_singleton. unfold weight_of. by rewrite lookup_insert_eq.
Qed.
Lemma unit_remove ns ws node :
  unit_weights ns ws → unit_weights (filter (λ n, n ≠ node) ns) (delete node ws).
Proof.
  intros Hw. apply Forall_forall. intros x [Hx Hin]%list_elem_of_filter.
  unfold weight_of. rewrite lookup_delete_ne by done. apply (proj1 (Forall_forall _ _) Hw x Hin).
Qed.

Lemma filter_unit_points node ns :
  unit_points (filter (λ n, n ≠ node) ns) = filter (λ p, p.2 ≠ node) (unit_points ns).
Proof.
  induction ns as [|n ns IH]; [done|]. unfold unit_points in *.
  rewrite bind_cons, filter_app, filter_cons.
  assert (∀ ks : list HashKey, filter (λ p : HashKey * string, p.2 ≠ node) ((λ k, (k, n)) <$> ks) =
    if decide (n ≠ node) then (λ k, (k, n)) <$> ks else []) as ->.
  { intros ks. induction ks as [|k ks IHk]; [by destruct (decide _)|]. rewrite fmap_cons, filter_cons. simpl.
    rewrite IHk. by destruct (decide _). }
  destruct (decide (n ≠ node)); rewrite ?bind_cons, IH; done.
Qed.

Lemma write_ring_app l m k n :
  write_ring (l ++ m) !! k = Some n → (k, n) ∈ m ∨ (k ∉ m.*1 ∧ write_ring l !! k = Some n).
Proof.
  unfold write_ring. rewrite foldl_app. induction m as [|[k' n'] m IH] using rev_ind; simpl.
  - intros Hk. right. split; [apply not_elem_of_nil|done].
  - rewrite foldl_app. simpl. destruct (decide (k' = k)) as [->|Hne].
    + rewrite lookup_insert_eq. intros [= ->]. left. apply elem_of_app. right. by left.
    + rewrite lookup_insert_ne by done. intros [Hin|[Hn Hk]]%IH; [left; apply elem_of_app; by left|].
      right. split; [|done]. rewrite fmap_app, not_elem_of_app. split; [done|]. simpl.
      intros ?%list_elem_of_singleton. congruence.
Qed.

Lemma write_ring_filter l k n node :
  write_ring l !! k = Some n → n ≠ node → write_ring (filter (λ p, p.2 ≠ node) l) !! k = Some n.
Proof.
  intros (l1 & l2 & -> & Hk)%write_ring_Some Hne. apply write_ring_Some.
  exists (filter (λ p, p.2 ≠ node) l1), (filter (λ p, p.2 ≠ node) l2).
  rewrite filter_app, filter_cons, decide_True by done. split; [done|].
  intros (p & -> & [_ Hp]%list_elem_of_filter)%list_elem_of_fmap. apply Hk. by apply list_elem_of_fmap_2.
Qed.

Lemma GetNode_same key ns ws k n :
  falls_to (written ns ws).*1 (GenKey key) k → write_ring (written ns ws) !! k = Some n →
  GetNode key (generateCircle ns ws) = Ret (Some n).
Proof.
  intros Hf Hk. destruct (GetNode_spec key ns ws) as [[He _]|(k' & n' & Hf' & Hk' & ->)].
  - rewrite He in Hk. by apply write_ring_dom_nil in Hk.
  - rewrite (falls_to_unique _ _ _ _ Hf' Hf) in Hk'. simpl in Hk'. congruence.
Qed.

(** C30: consistent hashing moves little.  In a ring whose nodes weigh the same, adding a
    node changes the node of a key only to the new one, and removing a node changes
    only the keys that were its own, also where points of different nodes fall on
    one key of the circle. *)
Theorem ring_moves_little ns ws node key :
  unit_weights ns ws → let h := generateCircle ns ws in
  (GetNode key (AddNode node h) = GetNode key h ∨ GetNode key (AddNode node h) = Ret (Some node)) ∧
  (GetNode key h ≠ Ret (Some node) → GetNode key (RemoveNode node h) = GetNode key h) ∧
  unit_weights (nodes (AddNode node h)) (weights (AddNode node h)) ∧
  unit_weights (nodes (RemoveNode node h)) (weights (RemoveNode node h)).
Proof.
  intros Hw h. pose proof (unit_add ns ws node Hw) as Hwa. pose proof (unit_remove ns ws node Hw) as Hwr.
  subst h. unfold AddNode, AddWeightedNode, RemoveNode. rewrite decide_False by lia.
  cbn [nodes weights generateCircle]. split_and!.
  - destruct (decide (node ∈ ns)) as [|Hnin]; [by left|]. set (ns' := ns ++ [node]).
    assert (unit_points ns' = unit_points ns ++ ((λ k, (k, node)) <$> points node 40)) as Eu.
    { unfold unit_points, ns'. rewrite bind_app, bind_singleton. done. }
    destruct (GetNode_spec key ns' (<[node := 1%Z]> ws)) as [[He ->]|(k & n & Hf & Hk & ->)];
      [left|destruct (decide (n = node)) as [->|Hne]; [by right|left]].
    + destruct (GetNode_spec key ns ws) as [[_ ->]|(k & n & [Hf _] & _)]; [done|]. exfalso.
      rewrite written_unit in He, Hf by done. rewrite Eu in He. apply app_nil in He as [He _].
      rewrite He in Hf. by apply elem_of_nil in Hf.
    + simpl in Hk. rewrite written_unit in Hf, Hk by done. rewrite Eu in Hf, Hk.
      apply write_ring_app in Hk as [Hin|[Hnk Hk]].
      { apply list_elem_of_fmap in Hin as (k' & [= -> ->] & _). done. }
      symmetry. apply (GetNode_same key ns ws k n); rewrite written_unit by done; [|done].
      eapply falls_to_subset; [|apply write_ring_dom; by eexists|exact Hf].
      intros x Hx. rewrite fmap_app. apply elem_of_app. by left.
  - intros Hno. set (ns' := filter (λ x, x ≠ node) ns).
    destruct (decide (length ns' = length ns)) as [|Hlen]; [done|].
    assert (unit_points ns' = filter (λ p, p.2 ≠ node) (unit_points ns)) as Eu by apply filter_unit_points.
    destruct (GetNode_spec key ns ws) as [[He E]|(k & n & Hf & Hk & E)]; rewrite E.
    + destruct (GetNode_spec key ns' (delete node ws)) as [[_ ->]|(k & n & [Hf _] & _)]; [done|]. exfalso.
      rewrite written_unit in He, Hf by done. rewrite Eu, He in Hf. by apply elem_of_nil in Hf.
    + assert (n ≠ node) as Hne by congruence. simpl in Hk. rewrite written_unit in Hf, Hk by done.
      assert (write_ring (unit_points ns') !! k = Some n) as Hk' by (rewrite Eu; by apply write_ring_filter).
      apply (GetNode_same key ns' _ k n); rewrite written_unit by done; [|done].
      apply (falls_to_subset _ (unit_points ns).*1); [|apply write_ring_dom; by eexists|done].
      intros x (p & -> & Hp)%list_elem_of_fmap. rewrite Eu in Hp. apply list_elem_of_filter in Hp as [_ Hp].
      by apply list_elem_of_fmap_2.
  - destruct (decide (node ∈ ns)); done.
  - destruct (decide _); done.
Qed.

(** ** Several nodes for a key *)
Lemma add_new (v : string) result :
  NoDup result → let r := if decide (v ∈ result) then result else result ++ [v] in
  NoDup r ∧ result `prefix_of` r ∧ ∀ x, x ∈ r → x ∈ result ∨ x = v.
Proof.
  intros Hnd. simpl. destruct (decide (v ∈ result)); split_and!; try done.
  - intros x ?. by left.
  - apply NoDup_app. split_and!; [done| |apply NoDup_singleton].
    intros y Hy ->%list_elem_of_singleton. done.
  - by apply prefix_app_r.
  - intros y [?|?%list_elem_of_singleton]%elem_of_app; auto.
Qed.

Lemma GetNodes_loop_spec size vals result :
  NoDup result → NoDup (GetNodes_loop size vals result) ∧ result `prefix_of` GetNodes_loop size vals result ∧
  ∀ x, x ∈ GetNodes_loop size vals result → x ∈ result ∨ x ∈ vals.
Proof.
  revert result. induction vals as [|v vals IH]; intros result Hnd; simpl.
  { split_and!; [done|done|intros x ?; by left]. }
  destruct (add_new v result Hnd) as (Hr & Hp & Hx). revert Hr Hp Hx.
  generalize (if decide (v ∈ result) then result else result ++ [v]). intros r Hr Hp Hx.
  destruct (decide _).
  - split_and!; [done|done|]. intros x [?| ->]%Hx; [by left|right; by left].
  - destruct (IH r Hr) as (H1 & H2 & H3). split_and!; [done|by etrans|].
    intros x [[?| ->]%Hx|?]%H3; [by left|right; by left|right; by right].
Qed.

(** [GetNodes] answers different nodes of the ring, as many as were asked for, the
    first being the one [GetNode] answers. *)
Lemma GetNodes_distinct key size h l :
  GetNodes key size h = Ret (l, true) → NoDup l ∧ Z.of_nat (length l) = size.
Proof.
  unfold GetNodes. destruct (GetNodePos key h) as [pos|]; [|done].
  destruct (decide _); [done|]. destruct (decide _); [done|]. intros [= <- Hl%bool_decide_eq_true].
  split; [|done]. apply GetNodes_loop_spec. constructor.
Qed.

(** ** Witnesses *)
Definition three_rooms : HashRing := NewHashRing ["room1"; "room2"; "room3"].

Example three_rooms_points : length (sortedKeys three_rooms) = 360%nat.
Proof. vm_compute. reflexivity. Qed.

Lemma ring_moves_little_witness :
  unit_weights ["room1"; "room2"; "room3"] ∅ ∧
  (GetNode "player7" (AddNode "room4" three_rooms) = GetNode "player7" three_rooms ∨
   GetNode "player7" (AddNode "room4" three_rooms) = Ret (Some "room4")).
Proof.
  assert (unit_weights ["room1"; "room2"; "room3"] ∅) as Hw by (by repeat constructor).
  split; [exact Hw|]. apply (ring_moves_little _ ∅ "room4" "player7" Hw).
Defined.
