(* ===== verification/Mongo.v ===== *)
(** * Mongo: the document database (hDataBase/mongo/dboperate.go)

    The driver (mgo) is a parameter that answers each call it is given, may keep
    any state of its own and may panic; the operations of [DbOperate] are
    programs over the object, the maps they make and the trace of what they ask
    of the driver. The trace names every copy and everything that is made from one
    (collections, queries, iterators, bulks, files). Theorems: every operation works on a
    copy of the session that it gives back, and uses the copy and what was made from it
    only before that; none touches the driver without a session. *)
From S2P Require Import Prelude.
From stdpp Require Import pretty.

(** What an [interface{}] holds where this file looks at it; a [bson.M] is given
    by its entries. *)
Inductive val :=
| VNil
| VInt64 (z : Z)
| VStr (s : string)
| VM (m : list (string * val))
| VOther (k : positive).
Abbreviation bsonM := (list (string * val)).

Fixpoint bson_get (m : bsonM) (k : string) : option val :=
  match m with
  | [] => None
  | (k', v) :: m => if decide (k' = k) then Some v else bson_get m k
  end.

Inductive error :=
| MONGODB_SESSION_NIL_ERR
| MONGODB_DBFINDALL_ERR
| MONGODB_OPENGRIDFILE_ERR
| MONGODB_READGRIDFILE_ERR
| MONGODB_CREATEGRIDFILE_ERR
| ErrNotFound
| OtherErr (msg : string).
#[global] Instance error_eq_dec : EqDecision error.
Proof. solve_decision. Defined.
Definition Error (e : error) : string :=
  match e with
  | MONGODB_SESSION_NIL_ERR => "DbOperate session nil."
  | MONGODB_DBFINDALL_ERR => "DBFindAll failed,q is nil!"
  | MONGODB_OPENGRIDFILE_ERR => "OpenGridFile failed!"
  | MONGODB_READGRIDFILE_ERR => "ReadGridFile failed!"
  | MONGODB_CREATEGRIDFILE_ERR => "CreateGridFile is nil"
  | ErrNotFound => "not found"
  | OtherErr msg => msg
  end.

(** [DbCfg] *)
Record DbCfg := mkDbCfg {
  DbHost : string; DbPort : Z; DbName : string; DbUser : string; DbPass : string }.
Definition NewDbCfg (host : string) (port : Z) (name user pass : string) : DbCfg :=
  mkDbCfg host port name user pass.
Definition DbCfg_String (this : DbCfg) : string :=
  if decide (DbUser this = "" ∨ DbPass this = "")
  then "mongodb://" +:+ DbHost this +:+ ":" +:+ pretty (DbPort this) +:+ "/" +:+ DbName this
  else "mongodb://" +:+ DbUser this +:+ ":" +:+ DbPass this +:+ "@" +:+ DbHost this +:+ ":"
       +:+ pretty (DbPort this) +:+ "/" +:+ DbName this.

Inductive mode := Strong | Monotonic.
#[global] Instance mode_eq_dec : EqDecision mode.
Proof. solve_decision. Defined.

(** ** The driver

    Sessions, queries, cursors, bulks and files are the driver's, and known by a
    number; a query, cursor, bulk or file is kept with the session it was got from. A
    call is indexed by the type of its answer. *)
Record handle := mkHandle { h_session : nat; h_id : nat }.
Record ChangeInfo := mkChangeInfo { ci_Updated : Z; ci_Removed : Z }.

Inductive mgo_call : Type → Type :=
| CDial (url : string) (timeout : Z) : mgo_call (result error nat)
| CCopy (s : nat) : mgo_call nat
| CClose (s : nat) : mgo_call unit
| CLogout (s : nat) : mgo_call unit
| CSetPoolLimit (s : nat) (limit : Z) : mgo_call unit
| CRefresh (s : option nat) : mgo_call unit
| CSetMode (s : option nat) (m : mode) (refresh : bool) : mgo_call unit
| CInsert (s : nat) (coll : string) (docs : list val) : mgo_call (option error)
| CUpdate (s : nat) (coll : string) (cond change : val) : mgo_call (option error)
| CUpsert (s : nat) (coll : string) (cond change : val) : mgo_call (option error)
| CRemove (s : nat) (coll : string) (cond : val) : mgo_call (option error)
| CRemoveAll (s : nat) (coll : string) (cond : val) : mgo_call (option ChangeInfo * option error)
| CFind (s : nat) (coll : string) (cond : val) : mgo_call (option nat)
| CSortLimit (q : handle) (field : string) (limit : Z) : mgo_call (option nat)
| COneMap (q : option handle) : mgo_call (result error bsonM)
| COneInto (q : option handle) (value : val) : mgo_call (option error)
| CAllInto (q : option handle) (all : val) : mgo_call (option error)
| CApply (q : option handle) (change val : val) : mgo_call (option error)
| CIter (q : option handle) : mgo_call nat
| CNextMap (it : handle) : mgo_call (option bsonM)
| CBulk (s : nat) (coll : string) : mgo_call nat
| CBulkInsert (b : handle) (docs : list val) : mgo_call unit
| CBulkUpdate (b : handle) (selector update : val) : mgo_call unit
| CBulkUpsert (b : handle) (selector update : val) : mgo_call unit
| CBulkRun (b : handle) : mgo_call (option error)
| CGfsOpen (s : nat) (coll filename : string) : mgo_call (option nat * option error)
| CGfsCreate (s : nat) (coll filename : string) : mgo_call (option nat * option error)
| CGfsFilesFind (s : nat) (coll : string) (cond : val) : mgo_call (option nat)
| CGfsRemoveId (s : nat) (coll : string) (id : val) : mgo_call (option error)
| CGfsRemove (s : nat) (coll filename : string) : mgo_call (option error)
| CFileSize (f : handle) : mgo_call Z
| CFileRead (f : handle) (len : Z) : mgo_call (list Byte.byte * option error)
| CFileWrite (f : handle) (data : list Byte.byte) : mgo_call (option error)
| CFileId (f : handle) : mgo_call val
| CFileClose (f : handle) : mgo_call unit
| CNextId (it : handle) : mgo_call (option val).

(** What the trace keeps of a call: the sessions copied and closed, the modes set, and
    the session that a call uses, itself or through a query, cursor, bulk or file got from
    it; a call on a nil query, which uses none; and the calls that are not made on a
    session that is there. *)
Inductive event :=
| Copied (s0 s : nat)
| CopyFailed (s0 : nat)
| Closed (s : nat)
| Moded (s : nat) (m : mode)
| Used (s : nat)
| UsedNil
| Other.
#[global] Instance event_eq_dec : EqDecision event.
Proof. solve_decision. Defined.

Definition used (q : option handle) : event := match q with Some q => Used (h_session q) | None => UsedNil end.
Definition event_of {R} (c : mgo_call R) : outcome R → event :=
  match c in mgo_call R return outcome R → event with
  | CCopy s0 => λ r, match r with Ret s => Copied s0 s | _ => CopyFailed s0 end
  | CClose s => λ _, Closed s
  | CSetMode (Some s) m _ => λ _, Moded s m
  | CLogout s | CSetPoolLimit s _ | CRefresh (Some s) => λ _, Used s
  | CInsert s _ _ | CUpdate s _ _ _ | CUpsert s _ _ _ | CRemove s _ _ => λ _, Used s
  | CRemoveAll s _ _ | CFind s _ _ | CBulk s _ => λ _, Used s
  | CGfsOpen s _ _ | CGfsCreate s _ _ | CGfsFilesFind s _ _ => λ _, Used s
  | CGfsRemoveId s _ _ | CGfsRemove s _ _ => λ _, Used s
  | COneMap q | COneInto q _ | CAllInto q _ | CApply q _ _ | CIter q => λ _, used q
  | CSortLimit h _ _ | CNextMap h | CNextId h => λ _, used (Some h)
  | CBulkInsert h _ | CBulkUpdate h _ _ | CBulkUpsert h _ _ | CBulkRun h => λ _, used (Some h)
  | CFileSize h | CFileRead h _ | CFileWrite h _ | CFileId h | CFileClose h => λ _, used (Some h)
  | CDial _ _ | CSetMode None _ _ | CRefresh None => λ _, Other
  end.

(** [DbOperate] *)
Record DbOperate := mkDbOperate { session : option nat; timeout : Z; dbcfg : DbCfg }.
Definition NewDbOperate (dbcfg : DbCfg) (timeout : Z) : DbOperate := mkDbOperate None timeout dbcfg.
Definition GetDbSession (this : DbOperate) : option nat := session this.

Section operations.
(** The driver: its state, and what it answers. *)
Context {D : Type} (drv : ∀ R, mgo_call R → D → D * outcome R).

Record world := mkWorld {
  this : DbOperate;
  maps : gmap nat bsonM;    (* the maps made by [make(bson.M)], by their address *)
  cells : gmap nat Z;       (* the local variables a closure captures *)
  trace : list event;
  driver : D;
}.
Implicit Types w : world.

Definition perform {R} (c : mgo_call R) : prog world R := λ w,
  let (d, r) := drv R c (driver w) in
  (mkWorld (this w) (maps w) (cells w) (trace w ++ [event_of c r]) d, r).
Definition set_session (s : option nat) : prog world unit := modify (λ w,
  mkWorld (mkDbOperate s (timeout (this w)) (dbcfg (this w))) (maps w) (cells w) (trace w) (driver w)).
Definition make_map : prog world nat := λ w,
  let m := fresh (dom (maps w)) in
  (mkWorld (this w) (<[m:=[]]> (maps w)) (cells w) (trace w) (driver w), Ret m).
Definition set_map (m : nat) (d : bsonM) : prog world unit := modify (λ w,
  mkWorld (this w) (<[m:=d]> (maps w)) (cells w) (trace w) (driver w)).
Definition new_cell : prog world nat := λ w,
  let c := fresh (dom (cells w)) in
  (mkWorld (this w) (maps w) (<[c:=0%Z]> (cells w)) (trace w) (driver w), Ret c).
Definition set_cell (c : nat) (z : Z) : prog world unit := modify (λ w,
  mkWorld (this w) (maps w) (<[c:=z]> (cells w)) (trace w) (driver w)).
Definition get_cell (c : nat) : prog world Z := λ w, (w, Ret (cells w !!! c)).
Definition get_map (m : nat) : prog world bsonM := λ w, (w, Ret (maps w !!! m)).

(** What a call on the session [s], or on something got from it, answers. *)
Definition got (s : nat) (m : prog world nat) : prog world handle := m ≫= λ h, mret (mkHandle s h).
Definition got_opt (s : nat) (m : prog world (option nat)) : prog world (option handle) :=
  m ≫= λ h, mret (mkHandle s <$> h).

(** How every operation begins: an error without a session, a copy of the session
    that is closed at the end otherwise; the [Strong] ones set its mode. *)
Definition with_session {A} (nil_answer : A) (body : nat → prog world A) : prog world A :=
  get_state ≫= λ w,
  match session (this w) with
  | None => mret nil_answer
  | Some s0 => perform (CCopy s0) ≫= λ s, deferring (body s) (perform (CClose s))
  end.
Definition with_strong_session {A} (nil_answer : A) (body : nat → prog world A) : prog world A :=
  with_session nil_answer (λ s, perform (CSetMode (Some s) Strong true) ≫= λ _, body s).
Definition nil_err : option error := Some MONGODB_SESSION_NIL_ERR.
Definition set_change (change : val) : val := VM [("$set", change)].

Definition SetMode (mode : Z) (refresh : bool) : prog world unit :=
  get_state ≫= λ w,
  perform (CSetMode (session (this w)) (if decide (mode = 1%Z) then Strong else Monotonic) refresh).

Definition OpenDB (set_index_func : option (nat → prog world unit)) : prog world (option error) :=
  get_state ≫= λ w,
  perform (CDial (DbCfg_String (dbcfg (this w))) (timeout (this w))) ≫= λ r,
  match r with
  | Err e => set_session None ≫= λ _, panicking (PanicVal (Error e))
  | Ok s =>
      set_session (Some s) ≫= λ _,
      perform (CSetMode (Some s) Monotonic true) ≫= λ _,
      (if set_index_func is Some f then f s else mret tt) ≫= λ _,
      mret None
  end.

Definition CloseDB : prog world unit :=
  get_state ≫= λ w,
  match session (this w) with
  | Some s => perform (CLogout s) ≫= λ _, perform (CClose s) ≫= λ _, set_session None
  | None => mret tt
  end.

Definition RefreshSession : prog world unit :=
  get_state ≫= λ w, perform (CRefresh (session (this w))).

Definition Insert (collection : string) (doc : val) : prog world (option error) :=
  with_session nil_err (λ s, perform (CInsert s collection [doc])).
Definition StrongInsert (collection : string) (doc : val) : prog world (option error) :=
  with_strong_session nil_err (λ s, perform (CInsert s collection [doc])).
Definition Cover (collection : string) (cond change : val) : prog world (option error) :=
  with_session nil_err (λ s, perform (CUpdate s collection cond change)).
Definition Update (collection : string) (cond change : val) : prog world (option error) :=
  with_session nil_err (λ s, perform (CUpdate s collection cond (set_change change))).
Definition StrongUpdate (collection : string) (cond change : val) : prog world (option error) :=
  with_strong_session nil_err (λ s, perform (CUpdate s collection cond (set_change change))).
Definition UpdateInsert (collection : string) (cond doc : val) : prog world (option error) :=
  with_session nil_err (λ s, perform (CUpsert s collection cond (set_change doc))).
Definition StrongUpdateInsert (collection : string) (cond doc : val) : prog world (option error) :=
  with_strong_session nil_err (λ s, perform (CUpsert s collection cond (set_change doc))).

Definition RemoveOne (collection cond_name : string) (cond_value : Z) : prog world (option error) :=
  with_session nil_err (λ s, perform (CRemove s collection (VM [(cond_name, VInt64 cond_value)]))).
Definition RemoveOneByCond (collection : string) (cond : val) : prog world (option error) :=
  with_session nil_err (λ s, perform (CRemove s collection cond)).
Definition RemoveAll (collection : string) (cond : val) : prog world (option error) :=
  with_session nil_err (λ s,
    perform (CRemoveAll s collection cond) ≫= λ '(change, err),
    if decide (err ≠ None ∧ err ≠ Some ErrNotFound) then mret err
    else match change with
         | None => panicking NilDereference
         | Some _ => mret None
         end).

Definition run_handler {A} (resHandler : option (A → prog world (option error))) (a : A)
  : prog world (option error) :=
  match resHandler with Some h => h a | None => mret None end.

Definition find_one_body (collection : string) (cond : val)
  (resHandler : option (nat → prog world (option error))) (s : nat) : prog world (option error) :=
  got_opt s (perform (CFind s collection cond)) ≫= λ q,
  make_map ≫= λ m,
  perform (COneMap q) ≫= λ r,
  match r with
  | Err e => mret (Some e)
  | Ok d => set_map m d ≫= λ _, run_handler resHandler m
  end.
Definition DBFindOne (collection : string) (cond : val) resHandler : prog world (option error) :=
  with_session nil_err (find_one_body collection cond resHandler).
Definition StrongDBFindOne (collection : string) (cond : val) resHandler : prog world (option error) :=
  with_strong_session nil_err (find_one_body collection cond resHandler).

(** [for iter.Next(m) == true]: one map for all the documents. *)
Fixpoint next_loop (fuel : nat) (it : handle) (m : nat) (resHandler : option (nat → prog world (option error)))
  : prog world (option error) :=
  match fuel with
  | O => stuck
  | S fuel =>
      perform (CNextMap it) ≫= λ r,
      match r with
      | None => mret None
      | Some d =>
          set_map m d ≫= λ _,
          run_handler resHandler m ≫= λ err,
          match err with
          | Some e => mret (Some e)
          | None => next_loop fuel it m resHandler
          end
      end
  end.
Definition find_all_body (fuel : nat) (collection : string) (cond : val)
  (resHandler : option (nat → prog world (option error))) (s : nat) : prog world (option error) :=
  got_opt s (perform (CFind s collection cond)) ≫= λ q,
  match q with
  | None => mret (Some MONGODB_DBFINDALL_ERR)
  | Some _ =>
      got s (perform (CIter q)) ≫= λ it,
      make_map ≫= λ m,
      next_loop fuel it m resHandler
  end.
Definition DBFindAll (fuel : nat) (collection : string) (cond : val) resHandler : prog world (option error) :=
  with_session nil_err (find_all_body fuel collection cond resHandler).
Definition StrongDBFindAll (fuel : nat) (collection : string) (cond : val) resHandler
  : prog world (option error) :=
  with_strong_session nil_err (find_all_body fuel collection cond resHandler).

Definition find_ex_body (collection : string) (cond : val)
  (resHandler : option (handle → prog world (option error))) (s : nat) : prog world (option error) :=
  got_opt s (perform (CFind s collection cond)) ≫= λ q,
  match q with
  | None => mret (Some MONGODB_DBFINDALL_ERR)
  | Some q => run_handler resHandler q
  end.
Definition DBFindAllEx (collection : string) (cond : val) resHandler : prog world (option error) :=
  with_session nil_err (find_ex_body collection cond resHandler).
Definition StrongDBFindAllEx (collection : string) (cond : val) resHandler : prog world (option error) :=
  with_strong_session nil_err (find_ex_body collection cond resHandler).

Definition FindAndModify (collection : string) (cond change value : val) : prog world (option error) :=
  with_strong_session nil_err (λ s,
    got_opt s (perform (CFind s collection cond)) ≫= λ q, perform (CApply q change value)).
Definition FindAll (collection : string) (cond all : val) : prog world (option error) :=
  with_strong_session nil_err (λ s,
    got_opt s (perform (CFind s collection cond)) ≫= λ q, perform (CAllInto q all)).
Definition StrongBatchInsert (collection : string) (docs : list val) : prog world (option error) :=
  with_strong_session nil_err (λ s, perform (CInsert s collection docs)).
Definition FindOne (collection : string) (cond value : val) : prog world (option error) :=
  with_strong_session nil_err (λ s,
    got_opt s (perform (CFind s collection cond)) ≫= λ q, perform (COneInto q value)).
Definition DeleteOne (collection : string) (cond : val) : prog world (option error) :=
  with_strong_session nil_err (λ s, perform (CRemove s collection cond)).
Definition DeleteAll (collection : string) (cond : val) : prog world (Z * option error) :=
  with_strong_session (0%Z, nil_err) (λ s,
    perform (CRemoveAll s collection cond) ≫= λ '(changeInfo, err),
    match err, changeInfo with
    | Some e, _ => mret (0%Z, Some e)
    | None, Some c => mret (ci_Removed c, None)
    | None, None => panicking NilDereference
    end).

(** *** GridFS *)
Definition OpenGridFile (collection filename : string) : prog world (list Byte.byte * option error) :=
  with_session ([], nil_err) (λ s,
    perform (CGfsOpen s collection filename) ≫= λ '(fsfile, err),
    match err, mkHandle s <$> fsfile with
    | Some e, _ => mret ([], Some e)
    | None, None => mret ([], Some MONGODB_OPENGRIDFILE_ERR)
    | None, Some f =>
        deferring
          (perform (CFileSize f) ≫= λ size,
           if decide (size < 0)%Z then panicking MakeNegativeLen
           else
             perform (CFileRead f size) ≫= λ '(bs, err),
             match err with
             | Some _ => mret ([], Some MONGODB_READGRIDFILE_ERR)
             | None => mret (resize (Z.to_nat size) Byte.x00 bs, None)
             end)
          (perform (CFileClose f))
    end).

(** The loop that removes the other files of the name. *)
Fixpoint remove_others (fuel : nat) (s : nat) (collection : string) (it : handle) (err : option error)
  : prog world (option error) :=
  match fuel with
  | O => stuck
  | S fuel =>
      perform (CNextId it) ≫= λ r,
      match r with
      | None => mret err
      | Some id =>
          perform (CGfsRemoveId s collection id) ≫= λ e,
          match e with
          | Some _ => mret e
          | None => remove_others fuel s collection it err
          end
      end
  end.
Definition CreateGridFile (fuel : nat) (collection filename : string)
  (resHandler : option (handle → prog world (option error))) : prog world (option error) :=
  with_session nil_err (λ s,
    perform (CGfsCreate s collection filename) ≫= λ '(file, err),
    match err, mkHandle s <$> file with
    | Some e, _ => mret (Some e)
    | None, None => mret (Some MONGODB_CREATEGRIDFILE_ERR)
    | None, Some f =>
        run_handler resHandler f ≫= λ err,
        match err with
        | Some e => mret (Some e)
        | None =>
            perform (CFileId f) ≫= λ newfileId,
            perform (CFileClose f) ≫= λ _,
            got_opt s (perform (CGfsFilesFind s collection
              (VM [("filename", VStr filename); ("_id", VM [("$ne", newfileId)])]))) ≫= λ query,
            got s (perform (CIter query)) ≫= λ it,
            remove_others fuel s collection it None
        end
    end).
Definition GridFileExists (collection filename : string) : prog world (bool * option error) :=
  with_session (false, nil_err) (λ s,
    got_opt s (perform (CGfsFilesFind s collection (VM [("filename", VStr filename)]))) ≫= λ query,
    perform (COneMap query) ≫= λ r,
    match r with
    | Err e => mret (false, if decide (ErrNotFound = e) then None else Some e)
    | Ok _ => mret (true, None)
    end).
Definition RemoveGridFile (collection filename : string) : prog world (bool * option error) :=
  with_session (false, nil_err) (λ s,
    perform (CGfsRemove s collection filename) ≫= λ err,
    match err with
    | Some e => mret (if decide (ErrNotFound = e) then (true, None) else (false, Some e))
    | None => mret (true, None)
    end).
Definition WriteGridFile (fuel : nat) (collection filename : string) (data : list Byte.byte)
  : prog world (option error) :=
  CreateGridFile fuel collection filename (Some (λ file, perform (CFileWrite file data))).

(** *** Bulks *)
Definition BulkInsertDoc (collection : string) (docs : list val) : prog world (option error) :=
  with_session nil_err (λ s,
    got s (perform (CBulk s collection)) ≫= λ bulk,
    perform (CBulkInsert bulk docs) ≫= λ _, perform (CBulkRun bulk)).
Definition BulkInsert (collection : string) (pairs : list bsonM) : prog world (option error) :=
  with_session nil_err (λ s,
    got s (perform (CBulk s collection)) ≫= λ bulk,
    for_each pairs (λ m, perform (CBulkInsert bulk [VM m])) ≫= λ _, perform (CBulkRun bulk)).
(** [for i := 0; i < len(pairs); i += 2], reading [pairs[i]] and [pairs[i+1]]. *)
Fixpoint pairs_loop (body : bsonM → bsonM → prog world unit) (pairs : list bsonM) : prog world unit :=
  match pairs with
  | [] => mret tt
  | [_] => panicking IndexOutOfRange
  | selector :: update :: pairs => body selector update ≫= λ _, pairs_loop body pairs
  end.
Definition BulkUpdate (collection : string) (pairs : list bsonM) : prog world (option error) :=
  with_session nil_err (λ s,
    got s (perform (CBulk s collection)) ≫= λ bulk,
    pairs_loop (λ a b, perform (CBulkUpdate bulk (VM a) (VM b))) pairs ≫= λ _, perform (CBulkRun bulk)).
Definition BulkUpsert (collection : string) (pairs : list bsonM) : prog world (option error) :=
  with_session nil_err (λ s,
    got s (perform (CBulk s collection)) ≫= λ bulk,
    pairs_loop (λ a b, perform (CBulkUpsert bulk (VM a) (VM b))) pairs ≫= λ _, perform (CBulkRun bulk)).

(** The largest value of a field: the handler assigns the captured [id], which
    the operation answers afterwards; an error is answered as 0 without one. *)
Definition max_id_handler (field : string) (id : nat) (mq : handle) : prog world (option error) :=
  got_opt (h_session mq) (perform (CSortLimit mq ("-" +:+ field) 1)) ≫= λ q,
  make_map ≫= λ m,
  perform (COneMap q) ≫= λ r,
  (match r with Ok d => set_map m d | Err _ => set_cell id 0 end) ≫= λ _,
  get_map m ≫= λ d,
  set_cell id (match bson_get d field with Some (VInt64 z) => z | _ => 0 end)%Z ≫= λ _,
  mret None.
Definition GetMaxId (collection field : string) : prog world (Z * option error) :=
  new_cell ≫= λ id,
  DBFindAllEx collection VNil (Some (max_id_handler field id)) ≫= λ err,
  match err with
  | Some _ => mret (0%Z, None)
  | None => get_cell id ≫= λ z, mret (z, None)
  end.

(** A handler that copies what it is given into another collection. *)
Definition copy_to (collection : string) (m : nat) : prog world (option error) :=
  get_map m ≫= λ d, Insert collection (VM d).

(** ** Every operation on the collections *)
Abbreviation map_handler := (option (nat → prog world (option error))).
Abbreviation handle_handler := (option (handle → prog world (option error))).
Inductive operation :=
| OInsert (collection : string) (doc : val)
| OStrongInsert (collection : string) (doc : val)
| OCover (collection : string) (cond change : val)
| OUpdate (collection : string) (cond change : val)
| OStrongUpdate (collection : string) (cond change : val)
| OUpdateInsert (collection : string) (cond doc : val)
| OStrongUpdateInsert (collection : string) (cond doc : val)
| ORemoveOne (collection cond_name : string) (cond_value : Z)
| ORemoveOneByCond (collection : string) (cond : val)
| ORemoveAll (collection : string) (cond : val)
| ODBFindOne (collection : string) (cond : val) (h : map_handler)
| OStrongDBFindOne (collection : string) (cond : val) (h : map_handler)
| ODBFindAll (fuel : nat) (collection : string) (cond : val) (h : map_handler)
| OStrongDBFindAll (fuel : nat) (collection : string) (cond : val) (h : map_handler)
| ODBFindAllEx (collection : string) (cond : val) (h : handle_handler)
| OStrongDBFindAllEx (collection : string) (cond : val) (h : handle_handler)
| OFindAndModify (collection : string) (cond change value : val)
| OFindAll (collection : string) (cond all : val)
| OStrongBatchInsert (collection : string) (docs : list val)
| OFindOne (collection : string) (cond value : val)
| ODeleteOne (collection : string) (cond : val)
| ODeleteAll (collection : string) (cond : val)
| OOpenGridFile (collection filename : string)
| OCreateGridFile (fuel : nat) (collection filename : string) (h : handle_handler)
| OGridFileExists (collection filename : string)
| ORemoveGridFile (collection filename : string)
| OBulkInsertDoc (collection : string) (docs : list val)
| OBulkInsert (collection : string) (pairs : list bsonM)
| OBulkUpdate (collection : string) (pairs : list bsonM)
| OGetMaxId (collection field : string)
| OWriteGridFile (fuel : nat) (collection filename : string) (data : list Byte.byte)
| OBulkUpsert (collection : string) (pairs : list bsonM).

Inductive db_answer :=
| AErr (err : option error)
| AInt (z : Z) (err : option error)
| ABool (b : bool) (err : option error)
| ABytes (data : list Byte.byte) (err : option error).
Definition error_of (a : db_answer) : option error :=
  match a with AErr e | AInt _ e | ABool _ e | ABytes _ e => e end.

Definition as_err (m : prog world (option error)) : prog world db_answer := m ≫= λ e, mret (AErr e).
Definition as_int (m : prog world (Z * option error)) : prog world db_answer := m ≫= λ r, mret (AInt r.1 r.2).
Definition as_bool (m : prog world (bool * option error)) : prog world db_answer := m ≫= λ r, mret (ABool r.1 r.2).
Definition as_bytes (m : prog world (list Byte.byte * option error)) : prog world db_answer :=
  m ≫= λ r, mret (ABytes r.1 r.2).

Definition run (op : operation) : prog world db_answer :=
  match op with
  | OInsert c d => as_err (Insert c d)
  | OStrongInsert c d => as_err (StrongInsert c d)
  | OCover c x y => as_err (Cover c x y)
  | OUpdate c x y => as_err (Update c x y)
  | OStrongUpdate c x y => as_err (StrongUpdate c x y)
  | OUpdateInsert c x y => as_err (UpdateInsert c x y)
  | OStrongUpdateInsert c x y => as_err (StrongUpdateInsert c x y)
  | ORemoveOne c n v => as_err (RemoveOne c n v)
  | ORemoveOneByCond c x => as_err (RemoveOneByCond c x)
  | ORemoveAll c x => as_err (RemoveAll c x)
  | ODBFindOne c x h => as_err (DBFindOne c x h)
  | OStrongDBFindOne c x h => as_err (StrongDBFindOne c x h)
  | ODBFindAll n c x h => as_err (DBFindAll n c x h)
  | OStrongDBFindAll n c x h => as_err (StrongDBFindAll n c x h)
  | ODBFindAllEx c x h => as_err (DBFindAllEx c x h)
  | OStrongDBFindAllEx c x h => as_err (StrongDBFindAllEx c x h)
  | OFindAndModify c x y z => as_err (FindAndModify c x y z)
  | OFindAll c x y => as_err (FindAll c x y)
  | OStrongBatchInsert c l => as_err (StrongBatchInsert c l)
  | OFindOne c x y => as_err (FindOne c x y)
  | ODeleteOne c x => as_err (DeleteOne c x)
  | ODeleteAll c x => as_int (DeleteAll c x)
  | OOpenGridFile c f => as_bytes (OpenGridFile c f)
  | OCreateGridFile n c f h => as_err (CreateGridFile n c f h)
  | OGridFileExists c f => as_bool (GridFileExists c f)
  | ORemoveGridFile c f => as_bool (RemoveGridFile c f)
  | OBulkInsertDoc c l => as_err (BulkInsertDoc c l)
  | OBulkInsert c l => as_err (BulkInsert c l)
  | OBulkUpdate c l => as_err (BulkUpdate c l)
  | OGetMaxId c f => as_int (GetMaxId c f)
  | OWriteGridFile n c f d => as_err (WriteGridFile n c f d)
  | OBulkUpsert c l => as_err (BulkUpsert c l)
  end.

(** ** Sessions are given back

    [scoped o tr]: what is asked in [tr] is asked of the session [o], directly or through
    something got from it, and of sessions copied in it, each of which is used from its
    copy to its closing, and neither before nor after. *)
Inductive scoped : option nat → list event → Prop :=
| scoped_nil o : scoped o []
| scoped_used s tr : scoped (Some s) tr → scoped (Some s) (Used s :: tr)
| scoped_used_nil s tr : scoped (Some s) tr → scoped (Some s) (UsedNil :: tr)
| scoped_moded s m tr : scoped (Some s) tr → scoped (Some s) (Moded s m :: tr)
| scoped_copy_failed o s0 tr : scoped o tr → scoped o (CopyFailed s0 :: tr)
| scoped_copy o s0 s body tr :
    scoped (Some s) body → scoped o tr → scoped o (Copied s0 s :: body ++ Closed s :: tr).
Hint Constructors scoped : core.

Lemma scoped_app o a b : scoped o a → scoped o b → scoped o (a ++ b).
Proof.
  intros Ha Hb. induction Ha as [| | | | |o s0 s body tr Hbody IHbody Ht IHt]; simpl; auto.
  rewrite <- app_assoc. simpl. auto.
Qed.
Lemma scoped_weaken o tr : scoped None tr → scoped o tr.
Proof. remember None as n eqn:E. induction 1; simplify_eq; auto. Qed.

Definition is_copy (s : nat) (e : event) : bool :=
  match e with Copied _ s' => bool_decide (s' = s) | _ => false end.
(** How often a session was got by a copy, and closed. *)
Definition copies (s : nat) (tr : list event) : nat :=
  length (filter (λ e, is_copy s e = true) tr).
Definition closes (s : nat) (tr : list event) : nat := length (filter (Closed s =.) tr).
Lemma scoped_balanced s o tr : scoped o tr → copies s tr = closes s tr.
Proof.
  unfold copies, closes.
  induction 1 as [| | | | |o s0 s' body tr Hb IHb Ht IHt]; [done|done|done|done|done|].
  rewrite !filter_cons, !filter_app, !filter_cons. simpl.
  repeat case_decide; simplify_eq/=; repeat case_bool_decide; simplify_eq/=;
    rewrite ?length_app; simpl; rewrite ?length_app; simpl; lia.
Qed.

(** Whatever happens, but for never returning and for a fatal error, which ends the
    process, [m] leaves a scoped trace. *)
Definition keeps (o : option nat) {A} (m : prog world A) : Prop := ∀ w,
  goes_on (m w).2 = true → ∃ tr, trace (m w).1 = trace w ++ tr ∧ scoped o tr.

Lemma kept_quiet o {A} (m : prog world A) : (∀ w, trace (m w).1 = trace w) → keeps o m.
Proof. intros H w _. exists []. by rewrite app_nil_r, H. Qed.
Lemma kept_mret o {A} (a : A) : keeps o (mret a).
Proof. by apply kept_quiet. Qed.
Lemma kept_bind o {A B} (m : prog world A) (f : A → prog world B) :
  keeps o m → (∀ a, keeps o (f a)) → keeps o (m ≫= f).
Proof.
  intros Hm Hf w. specialize (Hm w). unfold mbind, prog_bind.
  destruct (m w) as [w1 [a|p|]]; simpl in *; [|done..]. intros Hg.
  destruct (Hm eq_refl) as (t1 & E1 & H1). destruct (Hf a w1 Hg) as (t2 & E2 & H2). exists (t1 ++ t2).
  split; [by rewrite E2, E1, <- app_assoc|by apply scoped_app].
Qed.
Lemma kept_weaken o {A} (m : prog world A) : keeps None m → keeps o m.
Proof. intros H w Hg. destruct (H w Hg) as (tr & E & Ht). exists tr. eauto using scoped_weaken. Qed.
Lemma kept_perform o {R} (c : mgo_call R) :
  (∀ r, match event_of c r with
        | Used s | Moded s _ => o = Some s
        | UsedNil => is_Some o
        | CopyFailed _ => True
        | _ => False
        end) →
  keeps o (perform c).
Proof.
  intros H w Hg. unfold perform. destruct (drv R c (driver w)) as [d r] eqn:E. specialize (H r).
  eexists; (split; [reflexivity|]). destruct (event_of c _); simplify_eq; try done; auto.
  destruct H as [s ->]. auto.
Qed.
Lemma kept_deferring s s0 {A} (m : prog world A) w w' o :
  keeps (Some s) m → trace w' = trace w ++ [Copied s0 s] →
  let r := deferring m (perform (CClose s)) w' in
  goes_on r.2 = true → ∃ tr, trace r.1 = trace w ++ tr ∧ scoped o tr.
Proof.
  intros Hm E. specialize (Hm w'). unfold deferring.
  assert (∀ w1 tr r w2, trace w1 = trace w' ++ tr → scoped (Some s) tr →
    perform (CClose s) w1 = (w2, r) → ∃ tr', trace w2 = trace w ++ tr' ∧ scoped o tr') as Hclose.
  { intros w1 tr r w2 E1 H1 Hp. unfold perform in Hp. destruct (drv _ _ _) as [d r'] eqn:Ed.
    injection Hp as <- <-. exists (Copied s0 s :: tr ++ [Closed s]). cbn [trace event_of]. split.
    - by rewrite E1, E, <- !app_assoc.
    - by apply scoped_copy. }
  destruct (m w') as [w1 [a|p|]]; simpl in *; [| |done].
  - destruct (Hm eq_refl) as (tr & E1 & H1).
    destruct (perform (CClose s) w1) as [w2 [[]|p'|]] eqn:Ep; simpl; eauto.
  - destruct (fatal p) eqn:Ef; simpl; rewrite ?Ef; [done|]. destruct (Hm eq_refl) as (tr & E1 & H1).
    destruct (perform (CClose s) w1) as [w2 [[]|p'|]] eqn:Ep; simpl; eauto.
Qed.
Lemma kept_session o {A} (a : A) (body : nat → prog world A) :
  (∀ s, keeps (Some s) (body s)) → keeps o (with_session a body).
Proof.
  intros H w. unfold with_session, get_state, mbind, prog_bind.
  destruct (session (this w)) as [s0|]; [|exact (kept_mret o a w)].
  destruct (perform (CCopy s0) w) as [w1 r] eqn:Ep. unfold perform in Ep.
  destruct (drv _ (CCopy s0) (driver w)) as [d r'] eqn:Ec. injection Ep as <- <-.
  destruct r' as [s|p|]; [by apply (kept_deferring s s0)| |done].
  intros _. exists [CopyFailed s0]. cbn. auto.
Qed.
Lemma got_bind s {B} (m : prog world nat) (f : handle → prog world B) w :
  (got s m ≫= f) w = (m ≫= λ i, f (mkHandle s i)) w.
Proof. unfold got. by rewrite bind_assoc. Qed.
Lemma got_opt_bind s {B} (m : prog world (option nat)) (f : option handle → prog world B) w :
  (got_opt s m ≫= f) w = (m ≫= λ i, f (mkHandle s <$> i)) w.
Proof. unfold got_opt. by rewrite bind_assoc. Qed.
Lemma kept_got o s {B} (m : prog world nat) (f : handle → prog world B) :
  keeps o m → (∀ i, keeps o (f (mkHandle s i))) → keeps o (got s m ≫= f).
Proof. intros Hm Hf w. rewrite got_bind. by apply kept_bind. Qed.
Lemma kept_got_opt o s {B} (m : prog world (option nat)) (f : option handle → prog world B) :
  keeps o m → (∀ i, keeps o (f (mkHandle s <$> i))) → keeps o (got_opt s m ≫= f).
Proof. intros Hm Hf w. rewrite got_opt_bind. by apply kept_bind. Qed.
Lemma kept_strong_session o {A} (a : A) (body : nat → prog world A) :
  (∀ s, keeps (Some s) (body s)) → keeps o (with_strong_session a body).
Proof.
  intros H. apply kept_session. intros s. apply kept_bind; [by apply kept_perform|auto].
Qed.
Lemma kept_defer o {A} (m : prog world A) (c : prog world unit) :
  keeps o m → keeps o c → keeps o (deferring m c).
Proof.
  intros Hm Hc w. specialize (Hm w). unfold deferring.
  destruct (m w) as [w1 [a|p|]]; simpl in *; [| |done].
  - destruct (Hm eq_refl) as (t1 & E1 & H1). specialize (Hc w1).
    destruct (c w1) as [w2 [[]|p'|]]; simpl in *; try done; intros Hg;
      destruct (Hc Hg) as (t2 & E2 & H2); exists (t1 ++ t2);
      (split; [by rewrite E2, E1, <- app_assoc|by apply scoped_app]).
  - destruct (fatal p) eqn:Ef; simpl; rewrite ?Ef; [done|]. destruct (Hm eq_refl) as (t1 & E1 & H1).
    specialize (Hc w1). destruct (c w1) as [w2 [[]|p'|]]; simpl in *; try done; intros Hg;
      (destruct Hc as (t2 & E2 & H2); [done|]); exists (t1 ++ t2);
      (split; [by rewrite E2, E1, <- app_assoc|by apply scoped_app]).
Qed.
Lemma kept_for_each o {A} (l : list A) (body : A → prog world unit) :
  (∀ x, keeps o (body x)) → keeps o (for_each l body).
Proof.
  intros H. induction l as [|x l IH]; [apply kept_mret|]. by apply kept_bind.
Qed.
Lemma kept_pairs_loop o (body : bsonM → bsonM → prog world unit) pairs :
  (∀ a b, keeps o (body a b)) → keeps o (pairs_loop body pairs).
Proof.
  intros H. revert pairs. fix IH 1. intros [|a [|b pairs]]; simpl.
  - apply kept_mret.
  - by apply kept_quiet.
  - apply kept_bind; [apply H|]. intros _. apply IH.
Qed.
Definition handler_ok {A} (h : option (A → prog world (option error))) : Prop :=
  match h with Some h => ∀ a, keeps None (h a) | None => True end.
(** A handler that is given a query or a file may use its session. *)
Definition handle_handler_ok (h : option (handle → prog world (option error))) : Prop :=
  match h with Some h => ∀ a, keeps (Some (h_session a)) (h a) | None => True end.
Lemma kept_run_handle_handler (h : option (handle → prog world (option error))) s i :
  handle_handler_ok h → keeps (Some s) (run_handler h (mkHandle s i)).
Proof. destruct h; simpl; [intros H; apply (H (mkHandle s i))|intros _; apply kept_mret]. Qed.
Lemma kept_run_handler o {A} (h : option (A → prog world (option error))) a :
  handler_ok h → keeps o (run_handler h a).
Proof. destruct h; simpl; [intros H; by apply kept_weaken|intros _; apply kept_mret]. Qed.

(** One goal per call: each is made on the session in scope or on none. *)
Ltac keeps :=
  repeat first
    [ apply kept_session; intros ?
    | apply kept_strong_session; intros ?
    | apply kept_got; [|intros ?]
    | apply kept_got_opt; [|intros [?|]; cbn [fmap option_fmap option_map]]
    | apply kept_bind; [|intros ?]
    | apply kept_defer
    | apply kept_mret
    | apply kept_for_each; intros ?
    | apply kept_pairs_loop; intros ? ?
    | apply kept_run_handler; assumption
    | apply kept_run_handle_handler; assumption
    | apply kept_perform; cbn; intros []; done
    | apply kept_perform; cbn; intros ?;
        match goal with |- context [used ?q] => destruct q; simpl; first [done|by eexists] end
    | apply kept_quiet; done
    | assumption
    | match goal with |- context [mkHandle _ <$> ?x] => is_var x; destruct x; cbn [fmap option_fmap option_map] end
    | match goal with |- keeps _ (match ?x with _ => _ end) => destruct x end
    | match goal with |- keeps _ (let _ := ?x in _) => destruct x end ].

Lemma kept_next_loop fuel it m h : handler_ok h → keeps (Some (h_session it)) (next_loop fuel it m h).
Proof. intros H. induction fuel as [|fuel IH]; simpl; keeps. Qed.
Lemma kept_remove_others s fuel c i err : keeps (Some s) (remove_others fuel s c (mkHandle s i) err).
Proof. induction fuel as [|fuel IH]; simpl; keeps. Qed.
Lemma kept_find_one s c x h : handler_ok h → keeps (Some s) (find_one_body c x h s).
Proof. intros H. unfold find_one_body. keeps. Qed.
Lemma kept_find_all s fuel c x h : handler_ok h → keeps (Some s) (find_all_body fuel c x h s).
Proof. intros H. unfold find_all_body. keeps. by apply (kept_next_loop _ (mkHandle s _)). Qed.
Lemma kept_find_ex s c x h : handle_handler_ok h → keeps (Some s) (find_ex_body c x h s).
Proof. intros H. unfold find_ex_body. keeps. Qed.
Lemma kept_create o fuel c f h : handle_handler_ok h → keeps o (CreateGridFile fuel c f h).
Proof. intros H. unfold CreateGridFile. keeps; apply kept_remove_others. Qed.
Lemma kept_max_id f id : handle_handler_ok (Some (max_id_handler f id)).
Proof. intros q. unfold max_id_handler. keeps. Qed.

Lemma copy_to_ok collection : handler_ok (Some (copy_to collection)).
Proof. intros m. unfold copy_to, Insert. keeps. Qed.

Definition handlers_ok (op : operation) : Prop :=
  match op with
  | ODBFindOne _ _ h | OStrongDBFindOne _ _ h => handler_ok h
  | ODBFindAll _ _ _ h | OStrongDBFindAll _ _ _ h => handler_ok h
  | ODBFindAllEx _ _ h | OStrongDBFindAllEx _ _ h | OCreateGridFile _ _ _ h => handle_handler_ok h
  | _ => True
  end.

(** The answer without a session. *)
Definition nil_answer (op : operation) : db_answer :=
  match op with
  | OGetMaxId _ _ => AInt 0 None
  | ODeleteAll _ _ => AInt 0 nil_err
  | OOpenGridFile _ _ => ABytes [] nil_err
  | OGridFileExists _ _ | ORemoveGridFile _ _ => ABool false nil_err
  | _ => AErr nil_err
  end.

Lemma run_keeps op : handlers_ok op → keeps None (run op).
Proof.
  destruct op; simpl; intros H;
    (apply kept_bind; [|intros; apply kept_mret]);
    first [ apply kept_create; first [exact H | intros ?; keeps]
          | apply kept_session; intros s; first [by apply kept_find_one | by apply kept_find_all | by apply kept_find_ex]
          | apply kept_strong_session; intros s; first [by apply kept_find_one | by apply kept_find_all | by apply kept_find_ex]
          | unfold GetMaxId; apply kept_bind; [keeps|]; intros id; apply kept_bind; [|intros; keeps];
            apply kept_session; intros s; apply kept_find_ex, kept_max_id
          | progress unfold Insert, StrongInsert, Cover, Update, StrongUpdate, UpdateInsert, StrongUpdateInsert,
              RemoveOne, RemoveOneByCond, RemoveAll, FindAndModify, FindAll, StrongBatchInsert, FindOne,
              DeleteOne, DeleteAll, OpenGridFile, GridFileExists, RemoveGridFile, BulkInsertDoc, BulkInsert,
              BulkUpdate, BulkUpsert;
            keeps ].
Qed.

Lemma run_nil op w : session (this w) = None →
  ∃ w', run op w = (w', Ret (nil_answer op)) ∧
    this w' = this w ∧ maps w' = maps w ∧ trace w' = trace w ∧ driver w' = driver w.
Proof.
  intros Hs. destruct op; eexists; (split; [|shelve]);
    unfold run, as_err, as_int, as_bool, as_bytes; cbn;
    cbv [mbind prog_bind mret prog_ret Insert StrongInsert Cover Update StrongUpdate UpdateInsert StrongUpdateInsert
              RemoveOne RemoveOneByCond RemoveAll FindAndModify FindAll StrongBatchInsert FindOne
              DeleteOne DeleteAll OpenGridFile GridFileExists RemoveGridFile BulkInsertDoc BulkInsert
              BulkUpdate BulkUpsert DBFindOne StrongDBFindOne DBFindAll StrongDBFindAll DBFindAllEx StrongDBFindAllEx
              CreateGridFile WriteGridFile GetMaxId new_cell with_strong_session with_session get_state]; cbn;
    rewrite Hs; reflexivity.
  Unshelve. all: done.
Qed.

(** The operations that promise a strong session set the mode before any call. *)
Definition is_strong (op : operation) : bool :=
  match op with
  | OStrongInsert _ _ | OStrongUpdate _ _ _ | OStrongUpdateInsert _ _ _ | OStrongDBFindOne _ _ _
  | OStrongDBFindAll _ _ _ _ | OStrongDBFindAllEx _ _ _ | OStrongBatchInsert _ _ => true
  | OFindAndModify _ _ _ _ | OFindAll _ _ _ | OFindOne _ _ _ | ODeleteOne _ _ | ODeleteAll _ _ => true
  | _ => false
  end.

(** What an operation leaves: either nothing, or first a copy, and for the strong
    ones the mode. *)
Definition begins (strong : bool) (tr : list event) : Prop :=
  match tr with
  | [] => True
  | Copied s0 s :: rest => strong = true → head rest = Some (Moded s Strong)
  | [CopyFailed _] => True
  | _ => False
  end.

Definition begins_strong {A} (m : prog world A) : Prop := ∀ w w' r,
  m w = (w', r) → goes_on r = true → ∃ tr, trace w' = trace w ++ tr ∧ begins true tr.

Lemma begins_bind_ret {A B} (m : prog world A) (f : A → B) :
  begins_strong m → begins_strong (m ≫= λ a, mret (f a)).
Proof.
  intros Hm w w' r E Hr. unfold mbind, prog_bind in E.
  destruct (m w) as [w1 [a|p|]] eqn:E1; cbv [mret prog_ret] in E; simplify_eq; by eapply Hm.
Qed.
Lemma strong_session_begins {A} (a : A) (body : nat → prog world A) :
  (∀ s, keeps (Some s) (body s)) → begins_strong (with_strong_session a body).
Proof.
  intros Hb w w' r E Hr. unfold with_strong_session, with_session, get_state, mbind, prog_bind in E.
  destruct (session (this w)) as [s0|]; [|cbv [mret prog_ret] in E; simplify_eq; exists [];
    by rewrite app_nil_r].
  unfold perform at 1 in E. destruct (drv _ (CCopy s0) (driver w)) as [d [s|p|]] eqn:Ec;
    [|simplify_eq; by exists [CopyFailed s0]|by simplify_eq].
  unfold deferring in E. set (w1 := mkWorld _ _ _ _ d) in E.
  assert (∀ w2 t0 w3 r', trace w2 = trace w1 ++ Moded s Strong :: t0 → perform (CClose s) w2 = (w3, r') →
    ∃ tr, trace w3 = trace w ++ tr ∧ begins true tr) as Hclose.
  { intros w2 t0 w3 r' Et Ep. unfold perform in Ep. destruct (drv _ _ (driver w2)) as [d' r0].
    injection Ep as <- _. exists ([Copied s0 s; Moded s Strong] ++ t0 ++ [Closed s]). cbn [trace].
    rewrite Et. subst w1. cbn. by rewrite <- !app_assoc. }
  unfold perform at 1 in E. destruct (drv _ (CSetMode _ _ _) (driver w1)) as [d1 r1] eqn:Em.
  set (w2 := mkWorld _ _ _ _ d1) in E.
  assert (trace w2 = trace w1 ++ [Moded s Strong]) as Et2 by done.
  destruct r1 as [[]|p|]; cbn beta iota in E; [| |by simplify_eq].
  2:{ destruct (fatal p) eqn:Ef; simpl in E; rewrite Ef in E; [simplify_eq; simpl in Hr; by rewrite Ef in Hr|].
      destruct (perform (CClose s) w2) as [w4 [[]|p4|]] eqn:E4; simplify_eq;
      (eapply (Hclose w2 []); [exact Et2|exact E4]). }
  specialize (Hb s w2).
  destruct (body s w2) as [w3 [x|p|]]; simpl in E, Hb; [| |by simplify_eq].
  2:{ destruct (fatal p) eqn:Ef; [simplify_eq; simpl in Hr; by rewrite Ef in Hr|].
      destruct Hb as (t3 & E3 & _); [done|].
      destruct (perform (CClose s) w3) as [w4 [[]|p4|]] eqn:E4; simplify_eq;
      (eapply (Hclose w3 t3); [|exact E4]);
      change (trace w3 = trace w2 ++ t3) in E3; by rewrite E3, Et2, <- app_assoc. }
  destruct Hb as (t3 & E3 & _); [done|].
  destruct (perform (CClose s) w3) as [w4 [[]|p4|]] eqn:E4; simplify_eq;
    (eapply (Hclose w3 t3); [|exact E4]);
    change (trace w3 = trace w2 ++ t3) in E3; by rewrite E3, Et2, <- app_assoc.
Qed.
Lemma run_begins op : handlers_ok op → is_strong op = true → begins_strong (run op).
Proof.
  destruct op; intros Hh Hs; try discriminate Hs; apply begins_bind_ret, strong_session_begins;
    intros s; first [by apply kept_find_one | by apply kept_find_all | by apply kept_find_ex | keeps].
Qed.

(** C36: In every run of an operation that ends, by an answer or a panic of the driver or
    of the handler, each session copied is closed exactly once, and used only between the
    copy and the closing: by calls on the session itself and on every query, cursor, bulk
    and file that was got from it; nothing else is asked of the driver. Without a session
    the driver is not called and the answer is the nil-session error, except for GetMaxId,
    which answers 0 without an error. The operations that are to read their own writes set
    the strong mode on their copy before they use it. *)
Theorem sessions_returned op w w' r :
  handlers_ok op → run op w = (w', r) → goes_on r = true →
  (∃ tr, trace w' = trace w ++ tr ∧ scoped None tr ∧ (∀ s, copies s tr = closes s tr) ∧
     (is_strong op = true → begins true tr)) ∧
  (session (this w) = None →
     r = Ret (nil_answer op) ∧ trace w' = trace w ∧ driver w' = driver w ∧
     (error_of (nil_answer op) = nil_err ↔ ∀ c f, op ≠ OGetMaxId c f)).
Proof.
  intros Hh Hr Hs. split.
  - pose proof (run_keeps op Hh w) as H. rewrite Hr in H. destruct (H Hs) as (tr & E & Hsc).
    exists tr. split; [done|]. split; [done|]. split; [intros s; by eapply scoped_balanced|].
    intros Hst. destruct (run_begins op Hh Hst w w' r Hr Hs) as (tr' & E' & Hb). simpl in E.
    rewrite E in E'. by apply app_inv_head in E' as ->.
  - intros Hn. destruct (run_nil op w Hn) as (w0 & E & _ & _ & Et & Ed).
    rewrite Hr in E. simplify_eq. split; [done|]. split; [done|]. split; [done|].
    destruct op; simpl; split; try done; intros H; by destruct (H _ _ eq_refl).
Qed.


(** *** Iterating over the documents *)
Section cursors.
(** What the driver documents of queries and cursors: a cursor hands out the
    documents that matched, one by one, and nothing else changes what is left. *)
Context (matching : D → nat → string → val → list bsonM) (rest : D → handle → list bsonM).
Record cursor_laws : Prop := {
  law_copy : ∀ d s0, ∃ d' s, drv _ (CCopy s0) d = (d', Ret s) ∧ matching d' s = matching d s0;
  law_mode : ∀ d s m b, ∃ d', drv _ (CSetMode (Some s) m b) d = (d', Ret tt) ∧ matching d' s = matching d s;
  law_iter : ∀ d s coll cond, ∃ d1 q d2 it,
    drv _ (CFind s coll cond) d = (d1, Ret (Some q)) ∧
    drv _ (CIter (Some (mkHandle s q))) d1 = (d2, Ret it) ∧ rest d2 (mkHandle s it) = matching d s coll cond;
  law_next : ∀ d it, ∃ d',
    drv _ (CNextMap it) d = (d', Ret (head (rest d it))) ∧ rest d' it = tail (rest d it);
  law_close : ∀ d s, ∃ d', drv _ (CClose s) d = (d', Ret tt);
}.
Context (laws : cursor_laws).
(** A handler that answers by what it reads in its map. *)
Context (h : nat → prog world (option error)) (verdict : bsonM → option error).
Definition reads_map : Prop := ∀ m w, ∃ w',
  h m w = (w', Ret (verdict (maps w !!! m))) ∧
  this w' = this w ∧ maps w' = maps w ∧ rest (driver w') = rest (driver w).
Context (Hh : reads_map).

(** The first document the handler refuses, with those before it and it. *)
Fixpoint first_refused (docs : list bsonM) : option error :=
  match docs with [] => None | d :: docs => match verdict d with Some e => Some e | None => first_refused docs end end.
Fixpoint visited (docs : list bsonM) : list bsonM :=
  match docs with [] => [] | d :: docs => d :: match verdict d with Some _ => [] | None => visited docs end end.

Lemma perform_run {R} (c : mgo_call R) w d' r : drv R c (driver w) = (d', r) →
  perform c w = (mkWorld (this w) (maps w) (cells w) (trace w ++ [event_of c r]) d', r).
Proof. intros H. unfold perform. by rewrite H. Qed.

Lemma next_loop_result docs fuel it m w :
  rest (driver w) it = docs → length docs < fuel →
  ∃ w', next_loop fuel it m (Some h) w = (w', Ret (first_refused docs)) ∧
    this w' = this w ∧
    maps w' = match last (visited docs) with Some d => <[m:=d]> (maps w) | None => maps w end.
Proof.
  revert fuel w. induction docs as [|d docs IH]; intros [|fuel] w Hr Hl; simpl in Hl; try lia; simpl.
  - destruct (law_next laws (driver w) it) as (d' & E & _). rewrite Hr in E.
    rewrite (bind_Ret _ _ _ _ _ (perform_run _ w _ _ E)). cbn [head]. eexists. split; [reflexivity|done].
  - destruct (law_next laws (driver w) it) as (d' & E & Ed). rewrite Hr in E, Ed.
    rewrite (bind_Ret _ _ _ _ _ (perform_run _ w _ _ E)). cbn [head].
    set (w1 := mkWorld _ _ _ _ _).
    rewrite (bind_Ret (set_map m d) _ w1 _ tt eq_refl). cbv beta.
    set (w2 := mkWorld _ _ _ _ _).
    destruct (Hh m w2) as (w3 & E3 & Et3 & Em3 & Er3). simpl in E3, Em3, Et3, Er3.
    rewrite lookup_total_insert_eq in E3.
    rewrite (bind_Ret (h m) _ w2 _ _ E3).
    destruct (verdict d) as [e|].
    + eexists. split; [reflexivity|]. by rewrite Et3, Em3.
    + destruct (IH fuel w3) as (w' & E' & Et & Em).
      { by rewrite Er3. }
      { lia. }
      exists w'. rewrite E'. split; [done|]. rewrite Et, Em, Et3, Em3. split; [done|].
      destruct (visited docs) as [|d0 l] eqn:Ev; simpl; [done|].
      destruct (last (d0 :: l)) as [d1|] eqn:El; [|by apply last_None in El].
      by rewrite insert_insert_eq.
Qed.

(** Before the body, [with_session] only copies the session. *)
Lemma session_run {A} (a : A) (body : nat → prog world A) w s0 :
  session (this w) = Some s0 →
  ∃ s w1, matching (driver w1) s = matching (driver w) s0 ∧
    this w1 = this w ∧ maps w1 = maps w ∧
    ∀ w2 r, body s w1 = (w2, Ret r) →
    ∃ w3, with_session a body w = (w3, Ret r) ∧ this w3 = this w2 ∧ maps w3 = maps w2.
Proof.
  intros Hs. destruct (law_copy laws (driver w) s0) as (d' & s & E & Em).
  exists s, (mkWorld (this w) (maps w) (cells w) (trace w ++ [Copied s0 s]) d').
  split; [done|]. split; [done|]. split; [done|]. intros w2 r Hb.
  unfold with_session. rewrite (bind_Ret get_state _ w w w eq_refl). rewrite Hs.
  rewrite (bind_Ret _ _ _ _ _ (perform_run _ w _ _ E)). unfold deferring. cbn [event_of].
  rewrite Hb. destruct (law_close laws (driver w2) s) as (d3 & E3).
  rewrite (perform_run _ w2 _ _ E3). eexists. split; [reflexivity|done].
Qed.

(** What both kinds of iteration answer. *)
Definition finds (m : prog world (option error)) (w : world) (docs : list bsonM) : Prop :=
  ∃ w' a, m w = (w', Ret (first_refused docs)) ∧ this w' = this w ∧ maps w !! a = None ∧
    maps w' = match last (visited docs) with Some d => <[a:=d]> (maps w) | None => <[a:=[]]> (maps w) end.

Lemma find_all_body_result fuel coll cond s w :
  length (matching (driver w) s coll cond) < fuel →
  finds (find_all_body fuel coll cond (Some h) s) w (matching (driver w) s coll cond).
Proof.
  intros Hl. destruct (law_iter laws (driver w) s coll cond) as (d1 & q & d2 & it & E1 & E2 & Er).
  unfold finds, find_all_body. rewrite got_opt_bind, (bind_Ret _ _ _ _ _ (perform_run _ w _ _ E1)).
  cbn [fmap option_fmap option_map]. set (w1 := mkWorld _ _ _ _ d1).
  rewrite got_bind, (bind_Ret _ _ _ _ _ (perform_run (CIter (Some (mkHandle s q))) w1 _ _ E2)).
  set (w2 := mkWorld _ _ _ _ d2). set (a := fresh (dom (maps w))).
  set (w3 := mkWorld (this w) (<[a:=[]]> (maps w)) (cells w) (trace w2) d2).
  rewrite (bind_Ret make_map _ w2 w3 a eq_refl).
  destruct (next_loop_result (matching (driver w) s coll cond) fuel (mkHandle s it) a w3) as (w' & E & Et & Em);
    [done|lia|].
  exists w', a. rewrite E, Et, Em. split; [done|]. split; [done|]. split.
  - apply not_elem_of_dom, is_fresh.
  - subst w3. cbn [maps]. destruct (last _); [by rewrite insert_insert_eq|done].
Qed.

(** DBFindAll and StrongDBFindAll return, whatever the handler says of the
    documents: they answer what it says of the first one it refuses and nil when
    it refuses none. All the documents are handed over in one map, whose address
    is new and which keeps the last of them. *)
Theorem DBFindAll_result fuel coll cond w s0 :
  session (this w) = Some s0 → length (matching (driver w) s0 coll cond) < fuel →
  finds (DBFindAll fuel coll cond (Some h)) w (matching (driver w) s0 coll cond) ∧
  finds (StrongDBFindAll fuel coll cond (Some h)) w (matching (driver w) s0 coll cond).
Proof.
  intros Hs Hl. split.
  - destruct (session_run nil_err (find_all_body fuel coll cond (Some h)) w s0 Hs)
      as (s & w1 & Em & Et & Ep & Hrun). rewrite <- Em in Hl |- *.
    destruct (find_all_body_result fuel coll cond s w1 Hl) as (w2 & a & E & Et2 & Ea & Ep2).
    destruct (Hrun _ _ E) as (w3 & E3 & Et3 & Ep3).
    exists w3, a. rewrite <- Ep. split; [exact E3|]. by rewrite Et3, Et2, Ep3, Ep2, Et.
  - destruct (session_run nil_err (λ s, perform (CSetMode (Some s) Strong true) ≫= λ _,
      find_all_body fuel coll cond (Some h) s) w s0 Hs) as (s & w1 & Em & Et & Ep & Hrun).
    destruct (law_mode laws (driver w1) s Strong true) as (d' & Ed & Em').
    pose proof (perform_run _ w1 _ _ Ed) as Er. set (w1' := mkWorld _ _ _ _ d') in Er.
    rewrite <- Em, <- Em' in Hl |- *.
    destruct (find_all_body_result fuel coll cond s w1' Hl) as (w2 & a & E & Et2 & Ea & Ep2).
    destruct (Hrun w2 (first_refused (matching d' s coll cond))) as (w3 & E3 & Et3 & Ep3).
    { by rewrite (bind_Ret _ _ _ _ _ Er). }
    exists w3, a. rewrite <- Ep. split; [exact E3|].
    split; [by rewrite Et3, Et2|]. split; [exact Ea|]. by rewrite Ep3.
Qed.
End cursors.

End operations.

(** ** A concrete driver

    One collection, one cursor, and insertions that succeed; the session 0 is the
    one that is opened. *)
Definition list_drv (R : Type) (c : mgo_call R) (d : nat * (list bsonM * list bsonM))
  : (nat * (list bsonM * list bsonM)) * outcome R :=
  match c in mgo_call R return (nat * (list bsonM * list bsonM)) * outcome R with
  | CCopy _ => ((S d.1, d.2), Ret (S d.1))
  | CClose _ => (d, Ret tt)
  | CSetMode _ _ _ => (d, Ret tt)
  | CInsert _ _ _ => (d, Ret None)
  | CFind _ _ _ => (d, Ret (Some 0))
  | CIter _ => ((d.1, (d.2.1, d.2.1)), Ret 0)
  | CNextMap _ => ((d.1, (d.2.1, tail d.2.2)), Ret (head d.2.2))
  | _ => (d, Stuck)
  end.
Definition two_docs : list bsonM := [[("a", VInt64 1)]; [("bad", VInt64 2)]].
Definition opened : @world (nat * (list bsonM * list bsonM)) :=
  mkWorld (mkDbOperate (Some 0) 5 (NewDbCfg "h" 27017 "db" "" "")) ∅ ∅ [] (0, (two_docs, [])).
Definition no_bad (d : bsonM) : option error :=
  if bson_get d "bad" is Some _ then Some (OtherErr "bad") else None.
Definition refuse_bad (m : nat) : prog (@world (nat * (list bsonM * list bsonM))) (option error) :=
  get_map m ≫= λ d, mret (no_bad d).

Example url_without_user : DbCfg_String (NewDbCfg "h" 27017 "db" "" "pw") = "mongodb://h:27017/db".
Proof. vm_compute. reflexivity. Qed.
Example odd_pairs_panic :
  (BulkUpdate (λ R c d, match c in mgo_call R return nat * outcome R with
                        | CCopy s => (d, Ret 1) | CClose _ => (d, Ret tt) | CBulk _ _ => (d, Ret 0) | _ => (d, Stuck) end)
     "c" [[]] (mkWorld (this opened) ∅ ∅ [] 0)).2 = Panic IndexOutOfRange.
Proof. vm_compute. reflexivity. Qed.

Lemma list_drv_laws : cursor_laws list_drv (λ d _ _ _, d.2.1) (λ d _, d.2.2).
Proof. split; intros; repeat eexists; reflexivity. Qed.
Lemma refuse_bad_reads : reads_map (λ (d : nat * (list bsonM * list bsonM)) _, d.2.2) refuse_bad no_bad.
Proof. intros m w. eexists. split; [reflexivity|done]. Qed.

Definition copying : operation := OStrongDBFindAll 3 "c" VNil (Some (copy_to list_drv "d")).
Lemma sessions_returned_witness : ∃ w' r,
  run list_drv copying opened = (w', r) ∧
  (∃ tr, trace w' = trace opened ++ tr ∧ scoped None tr ∧ (∀ s, copies s tr = closes s tr) ∧
     (is_strong copying = true → begins true tr)) ∧
  trace w' = [Copied 0 1; Moded 1 Strong; Used 1; Used 1; Used 1; Copied 0 2; Used 2; Closed 2;
              Used 1; Copied 0 3; Used 3; Closed 3; Used 1; Closed 1].
Proof.
  destruct (run list_drv copying opened) as [w' r] eqn:E. exists w', r. split; [done|].
  assert (goes_on (run list_drv copying opened).2 = true) as Hr by (vm_compute; reflexivity).
  assert (trace (run list_drv copying opened).1 = trace w') as Ht by by rewrite E.
  rewrite E in Hr. split.
  - exact (proj1 (sessions_returned list_drv copying opened w' r (copy_to_ok list_drv "d") E Hr)).
  - rewrite <- Ht. vm_compute. reflexivity.
Defined.

Lemma DBFindAll_result_witness :
  finds no_bad (DBFindAll list_drv 3 "c" VNil (Some refuse_bad)) opened two_docs ∧
  first_refused no_bad two_docs = Some (OtherErr "bad").
Proof.
  split; [|reflexivity].
  apply (DBFindAll_result list_drv (λ d _ _ _, d.2.1) (λ d _, d.2.2) list_drv_laws refuse_bad no_bad
    refuse_bad_reads 3 "c" VNil opened 0); [reflexivity|]. simpl. lia.
Defined.
