(* ===== verification/Redis.v ===== *)
(** * Redis: the key-value store (hDataBase/redis/dboperate.go)

    redigo's pool and connections are a parameter that answers each call and may
    panic. Theorem: every operation sends one command on a connection of the pool
    that it gives back; which of them are commands Redis documents. *)
From S2P Require Import Prelude.
From stdpp Require Import pretty.

(** An argument of a command; a slice that is not expanded is one argument. *)
Inductive arg :=
| AStr (s : string)
| AInt (z : Z)
| AVal (v : positive)
| ASlice (l : list arg).

(** [DbCfg] *)
Record DbCfg := mkDbCfg {
  Host : string; Port : Z; Pwd : string; MaxIdle : Z; MaxActive : Z; IdleTimeout : Z; DbNum : Z }.
Definition NewDbCfg (host : string) (port : Z) (pwd : string) (maxIdle idleTimeout dbNum : Z) : DbCfg :=
  mkDbCfg host port pwd maxIdle 0 idleTimeout dbNum.

(** ** The library: a connection is known by a number, a reply by another *)
Abbreviation reply := (result string positive).
Inductive redigo_call : Type → Type :=
| CDial (network address : string) : redigo_call (result string nat)
| CGet : redigo_call nat                                          (* pool.Get() *)
| CDo (c : nat) (commandName : string) (args : list arg) : redigo_call reply
| CClose (c : nat) : redigo_call unit.

Inductive event :=
| Dialled (address : string)
| Got (c : nat)
| Did (c : nat) (commandName : string) (args : list arg)
| Returned (c : nat)
| NoConn.
Definition event_of {R} (c : redigo_call R) : outcome R → event :=
  match c in redigo_call R return outcome R → event with
  | CDial _ address => λ _, Dialled address
  | CGet => λ r, match r with Ret c => Got c | _ => NoConn end
  | CDo c name args => λ _, Did c name args
  | CClose c => λ _, Returned c
  end.

Section operations.
Context {D : Type} (drv : ∀ R, redigo_call R → D → D * outcome R).
Record world := mkWorld { trace : list event; driver : D }.

Definition perform {R} (c : redigo_call R) : prog world R := λ w,
  let (d, r) := drv R c (driver w) in (mkWorld (trace w ++ [event_of c r]) d, r).

(** The pool [NewRds] makes: its settings and its functions. *)
Record Pool := mkPool {
  p_Wait : bool; p_MaxIdle : Z; p_IdleTimeout : Z; p_MaxActive : Z;
  p_Dial : prog world (result string nat);
  p_TestOnBorrow : nat → prog world (option string);
}.
Definition second : Z := 1000000000.

Definition Dial (cfg : DbCfg) : prog world (result string nat) :=
  perform (CDial "tcp" (Host cfg +:+ ":" +:+ pretty (Port cfg))) ≫= λ r,
  match r with
  | Err e => mret (Err e)
  | Ok conn =>
      perform (CDo conn "AUTH" [AStr (Pwd cfg)]) ≫= λ r,
      match r with
      | Err e => perform (CClose conn) ≫= λ _, mret (Err e)
      | Ok _ =>
          perform (CDo conn "SELECT" [AInt (DbNum cfg)]) ≫= λ r,
          match r with
          | Err e => perform (CClose conn) ≫= λ _, mret (Err e)
          | Ok _ => mret (Ok conn)
          end
      end
  end.
Definition TestOnBorrow (conn : nat) : prog world (option string) :=
  perform (CDo conn "PING" []) ≫= λ r,
  match r with Err e => panicking (PanicVal e) | Ok _ => mret None end.
Definition NewRds (cfg : DbCfg) : Pool :=
  mkPool true (MaxIdle cfg) (swrap 64 (IdleTimeout cfg * second)) (MaxActive cfg) (Dial cfg) TestOnBorrow.

Definition do (commandName : string) (args : list arg) : prog world reply :=
  if decide (length args < 1) then mret (Err "missing required arguments")
  else
    perform CGet ≫= λ c,
    deferring (perform (CDo c commandName args)) (perform (CClose c)).

Definition Get (tbName : string) := do "GET" [AStr tbName].
Definition Set' (tbName : string) (val : arg) := do "SET" [AStr tbName; val].
Definition Del (tbName : string) := do "DEL" [AStr tbName].
Definition Exists (tbName : string) := do "EXISTS" [AStr tbName].
Definition Expire (tbName : string) (t : Z) := do "EXPIRE" [AStr tbName; AInt t].
Definition ZAdd (tbName : string) (score : Z) (key : string) := do "ZADD" [AStr tbName; AInt score; AStr key].
Definition ZLen (tbName : string) := do "ZCARD" [AStr tbName].
Definition ZLenInRange (tbName : string) (min max : Z) := do "ZCOUNT" [AStr tbName; AInt min; AInt max].
Definition ZIncrby (tbName : string) (addScore : Z) (key : string) :=
  do "ZINCRBY" [AStr tbName; AInt addScore; AStr key].
Definition ZRange (tbName : string) (startIndex endIndex : Z) (isWithScores : bool) :=
  if isWithScores
  then do "ZRANGE" [AStr tbName; AInt startIndex; AInt endIndex; AStr "WITHSCORES"]
  else do "ZRANGE" [AStr tbName; AInt startIndex; AInt endIndex].
Definition ZRevRange (tbName : string) (startIndex endIndex : Z) (isWithScores : bool) :=
  if isWithScores
  then do "ZREVRANGE" [AStr tbName; AInt startIndex; AInt endIndex; AStr "WITHSCORES"]
  else do "ZREVRANGE" [AStr tbName; AInt startIndex; AInt endIndex].
Definition ZShowSlefRanking (tbName key : string) := do "ZRANGE" [AStr tbName; AStr key].
Definition ZShowSlefRevRanking (tbName key : string) := do "ZREVRANK" [AStr tbName; AStr key].
Definition ZScore (tbName key : string) := do "ZSCORE" [AStr tbName; AStr key].
Definition ZRemove (tbName : string) (keys : list arg) := do "ZREM" [AStr tbName; ASlice keys].
Definition ZRemoveByIndex (tbName : string) (startIndex endIndex : Z) :=
  do "ZREMRANGEBYRANK" [AStr tbName; AInt startIndex; AInt endIndex].

(** Every operation. *)
Inductive operation :=
| OGet (tb : string) | OSet (tb : string) (val : arg) | ODel (tb : string) | OExists (tb : string)
| OExpire (tb : string) (t : Z) | OZAdd (tb : string) (score : Z) (key : string) | OZLen (tb : string)
| OZLenInRange (tb : string) (min max : Z) | OZIncrby (tb : string) (add : Z) (key : string)
| OZRange (tb : string) (i j : Z) (scores : bool) | OZRevRange (tb : string) (i j : Z) (scores : bool)
| OZShowSlefRanking (tb key : string) | OZShowSlefRevRanking (tb key : string) | OZScore (tb key : string)
| OZRemove (tb : string) (keys : list arg) | OZRemoveByIndex (tb : string) (i j : Z).
Definition run (op : operation) : prog world reply :=
  match op with
  | OGet tb => Get tb | OSet tb v => Set' tb v | ODel tb => Del tb | OExists tb => Exists tb
  | OExpire tb t => Expire tb t | OZAdd tb x k => ZAdd tb x k | OZLen tb => ZLen tb
  | OZLenInRange tb a b => ZLenInRange tb a b | OZIncrby tb a k => ZIncrby tb a k
  | OZRange tb i j b => ZRange tb i j b | OZRevRange tb i j b => ZRevRange tb i j b
  | OZShowSlefRanking tb k => ZShowSlefRanking tb k | OZShowSlefRevRanking tb k => ZShowSlefRevRanking tb k
  | OZScore tb k => ZScore tb k | OZRemove tb ks => ZRemove tb ks | OZRemoveByIndex tb i j => ZRemoveByIndex tb i j
  end.
End operations.

(** ** What Redis documents of these commands

    The arguments are strings and numbers; the indices and the times are integers. *)
Definition is_key (a : arg) : bool := if a is AStr _ then true else false.
Definition is_word (a : arg) : bool := if a is ASlice _ then false else true.
Definition is_int (a : arg) : bool := if a is AInt _ then true else false.
Definition scores_words (args : list arg) : bool :=
  match args with [s; m] => is_int s && is_word m | _ => false end.
Definition range_args (args : list arg) : bool :=
  match args with
  | [i; j] => is_int i && is_int j
  | [i; j; AStr "WITHSCORES"] => is_int i && is_int j
  | _ => false
  end.
Definition documented (name : string) (args : list arg) : bool :=
  match args with
  | [] => false
  | k :: args =>
      is_key k &&
      (if decide (name ∈ ["GET"; "ZCARD"]) then bool_decide (length args = 0)
       else if decide (name ∈ ["DEL"; "EXISTS"]) then forallb is_key args
       else if decide (name = "SET") then bool_decide (length args = 1) && forallb is_word args
       else if decide (name = "EXPIRE") then bool_decide (length args = 1) && forallb is_int args
       else if decide (name ∈ ["ZADD"; "ZINCRBY"]) then scores_words args
       else if decide (name ∈ ["ZCOUNT"; "ZREMRANGEBYRANK"]) then bool_decide (length args = 2) && forallb is_int args
       else if decide (name ∈ ["ZRANGE"; "ZREVRANGE"]) then range_args args
       else if decide (name ∈ ["ZREVRANK"; "ZRANK"; "ZSCORE"]) then bool_decide (length args = 1) && forallb is_word args
       else if decide (name = "ZREM") then bool_decide (length args ≠ 0) && forallb is_word args
       else false)
  end.
(** The operations that send such a command; a value to be set is not a slice. *)
Definition well_sent (op : operation) : bool :=
  match op with
  | OZShowSlefRanking _ _ | OZRemove _ _ => false
  | OSet _ v => is_word v
  | _ => true
  end.

Section commands.
Context {D : Type} (drv : ∀ R, redigo_call R → D → D * outcome R).
Implicit Types w : @world D.

Lemma do_trace name args w w' r : args ≠ [] → do drv name args w = (w', r) → goes_on r = true →
  trace w' = trace w ++ [NoConn] ∨
  ∃ c, trace w' = trace w ++ [Got c; Did c name args; Returned c].
Proof.
  intros Ha E Hr. unfold do in E. rewrite decide_False in E by (destruct args; simpl; [done|lia]).
  unfold mbind, prog_bind, perform at 1 in E. destruct (drv _ CGet _) as [d [c|p|]]; [|simplify_eq; by left|simplify_eq].
  right. exists c. unfold deferring, perform in E. cbn [driver trace] in E.
  destruct (drv _ (CDo c name args) d) as [d1 [x|p|]]; cbn [ended_by_fatal] in E;
    [|destruct (fatal p) eqn:Ef; [simplify_eq; simpl in Hr; by rewrite Ef in Hr|]|simplify_eq];
    cbn [driver trace] in E; destruct (drv _ (CClose c) d1) as [d2 [[]|p2|]]; simplify_eq;
    cbn [trace event_of]; by rewrite <- !app_assoc.
Qed.

(** Every operation that ends sends one command, on a connection taken from the
    pool that is given back whatever the command answers, or got none because
    the pool panicked. The command is one Redis documents, except from
    ZShowSlefRanking, which asks for a range instead of a rank, and ZRemove,
    which sends its keys as one argument. *)
Theorem commands_sent op w w' r : run drv op w = (w', r) → goes_on r = true →
  trace w' = trace w ++ [NoConn] ∨
  ∃ c name args, trace w' = trace w ++ [Got c; Did c name args; Returned c] ∧
    documented name args = well_sent op.
Proof.
  intros E Hr.
  assert (∃ name args, run drv op = do drv name args ∧ args ≠ [] ∧ documented name args = well_sent op)
    as (name & args & Eop & Ha & Hd).
  { destruct op as [| | | | | | | | |? ? ? []|? ? ? []| | | | |]; do 2 eexists; (split; [reflexivity|]); (split; [done|]);
      unfold documented; cbn; by rewrite ?andb_true_r. }
  rewrite Eop in E. destruct (do_trace name args w w' r Ha E Hr) as [|[c ?]]; [by left|].
  right. by exists c, name, args.
Qed.
End commands.

(** ** A concrete library: three connections at most, everything is answered *)
Definition echo_drv (R : Type) (c : redigo_call R) (n : nat) : nat * outcome R :=
  match c in redigo_call R return nat * outcome R with
  | CDial _ _ => (S n, Ret (Ok n))
  | CGet => if decide (n < 3) then (S n, Ret n) else (n, Panic (PanicVal "EOF"))
  | CDo _ _ _ => (n, Ret (Ok 1%positive))
  | CClose _ => (pred n, Ret tt)
  end.
Lemma commands_sent_witness :
  let op := OZRemove "rank" [AStr "a"; AStr "b"] in
  let r := run echo_drv op (mkWorld [] 0) in
  (trace r.1 = [NoConn] ∨
   ∃ c name args, trace r.1 = [Got c; Did c name args; Returned c] ∧ documented name args = well_sent op) ∧
  trace r.1 = [Got 0; Did 0 "ZREM" [AStr "rank"; ASlice [AStr "a"; AStr "b"]]; Returned 0].
Proof.
  intros op r. split; [|reflexivity].
  exact (commands_sent echo_drv op (mkWorld [] 0) r.1 r.2 eq_refl ltac:(reflexivity)).
Defined.
Example ping_failure_panics :
  (TestOnBorrow (λ R c d, match c in redigo_call R return nat * outcome R with
                          | CDo _ _ _ => (d, Ret (Err "EOF")) | _ => (d, Stuck) end) 0 (mkWorld [] 0)).2
  = Panic (PanicVal "EOF").
Proof. reflexivity. Qed.
