(* ===== verification/SyncQueue.v ===== *)
(** * hCommon: the synchronous queue

    syncQueue.go.  Goroutines that find the queue empty wait on a condition variable;
    [Signal] wakes the one that has waited longest, which looks again once it has the
    lock.  What runs under the lock is one step. *)
From S2P Require Import Prelude.

(** gopkg.in/eapache/queue.v1, which is not part of the repository: a queue adds at one
    end and removes at the other; [Peek] and [Remove] are only called on a queue whose
    length is not zero. *)
Class EapacheQueue (Q V : Type) := {
  queue_New : Q;
  queue_Add : V → Q → Q;
  queue_Length : Q → nat;
  queue_Peek : Q → option V;
  queue_Remove : Q → Q;
  queue_items : Q → list V }.

Class EapacheQueueLaws (Q V : Type) `{EapacheQueue Q V} := {
  items_New : queue_items queue_New = [];
  items_Add v b : queue_items (queue_Add v b) = queue_items b ++ [v];
  items_Length b : queue_Length b = length (queue_items b);
  items_Peek b : queue_Length b ≠ 0 → queue_Peek b = head (queue_items b);
  items_Remove b : queue_Length b ≠ 0 → queue_items (queue_Remove b) = tail (queue_items b) }.

Section queue.
Context {Q V : Type} `{EapacheQueueLaws Q V}.

(** [waiting] are the goroutines in [Wait], [woken] those that have been signalled and
    have not yet looked again, [popped] what [Pop] has returned to whom. *)
Record SyncQueue := mkQueue {
  buffer : Q;
  closed : bool;
  waiting : list positive;
  woken : list positive;
  popped : list (positive * option V) }.

Definition NewSyncQueue : SyncQueue := mkQueue queue_New false [] [] [].
Definition with_buffer (b : Q) (q : SyncQueue) : SyncQueue :=
  mkQueue b (closed q) (waiting q) (woken q) (popped q).
Definition Len (q : SyncQueue) : nat := queue_Length (buffer q).

(** The loop of [Pop] and what comes after it, for a goroutine [t] that has the lock. *)
Definition Pop_look (t : positive) (q : SyncQueue) : SyncQueue :=
  if (Len q =? 0) && negb (closed q)
  then mkQueue (buffer q) (closed q) (waiting q ++ [t]) (woken q) (popped q)
  else if 0 <? Len q
  then mkQueue (queue_Remove (buffer q)) (closed q) (waiting q) (woken q)
         (popped q ++ [(t, queue_Peek (buffer q))])
  else mkQueue (buffer q) (closed q) (waiting q) (woken q) (popped q ++ [(t, None)]).
(** A goroutine calls [Pop]; one that was woken looks again. *)
Definition Pop (t : positive) (q : SyncQueue) : SyncQueue := Pop_look t q.
Definition Pop_again (t : positive) (q : SyncQueue) : option SyncQueue :=
  rest ← remove_first (t =.) (woken q);
  Some (Pop_look t (mkQueue (buffer q) (closed q) (waiting q) rest (popped q))).

(** [popable.Signal()] *)
Definition Signal (q : SyncQueue) : SyncQueue :=
  match waiting q with
  | [] => q
  | t :: rest => mkQueue (buffer q) (closed q) rest (woken q ++ [t]) (popped q)
  end.

Definition Push (v : V) (q : SyncQueue) : SyncQueue :=
  if closed q then q else Signal (with_buffer (queue_Add v (buffer q)) q).
Definition Close (q : SyncQueue) : SyncQueue :=
  if closed q then q else Signal (mkQueue (buffer q) true (waiting q) (woken q) (popped q)).

Definition Peak (q : SyncQueue) : option V * bool :=
  if 0 <? Len q then (queue_Peek (buffer q), true) else (None, closed q).
Definition Remove (q : SyncQueue) : SyncQueue * bool :=
  if 0 <? Len q then (with_buffer (queue_Remove (buffer q)) q, true) else (q, closed q).
Definition TryPop (q : SyncQueue) : SyncQueue * (option V * bool) :=
  if 0 <? Len q
  then (with_buffer (queue_Remove (buffer q)) q, (queue_Peek (buffer q), true))
  else (q, (None, closed q)).

Inductive queue_step : SyncQueue → SyncQueue → Prop :=
| q_pop t q : t ∉ waiting q → t ∉ woken q → queue_step q (Pop t q)
| q_again t q q' : Pop_again t q = Some q' → queue_step q q'
| q_push v q : queue_step q (Push v q)
| q_close q : queue_step q (Close q)
| q_remove q : queue_step q (Remove q).1
| q_trypop q : queue_step q (TryPop q).1.

(** Items and sleepers: while somebody waits, every item has a goroutine on its way. *)
Definition no_lost_wakeup (q : SyncQueue) : Prop :=
  waiting q ≠ [] → Len q ≤ length (woken q).

(** ** The length under the operations *)
Lemma Length_Remove b : queue_Length (queue_Remove b) = pred (queue_Length b) ∨ queue_Length b = 0.
Proof.
  destruct (decide (queue_Length b = 0)) as [|Hn]; [by right|]. left.
  rewrite !items_Length, items_Remove by done. by destruct (queue_items b).
Qed.
Lemma Length_Add v b : queue_Length (queue_Add v b) = S (queue_Length b).
Proof. rewrite !items_Length, items_Add, length_app. simpl. lia. Qed.

Lemma remove_first_length (t : positive) l l' :
  remove_first (t =.) l = Some l' → length l = S (length l').
Proof. intros Hr%remove_first_eq_Permutation. by apply Permutation_length in Hr. Qed.

(** A goroutine that looks either takes an item, or finds none (and may go to sleep). *)
Lemma Pop_look_length t q : Len (Pop_look t q) = pred (Len q).
Proof.
  unfold Pop_look. destruct (Nat.eqb_spec (Len q) 0) as [E|E]; simpl.
  - rewrite E. by destruct (closed q); simpl; rewrite ?E.
  - destruct (Nat.ltb_spec 0 (Len q)) as [_|]; [|lia]. unfold Len in *. simpl.
    by destruct (Length_Remove (buffer q)).
Qed.
Lemma Pop_look_waiting t q : waiting (Pop_look t q) ≠ [] → Len q = 0 ∨ waiting q ≠ [].
Proof.
  unfold Pop_look. destruct (Nat.eqb_spec (Len q) 0); [by left|]. simpl.
  destruct (0 <? Len q); by right.
Qed.
Lemma Pop_look_woken t q : woken (Pop_look t q) = woken q.
Proof. unfold Pop_look. by repeat case_match. Qed.

(** What a goroutine takes is what was added first. *)
Lemma Pop_look_first t q v rest :
  queue_items (buffer q) = v :: rest →
  queue_items (buffer (Pop_look t q)) = rest ∧
  popped (Pop_look t q) = popped q ++ [(t, Some v)].
Proof.
  intros E. assert (Len q ≠ 0) as Hn by (unfold Len; by rewrite items_Length, E).
  unfold Pop_look. destruct (Nat.eqb_spec (Len q) 0) as [|_]; [done|]. simpl.
  destruct (Nat.ltb_spec 0 (Len q)); [|lia]. simpl.
  by rewrite items_Remove, items_Peek, E by done.
Qed.

Lemma Signal_wakeup q :
  (waiting q ≠ [] → Len q ≤ S (length (woken q))) → no_lost_wakeup (Signal q).
Proof.
  unfold no_lost_wakeup, Signal, Len. intros Hq.
  destruct (waiting q) eqn:E; simpl; rewrite ?E; [done|].
  intros _. rewrite length_app. simpl. specialize (Hq ltac:(done)). lia.
Qed.

Lemma queue_step_wakeup q q' : queue_step q q' → no_lost_wakeup q → no_lost_wakeup q'.
Proof.
  intros Hs Hq. destruct Hs as [t q _ _|t q q' E|v q|q|q|q]; unfold no_lost_wakeup in *.
  - intros Hw. unfold Pop in *. rewrite Pop_look_length, Pop_look_woken.
    destruct (Pop_look_waiting _ _ Hw) as [->|Hw']; [simpl; lia|]. specialize (Hq Hw'). lia.
  - unfold Pop_again in E. destruct (remove_first _ _) as [rest|] eqn:Er; simplify_eq/=.
    apply remove_first_length in Er. intros Hw. rewrite Pop_look_length, Pop_look_woken.
    destruct (Pop_look_waiting _ _ Hw) as [->|Hw']; simpl in *; [lia|]. specialize (Hq Hw').
    unfold Len in *. simpl. lia.
  - unfold Push. destruct (closed q); [done|]. apply Signal_wakeup.
    unfold Len. simpl. rewrite Length_Add. intros Hw. specialize (Hq Hw). unfold Len in Hq. lia.
  - unfold Close. destruct (closed q); [done|]. apply Signal_wakeup.
    intros Hw. specialize (Hq Hw). unfold Len in *. simpl in *. lia.
  - unfold Remove. destruct (Nat.ltb_spec 0 (Len q)); [|done]. intros Hw. specialize (Hq Hw).
    pose proof (Length_Remove (buffer q)). unfold Len in *. simpl in *. lia.
  - unfold TryPop. destruct (Nat.ltb_spec 0 (Len q)); [|done]. intros Hw. specialize (Hq Hw).
    pose proof (Length_Remove (buffer q)). unfold Len in *. simpl in *. lia.
Qed.

(** A closed queue: nobody that waits is ever woken. *)
Lemma closed_sleepers_stay a b :
  rtc queue_step a b → closed a = true →
  closed b = true ∧ ∀ t, t ∈ waiting a → t ∈ waiting b.
Proof.
  intros Hab. induction Hab as [|a1 a2 a3 Hs _ IH]; [done|]. intros Hc.
  assert (closed a2 = true ∧ waiting a2 = waiting a1) as [Hc2 H2].
  { destruct Hs as [t q _ _|t q q' E|v q|q|q|q].
    - unfold Pop, Pop_look. rewrite Hc, andb_false_r. by destruct (0 <? Len q).
    - unfold Pop_again in E. destruct (remove_first _ _); simplify_eq/=.
      unfold Pop_look. simpl. rewrite Hc, andb_false_r. by case_match.
    - unfold Push. by rewrite Hc.
    - unfold Close. by rewrite Hc.
    - unfold Remove. by destruct (0 <? Len q).
    - unfold TryPop. by destruct (0 <? Len q). }
  rewrite <- H2. auto.
Qed.

(** No wake-up of an open queue is lost: whenever a goroutine waits, at least as many
    goroutines that have been woken are about to look as there are items, however
    others take items in between.  [Close], though, wakes one goroutine only: another
    one that was waiting stays there whatever happens afterwards. *)
Theorem queue_wakeups q :
  rtc queue_step NewSyncQueue q →
  no_lost_wakeup q ∧
  ∀ t1 t2 rest q', closed q = false → waiting q = t1 :: t2 :: rest →
    rtc queue_step (Close q) q' → ∀ t, t ∈ t2 :: rest → t ∈ waiting q'.
Proof.
  intros Hr. split.
  - assert (no_lost_wakeup NewSyncQueue) as Hnew by (by intros Hw). revert Hnew.
    induction Hr as [|q1 q2 q3 Hs _ IH]; eauto using queue_step_wakeup.
  - intros t1 t2 rest q' Hc Hw Hr'. unfold Close, Signal in Hr'.
    rewrite Hc in Hr'. simpl in Hr'. rewrite Hw in Hr'.
    destruct (closed_sleepers_stay _ _ Hr' eq_refl) as [_ Hin]. auto.
Qed.
End queue.
Arguments SyncQueue Q V : clear implicits.

(** ** Witness *)
#[local] Instance list_queue : EapacheQueue (list nat) nat :=
  {| queue_New := []; queue_Add v b := b ++ [v]; queue_Length := length;
     queue_Peek := head; queue_Remove := tail; queue_items b := b |}.
#[local] Instance list_queue_laws : EapacheQueueLaws (list nat) nat.
Proof. by split. Qed.

Definition two_sleepers : SyncQueue (list nat) nat := Pop 2 (Pop 1 NewSyncQueue).

Lemma two_sleepers_reached : rtc queue_step NewSyncQueue two_sleepers.
Proof.
  eapply rtc_l; [apply (q_pop 1); apply not_elem_of_nil|].
  apply rtc_once. apply (q_pop 2); vm_compute; [|apply not_elem_of_nil].
  intros Ht%list_elem_of_singleton. discriminate Ht.
Qed.

Lemma queue_wakeups_witness :
  waiting two_sleepers = [1; 2]%positive ∧ 2%positive ∈ waiting (Close two_sleepers).
Proof.
  split; [reflexivity|].
  destruct (queue_wakeups two_sleepers two_sleepers_reached) as [_ Hc].
  apply (Hc 1%positive 2%positive [] (Close two_sleepers) eq_refl eq_refl (rtc_refl _ _)).
  by left.
Defined.
