(* ===== verification/Uuid.v ===== *)
(** * hCommon: unique identifiers

    uuid.go.  An identifier is a random prefix of 12 digits followed by a counter of 10
    digits to the base 62; the generator draws a new prefix when the counter has run
    out.  What the two random sources answer is an argument. *)
From Stdlib Require Import Ascii.
From S2P Require Import Prelude.
Local Open Scope Z_scope.

Definition digits : string := "0123456789ABCDEFGHIJKLMNOPQRSTUVWXYZabcdefghijklmnopqrstuvwxyz".
Definition base : Z := 62.
Definition preLen : nat := 12.
Definition seqLen : nat := 10.
Definition maxSeq : Z := 839299365868340224.
Definition minInc : Z := 33.
Definition maxInc : Z := 333.
Definition totalLen : nat := (preLen + seqLen)%nat.

Record UUID := mkUUID { pre : list ascii; seq : Z; inc : Z }.

(** What one call may draw: the bytes of [crypto/rand], or nothing when it fails, and two
    answers of [Int63n]. *)
Record draws := Draws { d_cb : option (list Z); d_seq : Z; d_inc : Z }.
Definition draws_ok (d : draws) : Prop :=
  (∃ cb, d_cb d = Some cb ∧ length cb = preLen ∧ Forall (λ b, 0 ≤ b < 256) cb) ∧
  0 ≤ d_seq d < maxSeq ∧ 0 ≤ d_inc d < maxInc - minInc.

(** [digits[i]] *)
Definition digit (i : Z) : outcome ascii :=
  if decide (i < 0) then Panic IndexOutOfRange
  else match String.get (Z.to_nat i) digits with
       | Some c => Ret c
       | None => Panic IndexOutOfRange
       end.

(** A loop that fills one byte per element. *)
Fixpoint map_outcome {A B} (f : A → outcome B) (l : list A) : outcome (list B) :=
  match l with
  | [] => Ret []
  | x :: l => y ← f x; ys ← map_outcome f l; Ret (y :: ys)
  end.

Definition RandomizePrefix (cb : option (list Z)) (n : UUID) : outcome UUID :=
  match cb with
  | Some cbs =>
      if decide (length cbs = preLen)
      then p ← map_outcome (λ b, digit (Z.rem b base)) cbs; Ret (mkUUID p (seq n) (inc n))
      else Panic (PanicVal "nuid: failed generating crypto random number")
  | None => Panic (PanicVal "nuid: failed generating crypto random number")
  end.

Definition resetSequential (d : draws) (n : UUID) : UUID :=
  mkUUID (pre n) (d_seq d) (int64 (minInc + d_inc d)).

Definition NewUUID (d : draws) : outcome UUID :=
  RandomizePrefix (d_cb d) (mkUUID (replicate preLen "000"%char) (d_seq d) (int64 (minInc + d_inc d))).

(** The loop that writes the counter from the last byte backwards: [k] bytes are left. *)
Fixpoint write_seq (k : nat) (l : Z) (b : list ascii) : outcome (list ascii) :=
  match k with
  | O => Ret b
  | S k => c ← digit (Z.rem l base); write_seq k (Z.quot l base) (c :: b)
  end.

Definition string_of (l : list ascii) : string := foldr String EmptyString l.

(** [n.seq += n.inc], and a new prefix and counter when the counter has run out. *)
Definition advance (d : draws) (n : UUID) : outcome UUID :=
  let n := mkUUID (pre n) (int64 (seq n + inc n)) (inc n) in
  if decide (maxSeq ≤ seq n)
  then n ← RandomizePrefix (d_cb d) n; Ret (resetSequential d n)
  else Ret n.

Definition Next (d : draws) (n : UUID) : outcome (UUID * string) :=
  n ← advance d n;
  b ← write_seq seqLen (seq n) [];
  Ret (n, string_of (pre n ++ b)).

(** The generator all of a process shares, with its lock. *)
Record lockedUUID := mkLocked { lu_locked : bool; lu_gen : UUID }.
Definition init (d d2 : draws) : outcome lockedUUID :=
  n ← NewUUID d; n ← RandomizePrefix (d_cb d2) n; Ret (mkLocked false n).

(** [GetUUID]: no deferred unlock. *)
Definition GetUUID (d : draws) : prog lockedUUID string := λ g,
  if lu_locked g then (g, Stuck)
  else match Next d (lu_gen g) with
       | Ret (n, s) => (mkLocked false n, Ret s)
       | Panic p => (mkLocked true (lu_gen g), Panic p)
       | Stuck => (mkLocked true (lu_gen g), Stuck)
       end.

(** [k] identifiers in a row, with the generators before each of them. *)
Fixpoint run (ds : list draws) (n : UUID) : outcome (list (UUID * string)) :=
  match ds with
  | [] => Ret []
  | d :: ds => '(n, s) ← Next d n; rest ← run ds n; Ret ((n, s) :: rest)
  end.

(** ** The digits *)
Definition is_digit (c : ascii) : Prop := ∃ i, 0 ≤ i < base ∧ digit i = Ret c.
Definition digit_value (c : ascii) : Z :=
  let a := Z.of_nat (nat_of_ascii c) in
  if decide (a < 58) then a - 48 else if decide (a < 91) then a - 55 else a - 61.

Lemma digit_table :
  forallb (λ i, match digit i with Ret c => digit_value c =? i | _ => false end) (seqZ 0 62) = true.
Proof. vm_compute. reflexivity. Qed.

Lemma digit_ok i : 0 ≤ i < base → ∃ c, digit i = Ret c ∧ digit_value c = i.
Proof.
  intros Hi. pose proof digit_table as Ht. rewrite forallb_forall in Ht.
  specialize (Ht i). rewrite <- list_elem_of_In, elem_of_seqZ in Ht.
  specialize (Ht ltac:(unfold base in *; lia)).
  destruct (digit i) as [c|p|]; [|done..]. exists c. split; [done|]. by apply Z.eqb_eq.
Qed.

Lemma maxSeq_pow : maxSeq = base ^ Z.of_nat seqLen.
Proof. reflexivity. Qed.

(** ** The counter's digits *)
Fixpoint read_seq (b : list ascii) (acc : Z) : Z :=
  match b with [] => acc | c :: b => read_seq b (acc * base + digit_value c) end.

(** Writing succeeds, and what has been written reads back. *)
Lemma write_seq_spec k l b :
  0 ≤ l < base ^ Z.of_nat k →
  ∃ w, write_seq k l b = Ret (w ++ b) ∧ length w = k ∧ Forall is_digit w ∧
    ∀ acc, read_seq w acc = acc * base ^ Z.of_nat k + l.
Proof.
  revert l b. induction k as [|k IH]; intros l b Hl; simpl.
  - exists []. split_and!; [done|done|done|]. intros acc. simpl in *. lia.
  - rewrite Nat2Z.inj_succ, Z.pow_succ_r in Hl by lia.
    assert (0 ≤ Z.rem l base < base) as Hr by (rewrite Z.rem_mod_nonneg by (unfold base; lia); apply Z.mod_pos_bound; unfold base; lia).
    destruct (digit_ok _ Hr) as (c & Ec & Hc).
    rewrite Ec. cbn [mbind outcome_bind].
    assert (0 ≤ Z.quot l base < base ^ Z.of_nat k) as Hq.
    { rewrite Z.quot_div_nonneg by (unfold base; lia). split; [apply Z.div_pos; unfold base; lia|].
      apply Z.div_lt_upper_bound; unfold base in *; lia. }
    destruct (IH (Z.quot l base) (c :: b) Hq) as (w & -> & Hlen & Hw & Hread).
    exists (w ++ [c]). split_and!.
    + by rewrite <- app_assoc.
    + rewrite length_app. simpl. lia.
    + apply Forall_app. split; [done|]. constructor; [by exists (Z.rem l base)|done].
    + intros acc. assert (read_seq (w ++ [c]) acc = read_seq w acc * base + digit_value c) as ->.
      { clear. revert acc. induction w as [|x w IH]; intros acc; simpl; [done|]. apply IH. }
      rewrite Hread, Hc, Nat2Z.inj_succ, Z.pow_succ_r by lia.
      pose proof (Z.quot_rem' l base). nia.
Qed.

Lemma map_digit_ok (cbs : list Z) :
  Forall (λ b, 0 ≤ b < 256) cbs →
  ∃ p, map_outcome (λ b, digit (Z.rem b base)) cbs = Ret p ∧ length p = length cbs ∧ Forall is_digit p.
Proof.
  induction 1 as [|b cbs Hb _ IH]; simpl; [by exists []|].
  assert (0 ≤ Z.rem b base < base) as Hr by (rewrite Z.rem_mod_nonneg by (unfold base; lia); apply Z.mod_pos_bound; unfold base; lia).
  destruct (digit_ok _ Hr) as (c & Ec & _). rewrite Ec. cbn [mbind outcome_bind].
  destruct IH as (p & -> & Hlen & Hp). exists (c :: p). simpl. split_and!; [done|lia|].
  constructor; [by exists (Z.rem b base)|done].
Qed.

(** ** Well-formed generators *)
Definition uuid_ok (n : UUID) : Prop :=
  length (pre n) = preLen ∧ Forall is_digit (pre n) ∧ 0 ≤ seq n < maxSeq ∧ minInc ≤ inc n < maxInc.
Definition well_formed (s : string) : Prop :=
  String.length s = totalLen ∧ Forall is_digit (String.list_ascii_of_string s).

Lemma inc_small d : 0 ≤ d < maxInc - minInc → int64 (minInc + d) = minInc + d.
Proof. intros Hd. apply int64_small. unfold in_int64, minInc, maxInc in *. lia. Qed.

Lemma RandomizePrefix_ok d n :
  draws_ok d → ∃ p, RandomizePrefix (d_cb d) n = Ret (mkUUID p (seq n) (inc n)) ∧
    length p = preLen ∧ Forall is_digit p.
Proof.
  intros ((cb & -> & Hlen & Hcb) & _). unfold RandomizePrefix. rewrite decide_True by done.
  destruct (map_digit_ok cb Hcb) as (p & -> & Hlp & Hp). exists p. split_and!; [done|congruence|done].
Qed.

Lemma NewUUID_ok d : draws_ok d → ∃ n, NewUUID d = Ret n ∧ uuid_ok n.
Proof.
  intros Hd. unfold NewUUID.
  destruct (RandomizePrefix_ok d (mkUUID (replicate preLen "000"%char) (d_seq d) (int64 (minInc + d_inc d))) Hd)
    as (p & -> & Hlen & Hp).
  destruct Hd as (_ & Hs & Hi). eexists. split; [done|].
  unfold uuid_ok. cbn [pre seq inc]. rewrite inc_small by done.
  split_and!; [done|done|lia|lia|unfold minInc in *; lia|unfold maxInc, minInc in *; lia].
Qed.

(** The counter either grows below its bound, or a new prefix is drawn. *)
Lemma advance_ok d n :
  draws_ok d → uuid_ok n → ∃ n', advance d n = Ret n' ∧ uuid_ok n' ∧
    ((pre n' = pre n ∧ seq n < seq n') ∨ RandomizePrefix (d_cb d) n = Ret (mkUUID (pre n') (seq n) (inc n))).
Proof.
  intros Hd (Hlen & Hp & Hs & Hi). unfold advance. cbn [seq inc pre].
  rewrite int64_small by (unfold in_int64, maxSeq, minInc, maxInc in *; lia).
  case_decide as Hm.
  - destruct (RandomizePrefix_ok d (mkUUID (pre n) (seq n + inc n) (inc n)) Hd) as (p & E & Hlp & Hdp).
    rewrite E. cbn [mbind outcome_bind].
    destruct (RandomizePrefix_ok d n Hd) as (p' & E' & _ & _).
    assert (p' = p) as ->.
    { unfold RandomizePrefix in E, E'. destruct (d_cb d) as [cb|]; [|done].
      case_decide; [|done]. destruct (map_outcome _ cb); naive_solver. }
    eexists. split; [done|]. destruct Hd as (_ & Hds & Hdi). unfold uuid_ok, resetSequential.
    cbn [pre seq inc]. rewrite inc_small by done. split; [|by right].
    split_and!; [done|done|lia|lia|unfold minInc in *; lia|unfold maxInc, minInc in *; lia].
  - eexists. split; [done|]. unfold uuid_ok. cbn [pre seq inc]. split.
    + split_and!; [done|done|unfold minInc in *; lia|lia|lia|lia].
    + left. split; [done|]. unfold minInc in *; lia.
Qed.

Lemma string_of_list l : String.list_ascii_of_string (string_of l) = l.
Proof. induction l as [|c l IH]; simpl; [done|]. by rewrite IH. Qed.
Lemma string_of_length l : String.length (string_of l) = length l.
Proof. induction l as [|c l IH]; simpl; [done|]. by rewrite IH. Qed.

Lemma Next_ok d n :
  draws_ok d → uuid_ok n → ∃ n' w, Next d n = Ret (n', string_of (pre n' ++ w)) ∧
    advance d n = Ret n' ∧ uuid_ok n' ∧ length w = seqLen ∧ Forall is_digit w ∧ read_seq w 0 = seq n'.
Proof.
  intros Hd Hn. destruct (advance_ok d n Hd Hn) as (n' & E & Hn' & _).
  unfold Next. rewrite E. cbn [mbind outcome_bind]. pose proof Hn' as (_ & _ & Hs & _).
  rewrite maxSeq_pow in Hs. destruct (write_seq_spec seqLen (seq n') [] Hs) as (w & -> & Hlen & Hw & Hr).
  cbn [mbind outcome_bind]. rewrite app_nil_r. exists n', w. split_and!; try done.
Qed.

(** Equal identifiers come from equal prefixes and counters. *)
Lemma uuid_inj p w p' w' :
  length p = preLen → length p' = preLen → string_of (p ++ w) = string_of (p' ++ w') → p = p' ∧ w = w'.
Proof.
  intros Hp Hp' E. apply (f_equal String.list_ascii_of_string) in E.
  rewrite !string_of_list in E. apply app_inj_1 in E; [done|congruence].
Qed.

(** ** Runs of a generator *)
Definition redraws (n : UUID) : bool := bool_decide (maxSeq ≤ int64 (seq n + inc n)).
(** The prefixes a run draws. *)
Fixpoint drawn (ds : list draws) (n : UUID) : list (list ascii) :=
  match ds with
  | [] => []
  | d :: ds =>
      match advance d n with
      | Ret n' => (if redraws n then [pre n'] else []) ++ drawn ds n'
      | _ => []
      end
  end.

Lemma advance_redraws d n n' :
  uuid_ok n → advance d n = Ret n' → redraws n = false → pre n' = pre n ∧ seq n < seq n'.
Proof.
  intros (_ & _ & Hs & Hi) E Hr%bool_decide_eq_false. unfold advance in E. cbn [seq inc pre] in E.
  rewrite decide_False in E by done. injection E as <-. cbn [pre seq]. split; [done|].
  rewrite int64_small by (unfold in_int64, maxSeq, minInc, maxInc in *; lia). unfold minInc in *. lia.
Qed.

(** What a run issues: well-formed identifiers, of the current prefix with a larger
    counter, or of a prefix drawn on the way. *)
Lemma run_spec ds n :
  Forall draws_ok ds → uuid_ok n →
  ∃ l, run ds n = Ret l ∧ length l = length ds ∧
    Forall (λ '(n', s), uuid_ok n' ∧ ∃ w, s = string_of (pre n' ++ w) ∧ length w = seqLen ∧
      Forall is_digit w ∧ read_seq w 0 = seq n' ∧
      ((pre n' = pre n ∧ seq n < seq n') ∨ pre n' ∈ drawn ds n)) l.
Proof.
  intros Hds. revert n. induction Hds as [|d ds Hd _ IH]; intros n Hn; simpl; [by exists []|].
  destruct (Next_ok d n Hd Hn) as (n' & w & -> & E & Hn' & Hlw & Hw & Hr). cbn [mbind outcome_bind].
  destruct (IH n' Hn') as (l & -> & Hlen & Hl). cbn [mbind outcome_bind]. rewrite E.
  eexists. split; [done|]. simpl. split; [lia|].
  assert ((pre n' = pre n ∧ seq n < seq n') ∨ pre n' ∈ (if redraws n then [pre n'] else [])) as Hfirst.
  { destruct (redraws n) eqn:Er; [right; by left|left; by eapply advance_redraws]. }
  constructor.
  - split; [done|]. exists w. split_and!; [done|done|done|done|]. destruct Hfirst; [by left|right].
    apply elem_of_app. by left.
  - eapply Forall_impl; [exact Hl|]. intros [m s] [Hm (v & -> & Hlv & Hv & Hrv & Hor)]. split; [done|].
    exists v. split_and!; [done|done|done|done|]. rewrite elem_of_app.
    destruct Hor as [[-> Hlt]|]; [|tauto]. destruct Hfirst as [[-> ?]|]; [left; split; [done|lia]|tauto].
Qed.

Lemma is_digit_bytes s p w : s = string_of (p ++ w) → Forall is_digit p → Forall is_digit w →
  length p = preLen → length w = seqLen → well_formed s.
Proof.
  intros -> Hp Hw Hlp Hlw. split; [rewrite string_of_length, length_app, Hlp, Hlw; done|].
  rewrite string_of_list. by apply Forall_app.
Qed.

(** C38: the generator of a process, started with whatever the random sources answer,
    stays well formed: a prefix of 12 digits, a counter below 62^10 and an increment
    between 33 and 332; no call ever panics, the counter never overflows its 64 bits,
    and every identifier has 22 digits. *)
Theorem uuids_well_formed d d2 ds :
  draws_ok d → draws_ok d2 → Forall draws_ok ds →
  ∃ n l, init d d2 = Ret (mkLocked false n) ∧ uuid_ok n ∧ run ds n = Ret l ∧
    length l = length ds ∧ Forall (λ '(n', s), uuid_ok n' ∧ well_formed s) l.
Proof.
  intros Hd Hd2 Hds. destruct (NewUUID_ok d Hd) as (n0 & E0 & Hn0). unfold init. rewrite E0.
  cbn [mbind outcome_bind]. destruct (RandomizePrefix_ok d2 n0 Hd2) as (p & -> & Hlp & Hp).
  cbn [mbind outcome_bind]. destruct Hn0 as (_ & _ & Hs & Hi).
  assert (uuid_ok (mkUUID p (seq n0) (inc n0))) as Hn by done.
  destruct (run_spec ds _ Hds Hn) as (l & E & Hlen & Hl).
  eexists _, l. split; [done|]. split_and!; [done|done|done|].
  eapply Forall_impl; [exact Hl|]. intros [m s] [Hm (w & E' & Hlw & Hw & _)]. split; [done|].
  pose proof Hm as (Hlm & Hpm & _). by eapply is_digit_bytes.
Qed.

(** No identifier is issued twice, as long as the random source does not draw a prefix
    again that the generator has used before. *)
Theorem uuids_distinct ds n :
  Forall draws_ok ds → uuid_ok n → NoDup (pre n :: drawn ds n) →
  ∃ l, run ds n = Ret l ∧ length l = length ds ∧ NoDup l.*2.
Proof.
  intros Hds. revert n. induction Hds as [|d ds Hd Hds IH]; intros n Hn Hnd; simpl in *.
  { exists []. split_and!; [done|done|constructor]. }
  destruct (Next_ok d n Hd Hn) as (n' & w & EN & E & Hn' & Hlw & Hw & Hr). rewrite EN.
  cbn [mbind outcome_bind]. rewrite E in Hnd.
  assert (NoDup (pre n' :: drawn ds n')) as Hnd'.
  { destruct (redraws n) eqn:Er; simpl in Hnd; [by apply NoDup_cons in Hnd as [_ ?]|].
    destruct (advance_redraws _ _ _ Hn E Er) as [-> _]. done. }
  destruct (IH n' Hn' Hnd') as (l & El & Hlen & Hl). rewrite El. cbn [mbind outcome_bind].
  eexists. split; [done|]. simpl. split; [lia|]. apply NoDup_cons. split; [|done].
  intros ([m s] & Es & Hin)%list_elem_of_fmap.
  destruct (run_spec ds n' Hds Hn') as (l' & El' & _ & Hl'). rewrite El in El'. injection El' as <-.
  rewrite Forall_forall in Hl'. destruct (Hl' _ Hin) as [Hm (v & Ev & Hlv & Hv & Hrv & Hor)].
  simpl in Es. rewrite Ev in Es. destruct Hn' as [Hln' _]. destruct Hm as [Hlm _].
  destruct (uuid_inj _ _ _ _ Hln' Hlm Es) as [Ep Ew]. subst v.
  destruct Hor as [[_ Hlt]|Hin']; [lia|].
  apply NoDup_cons in Hnd' as [Hni _]. by rewrite <- Ep in Hin'.
Qed.

(** ** Witnesses *)
Definition a_draw (b : Z) : draws := Draws (Some (replicate 12 b)) 839299365868340000 299.
Lemma a_draw_ok b : 0 ≤ b < 256 → draws_ok (a_draw b).
Proof.
  intros Hb. split_and!; [exists (replicate 12 b); split_and!; [done|done|]|unfold maxSeq, maxInc, minInc; simpl; lia..].
  apply Forall_replicate. lia.
Qed.

Lemma uuids_well_formed_witness :
  ∃ n l, init (a_draw 1) (a_draw 2) = Ret (mkLocked false n) ∧ uuid_ok n ∧
    run [a_draw 3; a_draw 4] n = Ret l ∧ length l = 2%nat ∧
    Forall (λ '(n', s), uuid_ok n' ∧ well_formed s) l.
Proof.
  apply (uuids_well_formed (a_draw 1) (a_draw 2) [a_draw 3; a_draw 4]);
    repeat constructor; apply a_draw_ok; lia.
Defined.

Definition near_the_end : UUID :=
  mkUUID (replicate 12 "A"%char) 839299365868339900 300.
Lemma near_the_end_ok : uuid_ok near_the_end.
Proof.
  unfold uuid_ok, near_the_end, maxSeq, minInc, maxInc; simpl. split_and!; try lia; [done|].
  repeat constructor; exists 10; by vm_compute.
Qed.
Lemma uuids_distinct_witness :
  drawn [a_draw 5; a_draw 7; a_draw 9] near_the_end ≠ [] ∧
  ∃ l, run [a_draw 5; a_draw 7; a_draw 9] near_the_end = Ret l ∧ length l = 3%nat ∧ NoDup l.*2.
Proof.
  split; [by vm_compute|]. apply (uuids_distinct [a_draw 5; a_draw 7; a_draw 9] near_the_end).
  - repeat constructor; apply a_draw_ok; lia.
  - exact near_the_end_ok.
  - apply (bool_decide_unpack _). by vm_compute.
Defined.
