(* ===== verification/TimeWheel.v ===== *)
(** * hTimer: the timing wheel

    timeWheel.go.  A wheel is a ring of channels; every tick closes the channel at the
    current position and puts a new one in its place.  [After] answers the channel that
    will be closed when the time out has passed.  Durations are nanoseconds. *)
From S2P Require Import Prelude.
Local Open Scope Z_scope.

(** Channels are numbered in the order in which they are made; [tw_locked] is the mutex,
    seen by the others. *)
Record TimeWheel := mkWheel {
  tw_t : Z;
  tw_maxT : Z;
  tw_wheel : list nat;
  tw_currPos : nat;
  tw_locked : bool;
  tw_made : nat;
  tw_closed : list nat }.

Abbreviation wlen w := (length (tw_wheel w)).

(** [New]; the ticker refuses an interval that is not positive. *)
Definition NewTimeWheel (t size : Z) : outcome TimeWheel :=
  if decide (size < 0) then Panic MakeNegativeLen
  else if decide (t ≤ 0) then Panic (PanicVal "non-positive interval for NewTicker")
  else Ret (mkWheel t (int64 (t * size)) (seq 0 (Z.to_nat size)) 0 false (Z.to_nat size) []).

Definition with_lock (b : bool) (w : TimeWheel) : TimeWheel :=
  mkWheel (tw_t w) (tw_maxT w) (tw_wheel w) (tw_currPos w) b (tw_made w) (tw_closed w).

(** [After] of a wheel: between [Lock] and [Unlock] the index may be out of range. *)
Definition wheel_After (timeout : Z) : prog TimeWheel nat := λ w,
  if decide (tw_maxT w ≤ timeout) then (w, Panic (PanicVal "timeout is bigger than maxT"))
  else if decide (tw_t w = 0) then (w, Panic DivideByZero)
  else
    let pos := Z.quot timeout (tw_t w) in
    let pos := if decide (0 < pos) then pos - 1 else pos in
    if tw_locked w then (w, Stuck)
    else if decide (wlen w = 0%nat) then (with_lock true w, Panic DivideByZero)
    else
      let pos := Z.rem (Z.of_nat (tw_currPos w) + pos) (Z.of_nat (wlen w)) in
      if decide (pos < 0) then (with_lock true w, Panic IndexOutOfRange)
      else match tw_wheel w !! Z.to_nat pos with
           | Some c => (w, Ret c)
           | None => (with_lock true w, Panic IndexOutOfRange)
           end.

(** One turn of [run]. *)
Definition tick : prog TimeWheel unit := λ w,
  if tw_locked w then (w, Stuck)
  else match tw_wheel w !! tw_currPos w with
       | None => (with_lock true w, Panic IndexOutOfRange)
       | Some oldestC =>
           (mkWheel (tw_t w) (tw_maxT w) (<[tw_currPos w := tw_made w]> (tw_wheel w))
              ((tw_currPos w + 1) `mod` wlen w)%nat false (S (tw_made w)) (oldestC :: tw_closed w),
            Ret tt)
       end.

(** The wheels of a process, by duration; [accuracy] is 20 unless [SetAccuracy] changed
    it.  The map's mutex is released by a deferred call. *)
Record timers := mkTimers { timerMap : gmap Z TimeWheel; accuracy : Z }.
Definition hTimer_init : timers := mkTimers ∅ 20.
Definition SetAccuracy (a : Z) (ts : timers) : timers := mkTimers (timerMap ts) a.
Definition store_wheel (t : Z) (w : TimeWheel) (ts : timers) : timers :=
  mkTimers (<[t := w]> (timerMap ts)) (accuracy ts).

Definition After (t : Z) : prog timers nat := λ ts,
  match timerMap ts !! t with
  | Some v => let '(v, r) := wheel_After t v in (store_wheel t v ts, r)
  | None =>
      if decide (accuracy ts = 0) then (ts, Panic DivideByZero)
      else match NewTimeWheel (Z.quot t (accuracy ts)) (int64 (accuracy ts + 1)) with
           | Ret v => let '(v, r) := wheel_After t v in (store_wheel t v ts, r)
           | Panic p => (ts, Panic p)
           | Stuck => (ts, Stuck)
           end
  end.

(** ** The ring seen from the current position *)
Definition wheel_ok (w : TimeWheel) : Prop :=
  0 < tw_t w ∧ tw_maxT w = tw_t w * Z.of_nat (wlen w) ∧ (tw_currPos w < wlen w)%nat ∧
  tw_locked w = false ∧ NoDup (tw_wheel w) ∧
  Forall (λ c, c < tw_made w)%nat (tw_wheel w) ∧ (∀ c, c ∈ tw_closed w → c ∉ tw_wheel w ∧ c < tw_made w)%nat.

(** The channel [j] positions ahead. *)
Definition ahead (w : TimeWheel) (j : nat) : option nat :=
  tw_wheel w !! ((tw_currPos w + j) `mod` wlen w)%nat.

Lemma tick_ok w : wheel_ok w → ∃ w' c, tick w = (w', Ret tt) ∧ wheel_ok w' ∧
  ahead w 0 = Some c ∧ tw_closed w' = c :: tw_closed w ∧ wlen w' = wlen w ∧ tw_t w' = tw_t w ∧
  ∀ j, (S j < wlen w)%nat → ahead w' j = ahead w (S j).
Proof.
  intros (Ht & Hmax & Hpos & Hl & Hnd & Hlt & Hcl). unfold tick. rewrite Hl.
  destruct (lookup_lt_is_Some_2 _ _ Hpos) as [c Ec]. rewrite Ec. eexists _, c. split; [done|].
  split_and!.
  - unfold wheel_ok. cbn [tw_t tw_maxT tw_wheel tw_currPos tw_locked tw_made tw_closed].
    rewrite length_insert. split_and!; [done|done|apply Nat.mod_upper_bound; lia|done| | |].
    + apply NoDup_alt. intros i j x Hi Hj. rewrite Forall_lookup in Hlt.
      destruct (decide (i = tw_currPos w)) as [->|Hi'], (decide (j = tw_currPos w)) as [->|Hj']; [done| | |].
      * rewrite list_lookup_insert_eq in Hi by done. rewrite list_lookup_insert_ne in Hj by done.
        injection Hi as <-. apply Hlt in Hj. lia.
      * rewrite list_lookup_insert_eq in Hj by done. rewrite list_lookup_insert_ne in Hi by done.
        injection Hj as <-. apply Hlt in Hi. lia.
      * rewrite list_lookup_insert_ne in Hi, Hj by done. by eapply NoDup_lookup.
    + apply Forall_insert; [|lia]. eapply Forall_impl; [exact Hlt|]. simpl. lia.
    + intros x Hx. assert (x < tw_made w)%nat as Hxm.
      { apply elem_of_cons in Hx as [->|Hx]; [|by apply Hcl].
        rewrite Forall_lookup in Hlt. by eapply Hlt. }
      split; [|lia]. intros (i & Hi)%list_elem_of_lookup.
      destruct (decide (i = tw_currPos w)) as [->|Hne].
      * rewrite list_lookup_insert_eq in Hi by done. injection Hi as <-. lia.
      * rewrite list_lookup_insert_ne in Hi by done. apply elem_of_cons in Hx as [->|Hx].
        -- apply Hne. by eapply NoDup_lookup.
        -- apply (Hcl x Hx). by eapply list_elem_of_lookup_2.
  - unfold ahead. rewrite Nat.add_0_r, Nat.mod_small by done. done.
  - done.
  - simpl. by rewrite length_insert.
  - done.
  - intros j Hj. unfold ahead. cbn [tw_wheel tw_currPos]. rewrite length_insert.
    rewrite Nat.Div0.add_mod_idemp_l. replace (tw_currPos w + 1 + j)%nat with (tw_currPos w + S j)%nat by lia.
    rewrite list_lookup_insert_ne; [done|]. intros E.
    destruct (decide (tw_currPos w + S j < wlen w)%nat).
    + rewrite Nat.mod_small in E by done. lia.
    + replace (tw_currPos w + S j)%nat with (tw_currPos w + S j - wlen w + 1 * wlen w)%nat in E by lia.
      rewrite Nat.Div0.mod_add, Nat.mod_small in E by lia. lia.
Qed.

Fixpoint ticks (k : nat) : prog TimeWheel unit :=
  match k with O => mret tt | S k => tick ≫= λ _, ticks k end.

(** A channel [j] positions ahead stays open for [j] ticks and is closed by the next. *)
Lemma ticks_ahead j w c :
  wheel_ok w → ahead w j = Some c → (j < wlen w)%nat →
  ∀ k, ∃ w', ticks k w = (w', Ret tt) ∧ wheel_ok w' ∧ wlen w' = wlen w ∧
    (c ∈ tw_closed w' ↔ (j < k)%nat).
Proof.
  intros Hw Ha Hj k. revert j w Hw Ha Hj. induction k as [|k IH]; intros j w Hw Ha Hj; simpl.
  - exists w. split_and!; [done|done|done|]. split; [|lia]. intros Hc. exfalso.
    destruct Hw as (_ & _ & _ & _ & _ & _ & Hcl). apply (Hcl _ Hc). by eapply list_elem_of_lookup_2.
  - destruct (tick_ok w Hw) as (w1 & c1 & E & Hw1 & Ha1 & Hc1 & Hlen & _ & Hnext).
    unfold mbind, prog_bind. rewrite E. destruct j as [|j].
    + rewrite Ha1 in Ha. injection Ha as ->.
      assert (∀ k w, wheel_ok w → c ∈ tw_closed w →
        ∃ w', ticks k w = (w', Ret tt) ∧ wheel_ok w' ∧ wlen w' = wlen w ∧ c ∈ tw_closed w') as Hstay.
      { clear. induction k as [|k IH]; intros w Hw Hc; simpl; [by exists w|].
        destruct (tick_ok w Hw) as (w1 & c1 & E & Hw1 & _ & Hc1 & Hlen & _ & _).
        unfold mbind, prog_bind. rewrite E.
        destruct (IH w1 Hw1) as (w' & -> & ? & ? & ?); [rewrite Hc1; by right|].
        exists w'. split_and!; [done|done|congruence|done]. }
      destruct (Hstay k w1 Hw1) as (w' & -> & ? & ? & ?); [rewrite Hc1; by left|].
      exists w'. split_and!; [done|done|congruence|]. split; [lia|done].
    + destruct (IH j w1 Hw1) as (w' & -> & ? & ? & Hiff); [by rewrite Hnext|lia|].
      exists w'. split_and!; [done|done|congruence|]. rewrite Hiff. lia.
Qed.

(** The number of ticks a time out takes. *)
Definition delay (w : TimeWheel) (timeout : Z) : nat := Z.to_nat (1 `max` (timeout / tw_t w)).

Lemma wheel_After_ok w timeout :
  wheel_ok w → 0 ≤ timeout < tw_maxT w →
  ∃ c, wheel_After timeout w = (w, Ret c) ∧ ahead w (pred (delay w timeout)) = Some c ∧
    (pred (delay w timeout) < wlen w)%nat.
Proof.
  intros (Ht & Hmax & Hpos & Hl & _) Hto. unfold wheel_After.
  rewrite decide_False by lia. rewrite decide_False by lia. rewrite Hl.
  rewrite decide_False by lia. rewrite Z.quot_div_nonneg by lia.
  assert (0 ≤ timeout / tw_t w < Z.of_nat (wlen w)) as Hq.
  { split; [apply Z.div_pos; lia|]. apply Z.div_lt_upper_bound; lia. }
  assert (∃ p, (p = pred (delay w timeout) ∧ p < wlen w)%nat ∧
    (if decide (0 < timeout / tw_t w) then timeout / tw_t w - 1 else timeout / tw_t w) = Z.of_nat p) as (p & [Ep Hp] & ->).
  { exists (pred (delay w timeout)). unfold delay. case_decide; lia. }
  rewrite Z.rem_mod_nonneg, <- Nat2Z.inj_add, <- Nat2Z.inj_mod by lia.
  rewrite decide_False by lia. rewrite Nat2Z.id. rewrite <- Ep. unfold ahead.
  destruct (lookup_lt_is_Some_2 (tw_wheel w) ((tw_currPos w + p) `mod` wlen w)%nat) as [c Ec].
  { apply Nat.mod_upper_bound. lia. }
  rewrite Ec. by exists c.
Qed.

(** The channel is closed by the tick numbered [delay], counted from the call, and by
    none before it, from whatever position the wheel is in: a time out of at least one
    tick is never served late, and early by less than two ticks. *)
Lemma timeout_served w timeout :
  wheel_ok w → 0 ≤ timeout < tw_maxT w →
  ∃ c, wheel_After timeout w = (w, Ret c) ∧
    (∀ k, ∃ w', ticks k w = (w', Ret tt) ∧ wheel_ok w' ∧ (c ∈ tw_closed w' ↔ (delay w timeout ≤ k)%nat)) ∧
    (tw_t w ≤ timeout → timeout - 2 * tw_t w < (Z.of_nat (delay w timeout) - 1) * tw_t w ∧
                        Z.of_nat (delay w timeout) * tw_t w ≤ timeout).
Proof.
  intros Hw Hto. destruct (wheel_After_ok w timeout Hw Hto) as (c & -> & Ha & Hlt). exists c.
  split_and!; [done| |].
  - intros k. destruct (ticks_ahead _ w c Hw Ha Hlt k) as (w' & -> & Hw' & _ & Hiff).
    exists w'. split_and!; [done|done|]. rewrite Hiff. unfold delay. lia.
  - intros Hge. destruct Hw as (Ht & _). unfold delay.
    assert (1 ≤ timeout / tw_t w) by (apply Z.div_le_lower_bound; lia).
    rewrite Z.max_r, Z2Nat.id by lia.
    pose proof (Z.mod_pos_bound timeout (tw_t w) Ht). pose proof (Z.div_mod timeout (tw_t w)). nia.
Qed.

Lemma NewTimeWheel_ok t size :
  0 < t → 0 < size → t * size < 2 ^ 63 →
  ∃ w, NewTimeWheel t size = Ret w ∧ wheel_ok w ∧ tw_t w = t ∧ tw_maxT w = t * size.
Proof.
  intros Ht Hs Hb. unfold NewTimeWheel. rewrite !decide_False by lia. eexists. split; [done|].
  unfold wheel_ok. cbn [tw_t tw_maxT tw_wheel tw_currPos tw_locked tw_made tw_closed].
  rewrite length_seq, int64_small by (unfold in_int64; nia).
  split_and!; [done|lia|lia|done|apply NoDup_seq| |by intros c ?%elem_of_nil|done|done].
  apply Forall_forall. intros c Hc%elem_of_seq. lia.
Qed.

(** The wheels of the package, as [After] and the ticks leave them. *)
Definition timers_ok (ts : timers) : Prop :=
  accuracy ts = 20 ∧
  ∀ t w, timerMap ts !! t = Some w → 20 ≤ t ∧ wheel_ok w ∧ tw_t w = t / 20 ∧ tw_maxT w = t / 20 * 21.

(** The wheel of a duration, made when there is none. *)
Lemma wheel_for t ts :
  timers_ok ts → 20 ≤ t ≤ 2 ^ 62 →
  ∃ v, wheel_ok v ∧ tw_t v = t / 20 ∧ tw_maxT v = t / 20 * 21 ∧
    After t ts = (let '(v', r) := wheel_After t v in (store_wheel t v' ts, r)).
Proof.
  intros [Ha Hts] Ht. unfold After. destruct (timerMap ts !! t) as [v|] eqn:E.
  { destruct (Hts _ _ E) as (_ & ? & ? & ?). by exists v. }
  rewrite Ha, decide_False by done. rewrite Z.quot_div_nonneg by lia.
  assert (1 ≤ t / 20) by (apply Z.div_le_lower_bound; lia).
  assert (t / 20 ≤ 2 ^ 62 / 20) by (apply Z.div_le_mono; lia).
  destruct (NewTimeWheel_ok (t / 20) (int64 (20 + 1))) as (v & -> & ? & ? & ?); [lia|done| |by exists v].
  change (int64 (20 + 1)) with 21. change (2 ^ 62 / 20) with 230584300921369395 in *. lia.
Qed.

Lemma store_wheel_ok t v ts :
  timers_ok ts → 20 ≤ t → wheel_ok v → tw_t v = t / 20 → tw_maxT v = t / 20 * 21 →
  timers_ok (store_wheel t v ts).
Proof.
  intros [Ha Hts] Ht Hv E1 E2. split; [done|]. intros t' w. simpl. rewrite lookup_insert_Some.
  intros [[<- <-]|[_ E]]; [done|by apply Hts].
Qed.

(** With the accuracy of 20, [After(t)] answers, from 400 nanoseconds up to 146 years,
    a channel that exactly the twentieth next tick of its own wheel closes, whose ticks
    are [t/20] apart, whatever the position that wheel is in.  Below 20 nanoseconds it
    panics, and also where [t/20] has been rounded down too much, 39 for one; a panic
    leaves neither mutex locked. *)
Theorem After_twentieth_tick ts t :
  timers_ok ts →
  (400 ≤ t ≤ 2 ^ 62 →
     ∃ c v, After t ts = (store_wheel t v ts, Ret c) ∧ timers_ok (store_wheel t v ts) ∧
       tw_t v = t / 20 ∧
       ∀ k, ∃ v', ticks k v = (v', Ret tt) ∧ wheel_ok v' ∧ (c ∈ tw_closed v' ↔ (20 ≤ k)%nat)) ∧
  (-20 < t < 20 → After t ts = (ts, Panic (PanicVal "non-positive interval for NewTicker"))) ∧
  (20 ≤ t ≤ 2 ^ 62 → 21 * (t / 20) ≤ t →
     ∃ v, After t ts = (store_wheel t v ts, Panic (PanicVal "timeout is bigger than maxT")) ∧
       timers_ok (store_wheel t v ts)).
Proof.
  intros Hts. split_and!.
  - intros Ht. destruct (wheel_for t ts Hts) as (v & Hv & Et & Em & ->); [lia|].
    pose proof (Z.mod_pos_bound t 20). pose proof (Z.div_mod t 20).
    destruct (timeout_served v t Hv) as (c & -> & Hc & _); [lia|].
    exists c, v. split_and!; [done|apply store_wheel_ok; auto; lia|done|].
    intros k. destruct (Hc k) as (w' & ? & ? & Hiff). exists w'. split_and!; [done|done|].
    rewrite Hiff. assert (t / tw_t v = 20) as E.
    { rewrite Et. symmetry. apply (Z.div_unique_pos _ _ _ (t `mod` 20)); lia. }
    unfold delay. rewrite E. done.
  - intros Ht. destruct Hts as [Ha Hts]. unfold After.
    destruct (timerMap ts !! t) as [v|] eqn:E; [apply Hts in E as [? _]; lia|].
    rewrite Ha, decide_False by done. by rewrite (proj2 (Z.quot_small_iff t 20 ltac:(lia))) by lia.
  - intros Ht Hr. destruct (wheel_for t ts Hts Ht) as (v & Hv & Et & Em & ->).
    exists v. split; [|apply store_wheel_ok; auto; lia].
    unfold wheel_After. by rewrite decide_True by lia.
Qed.

(** ** Witness *)
Lemma After_twentieth_tick_witness :
  (∃ c v, After 1000000000 hTimer_init = (store_wheel 1000000000 v hTimer_init, Ret c) ∧
     tw_t v = 50000000) ∧
  After 19 hTimer_init = (hTimer_init, Panic (PanicVal "non-positive interval for NewTicker")) ∧
  ∃ v, After 39 hTimer_init = (store_wheel 39 v hTimer_init, Panic (PanicVal "timeout is bigger than maxT")).
Proof.
  assert (timers_ok hTimer_init) as H0 by done.
  split_and!.
  - destruct (After_twentieth_tick hTimer_init 1000000000 H0) as [H1 _].
    destruct (H1 ltac:(lia)) as (c & v & E & _ & Et & _). by exists c, v.
  - apply (After_twentieth_tick hTimer_init 19 H0). lia.
  - destruct (After_twentieth_tick hTimer_init 39 H0) as (_ & _ & H1).
    destruct (H1 ltac:(lia) ltac:(by vm_compute)) as (v & E & _). by exists v.
Defined.
