(* ===== verification/Config.v ===== *)
(** * hConfig: the configuration of a node

    ConfigComponent.go: the defaults, and loading a file over them or writing the file
    when it does not exist.  encoding/json and the file system's refusals are
    parameters. *)
From Stdlib Require Import Ascii.
From S2P Require Import Prelude.

(** ** The configuration *)
Record NetAddr := mkAddr { na_Addr : string; na_Alias : string }.
Record CfgNode := mkCfgNode { nd_WorkId : Z; nd_LocalAddress : string; nd_Role : list string; nd_NetAddr : NetAddr }.
Record CommonConfig := mkCommon {
  Debug : bool;
  RuntimeMaxWorker : Z;
  LogLevel : Z;
  LogPath : string;
  LogFileMax : Z;
  LogFileSizeMax : Z;
  LogConsolePrint : bool }.
Record ClusterConfig := mkCluster {
  WorkId : Z;
  MasterAddress : string;
  LocalAddress : string;
  AppName : string;
  WorkName : string;
  Role : list string;
  NodeDefine : gmap string CfgNode;
  ReportInterval : Z;
  RpcTimeout : Z;
  RpcCallTimeout : Z;
  RpcHeartBeatInterval : Z;
  IsLocationMode : bool;
  LocationSyncInterval : Z;
  NetConnTimeout : Z;
  NetListenAddress : string;
  NetListenAddressAlias : string;
  SelectNetListenAddress : string }.
(** The settings of mongo, of the mail server and of redis are only passed on. *)
Record MongoCfg := mkMongoCfg { DbHost : string; DbPort : Z; DbName : string; DbUser : string; DbPass : string }.
Record EmailParam := mkEmail {
  ServerHost : string; ServerPort : Z; FromEmail : string; FromPasswd : string; Toers : string; CCers : string }.
Record RedisCfg := mkRedisCfg {
  Host : string; Port : Z; Pwd : string; MaxIdle : Z; MaxActive : Z; IdleTimeout : Z; DbNum : Z }.
Record CustomConfig := mkCustomConfig { Mongo : MongoCfg; Email : EmailParam; Redis : RedisCfg }.

(** [SetDefault] *)
Definition default_common (NumCPU : Z) : CommonConfig := mkCommon true NumCPU 4 "./log" 10 10 true.
Definition default_cluster : ClusterConfig :=
  mkCluster 1 "127.0.0.1:6666" "127.0.0.1:6666" "defaultApp" "defaultWork" ["single"]
    (<["node_master" := mkCfgNode 1 "0.0.0.0:6666" ["single"] (mkAddr "127.0.0.1:5555" "")]>
     (<["node_single" := mkCfgNode 1 "0.0.0.0:6666" ["master"; "gate"] (mkAddr "127.0.0.1:5555" "")]> ∅))
    3000 9000 5000 3000 true 500 9000 "127.0.0.1:5555" "" "127.0.0.1:5556".
Definition default_custom : CustomConfig :=
  mkCustomConfig (mkMongoCfg "" 0 "" "" "") (mkEmail "smtp.163.com" 25 "" "" "" "") (mkRedisCfg "" 0 "" 0 0 0 0).

(** ** Loading *)
Inductive os_error := NotExist | ReadErr (msg : string).

(** encoding/json for one type: indented text, and reading text over a value. *)
Class Json (T : Type) := {
  MarshalIndent : T → string;
  json_Unmarshal : string → T → result string T }.

(** The files of the machine, and whether directories and files may be made. *)
Record fs := mkFs {
  fs_files : gmap string string;
  fs_unreadable : gmap string string;
  fs_mkdir_denied : bool;
  fs_write_err : option string }.
Definition ReadFile (path : string) (d : fs) : result os_error string :=
  match fs_unreadable d !! path with
  | Some msg => Err (ReadErr msg)
  | None => match fs_files d !! path with Some s => Ok s | None => Err NotExist end
  end.

(** A nil pointer is written as null, and refused as a target. *)
Definition marshal_ptr {T} `{Json T} (cfg : option T) : string :=
  match cfg with Some v => MarshalIndent v | None => "null" end.
Definition unmarshal_ptr {T} `{Json T} (data : string) (cfg : option T) : result string (option T) :=
  match cfg with
  | None => Err "json: Unmarshal(nil)"
  | Some v => match json_Unmarshal data v with Ok v => Ok (Some v) | Err e => Err e end
  end.

(** [loadConfig]: the file system and the value afterwards, and the error. *)
Definition loadConfig {T} `{Json T} (configpath : string) (cfg : option T) (d : fs)
    : fs * option T * option string :=
  match ReadFile configpath d with
  | Err NotExist =>
      if fs_mkdir_denied d then (d, cfg, Some "permission denied")
      else match fs_write_err d with
           | Some e => (d, cfg, Some e)
           | None => (mkFs (<[configpath := marshal_ptr cfg]> (fs_files d)) (fs_unreadable d)
                        (fs_mkdir_denied d) (fs_write_err d), cfg, None)
           end
  | Err (ReadErr e) => (d, cfg, Some e)
  | Ok data =>
      match unmarshal_ptr data cfg with
      | Ok v => (d, v, None)
      | Err e => (d, cfg, Some e)
      end
  end.

Record ConfigComponent := mkConfig {
  commonConfigPath : string;
  clusterConfigPath : string;
  customConfigPath : string;
  cc_Common : option CommonConfig;
  cc_Cluster : option ClusterConfig;
  cc_Custom : option CustomConfig }.

Section config.
Context `{Json CommonConfig, Json ClusterConfig, Json CustomConfig}.

(** The component, the file system, and the component that is shared globally. *)
Record cfg_world := mkCfgWorld { cw_this : ConfigComponent; cw_fs : fs; cw_Config : option ConfigComponent }.

Definition set_cfg c (w : cfg_world) := mkCfgWorld c (cw_fs w) (cw_Config w).

Definition SetDefault (NumCPU : Z) : prog cfg_world unit := modify (λ w,
  let c := cw_this w in
  set_cfg (mkConfig (commonConfigPath c) (clusterConfigPath c) (customConfigPath c)
             (Some (default_common NumCPU)) (Some default_cluster) (Some default_custom)) w).

(** Loading into one of the three, with the panic on an error. *)
Definition load_common : prog cfg_world unit := λ w,
  let c := cw_this w in
  let '(d, v, e) := loadConfig (commonConfigPath c) (cc_Common c) (cw_fs w) in
  (mkCfgWorld (mkConfig (commonConfigPath c) (clusterConfigPath c) (customConfigPath c) v (cc_Cluster c) (cc_Custom c))
     d (cw_Config w), match e with Some e => Panic (PanicVal e) | None => Ret tt end).
Definition load_cluster : prog cfg_world unit := λ w,
  let c := cw_this w in
  let '(d, v, e) := loadConfig (clusterConfigPath c) (cc_Cluster c) (cw_fs w) in
  (mkCfgWorld (mkConfig (commonConfigPath c) (clusterConfigPath c) (customConfigPath c) (cc_Common c) v (cc_Custom c))
     d (cw_Config w), match e with Some e => Panic (PanicVal e) | None => Ret tt end).
Definition load_custom : prog cfg_world unit := λ w,
  let c := cw_this w in
  let '(d, v, e) := loadConfig (customConfigPath c) (cc_Custom c) (cw_fs w) in
  (mkCfgWorld (mkConfig (commonConfigPath c) (clusterConfigPath c) (customConfigPath c) (cc_Common c) (cc_Cluster c) v)
     d (cw_Config w), match e with Some e => Panic (PanicVal e) | None => Ret tt end).

Definition ReloadConfig : prog cfg_world unit :=
  _ ← load_common; _ ← load_cluster; w ← get_state;
  if decide (customConfigPath (cw_this w) ≠ "") then load_custom else mret tt.

Definition Config_Initialize (NumCPU : Z) : prog cfg_world unit :=
  _ ← modify (λ w, set_cfg (mkConfig "./conf/CommonConfig.json" "./conf/ClusterConfig.json" "./conf/CustomeConfig.json"
                              (cc_Common (cw_this w)) (cc_Cluster (cw_this w)) (cc_Custom (cw_this w))) w);
  _ ← SetDefault NumCPU;
  _ ← ReloadConfig;
  modify (λ w, mkCfgWorld (cw_this w) (cw_fs w) (Some (cw_this w))).

(** [LoadCustomConfig] into a structure of the caller; the pointer to the component's
    own is cleared whatever the outcome. *)
Definition LoadCustomConfig {T} `{Json T} (path : string) (ptr_or_map : bool) (structure : T)
    : prog cfg_world (T * option string) := λ w,
  if negb ptr_or_map then (w, Ret (structure, Some "structure must be pointer or map"))
  else
    let c := cw_this w in
    let '(d, v, e) := loadConfig path (Some structure) (cw_fs w) in
    (mkCfgWorld (mkConfig (commonConfigPath c) (clusterConfigPath c) path (cc_Common c) (cc_Cluster c) None) d (cw_Config w),
     Ret (default structure v, e)).

(** ** What is written is read back

    The documented behaviour of encoding/json on these types: a value that was written
    and is read over another replaces it, but for maps, to which the entries read are
    added. *)
Definition reads_back {T} `{Json T} (merge : T → T → T) : Prop :=
  ∀ v v0, json_Unmarshal (MarshalIndent v) v0 = Ok (merge v v0).
Definition replaced {T} (v v0 : T) : T := v.
Definition merge_cluster (v v0 : ClusterConfig) : ClusterConfig :=
  mkCluster (WorkId v) (MasterAddress v) (LocalAddress v) (AppName v) (WorkName v) (Role v)
    (NodeDefine v ∪ NodeDefine v0) (ReportInterval v) (RpcTimeout v) (RpcCallTimeout v) (RpcHeartBeatInterval v)
    (IsLocationMode v) (LocationSyncInterval v) (NetConnTimeout v) (NetListenAddress v) (NetListenAddressAlias v)
    (SelectNetListenAddress v).

Definition no_faults (d : fs) : Prop := fs_unreadable d = ∅ ∧ fs_mkdir_denied d = false ∧ fs_write_err d = None.

Lemma loadConfig_missing {T} `{Json T} path (cfg : option T) d :
  no_faults d → fs_files d !! path = None →
  loadConfig path cfg d = (mkFs (<[path := marshal_ptr cfg]> (fs_files d)) ∅ false None, cfg, None).
Proof.
  intros (Hu & Hm & Hw) Hp. unfold loadConfig, ReadFile. rewrite Hu, lookup_empty, Hp, Hm, Hw. done.
Qed.
Lemma loadConfig_present {T} `{Json T} merge path (v v0 : T) d :
  reads_back merge → no_faults d → fs_files d !! path = Some (MarshalIndent v) →
  loadConfig path (Some v0) d = (d, Some (merge v v0), None).
Proof.
  intros Hr (Hu & Hm & Hw) Hp. unfold loadConfig, ReadFile. rewrite Hu, lookup_empty, Hp.
  unfold unmarshal_ptr. by rewrite Hr.
Qed.

(** What [Initialize] makes of the files. *)
Definition the_files (common : CommonConfig) (cluster : ClusterConfig) (custom : CustomConfig)
    (rest : gmap string string) : gmap string string :=
  <["./conf/CustomeConfig.json" := MarshalIndent custom]>
    (<["./conf/ClusterConfig.json" := MarshalIndent cluster]>
      (<["./conf/CommonConfig.json" := MarshalIndent common]> rest)).

Lemma the_files_common a b c rest : the_files a b c rest !! "./conf/CommonConfig.json" = Some (MarshalIndent a).
Proof. unfold the_files. by rewrite !lookup_insert_ne, lookup_insert_eq by done. Qed.
Lemma the_files_cluster a b c rest : the_files a b c rest !! "./conf/ClusterConfig.json" = Some (MarshalIndent b).
Proof. unfold the_files. by rewrite lookup_insert_ne, lookup_insert_eq by done. Qed.
Lemma the_files_custom a b c rest : the_files a b c rest !! "./conf/CustomeConfig.json" = Some (MarshalIndent c).
Proof. apply lookup_insert_eq. Qed.

Definition configured common cluster custom : ConfigComponent :=
  mkConfig "./conf/CommonConfig.json" "./conf/ClusterConfig.json" "./conf/CustomeConfig.json"
    (Some common) (Some cluster) (Some custom).

(** A node that starts without configuration files writes the defaults, and a node
    that starts with those files is configured like it.  A node that finds files has
    what they say, but the nodes that the defaults define stay defined also when the
    file does not name them.  After [LoadCustomConfig] from a file that exists, or that
    the call itself has written, [ReloadConfig] panics. *)
Theorem config_reloads n d :
  reads_back (T:=CommonConfig) replaced → reads_back merge_cluster → reads_back (T:=CustomConfig) replaced →
  no_faults d →
  (fs_files d = ∅ →
     ∀ w, cw_fs w = d → ∃ d', Config_Initialize n w =
       (mkCfgWorld (configured (default_common n) default_cluster default_custom) d'
          (Some (configured (default_common n) default_cluster default_custom)), Ret tt) ∧
       fs_files d' = the_files (default_common n) default_cluster default_custom ∅ ∧
       ∀ n' w', cw_fs w' = d' → Config_Initialize n' w' =
         (mkCfgWorld (configured (default_common n) default_cluster default_custom) d'
          (Some (configured (default_common n) default_cluster default_custom)), Ret tt)) ∧
  (∀ common cluster custom w rest, cw_fs w = d → fs_files d = the_files common cluster custom rest →
     ∃ cluster', Config_Initialize n w =
       (mkCfgWorld (configured common cluster' custom) d (Some (configured common cluster' custom)), Ret tt) ∧
       Role cluster' = Role cluster ∧ LocalAddress cluster' = LocalAddress cluster ∧
       is_Some (NodeDefine cluster' !! "node_master")) ∧
  (∀ T (JT : Json T) path (v v' : T) data common cluster custom w rest,
     cw_this w = configured common cluster custom → cw_fs w = d → fs_files d = the_files common cluster custom rest →
     path ≠ "" → fs_files d !! path = Some data → json_Unmarshal data v = Ok v' →
     ∃ w', LoadCustomConfig path true v w = (w', Ret (v', None)) ∧
       (ReloadConfig w').2 = Panic (PanicVal "json: Unmarshal(nil)")).
Proof.
  intros R1 R2 R3 Hd.
  assert (∀ n w common cluster custom rest, no_faults (cw_fs w) →
    fs_files (cw_fs w) = the_files common cluster custom rest →
    Config_Initialize n w =
      (mkCfgWorld (configured common (merge_cluster cluster default_cluster) custom) (cw_fs w)
         (Some (configured common (merge_cluster cluster default_cluster) custom)), Ret tt)) as Hfound.
  { intros n1 w common cluster custom rest Hf Hfiles.
    unfold Config_Initialize, ReloadConfig, SetDefault, load_common, load_cluster, load_custom. unfold_prog. cbn.
    rewrite (loadConfig_present replaced _ common) by (done || (rewrite Hfiles; apply the_files_common)). cbn.
    rewrite (loadConfig_present merge_cluster _ cluster) by (done || (rewrite Hfiles; apply the_files_cluster)). cbn.
    rewrite decide_True by done. cbn.
    rewrite (loadConfig_present replaced _ custom) by (done || (rewrite Hfiles; apply the_files_custom)). done. }
  split_and!.
  - intros He w Ew. pose proof Hd as (Hu & Hm & Hw).
    set (d1 := mkFs (<["./conf/CommonConfig.json" := MarshalIndent (default_common n)]> ∅) ∅ false None).
    set (d2 := mkFs (<["./conf/ClusterConfig.json" := MarshalIndent default_cluster]> (fs_files d1)) ∅ false None).
    set (d3 := mkFs (<["./conf/CustomeConfig.json" := MarshalIndent default_custom]> (fs_files d2)) ∅ false None).
    exists d3. split_and!; [|done|].
    + unfold Config_Initialize, ReloadConfig, SetDefault, load_common, load_cluster, load_custom. unfold_prog. cbn.
      rewrite Ew. rewrite loadConfig_missing by (done || by rewrite He). cbn [marshal_ptr]. rewrite He. fold d1.
      rewrite loadConfig_missing by done. cbn [marshal_ptr fs_files]. fold d2. rewrite decide_True by done.
      rewrite loadConfig_missing by done. cbn [marshal_ptr fs_files]. fold d3. done.
    + intros n' w' Ew'. rewrite (Hfound n' w' (default_common n) default_cluster default_custom ∅); rewrite ?Ew'; done.
  - intros common cluster custom w rest Ew Hfiles. exists (merge_cluster cluster default_cluster).
    split_and!; [|done|done|].
    + rewrite (Hfound n w common cluster custom rest); rewrite ?Ew; done.
    + simpl. rewrite lookup_union. destruct (NodeDefine cluster !! "node_master"); by eexists.
  - intros T JT path v v' data common cluster custom w rest Et Ew Hfiles Hp Hdata Hj.
    assert (loadConfig path (Some v) d = (d, Some v', None)) as El.
    { destruct Hd as (Hu & _ & _). unfold loadConfig, ReadFile. rewrite Hu, lookup_empty, Hdata. simpl. by rewrite Hj. }
    eexists. split; [unfold LoadCustomConfig; cbn; rewrite Ew, El, Et; reflexivity|].
    unfold ReloadConfig, load_common, load_cluster, load_custom. unfold_prog. cbn.
    rewrite (loadConfig_present replaced _ common) by (done || (rewrite Hfiles; apply the_files_common)). cbn.
    rewrite (loadConfig_present merge_cluster _ cluster) by (done || (rewrite Hfiles; apply the_files_cluster)). cbn.
    rewrite decide_True by done. cbn.
    destruct Hd as (Hu & _ & _). unfold loadConfig, ReadFile. rewrite Hu, lookup_empty, Hdata. done.
Qed.
End config.

(** ** Witness

    A text that determines the value: its code number in binary. *)
Fixpoint pos_text (p : positive) : string :=
  match p with
  | xH => EmptyString
  | xO p => String "0"%char (pos_text p)
  | xI p => String "1"%char (pos_text p)
  end.
Fixpoint text_pos (s : string) : positive :=
  match s with
  | EmptyString => xH
  | String c s => if decide (c = "0"%char) then xO (text_pos s) else xI (text_pos s)
  end.
Lemma text_pos_text p : text_pos (pos_text p) = p.
Proof. induction p as [p IH|p IH|]; simpl; rewrite ?IH; done. Qed.

#[local] Instance CfgNode_eq_dec : EqDecision CfgNode.
Proof. intros [? ? ? []] [? ? ? []]. unfold Decision. repeat decide equality. Defined.
#[local] Instance CfgNode_countable : Countable CfgNode.
Proof.
  apply (inj_countable' (λ n, (nd_WorkId n, nd_LocalAddress n, nd_Role n, na_Addr (nd_NetAddr n), na_Alias (nd_NetAddr n)))
    (λ '(w, l, r, a, b), mkCfgNode w l r (mkAddr a b))). by intros [? ? ? []].
Defined.

(** A type with a representation that has code numbers. *)
Definition text_json {T R} `{Countable R} (f : T → R) (g : R → T) (merge : T → T → T) : Json T :=
  {| MarshalIndent v := pos_text (encode (f v));
     json_Unmarshal s v0 := match decode (text_pos s) with Some r => Ok (merge (g r) v0) | None => Err "bad text" end |}.
Lemma text_json_reads {T R} `{Countable R} (f : T → R) (g : R → T) merge :
  (∀ v, g (f v) = v) → @reads_back T (text_json f g merge) merge.
Proof. intros Hg v v0. simpl. by rewrite text_pos_text, decode_encode, Hg. Qed.

Definition common_json : Json CommonConfig :=
  text_json (λ c, (Debug c, RuntimeMaxWorker c, LogLevel c, LogPath c, LogFileMax c, LogFileSizeMax c, LogConsolePrint c))
    (λ '(a, b, c, d, e, f, g), mkCommon a b c d e f g) replaced.
Definition cluster_json : Json ClusterConfig :=
  text_json (λ c, (WorkId c, MasterAddress c, LocalAddress c, AppName c, WorkName c, Role c, NodeDefine c, ReportInterval c,
                   RpcTimeout c, RpcCallTimeout c, RpcHeartBeatInterval c, IsLocationMode c, LocationSyncInterval c,
                   NetConnTimeout c, NetListenAddress c, NetListenAddressAlias c, SelectNetListenAddress c))
    (λ '(a, b, c, d, e, f, g, h, i, j, k, l, m, n, o, p, q), mkCluster a b c d e f g h i j k l m n o p q) merge_cluster.
Definition custom_json : Json CustomConfig :=
  text_json (λ c, (let m := Mongo c in (DbHost m, DbPort m, DbName m, DbUser m, DbPass m),
                   let m := Email c in (ServerHost m, ServerPort m, FromEmail m, FromPasswd m, Toers m, CCers m),
                   let m := Redis c in (Host m, Port m, Pwd m, MaxIdle m, MaxActive m, IdleTimeout m, DbNum m)))
    (λ '((a, b, c, d, e), (f, g, h, i, j, k), (l, m, n, o, p, q, r)),
       mkCustomConfig (mkMongoCfg a b c d e) (mkEmail f g h i j k) (mkRedisCfg l m n o p q r)) replaced.

Definition empty_world : cfg_world :=
  mkCfgWorld (mkConfig "" "" "" None None None) (mkFs ∅ ∅ false None) None.

Lemma config_reloads_witness :
  ∃ d', @Config_Initialize common_json cluster_json custom_json 8 empty_world =
    (mkCfgWorld (configured (default_common 8) default_cluster default_custom) d'
       (Some (configured (default_common 8) default_cluster default_custom)), Ret tt).
Proof.
  destruct (@config_reloads common_json cluster_json custom_json 8 (mkFs ∅ ∅ false None)) as [Hfresh _].
  - apply text_json_reads. by intros [].
  - apply text_json_reads. by intros [].
  - apply text_json_reads. by intros [[] [] []].
  - split_and!; reflexivity.
  - destruct (Hfresh eq_refl empty_world eq_refl) as (d' & E & _). exists d'. exact E.
Defined.
