(* ===== verification/Mail.v ===== *)
(** * hCommon: mail

    AutoEmail.go: the one mailer of the process, the recipients it takes from its
    parameters, and what it hands to the library that sends (gomail). *)
From Stdlib Require Import Ascii.
From S2P Require Import Prelude GoString Config.

(** What the source asks of a message, with what the library's documentation promises:
    a field has the values it was given last. *)
Class Gomail (M : Type) := {
  NewMessage : M;
  SetHeader : string → list string → M → M;
  FormatAddress : string → string → string;
  SetAddressHeader : string → string → string → M → M;
  SetBody : string → string → M → M;
  GetHeader : string → M → list string;
  the_body : M → option (string * string);
  header_new f : GetHeader f NewMessage = [];
  header_set f v m g : GetHeader g (SetHeader f v m) = if decide (f = g) then v else GetHeader g m;
  header_address f a n m g :
    GetHeader g (SetAddressHeader f a n m) = if decide (f = g) then [FormatAddress a n] else GetHeader g m;
  header_body t b m g : GetHeader g (SetBody t b m) = GetHeader g m;
  body_header f v m : the_body (SetHeader f v m) = the_body m;
  body_set t b m : the_body (SetBody t b m) = Some (t, b) }.

Section mail.
Context `{Gomail M}.

(** [gomail.NewDialer]'s arguments. *)
Record Dialer := mkDialer { dl_Host : string; dl_Port : Z; dl_Username : string; dl_Password : string }.

(** The parameters behind a pointer, which the mailer shares with the configuration. *)
Record AutoEmail := mkMailer { ae_ep : positive; ae_m : M }.
Record Mailer := mkMail {
  ml_params : gmap positive EmailParam;
  gAutoEmail : option AutoEmail;
  ml_sent : list (Dialer * M) }.
Definition set_gAutoEmail a (w : Mailer) := mkMail (ml_params w) a (ml_sent w).

(** What [this.ep] points to. *)
Definition the_ep (p : positive) : prog Mailer EmailParam :=
  w ← get_state; match ml_params w !! p with Some ep => mret ep | None => panicking NilDereference end.

(** The recipients of a list: [strings.Split] at the commas, and [strings.TrimSpace]. *)
Definition addresses (l : string) : list string := TrimSpace <$> Split "," l.

(** [Init], for the message of the mailer. *)
Definition AutoEmail_Init (this : AutoEmail) : prog Mailer AutoEmail :=
  ep ← the_ep (ae_ep this);
  if decide (String.length (Toers ep) = 0) then mret this
  else
    let m := SetHeader "To" (addresses (Toers ep)) (ae_m this) in
    let m := if decide (String.length (CCers ep) ≠ 0) then SetHeader "Cc" (addresses (CCers ep)) m else m in
    mret (mkMailer (ae_ep this) (SetAddressHeader "From" (FromEmail ep) "小魏" m)).

Definition NewAutoEmail (ep : positive) : prog Mailer unit :=
  w ← get_state;
  match gAutoEmail w with
  | Some _ => mret tt
  | None =>
      let this := mkMailer ep NewMessage in
      _ ← modify (set_gAutoEmail (Some this));
      this ← AutoEmail_Init this;
      modify (set_gAutoEmail (Some this))
  end.

(** [AutoEmail.SendEmail]; what the server answers is only logged. *)
Definition AutoEmail_SendEmail (this : AutoEmail) (subject body : string) : prog Mailer unit :=
  let m := SetBody "text/html" body (SetHeader "Subject" [subject] (ae_m this)) in
  _ ← modify (set_gAutoEmail (Some (mkMailer (ae_ep this) m)));
  ep ← the_ep (ae_ep this);
  modify (λ w, mkMail (ml_params w) (gAutoEmail w)
    (ml_sent w ++ [(mkDialer (ServerHost ep) (ServerPort ep) (FromEmail ep) (FromPasswd ep), m)])).
Definition SendEmail (subject body : string) : prog Mailer unit :=
  w ← get_state;
  match gAutoEmail w with None => mret tt | Some this => AutoEmail_SendEmail this subject body end.

(** ** Every mail goes to the recipients of the parameters *)
(** The message of a mailer that was set up with these parameters. *)
Definition addressed (ep : EmailParam) (m : M) : Prop :=
  if decide (String.length (Toers ep) = 0)
  then GetHeader "To" m = [] ∧ GetHeader "Cc" m = [] ∧ GetHeader "From" m = []
  else GetHeader "To" m = addresses (Toers ep) ∧
       GetHeader "Cc" m = (if decide (String.length (CCers ep) ≠ 0) then addresses (CCers ep) else []) ∧
       GetHeader "From" m = [FormatAddress (FromEmail ep) "小魏"].

Lemma addressed_set ep m f v : f ≠ "To" → f ≠ "Cc" → f ≠ "From" → addressed ep m → addressed ep (SetHeader f v m).
Proof.
  intros H1 H2 H3. unfold addressed. rewrite !header_set.
  by rewrite (decide_False (P := f = "To")), (decide_False (P := f = "Cc")), (decide_False (P := f = "From")) by done.
Qed.
Lemma addressed_body ep m t b : addressed ep m → addressed ep (SetBody t b m).
Proof. unfold addressed. by rewrite !header_body. Qed.

Lemma AutoEmail_Init_run w p ep :
  ml_params w !! p = Some ep →
  ∃ m, AutoEmail_Init (mkMailer p NewMessage) w = (w, Ret (mkMailer p m)) ∧ addressed ep m.
Proof.
  intros Hp. unfold AutoEmail_Init, the_ep. unfold_prog. cbn. rewrite Hp. cbn. unfold addressed.
  destruct (decide (String.length (Toers ep) = 0)) as [E|E].
  - eexists. split; [done|]. rewrite !header_new. by split_and!.
  - eexists. split; [done|]. rewrite !header_address.
    destruct (decide (String.length (CCers ep) ≠ 0)); rewrite !header_set, ?header_new; (split; [reflexivity|split; reflexivity]).
Qed.

(** The mails of a list of subjects and bodies. *)
Definition SendAll (mails : list (string * string)) : prog Mailer unit := for_each mails (λ '(s, b), SendEmail s b).
Definition mail_of (ep : EmailParam) (mail : string * string) (sent : Dialer * M) : Prop :=
  sent.1 = mkDialer (ServerHost ep) (ServerPort ep) (FromEmail ep) (FromPasswd ep) ∧ addressed ep sent.2 ∧
  GetHeader "Subject" sent.2 = [mail.1] ∧ the_body sent.2 = Some ("text/html", mail.2).

Lemma SendAll_run ep p mails : ∀ w m, ml_params w !! p = Some ep → gAutoEmail w = Some (mkMailer p m) → addressed ep m →
  ∃ w' sent, SendAll mails w = (w', Ret tt) ∧ ml_sent w' = ml_sent w ++ sent ∧ Forall2 (mail_of ep) mails sent.
Proof.
  induction mails as [|[s b] mails IH]; intros w m Hp Hg Ha.
  - exists w, []. rewrite app_nil_r. split_and!; [done|done|constructor].
  - set (m' := SetBody "text/html" b (SetHeader "Subject" [s] m)).
    set (d := mkDialer (ServerHost ep) (ServerPort ep) (FromEmail ep) (FromPasswd ep)).
    assert (addressed ep m') as Ha' by (by apply addressed_body, addressed_set).
    destruct (IH (mkMail (ml_params w) (Some (mkMailer p m')) (ml_sent w ++ [(d, m')])) m') as
      (w' & sent & E & Es & Hall); [done..|].
    exists w', ((d, m') :: sent). split_and!.
    + unfold SendAll. cbn [for_each]. erewrite bind_Ret; [exact E|].
      unfold SendEmail, AutoEmail_SendEmail, the_ep. unfold_prog. cbn. rewrite Hg. cbn. by rewrite Hp.
    + rewrite Es. simpl. by rewrite <- app_assoc.
    + constructor; [|done]. split; [done|]. split; [done|]. simpl. unfold m'.
      by rewrite header_body, header_set, decide_True, body_set.
Qed.

(** Before a mailer is made nothing is sent. The first one that is made stays: from then on
    every mail goes out through its parameters' server, to the parts of its parameters'
    list of recipients, with a copy to those of the other list, under the subject and with
    the body of the call, whatever mailers are asked for later. Without recipients the
    mails are still handed to the server, with nobody to go to and from nobody. *)
Theorem mails_addressed w p q ep mails :
  ml_params w !! p = Some ep → gAutoEmail w = None →
  SendAll mails w = (w, Ret tt) ∧
  ∃ w' w2 sent, NewAutoEmail p w = (w', Ret tt) ∧ NewAutoEmail q w' = (w', Ret tt) ∧
    SendAll mails w' = (w2, Ret tt) ∧ ml_sent w2 = ml_sent w ++ sent ∧ Forall2 (mail_of ep) mails sent.
Proof.
  intros Hp Hg. split.
  - unfold SendAll. induction mails as [|[s b] mails IH]; [done|]. cbn [for_each]. erewrite bind_Ret; [exact IH|].
    unfold SendEmail. unfold_prog. cbn. by rewrite Hg.
  - set (w0 := set_gAutoEmail (Some (mkMailer p NewMessage)) w).
    destruct (AutoEmail_Init_run w0 p ep Hp) as (m & E & Ha).
    destruct (SendAll_run ep p mails (set_gAutoEmail (Some (mkMailer p m)) w0) m Hp eq_refl Ha) as (w2 & sent & E2 & Es & Hall).
    exists (set_gAutoEmail (Some (mkMailer p m)) w0), w2, sent. split; [|split; [|done]].
    + unfold NewAutoEmail. unfold_prog. cbn. rewrite Hg. cbn. fold w0. by rewrite E.
    + done.
Qed.

(** ** Several callers at once

    The message is one for the process, and nothing is locked: each call sets the subject,
    then the body, then sends, and calls of other goroutines come in between. *)
Record caller := mkCaller { cl_subject : string; cl_body : string; cl_pc : nat }.
Record senders := mkSenders { sn_callers : list caller; sn_m : M; sn_sent : list (nat * M) }.

Definition sender_run (i : nat) (s : senders) : option senders :=
  c ← sn_callers s !! i;
  let next := <[i := mkCaller (cl_subject c) (cl_body c) (S (cl_pc c))]> (sn_callers s) in
  match cl_pc c with
  | 0 => Some (mkSenders next (SetHeader "Subject" [cl_subject c] (sn_m s)) (sn_sent s))
  | 1 => Some (mkSenders next (SetBody "text/html" (cl_body c) (sn_m s)) (sn_sent s))
  | 2 => Some (mkSenders next (sn_m s) (sn_sent s ++ [(i, sn_m s)]))
  | _ => None
  end.
Definition sender_step (s s' : senders) : Prop := ∃ i, sender_run i s = Some s'.

(** The mail of one call can go out under the subject of another. *)
Lemma mails_mix m s1 b1 s2 b2 :
  ∃ s m1, rtc sender_step (mkSenders [mkCaller s1 b1 0; mkCaller s2 b2 0] m []) s ∧
    sn_sent s = [(0, m1)] ∧ GetHeader "Subject" m1 = [s2] ∧ the_body m1 = Some ("text/html", b1).
Proof.
  set (m1 := SetBody "text/html" b1 (SetHeader "Subject" [s2] (SetHeader "Subject" [s1] m))).
  exists (mkSenders [mkCaller s1 b1 3; mkCaller s2 b2 1] m1 [(0, m1)]), m1. split; [|split; [done|]].
  - by apply (runs_steps sender_run [0; 1; 0; 0]).
  - unfold m1. rewrite header_body, header_set, decide_True, body_set; done.
Qed.
End mail.

(** ** A message as a map of fields *)
#[local] Instance map_gomail : Gomail (gmap string (list string) * option (string * string)).
Proof.
  refine {|
    NewMessage := (∅, None);
    SetHeader f v m := (<[f := v]> m.1, m.2);
    FormatAddress a n := n +:+ " <" +:+ a +:+ ">";
    SetAddressHeader f a n m := (<[f := [n +:+ " <" +:+ a +:+ ">"]]> m.1, m.2);
    SetBody t b m := (m.1, Some (t, b));
    GetHeader f m := default [] (m.1 !! f);
    the_body m := m.2 |}; try done.
  - intros f v m g. simpl. case_decide as E; [subst; by rewrite lookup_insert_eq|by rewrite lookup_insert_ne].
  - intros f a n m g. simpl. case_decide as E; [subst; by rewrite lookup_insert_eq|by rewrite lookup_insert_ne].
Defined.

Definition some_params : EmailParam := mkEmail "smtp.163.com" 25 "gm@happy.cn" "pw" "a@b.cn, c@d.cn ,e@f.cn" "".
Lemma mails_addressed_witness :
  ∃ w2 d m, (_ ← NewAutoEmail 1; SendAll [("down", "node 3")]) (mkMail {[1%positive := some_params]} None []) = (w2, Ret tt) ∧
    ml_sent w2 = [(d, m)] ∧ GetHeader "To" m = ["a@b.cn"; "c@d.cn"; "e@f.cn"] ∧ GetHeader "Subject" m = ["down"].
Proof.
  destruct (mails_addressed (mkMail {[1%positive := some_params]} None []) 1 2 some_params [("down", "node 3")])
    as (_ & w' & w2 & sent & E1 & _ & E2 & Es & Hall); [done|done|].
  inversion Hall as [|? [d m] ? ? (_ & Ha & Hsub & _) Hnil]; subst. inversion Hnil; subst.
  exists w2, d, m. split; [by rewrite (bind_Ret _ _ _ _ _ E1)|]. split; [exact Es|].
  destruct Ha as [Hto _]. split; [etransitivity; [exact Hto|reflexivity]|exact Hsub].
Defined.
