(* ===== verification/Modle.v ===== *)
(** * Modle: the databases of a node (hBaseComponent/ModleComponent.go)

    The component opens the document database and makes the pool of the key-value
    store from the custom configuration, and closes the former at the end. *)
From S2P Require Import Prelude Config Mongo Redis.

Section modle.
(** The drivers of the two databases. *)
Context {D E : Type} (drv : ∀ R, mgo_call R → D → D * outcome R)
  (rdrv : ∀ R, redigo_call R → E → E * outcome R).

(** The component, its driver, and the package's variable [Modle]. *)
Record ModleComponent := mkModle {
  M : option DbOperate;
  R : option (@Pool E);
}.
Record modle_world := mkModleWorld {
  md_this : ModleComponent;
  md_trace : list Mongo.event;
  md_driver : D;
  md_Modle : bool;
}.

(** A method of [this.M]: it reads the pointer's fields, so a nil one panics. *)
Definition on_M {A} (m : prog (@Mongo.world D) A) : prog modle_world A := λ w,
  match M (md_this w) with
  | None => (w, Panic NilDereference)
  | Some db =>
      let (w', r) := m (Mongo.mkWorld db ∅ ∅ (md_trace w) (md_driver w)) in
      (mkModleWorld (mkModle (Some (Mongo.this w')) (R (md_this w))) (Mongo.trace w') (Mongo.driver w')
         (md_Modle w), r)
  end.
Definition set_M (db : option DbOperate) : prog modle_world unit := modify (λ w,
  mkModleWorld (mkModle db (R (md_this w))) (md_trace w) (md_driver w) (md_Modle w)).
Definition set_R (rds : option (@Pool E)) : prog modle_world unit := modify (λ w,
  mkModleWorld (mkModle (M (md_this w)) rds) (md_trace w) (md_driver w) (md_Modle w)).

Definition initMongoDB (cfg : MongoCfg) : prog modle_world unit :=
  if decide (Config.DbHost cfg = "") then mret tt
  else
    set_M (Some (NewDbOperate (Mongo.NewDbCfg (Config.DbHost cfg) (Config.DbPort cfg) (Config.DbName cfg)
                                 (Config.DbUser cfg) (Config.DbPass cfg)) (5 * second))) ≫= λ _,
    on_M (OpenDB drv (Some (λ ms, Mongo.perform drv (CSetPoolLimit ms 50)))) ≫= λ _,
    mret tt.
Definition initRedis (cfg : RedisCfg) : prog modle_world unit :=
  if decide (Config.Host cfg = "") then mret tt
  else
    set_R (Some (NewRds rdrv (Redis.NewDbCfg (Config.Host cfg) (Config.Port cfg) (Config.Pwd cfg)
                                (Config.MaxIdle cfg) (Config.IdleTimeout cfg) (Config.DbNum cfg)))).
Definition initDatabase (cfg : CustomConfig) : prog modle_world unit :=
  initMongoDB (Mongo cfg) ≫= λ _, initRedis (Config.Redis cfg).
Definition Modle_Initialize (cfg : CustomConfig) : prog modle_world unit :=
  initDatabase cfg ≫= λ _,
  modify (λ w, mkModleWorld (md_this w) (md_trace w) (md_driver w) true).
Definition Modle_Destroy : prog modle_world unit := on_M (CloseDB drv).

(** What the driver answers: to the dial, and to the calls of a session that is
    open; only the settings of the session change. *)
Definition dials (d : D) (r : result Mongo.error nat) (d' : D) : Prop :=
  ∀ url t, drv _ (Mongo.CDial url t) d = (d', Ret r).
Record settles (s : nat) : Prop := {
  settles_mode : ∀ d m b, ∃ d', drv _ (CSetMode (Some s) m b) d = (d', Ret tt);
  settles_limit : ∀ d n, ∃ d', drv _ (CSetPoolLimit s n) d = (d', Ret tt);
  settles_logout : ∀ d, ∃ d', drv _ (CLogout s) d = (d', Ret tt);
  settles_close : ∀ d, ∃ d', drv _ (Mongo.CClose s) d = (d', Ret tt);
}.

Definition initial (d : D) : modle_world := mkModleWorld (mkModle None None) [] d false.
Definition the_pool (cfg : CustomConfig) : option (@Pool E) :=
  if decide (Config.Host (Config.Redis cfg) = "") then None
  else Some (NewRds rdrv (Redis.NewDbCfg (Config.Host (Config.Redis cfg)) (Config.Port (Config.Redis cfg))
         (Config.Pwd (Config.Redis cfg)) (Config.MaxIdle (Config.Redis cfg))
         (Config.IdleTimeout (Config.Redis cfg)) (Config.DbNum (Config.Redis cfg)))).

Lemma initRedis_run cfg w :
  initRedis (Config.Redis cfg) w =
    (mkModleWorld (mkModle (M (md_this w)) (if the_pool cfg is Some p then Some p else R (md_this w)))
       (md_trace w) (md_driver w) (md_Modle w), Ret tt).
Proof.
  unfold initRedis, the_pool, set_R, modify. destruct w as [[m r] t d b].
  case_decide; reflexivity.
Qed.

(** What becomes of the databases. Without a host the node starts with no
    document database and panics when the component is destroyed; when the host
    does not answer, Initialize panics with the driver's message; otherwise it
    leaves the session open, limited and monotonic, and Destroy logs it out,
    closes it and forgets it, so that a second one does nothing. The pool of the
    key-value store is made exactly when its host is given, and never closed. *)
Theorem modle_lifecycle cfg d :
  (Config.DbHost (Config.Mongo cfg) = "" →
     ∃ w, Modle_Initialize cfg (initial d) = (w, Ret tt) ∧ md_this w = mkModle None (the_pool cfg) ∧
       md_trace w = [] ∧ md_Modle w = true ∧ Modle_Destroy w = (w, Panic NilDereference)) ∧
  (Config.DbHost (Config.Mongo cfg) ≠ "" → ∀ e d', dials d (Err e) d' →
     ∃ w, Modle_Initialize cfg (initial d) = (w, Panic (PanicVal (Mongo.Error e))) ∧ md_Modle w = false) ∧
  (Config.DbHost (Config.Mongo cfg) ≠ "" → ∀ s d', dials d (Ok s) d' → settles s →
     ∃ w w' db, Modle_Initialize cfg (initial d) = (w, Ret tt) ∧
       md_this w = mkModle (Some db) (the_pool cfg) ∧ session db = Some s ∧ md_Modle w = true ∧
       md_trace w = [Mongo.Other; Moded s Monotonic; Used s] ∧
       Modle_Destroy w = (w', Ret tt) ∧ md_trace w' = md_trace w ++ [Used s; Closed s] ∧
       (session <$> M (md_this w')) = Some None ∧ Modle_Destroy w' = (w', Ret tt)).
Proof.
  unfold Modle_Initialize, initDatabase, initMongoDB. split; [|split].
  - intros H. rewrite decide_True by done. unfold mbind, mret, prog_bind, prog_ret.
    rewrite initRedis_run. eexists. split; [reflexivity|]. cbn.
    split; [by destruct (the_pool cfg)|done].
  - intros H e d' Hd. rewrite decide_False by done.
    unfold mbind, mret, prog_bind, prog_ret, set_M, modify, on_M, OpenDB, get_state, Mongo.perform.
    cbn. unfold mbind, prog_bind. cbn. rewrite Hd. cbn. eexists. split; [reflexivity|done].
  - intros H s d' Hd Hs. rewrite decide_False by done.
    destruct (settles_mode s Hs d' Monotonic true) as [d1 E1].
    destruct (settles_limit s Hs d1 50) as [d2 E2].
    destruct (settles_logout s Hs d2) as [d3 E3]. destruct (settles_close s Hs d3) as [d4 E4].
    unfold mbind, mret, prog_bind, prog_ret, set_M, modify, on_M, OpenDB, get_state, Mongo.perform.
    cbn. unfold mbind, mret, prog_bind, prog_ret. cbn. rewrite Hd. cbn. rewrite E1. cbn. rewrite E2. cbn.
    rewrite initRedis_run. cbn. do 3 eexists. split; [reflexivity|]. cbn.
    split; [by destruct (the_pool cfg)|]. split; [reflexivity|]. do 2 (split; [reflexivity|]).
    unfold Modle_Destroy, on_M, CloseDB, get_state, Mongo.perform, mbind, mret, prog_bind, prog_ret. cbn.
    rewrite E3. cbn. rewrite E4. cbn. split; [reflexivity|]. done.
Qed.
End modle.

(** ** A concrete pair of drivers, that answer everything *)
Definition yes_drv (R : Type) (c : mgo_call R) (d : nat) : nat * outcome R :=
  match c in mgo_call R return nat * outcome R with
  | Mongo.CDial _ _ => (d, Ret (Ok 7))
  | CSetMode _ _ _ => (d, Ret tt)
  | CSetPoolLimit _ _ => (d, Ret tt)
  | CLogout _ => (d, Ret tt)
  | Mongo.CClose _ => (d, Ret tt)
  | _ => (d, Stuck)
  end.
Definition with_mongo : CustomConfig :=
  mkCustomConfig (mkMongoCfg "db.local" 27017 "game" "" "") (mkEmail "" 0 "" "" "" "")
    (Config.mkRedisCfg "" 0 "" 0 0 0 0).

Lemma modle_lifecycle_witness :
  ∃ w w' db, Modle_Initialize yes_drv echo_drv with_mongo (initial 0) = (w, Ret tt) ∧
    md_this w = mkModle (Some db) None ∧ session db = Some 7 ∧ md_Modle w = true ∧
    md_trace w = [Mongo.Other; Moded 7 Monotonic; Used 7] ∧
    Modle_Destroy yes_drv w = (w', Ret tt) ∧ md_trace w' = md_trace w ++ [Used 7; Closed 7] ∧
    (session <$> M (md_this w')) = Some None ∧ Modle_Destroy yes_drv w' = (w', Ret tt).
Proof.
  destruct (modle_lifecycle yes_drv echo_drv with_mongo 0) as (_ & _ & H).
  apply (H ltac:(discriminate) 7 0).
  - done.
  - by split; intros d; intros; exists d.
Defined.
