(* ===== verification/NetSession.v ===== *)
(** * hNet: frames, connections and sessions

    td.go, session.go and the connection types of websocketHandler.go and
    httpHandler.go.  A frame is the message type, four bytes with the most significant
    one first, and the body.  A session guards its properties with a reader/writer lock
    that is not reentrant. *)
From S2P Require Import Prelude.

Abbreviation bytes := (list Z).
Definition bytes_ok (b : bytes) : Prop := Forall (λ x, 0 ≤ x < 256)%Z b.

(** ** encoding/binary, big endian *)
Definition PutUint32 (v : Z) : bytes :=
  [Z.land (Z.shiftr v 24) 255; Z.land (Z.shiftr v 16) 255; Z.land (Z.shiftr v 8) 255; Z.land v 255]%Z.
Definition Uint32 (b : bytes) : Z :=
  match b with
  | [b0; b1; b2; b3] => Z.lor b3 (Z.lor (Z.shiftl b2 8) (Z.lor (Z.shiftl b1 16) (Z.shiftl b0 24)))
  | _ => 0
  end%Z.

(** The four bytes that [WsConn.WriteMessage] puts before the data. *)
Definition frame (messageType : Z) (data : bytes) : bytes := PutUint32 messageType ++ data.

#[global] Arguments frame _ _ : simpl never.

(** [TdProtocol.Decode]: both slices of a packet that is too short panic. *)
Definition Decode (data : bytes) : outcome (list Z * bytes) :=
  if decide (length data < 4) then Panic SliceBounds
  else Ret ([Uint32 (take 4 data)], drop 4 data).
(** [TdProtocol.Encode] *)
Definition Encode (buff : bytes) : Z * Z := (0, 0)%Z.

Lemma testbit_high a n i : (0 ≤ a < 2 ^ n)%Z → (n ≤ i)%Z → Z.testbit a i = false.
Proof.
  intros [Ha Hn] Hi. destruct (decide (a = 0)%Z) as [->|]; [apply Z.bits_0|].
  apply Z.bits_above_log2; [done|].
  assert (Z.log2 a < n)%Z; [apply Z.log2_lt_pow2; lia|lia].
Qed.

Lemma Uint32_Put v : (0 ≤ v < 2 ^ 32)%Z → Uint32 (PutUint32 v) = v.
Proof.
  intros Hv. unfold Uint32, PutUint32. apply Z.bits_inj'. intros i Hi.
  change 255%Z with (Z.ones 8).
  rewrite !Z.lor_spec, !Z.shiftl_spec, !Z.land_spec by lia.
  destruct (decide (i < 8)%Z); [|destruct (decide (i < 16)%Z); [|destruct (decide (i < 24)%Z);
    [|destruct (decide (i < 32)%Z)]]].
  5: rewrite (testbit_high v 32 i) by lia.
  all: repeat first
    [ rewrite (Z.testbit_neg_r _ (i - _)) by lia
    | rewrite Z.shiftr_spec by lia
    | rewrite Z.ones_spec_low by lia
    | rewrite Z.ones_spec_high by lia ];
    rewrite ?andb_false_r, ?andb_true_r, ?orb_false_r, ?orb_false_l; try done.
  all: f_equal; lia.
Qed.

Lemma Uint32_range b : bytes_ok b → (0 ≤ Uint32 b < 2 ^ 32)%Z.
Proof.
  intros Hb. unfold Uint32. destruct b as [|b0 [|b1 [|b2 [|b3 [|]]]]]; try lia.
  apply Forall_cons in Hb as [H0 Hb]. apply Forall_cons in Hb as [H1 Hb].
  apply Forall_cons in Hb as [H2 Hb]. apply Forall_cons in Hb as [H3 _].
  rewrite !Z.shiftl_mul_pow2 by lia.
  assert (0 ≤ Z.lor b3 (Z.lor (b2 * 2 ^ 8) (Z.lor (b1 * 2 ^ 16) (b0 * 2 ^ 24))))%Z.
  { rewrite !Z.lor_nonneg. lia. }
  split; [done|]. destruct (decide (Z.lor b3 (Z.lor (b2 * 2 ^ 8) (Z.lor (b1 * 2 ^ 16) (b0 * 2 ^ 24))) = 0)%Z) as [->|]; [lia|].
  apply Z.log2_lt_pow2; [lia|]. rewrite !Z.log2_lor by (rewrite ?Z.lor_nonneg; lia).
  assert (∀ b k, 0 ≤ b < 256 → 0 ≤ k ≤ 24 → Z.log2 (b * 2 ^ k) < 32)%Z as Hl.
  { intros b k Hb' Hk. destruct (decide (b = 0)%Z) as [->|]; [done|].
    rewrite Z.log2_mul_pow2 by lia. assert (Z.log2 b < 8)%Z; [apply Z.log2_lt_pow2; lia|lia]. }
  pose proof (Hl b0 24 H0)%Z. pose proof (Hl b1 16 H1)%Z. pose proof (Hl b2 8 H2)%Z.
  pose proof (Hl b3 0 H3)%Z. rewrite Z.mul_1_r in *. lia.
Qed.

(** What is framed is decoded; nothing else panics but a packet without a whole header. *)
Lemma Decode_frame mt data : (0 ≤ mt < 2 ^ 32)%Z → Decode (frame mt data) = Ret ([mt], data).
Proof.
  intros Hmt. unfold Decode. rewrite decide_False by (unfold frame, PutUint32; rewrite length_app; simpl; lia).
  f_equal. f_equal. f_equal. by apply Uint32_Put.
Qed.
Lemma Decode_panics data : Decode data = Panic SliceBounds ↔ length data < 4.
Proof. unfold Decode. case_decide; split; (done || lia). Qed.

(** ** Connections

    The gorilla connection and gin's response writer, which are not part of the
    repository: a message is written or refused with an error. *)
Class Transport (C : Type) := {
  tr_write : bytes → C → C * option string;
  tr_addr : C → string;
  tr_close : C → C * option string }.

Section session.
Context {C : Type} `{Transport C}.

(** The implementations of [IWsConn]. *)
Inductive IWsConn := WsConn (wsConn : C) | HttpConn (httpConn : C).

Definition WsConn_WriteMessage (messageType : Z) (data : bytes) (c : C) : C * option string :=
  tr_write (frame messageType data) c.
Definition HttpConn_WriteMessage (messageType : Z) (data : bytes) (c : C) : C * option string :=
  tr_write data c.

Definition WriteMessage (messageType : Z) (data : bytes) (conn : IWsConn) : IWsConn * option string :=
  match conn with
  | WsConn c => let '(c, e) := WsConn_WriteMessage messageType data c in (WsConn c, e)
  | HttpConn c => let '(c, e) := HttpConn_WriteMessage messageType data c in (HttpConn c, e)
  end.
Definition Addr (conn : IWsConn) : string :=
  match conn with WsConn c | HttpConn c => tr_addr c end.
Definition conn_Close (conn : IWsConn) : IWsConn * option string :=
  match conn with
  | WsConn c => let '(c, e) := tr_close c in (WsConn c, e)
  | HttpConn c => (HttpConn c, None)
  end.

(** ** Sessions

    The lock as one goroutine meets it: the others hold it for the length of a method
    only. *)
Inductive rwlock := Free | Writing | Reading (n : nat).

(** Property values, and the functions registered for post processing, by name. *)
Context {V : Type}.
Record Session := mkSession {
  ss_lock : rwlock;
  ss_Id : string;
  ss_properties : gmap string V;
  ss_conn : option IWsConn;
  ss_postProcessing : list positive }.

Definition NewSeesion (id : string) (conn : IWsConn) : Session := mkSession Free id ∅ (Some conn) [].

Definition set_lock l (s : Session) :=
  mkSession l (ss_Id s) (ss_properties s) (ss_conn s) (ss_postProcessing s).
Definition set_properties p (s : Session) :=
  mkSession (ss_lock s) (ss_Id s) p (ss_conn s) (ss_postProcessing s).
Definition set_conn c (s : Session) :=
  mkSession (ss_lock s) (ss_Id s) (ss_properties s) c (ss_postProcessing s).

Definition Lock : prog Session unit := λ s,
  match ss_lock s with Free => (set_lock Writing s, Ret tt) | _ => (s, Stuck) end.
Definition RLock : prog Session unit := λ s,
  match ss_lock s with
  | Free => (set_lock (Reading 1) s, Ret tt)
  | Reading n => (set_lock (Reading (S n)) s, Ret tt)
  | Writing => (s, Stuck)
  end.
(** Unlocking what is not locked that way ends the process. *)
Definition Unlock : prog Session unit := λ s,
  match ss_lock s with Writing => (set_lock Free s, Ret tt) | _ => (s, Panic UnlockUnlocked) end.
Definition RUnlock : prog Session unit := λ s,
  match ss_lock s with
  | Reading 1 => (set_lock Free s, Ret tt)
  | Reading (S (S n)) => (set_lock (Reading (S n)) s, Ret tt)
  | _ => (s, Panic UnlockUnlocked)
  end.
(** [defer unlock; body] *)
Definition deferred {A} (unlock : prog Session unit) (body : prog Session A) : prog Session A := λ s,
  match body s with
  | (s', Ret a) => (_ ← unlock; mret a) s'
  | (s', Panic p) => if fatal p then (s', Panic p) else (_ ← unlock; panicking p) s'
  | (s', Stuck) => (s', Stuck)
  end.
Definition locked {A} (lock unlock : prog Session unit) (body : prog Session A) : prog Session A :=
  _ ← lock; deferred unlock body.

Definition AddPostProcessing (fn : positive) : prog Session unit :=
  locked Lock Unlock (modify (λ s,
    mkSession (ss_lock s) (ss_Id s) (ss_properties s) (ss_conn s) (ss_postProcessing s ++ [fn]))).
(** [PostProcessing]; [run] is what the registered functions do. *)
Definition PostProcessing (run : positive → prog Session unit) : prog Session unit :=
  locked Lock Unlock (s ← get_state; for_each (ss_postProcessing s) run).
Definition RemoteAddr : prog Session string :=
  locked RLock RUnlock (s ← get_state;
    match ss_conn s with Some c => mret (Addr c) | None => panicking NilDereference end).
Definition Session_Close : prog Session (option string) :=
  locked Lock Unlock (s ← get_state;
    match ss_conn s with
    | Some c => let '(c, e) := conn_Close c in _ ← modify (set_conn (Some c)); mret e
    | None => panicking NilDereference
    end).
Definition SetProperty (key : string) (value : V) : prog Session unit :=
  locked Lock Unlock (modify (λ s, set_properties (<[key := value]> (ss_properties s)) s)).
Definition GetProperty (key : string) : prog Session (option V) :=
  locked RLock RUnlock (s ← get_state; mret (ss_properties s !! key)).
(** [Lock] with a deferred [RUnlock]. *)
Definition RemoveProperty (key : string) : prog Session unit :=
  locked Lock RUnlock (modify (λ s, set_properties (delete key (ss_properties s)) s)).

Definition ErrSessionEissconnected : string := "this session is broken".
Definition Session_Emit (messageType : Z) (message : bytes) : prog Session (option string) :=
  s ← get_state;
  match ss_conn s with
  | None => mret (Some ErrSessionEissconnected)
  | Some c => let '(c, e) := WriteMessage messageType message c in _ ← modify (set_conn (Some c)); mret e
  end.
Definition IsClose : prog Session bool :=
  s ← get_state; mret (match ss_conn s with None => true | Some _ => false end).

(** ** What the methods do to a session nobody has locked *)
Lemma set_lock_free (s : Session) l : ss_lock s = Free → set_lock Free (set_lock l s) = s.
Proof. by destruct s; simpl; intros ->. Qed.

Lemma SetProperty_run key v s :
  ss_lock s = Free → SetProperty key v s = (set_properties (<[key := v]> (ss_properties s)) s, Ret tt).
Proof. destruct s; simpl. by intros ->. Qed.
Lemma GetProperty_run key s :
  ss_lock s = Free → GetProperty key s = (s, Ret (ss_properties s !! key)).
Proof. destruct s; simpl. by intros ->. Qed.
Lemma RemoteAddr_run s :
  ss_lock s = Free →
  RemoteAddr s = (s, match ss_conn s with Some c => Ret (Addr c) | None => Panic NilDereference end).
Proof. destruct s as [? ? ? [] ?]; simpl; by intros ->. Qed.
Lemma Session_Close_run s c :
  ss_lock s = Free → ss_conn s = Some c →
  Session_Close s = (set_conn (Some (conn_Close c).1) s, Ret (conn_Close c).2).
Proof.
  destruct s; simpl; intros -> ->. unfold Session_Close, locked, deferred. unfold_prog. cbn.
  by destruct (conn_Close c).
Qed.

(** The process ends: the lock is held for writing when it is released for reading. *)
Lemma RemoveProperty_fatal key s :
  ss_lock s = Free → (RemoveProperty key s).2 = Panic UnlockUnlocked.
Proof. destruct s; simpl. by intros ->. Qed.

(** Functions that leave the lock alone. *)
Definition lock_free_fn (run : positive → prog Session unit) (fn : positive) : Prop :=
  ∀ s, ∃ s', run fn s = (s', Ret tt) ∧ ss_lock s' = ss_lock s.

Lemma for_each_lock_free run l s :
  Forall (lock_free_fn run) l → ∃ s', for_each l run s = (s', Ret tt) ∧ ss_lock s' = ss_lock s.
Proof.
  intros Hl. revert s. induction Hl as [|fn l Hfn _ IH]; intros s; simpl; [by exists s|].
  destruct (Hfn s) as (s1 & E1 & El). unfold mbind, prog_bind. rewrite E1.
  destruct (IH s1) as (s2 & -> & El2). exists s2. split; [done|congruence].
Qed.

(** The first function that touches the session's lock never returns. *)
Definition blocks_on_lock (run : positive → prog Session unit) (fn : positive) : Prop :=
  ∀ s, ss_lock s = Writing → (run fn s).2 = Stuck.

Lemma PostProcessing_runs run s :
  ss_lock s = Free → Forall (lock_free_fn run) (ss_postProcessing s) →
  ∃ s', PostProcessing run s = (s', Ret tt) ∧ ss_lock s' = Free.
Proof.
  intros Hl Hf. unfold PostProcessing, locked, deferred. unfold_prog. unfold Lock. rewrite Hl.
  destruct (for_each_lock_free run _ (set_lock Writing s) Hf) as (s' & E & El). simpl in *.
  rewrite E. unfold Unlock. rewrite El. by eexists.
Qed.
Lemma PostProcessing_blocks run s l1 fn l2 :
  ss_lock s = Free → ss_postProcessing s = l1 ++ fn :: l2 →
  Forall (lock_free_fn run) l1 → blocks_on_lock run fn →
  (PostProcessing run s).2 = Stuck.
Proof.
  intros Hl El Hf Hb. unfold PostProcessing, locked, deferred. unfold_prog. unfold Lock. rewrite Hl. simpl. rewrite El.
  assert (∀ t, ss_lock t = Writing → (for_each (l1 ++ fn :: l2) run t).2 = Stuck) as Hgen.
  { clear El. induction Hf as [|x l1 Hx _ IH]; intros t Ht; simpl; unfold mbind, prog_bind.
    - specialize (Hb t Ht). destruct (run fn t) as [t' [[]|p|]]; done.
    - destruct (Hx t) as (t' & -> & Et). apply IH. congruence. }
  specialize (Hgen (set_lock Writing s) eq_refl).
  destruct (for_each _ run (set_lock Writing s)) as [s' [[]|p|]]; done.
Qed.
End session.
Arguments IWsConn C : clear implicits.
Arguments Session C V : clear implicits.
