(* ===== verification/NetApi.v ===== *)
(** * hNet: the message API

    baseApi.go.  Message types have numbers ([mt2id]); the methods of an API object that
    take a session and a message are entered into a table by the number of their
    message ([route]), both shared by the process; a message that comes in is decoded
    and passed to its method, and an answer is framed with the number of its type. *)
From S2P Require Import Prelude GoString GoReflect NetSession.

(** What is registered: a function, or an object with its exported methods. *)
Inductive api :=
| Func (name : string) (ins : list gotype)
| Obj (typ : gotype) (methods : list rmethod).
#[global] Instance rmethod_eq_dec : EqDecision rmethod.
Proof. solve_decision. Defined.
#[global] Instance api_eq_dec : EqDecision api.
Proof. solve_decision. Defined.

(** [mt_resv] is the receiver as a [reflect.Value]; a function has the zero value. *)
Record methodType := mkMethodType { mt_resv : option api; mt_method : string; mt_argsType : gotype }.

Definition st : gotype := TPtr (TType "custom/happy/hNet" "Session" KOther).
(** hCommon/utils.go *)
Definition IsExportedOrBuiltinType (t : gotype) : bool := isExportedOrBuiltinType t.

Definition ErrNotInit : panic := PanicVal "this api is not initialized".
Definition ErrApiHandlerParamWrong : panic := PanicVal "this handler param wrong".
Definition ErrApiRepeated : panic := PanicVal "this ApiBase is  repeated".

Record ApiBase := mkApi {
  ab_instance : option api;
  ab_protoc : bool;
  ab_parent : option positive;
  ab_isInit : bool;
  ab_SessMap : gmap string positive }.

Section api.
Context {C : Type} `{Transport C} {PV M : Type}.

(** The tables of the package, one API, the sessions, and the calls made so far: the
    method, the session and the message. *)
Record Net := mkNet {
  this : ApiBase;
  route : gmap Z methodType;
  mt2id : gmap gotype Z;
  sessions : gmap positive (Session C PV);
  calls : list (methodType * positive * M) }.

(** The type of a message, the protocol, and what the handlers do. *)
Context (TypeOf : M → gotype).
Context (Marshal : M → result string bytes) (Unmarshal : bytes → gotype → result string M).
Context (user : methodType → positive → M → prog Net unit).

Definition set_this a (w : Net) := mkNet a (route w) (mt2id w) (sessions w) (calls w).
Definition set_route r (w : Net) := mkNet (this w) r (mt2id w) (sessions w) (calls w).
Definition set_sessions s (w : Net) := mkNet (this w) (route w) (mt2id w) s (calls w).

Definition Instance_ (i : api) : prog Net unit := modify (λ w,
  set_this (mkApi (Some i) (ab_protoc (this w)) (ab_parent (this w)) (ab_isInit (this w)) (ab_SessMap (this w))) w).
Definition SetProtocol : prog Net unit := modify (λ w,
  set_this (mkApi (ab_instance (this w)) true (ab_parent (this w)) (ab_isInit (this w)) (ab_SessMap (this w))) w).
Definition SetParent (p : positive) : prog Net unit := modify (λ w,
  set_this (mkApi (ab_instance (this w)) (ab_protoc (this w)) (Some p) (ab_isInit (this w)) (ab_SessMap (this w))) w).
Definition GetParent (w : Net) : option positive * option string :=
  (ab_parent (this w), match ab_parent (this w) with None => Some "this api has not parent" | _ => None end).

Definition checkInit : prog Net unit :=
  w ← get_state; if ab_isInit (this w) then mret tt else panicking ErrNotInit.

(** [SetMT2ID]: a type that has a number keeps it. *)
Definition SetMT2ID (mtToId : gmap gotype Z) : prog Net unit :=
  modify (λ w, mkNet (this w) (route w) (mt2id w ∪ mtToId) (sessions w) (calls w)).
Definition GetMT2ID (w : Net) : gmap gotype Z := mt2id w.

(** Entering one method: a number is given once. *)
Definition add_route (index : Z) (mt : methodType) : prog Net unit :=
  w ← get_state;
  match route w !! index with
  | Some _ => panicking ErrApiRepeated
  | None => modify (set_route (<[index := mt]> (route w)))
  end.

Definition Api_Register (name : string) (ins : list gotype) : prog Net unit :=
  _ ← checkInit;
  match ins with
  | [sessType; argsType] =>
      if decide (sessType ≠ st) then mret tt
      else if negb (IsExportedOrBuiltinType argsType) then mret tt
      else
        w ← get_state;
        match mt2id w !! argsType with
        | None => mret tt
        | Some index => add_route index (mkMethodType None name argsType)
        end
  | _ => panicking ErrApiHandlerParamWrong
  end.

(** The message a method of an object handles, if it is a handler. *)
Definition handler_arg (m : rmethod) : option gotype :=
  if decide (rm_PkgPath m ≠ "") then None else
  match rm_In m with
  | [_; sessType; argsType] =>
      if decide (sessType ≠ st) then None
      else if negb (IsExportedOrBuiltinType argsType) then None else Some argsType
  | _ => None
  end.

(** One turn of the loop; the log line asks the argument's type for its element. *)
Definition register_method (i : api) (m : rmethod) : prog Net unit :=
  match handler_arg m with
  | None => mret tt
  | Some argsType =>
      w ← get_state;
      match mt2id w !! argsType with
      | None => mret tt
      | Some index =>
          _ ← add_route index (mkMethodType (Some i) (rm_Name m) argsType);
          if is_ptr argsType then mret tt else panicking (PanicVal "reflect: Elem of invalid type")
      end
  end.

Definition RegisterGroup (i : api) : prog Net unit :=
  _ ← checkInit;
  match i with
  | Func name ins => Api_Register name ins
  | Obj typ methods =>
      if is_ptr typ then for_each methods (register_method i)
      else panicking (PanicVal "reflect: Elem of invalid type")
  end.

Definition Api_Init (parent : option positive) : prog Net unit :=
  _ ← (match parent with Some p => SetParent p | None => mret tt end);
  w ← get_state;
  match ab_instance (this w), ab_protoc (this w), ab_parent (this w) with
  | Some i, true, Some _ =>
      _ ← modify (λ w, set_this (mkApi (Some i) true (ab_parent (this w)) true (ab_SessMap (this w))) w);
      RegisterGroup i
  | _, _, _ => panicking ErrNotInit
  end.

(** hCommon [CheckError], deferred: the panic is logged. *)
Definition CheckError (m : prog Net unit) : prog Net unit := recovering m (λ _, mret tt).

Definition call_method (mt : methodType) (sess : positive) (v : M) : prog Net unit :=
  _ ← modify (λ w, mkNet (this w) (route w) (mt2id w) (sessions w) (calls w ++ [(mt, sess, v)]));
  user mt sess v.

(** [Route]: [IsNil] of the zero [reflect.Value] panics. *)
Definition Route (sess : positive) (messageID : Z) (data : bytes) : prog Net unit :=
  _ ← checkInit;
  CheckError (
    w ← get_state;
    match route w !! messageID with
    | None => mret tt
    | Some mt =>
        match mt_argsType mt with
        | TPtr elem =>
            match Unmarshal data elem with
            | Err _ => mret tt
            | Ok v =>
                match mt_resv mt with
                | None => panicking (PanicVal "reflect: call of reflect.Value.IsNil on zero Value")
                | Some _ => call_method mt sess v
                end
            end
        | TType _ _ _ => panicking (PanicVal "reflect: Elem of invalid type")
        end
    end).

Definition on_session {A} (sid : positive) (m : prog (Session C PV) A) : prog Net A := λ w,
  match sessions w !! sid with
  | None => (w, Panic NilDereference)
  | Some s => let '(s, r) := m s in (set_sessions (<[sid := s]> (sessions w)) w, r)
  end.

(** [Reply]: it panics with what [Emit] answers, also when that is nil. *)
Definition Reply (sess : positive) (message : M) : prog Net unit :=
  _ ← checkInit;
  CheckError (
    w ← get_state;
    match mt2id w !! TypeOf message with
    | None => panicking (PanicVal "this message type is not registered")
    | Some id =>
        match Marshal message with
        | Err e => panicking (PanicVal e)
        | Ok m =>
            closed ← on_session sess IsClose;
            if (closed : bool) then mret tt
            else err ← on_session sess (Session_Emit id m);
                 panicking (PanicVal (default "nil" (err : option string)))
        end
    end).

Definition GetMessageType (message : M) : prog Net (option Z) :=
  _ ← checkInit; w ← get_state; mret (mt2id w !! TypeOf message).

Definition OnConnect (sid : positive) (Id : string) : prog Net unit := modify (λ w,
  set_this (mkApi (ab_instance (this w)) (ab_protoc (this w)) (ab_parent (this w)) (ab_isInit (this w))
              (<[Id := sid]> (ab_SessMap (this w)))) w).
Definition OnDisconnect (Id : string) : prog Net unit := modify (λ w,
  set_this (mkApi (ab_instance (this w)) (ab_protoc (this w)) (ab_parent (this w)) (ab_isInit (this w))
              (delete Id (ab_SessMap (this w)))) w).

(** ** Registration *)

(** The entries of the methods, in order. *)
Definition entry (i : api) (ids : gmap gotype Z) (m : rmethod) : option (Z * methodType) :=
  argsType ← handler_arg m;
  index ← ids !! argsType;
  Some (index, mkMethodType (Some i) (rm_Name m) argsType).
Definition entries (i : api) (ids : gmap gotype Z) (ms : list rmethod) : list (Z * methodType) :=
  omap (entry i ids) ms.

Lemma register_method_run i m w :
  register_method i m w =
  match entry i (mt2id w) m with
  | None => (w, Ret tt)
  | Some (index, mt) =>
      match route w !! index with
      | Some _ => (w, Panic ErrApiRepeated)
      | None => (set_route (<[index := mt]> (route w)) w,
                 if is_ptr (mt_argsType mt) then Ret tt else Panic (PanicVal "reflect: Elem of invalid type"))
      end
  end.
Proof.
  unfold register_method, entry. destruct (handler_arg m) as [t|]; [|done]. simpl.
  unfold mbind at 1, prog_bind at 1. simpl. destruct (mt2id w !! t) as [index|]; [|done]. simpl.
  unfold add_route. unfold_prog. cbn. destruct (route w !! index); [done|]. cbn. by destruct (is_ptr t).
Qed.

(** The loop enters all the entries when their numbers are new and different, and their
    types pointers; it panics at the first number that is taken. *)
Lemma register_loop i ms w :
  let es := entries i (mt2id w) ms in
  Forall (λ e, is_ptr (mt_argsType e.2) = true) es →
  (NoDup es.*1 → (∀ k, k ∈ es.*1 → route w !! k = None) →
     for_each ms (register_method i) w = (set_route (list_to_map es ∪ route w) w, Ret tt)) ∧
  (¬ (NoDup es.*1 ∧ ∀ k, k ∈ es.*1 → route w !! k = None) →
     (for_each ms (register_method i) w).2 = Panic ErrApiRepeated).
Proof.
  intros es. subst es. revert w. induction ms as [|m ms IH]; intros w Hptr.
  - simpl. split.
    + intros _ _. rewrite (left_id_L ∅ (∪)). by destruct w.
    + intros Hn. exfalso. apply Hn. split; [constructor|]. by intros k ?%elem_of_nil.
  - unfold entries in *. cbn [for_each omap list_omap] in *. unfold mbind, prog_bind. rewrite register_method_run.
    destruct (entry i (mt2id w) m) as [[k mt]|]; [|by apply IH].
    apply Forall_cons in Hptr as [Hp Hptr]. simpl in Hp.
    destruct (route w !! k) as [x|] eqn:Ek.
    { split; [|done]. intros _ Hfree. rewrite (Hfree k) in Ek by (simpl; left). done. }
    rewrite Hp. specialize (IH (set_route (<[k := mt]> (route w)) w) Hptr) as [IHok IHbad].
    cbn [mt2id set_route route] in *. simpl. split.
    + intros [Hni Hnd]%NoDup_cons Hfree. rewrite IHok; [|done|].
      * f_equal. unfold set_route. simpl. f_equal.
        rewrite <- insert_union_r, insert_union_l; [done|]. by apply not_elem_of_list_to_map_1.
      * intros k' Hk'. rewrite lookup_insert_ne; [apply Hfree; simpl; by right|]. by intros ->.
    + intros Hn. apply IHbad. intros [Hnd Hfree]. apply Hn. split.
      * apply NoDup_cons. split; [|done]. intros Hin. specialize (Hfree k Hin).
        by rewrite lookup_insert_eq in Hfree.
      * intros k' [->|Hin]%elem_of_cons; [done|]. specialize (Hfree k' Hin).
        rewrite lookup_insert_ne in Hfree; [done|]. intros ->. by rewrite lookup_insert_eq in Hfree.
Qed.

(** ** Init, and messages afterwards *)
Definition ready (w : Net) (i : api) : Prop :=
  ab_instance (this w) = Some i ∧ ab_protoc (this w) = true.
Definition initialized (p : positive) (w : Net) : Net :=
  set_this (mkApi (ab_instance (this w)) true (Some p) true (ab_SessMap (this w))) w.

Lemma Api_Init_run p i w :
  ready w i → Api_Init (Some p) w = RegisterGroup i (initialized p w).
Proof.
  intros [Hi Hp]. unfold Api_Init, initialized. unfold_prog. cbn. rewrite Hi, Hp. cbn.
  by destruct (RegisterGroup i _).
Qed.

Lemma Route_called mt sess id data w v elem :
  ab_isInit (this w) = true → route w !! id = Some mt → mt_argsType mt = TPtr elem →
  is_Some (mt_resv mt) → Unmarshal data elem = Ok v →
  Route sess id data w = CheckError (call_method mt sess v) w.
Proof.
  intros Hi Hr Ht [i Hv] Hu. unfold Route, checkInit. unfold_prog. cbn. rewrite Hi.
  unfold CheckError, recovering. cbn. by rewrite Hr, Ht, Hu, Hv.
Qed.

Lemma Reply_writes sess s c id v b w :
  ab_isInit (this w) = true → mt2id w !! TypeOf v = Some id → Marshal v = Ok b →
  sessions w !! sess = Some s → ss_conn s = Some (WsConn c) →
  Reply sess v w =
    (set_sessions (<[sess := set_conn (Some (WsConn (tr_write (frame id b) c).1)) s]> (sessions w)) w, Ret tt).
Proof.
  intros Hi Hid Hm Hs Hc. unfold Reply, checkInit. unfold_prog. cbn. rewrite Hi.
  unfold CheckError, recovering. cbn. rewrite Hid, Hm. unfold on_session. rewrite Hs.
  unfold IsClose. unfold_prog. cbn. rewrite Hc. cbn. rewrite lookup_insert_eq.
  unfold Session_Emit. unfold_prog. cbn. rewrite Hc. cbn. unfold WsConn_WriteMessage.
  destruct (tr_write (frame id b) c) as [c' e]. cbn.
  by rewrite insert_insert_eq.
Qed.

(** C27: after [Init] on an empty table every handler method of the API is reached by its
    message: what [Reply] writes to a websocket for a message is decoded into the number
    of the message's type and its body, and routing these calls exactly the method that
    takes the type, with the message that was sent; a number of no method calls nothing.
    [Reply] returns although it panics with the (nil) error of the write.  When two
    methods take messages of one number, [Init] panics. *)
Theorem message_reaches_its_method p typ ms w :
  let i := Obj typ ms in
  let es := entries i (mt2id w) ms in
  ready w i → route w = ∅ → is_ptr typ = true →
  Forall (λ e, is_ptr (mt_argsType e.2) = true) es →
  (NoDup es.*1 →
     ∃ w1, Api_Init (Some p) w = (w1, Ret tt) ∧
       (∀ m elem id v b sess s c to,
          m ∈ ms → handler_arg m = Some (TPtr elem) → mt2id w !! TPtr elem = Some id →
          (0 ≤ id < 2 ^ 32)%Z → TypeOf v = TPtr elem → Marshal v = Ok b → Unmarshal b elem = Ok v →
          sessions w1 !! sess = Some s → ss_conn s = Some (WsConn c) →
          Reply sess v w1 =
            (set_sessions (<[sess := set_conn (Some (WsConn (tr_write (frame id b) c).1)) s]> (sessions w1)) w1, Ret tt) ∧
          Decode (frame id b) = Ret ([id], b) ∧
          Route to id b w1 = CheckError (call_method (mkMethodType (Some i) (rm_Name m) (TPtr elem)) to v) w1) ∧
       (∀ id to data, id ∉ es.*1 → Route to id data w1 = (w1, Ret tt))) ∧
  (¬ NoDup es.*1 → (Api_Init (Some p) w).2 = Panic ErrApiRepeated).
Proof.
  intros i es Hrd Hr Hptr Hes. rewrite (Api_Init_run p i w Hrd).
  assert (RegisterGroup i (initialized p w) = for_each ms (register_method i) (initialized p w)) as ->.
  { unfold RegisterGroup, checkInit. unfold_prog. cbn. by rewrite Hptr. }
  destruct (register_loop i ms (initialized p w) Hes) as [Hok Hbad]. split.
  - intros Hnd. specialize (Hok Hnd). cbn [mt2id route set_this initialized] in Hok.
    rewrite Hr in Hok. specialize (Hok (λ _ _, lookup_empty _)). eexists. split; [exact Hok|]. split.
    + intros m elem id v b sess s c to Hm Ha Hid Hrange Ht Hmar Hun Hs Hc. split_and!.
      * apply Reply_writes; try done. by rewrite Ht.
      * by apply Decode_frame.
      * eapply Route_called; [done| |done|done|done]. cbn. apply lookup_union_Some_l.
        apply elem_of_list_to_map_1; [done|]. apply list_elem_of_omap. exists m. split; [done|].
        unfold entry. rewrite Ha. cbn. by rewrite Hid.
    + intros id to data Hni. unfold Route, checkInit. unfold_prog. cbn. unfold CheckError, recovering. cbn.
      rewrite (right_id_L ∅ (∪)). by rewrite not_elem_of_list_to_map_1.
  - intros Hnd. apply Hbad. by intros [? _].
Qed.

(** A handler that is registered as a function is entered into the table but never
    called: every message of its type is decoded and then lost in a recovered panic. *)
Theorem function_handler_never_called p name elem id w :
  ready w (Func name [st; TPtr elem]) → route w = ∅ →
  isExportedOrBuiltinType elem = true → mt2id w !! TPtr elem = Some id →
  ∃ w1, Api_Init (Some p) w = (w1, Ret tt) ∧ is_Some (route w1 !! id) ∧
    ∀ sess data, Route sess id data w1 = (w1, Ret tt).
Proof.
  intros Hrd Hr Hex Hid. rewrite (Api_Init_run p _ w Hrd). unfold RegisterGroup, Api_Register, add_route, checkInit.
  unfold_prog. cbn. unfold IsExportedOrBuiltinType. cbn. rewrite Hex. cbn. rewrite Hid. cbn. rewrite Hr, lookup_empty.
  eexists. split; [done|]. cbn. rewrite lookup_insert_eq. split; [done|]. intros sess data.
  unfold Route, checkInit. unfold_prog. cbn. unfold CheckError, recovering. cbn.
  rewrite lookup_insert_eq. cbn. by destruct (Unmarshal data elem).
Qed.
End api.
Arguments Net C PV M : clear implicits.

(** ** Witnesses *)
#[local] Instance log_transport : Transport (list bytes) :=
  {| tr_write b c := (c ++ [b], None); tr_addr _ := "peer"; tr_close c := (c, None) |}.

(** A message is a list of bytes, of a type that its first byte names. *)
Definition ping_type : gotype := TType "game" "Ping" KOther.
Definition pong_type : gotype := TType "game" "Pong" KOther.
Definition a_typeOf (m : bytes) : gotype := TPtr (if decide (head m = Some 1%Z) then ping_type else pong_type).
Definition an_api : api :=
  Obj (TPtr (TType "game" "Api" KOther))
    [mkRMethod "OnPing" "" [TPtr (TType "game" "Api" KOther); st; TPtr ping_type] [];
     mkRMethod "helper" "" [TPtr (TType "game" "Api" KOther)] [];
     mkRMethod "OnPong" "" [TPtr (TType "game" "Api" KOther); st; TPtr pong_type] []].
Definition a_net : Net (list bytes) unit bytes :=
  mkNet (mkApi (Some an_api) true None false ∅) ∅ {[TPtr ping_type := 1000%Z; TPtr pong_type := 70000%Z]}
    {[1%positive := NewSeesion "s" (WsConn [])]} [].

Lemma message_reaches_its_method_witness :
  ∃ w1, Api_Init (Some 1%positive) a_net = (w1, Ret tt) ∧
    Route (λ data _, Ok data) (λ _ _ _, mret tt) 1 70000 [2; 7]%Z w1 =
      CheckError (call_method (λ _ _ _, mret tt) (mkMethodType (Some an_api) "OnPong" (TPtr pong_type)) 1 [2; 7]%Z) w1.
Proof.
  destruct (message_reaches_its_method a_typeOf (λ m, Ok m) (λ data _, Ok data) (λ _ _ _, mret tt) 1
              (TPtr (TType "game" "Api" KOther))
              [mkRMethod "OnPing" "" [TPtr (TType "game" "Api" KOther); st; TPtr ping_type] [];
               mkRMethod "helper" "" [TPtr (TType "game" "Api" KOther)] [];
               mkRMethod "OnPong" "" [TPtr (TType "game" "Api" KOther); st; TPtr pong_type] []] a_net)
    as [Hok _]; [by split|done|done|by repeat constructor|].
  destruct Hok as (w1 & E & Hm & _); [apply (bool_decide_unpack _); by vm_compute|].
  exists w1. split; [exact E|].
  destruct (Hm (mkRMethod "OnPong" "" [TPtr (TType "game" "Api" KOther); st; TPtr pong_type] [])
              pong_type 70000%Z [2; 7]%Z [2; 7]%Z 1%positive (NewSeesion "s" (WsConn [])) [] 1%positive) as (_ & _ & ->);
    try done; [right; right; by left|].
  assert (sessions w1 = sessions a_net) as ->; [|done].
  apply (f_equal (λ r, sessions r.1)) in E. vm_compute in E. symmetry. exact E.
Defined.

Definition a_func_net : Net (list bytes) unit bytes :=
  mkNet (mkApi (Some (Func "game.onPing" [st; TPtr ping_type])) true None false ∅) ∅ {[TPtr ping_type := 1000%Z]} ∅ [].
Lemma function_handler_never_called_witness :
  ∃ w1, Api_Init (Some 1%positive) a_func_net = (w1, Ret tt) ∧ is_Some (route w1 !! 1000%Z) ∧
    ∀ sess data, Route (λ data _, Ok data) (λ _ _ _, mret tt) sess 1000 data w1 = (w1, Ret tt).
Proof.
  apply (function_handler_never_called (λ data _, Ok data) (λ _ _ _, mret tt) 1 "game.onPing" ping_type 1000%Z a_func_net);
    [by split|done|done|done].
Defined.
