(* ===== verification/NetServer.v ===== *)
(** * hNet: the server and its handlers

    server.go, websocketHandler.go and httpHandler.go: what happens to a packet or a
    posted message, which panics and errors of a handler are contained, and how the websocket handler counts its connections and waits for
    the last of them. *)
From S2P Require Import Prelude GoString GoReflect NetSession NetApi.

(** ** Configuration and start *)
Record ServerConf := mkConf {
  cf_Protocol : string;
  cf_LogicAPI : bool;
  cf_CustomeHandler : bool;
  cf_Address : string;
  cf_IsUsePool : bool;
  cf_MaxInvoke : Z;
  cf_QueueCap : Z }.

Inductive IHander := WebSocketHandler | HttpHandler.

(** [Server.getHandler] *)
Definition getHandler (conf : ServerConf) : outcome IHander :=
  if decide (cf_Protocol conf = "ws") then Ret WebSocketHandler
  else if decide (cf_Protocol conf = "http") then Ret HttpHandler
  else Panic (PanicVal ("unsupport protocol: " +:+ cf_Protocol conf)).

(** The pool of the process: workers and queue length of the first handler that asked. *)
Definition GetGloblePool (numWorkers jobQueueLen : Z) (globalPool : option (Z * Z)) : outcome (Z * Z) :=
  match globalPool with
  | Some p => Ret p
  | None => if decide (numWorkers < 0 ∨ jobQueueLen < 0)%Z then Panic MakeNegativeLen
            else Ret (numWorkers, jobQueueLen)
  end.

(** [Listen], the same for both handlers up to the routes they install. *)
Definition Listen (conf : ServerConf) (globalPool : option (Z * Z)) : outcome (ServerConf * (Z * Z)) :=
  let conf :=
    if cf_IsUsePool conf && bool_decide (cf_MaxInvoke conf = 0%Z)
    then mkConf (cf_Protocol conf) (cf_LogicAPI conf) (cf_CustomeHandler conf) (cf_Address conf)
           (cf_IsUsePool conf) 20 (cf_QueueCap conf)
    else conf in
  p ← GetGloblePool (cf_MaxInvoke conf) (cf_QueueCap conf) globalPool;
  Ret (conf, p).

(** ** Messages *)
Section messages.
Context {C : Type} `{Transport C} {PV M D : Type}.
Context (Unmarshal : bytes → gotype → result string M).
Context (user : methodType → positive → M → prog (Net C PV M) unit).
Context (json_Marshal : D → bytes).

Record Srv := mkSrv {
  sv_isClosed : bool;
  sv_numInvoke : Z;
  sv_handle : option IHander;
  sv_acceptNum : Z;
  sv_net : Net C PV M;
  sv_custom : list (positive * bytes) }.

Definition set_numInvoke n (s : Srv) :=
  mkSrv (sv_isClosed s) n (sv_handle s) (sv_acceptNum s) (sv_net s) (sv_custom s).
Definition set_acceptNum n (s : Srv) :=
  mkSrv (sv_isClosed s) (sv_numInvoke s) (sv_handle s) n (sv_net s) (sv_custom s).
Definition set_net n (s : Srv) :=
  mkSrv (sv_isClosed s) (sv_numInvoke s) (sv_handle s) (sv_acceptNum s) n (sv_custom s).

Definition on_net {A} (m : prog (Net C PV M) A) : prog Srv A := λ s,
  let '(w, r) := m (sv_net s) in (set_net w s, r).

(** [Server.invoke]: the session is the one the context carries. *)
Definition invoke (sess : option positive) (mid : Z) (data : bytes) : prog Srv unit :=
  _ ← modify (λ s, set_numInvoke (int32 (sv_numInvoke s + 1)) s);
  _ ← (match sess with
       | Some sid => on_net (Route Unmarshal user sid mid data)
       | None => mret tt
       end);
  modify (λ s, set_numInvoke (int32 (sv_numInvoke s - 1)) s).

(** The application's own handler is given the packet. *)
Definition CustomeHandler (sess : positive) (data : bytes) : prog Srv unit := modify (λ s,
  mkSrv (sv_isClosed s) (sv_numInvoke s) (sv_handle s) (sv_acceptNum s) (sv_net s) (sv_custom s ++ [(sess, data)])).

(** The handler that [recv] gives to the pool for every packet. *)
Definition ws_handler (conf : ServerConf) (sess : positive) (pkg : bytes) : prog Srv unit :=
  if cf_CustomeHandler conf then CustomeHandler sess pkg
  else match Decode pkg with
       | Ret (mid, mes) =>
           if cf_LogicAPI conf then
             match mid with
             | m :: _ => invoke (Some sess) m mes
             | [] => panicking IndexOutOfRange
             end
           else mret tt
       | Panic p => panicking p
       | Stuck => stuck
       end.

(** [MsgData] as [BindJSON] leaves it. *)
Record MsgData := mkMsg { MsgId : Z; Data : D }.

(** [handleMsg]: the argument is no byte slice when the application has its own handler. *)
Definition handleMsg (conf : ServerConf) (sess : positive) (p : MsgData) : prog Srv unit :=
  if cf_CustomeHandler conf then panicking (PanicVal "interface conversion: not []uint8")
  else if cf_LogicAPI conf && bool_decide (0 < MsgId p)%Z
  then invoke (Some sess) (uint32 (MsgId p)) (json_Marshal (Data p))
  else mret tt.

Definition revc (conf : ServerConf) (sess : positive) (p : MsgData) : prog Srv unit :=
  _ ← handleMsg conf sess p;
  modify (λ s, set_acceptNum (int32 (sv_acceptNum s - 1)) s).

(** What the client is answered, besides what the handlers write. *)
Inductive http_answer := MethodNotAllowed | PostDataErr | Handled.

(** [HttpHandler.Api]; [p] is what the body is read as, if it can be. *)
Definition Api (conf : ServerConf) (post : bool) (sess : positive) (p : option MsgData) : prog Srv http_answer :=
  if negb post then mret MethodNotAllowed
  else
    _ ← modify (λ s, set_acceptNum (int32 (sv_acceptNum s + 1)) s);
    match p with
    | None => mret PostDataErr
    | Some p => _ ← revc conf sess p; mret Handled
    end.

Definition Shutdown : prog Srv unit := modify (λ s,
  mkSrv true (sv_numInvoke s) None (sv_acceptNum s) (sv_net s) (sv_custom s)).
(** [IsZomibe]; [late] is whether the last call is longer ago than the time out. *)
Definition IsZomibe (conf : ServerConf) (late : bool) (s : Srv) : bool :=
  bool_decide (cf_MaxInvoke conf ≠ 0%Z) && bool_decide (sv_numInvoke s = cf_MaxInvoke conf) && late.

(** ** What is contained of a packet *)

(** The user's handlers return or panic, *)
Definition users_end : Prop := ∀ mt sess v w, (user mt sess v w).2 ≠ Stuck.
(** and a panic of theirs is one that can be recovered. *)
Definition users_survive : Prop := ∀ mt sess v w, ended_by_fatal (user mt sess v w).2 = false.

Lemma Route_returns sess mid data w :
  users_end → users_survive → ab_isInit (this w) = true → ∃ w', Route Unmarshal user sess mid data w = (w', Ret tt).
Proof.
  intros Hu Hf Hi. unfold Route, checkInit. unfold_prog. cbn. rewrite Hi. unfold CheckError, recovering. cbn.
  destruct (route w !! mid) as [mt|]; [|by eexists]. destruct (mt_argsType mt) as [elem|]; [|by eexists].
  destruct (Unmarshal data elem) as [v|]; [|by eexists]. destruct (mt_resv mt) as [i|]; [|by eexists].
  unfold call_method. unfold_prog. cbn.
  match goal with |- context [user mt sess v ?w1] => specialize (Hu mt sess v w1); specialize (Hf mt sess v w1);
    destruct (user mt sess v w1) as [w2 [[]|p|]] end; [by eexists| |done].
  simpl in Hf. rewrite Hf. by eexists.
Qed.

Lemma invoke_returns sess mid data s :
  users_end → users_survive → ab_isInit (this (sv_net s)) = true → (-2 ^ 31 ≤ sv_numInvoke s < 2 ^ 31 - 1)%Z →
  ∃ w', Route Unmarshal user sess mid data (sv_net s) = (w', Ret tt) ∧
    invoke (Some sess) mid data s = (set_net w' s, Ret tt).
Proof.
  intros Hu Hf Hi Hn. destruct (Route_returns sess mid data (sv_net s) Hu Hf Hi) as (w' & E).
  exists w'. split; [done|]. unfold invoke. unfold_prog. cbn. unfold on_net. cbn. rewrite E. cbn.
  unfold modify. cbn [sv_numInvoke set_net set_numInvoke].
  assert (int32 (int32 (sv_numInvoke s + 1) - 1) = sv_numInvoke s) as ->; [|by destruct s].
  rewrite (swrap_small 32 (sv_numInvoke s + 1)) by lia. rewrite swrap_small by lia. lia.
Qed.

(** A handler that takes a property off the session it was called with ends the process
    there, whatever it would do next: [Route]'s recover does not help. *)
Definition removes_property (mt : methodType) (sess : positive) (v : M) : Prop :=
  ∃ key rest, user mt sess v = (on_session sess (RemoveProperty key) ≫= rest).

Lemma removes_property_fatal mt sess v se w :
  removes_property mt sess v → sessions w !! sess = Some se → ss_lock se = Free →
  (user mt sess v w).2 = Panic UnlockUnlocked.
Proof.
  intros (key & rest & ->) Hs Hl. unfold mbind, prog_bind, on_session. rewrite Hs.
  pose proof (RemoveProperty_fatal key se Hl) as E. destruct (RemoveProperty key se) as [se' r].
  simpl in E. by rewrite E.
Qed.

Lemma Route_fatal mid data sess v mt elem se w :
  ab_isInit (this w) = true → route w !! mid = Some mt → mt_argsType mt = TPtr elem →
  is_Some (mt_resv mt) → Unmarshal data elem = Ok v →
  removes_property mt sess v → sessions w !! sess = Some se → ss_lock se = Free →
  (Route Unmarshal user sess mid data w).2 = Panic UnlockUnlocked.
Proof.
  intros Hi Hr Ht Hv Hm Hp Hs Hl. rewrite (Route_called Unmarshal user mt sess mid data w v elem Hi Hr Ht Hv Hm).
  unfold CheckError, recovering, call_method. unfold_prog. cbn.
  match goal with |- context [user mt sess v ?w1] =>
    pose proof (removes_property_fatal mt sess v se w1 Hp Hs Hl) as E; destruct (user mt sess v w1) as [w2 r] end.
  simpl in E. subst r. done.
Qed.

(** C35: with an initialised API and no handler of the application's own, a packet of at
    least four bytes is routed by its first four bytes whatever they are, and whatever the
    handlers do but for never returning and for a fatal error: their panics are
    recovered, and the number of calls under way is what it was.  A fatal error, which the
    framework's own [RemoveProperty] is to a handler that calls it, is not recovered: it
    ends the process.  A shorter packet panics outside of any recover, in a goroutine of
    the pool.  A message that is posted is routed by its number modulo 2^32, so that a
    number of 2^32 or more reaches the handler of another. *)
Theorem packets_contained conf sess s :
  ab_isInit (this (sv_net s)) = true → (-2 ^ 31 ≤ sv_numInvoke s < 2 ^ 31 - 1)%Z →
  cf_CustomeHandler conf = false → cf_LogicAPI conf = true →
  (users_end → users_survive →
    (∀ pkg, 4 ≤ length pkg →
       ∃ w', Route Unmarshal user sess (Uint32 (take 4 pkg)) (drop 4 pkg) (sv_net s) = (w', Ret tt) ∧
         ws_handler conf sess pkg s = (set_net w' s, Ret tt)) ∧
    (∀ p p', (0 < MsgId p)%Z → MsgId p' = (MsgId p + 2 ^ 32)%Z → Data p' = Data p →
       ∃ w', Route Unmarshal user sess (uint32 (MsgId p)) (json_Marshal (Data p)) (sv_net s) = (w', Ret tt) ∧
         handleMsg conf sess p s = (set_net w' s, Ret tt) ∧
         handleMsg conf sess p' s = handleMsg conf sess p s)) ∧
  (∀ pkg, length pkg < 4 → ws_handler conf sess pkg s = (s, Panic SliceBounds)) ∧
  (∀ pkg mt elem v se, 4 ≤ length pkg →
     route (sv_net s) !! Uint32 (take 4 pkg) = Some mt → mt_argsType mt = TPtr elem → is_Some (mt_resv mt) →
     Unmarshal (drop 4 pkg) elem = Ok v → removes_property mt sess v →
     sessions (sv_net s) !! sess = Some se → ss_lock se = Free →
     (ws_handler conf sess pkg s).2 = Panic UnlockUnlocked).
Proof.
  intros Hi Hn Hc Hl. split_and!.
  - intros Hu Hf. split.
    + intros pkg Hlen. destruct (invoke_returns sess (Uint32 (take 4 pkg)) (drop 4 pkg) s Hu Hf Hi Hn) as (w' & E & Ei).
      exists w'. split; [done|]. unfold ws_handler, Decode. rewrite Hc, decide_False by lia. by rewrite Hl.
    + intros p p' Hp Ep Ed.
      destruct (invoke_returns sess (uint32 (MsgId p)) (json_Marshal (Data p)) s Hu Hf Hi Hn) as (w' & E & Ei).
      exists w'. split; [done|]. unfold handleMsg. rewrite Hc, Hl, !bool_decide_true by lia. cbn [andb].
      rewrite Ed. replace (uint32 (MsgId p')) with (uint32 (MsgId p)); [done|].
      unfold uwrap. rewrite Ep. by rewrite <- (Z.mul_1_l (2 ^ 32)) at 2; rewrite Z_mod_plus_full.
  - intros pkg Hlen. unfold ws_handler, Decode. by rewrite Hc, decide_True.
  - intros pkg mt elem v se Hlen Hr Ht Hv Hm Hp Hs Hfree. unfold ws_handler, Decode.
    rewrite Hc, decide_False, Hl by lia. unfold invoke. unfold_prog. cbn. unfold on_net. cbn.
    pose proof (Route_fatal _ _ sess v mt elem se (sv_net s) Hi Hr Ht Hv Hm Hp Hs Hfree) as E.
    destruct (Route Unmarshal user sess _ _ (sv_net s)) as [w' r]. simpl in E. by rewrite E.
Qed.

(** A posted message that cannot be read is never taken off the count of connections. *)
Lemma Api_bad_body_counted conf sess s :
  (-2 ^ 31 ≤ sv_acceptNum s < 2 ^ 31 - 1)%Z →
  Api conf true sess None s = (set_acceptNum (sv_acceptNum s + 1) s, Ret PostDataErr).
Proof. intros Hn. unfold Api. unfold_prog. cbn. rewrite swrap_small by lia. done. Qed.
End messages.
Arguments Srv C PV M : clear implicits.
Arguments MsgData D : clear implicits.

(** ** Connections and the wait for the last of them

    The goroutine of a connection takes itself off the count, and then looks at what the
    count was and at the flag. *)
Module Closing.

Inductive waiter := NotCalled | Flagged | Waiting | Returned.
Record WebSocket := mkWs {
  acceptNum : nat;
  isCheckClose : bool;
  isChanClose : bool;
  leaving : list nat;
  check : waiter;
  closedTwice : nat }.

Definition NewWebSocketHandler : WebSocket := mkWs 0 false false [] NotCalled 0.

Inductive ws_event := Accept | Leave | LeaveCheck (i : nat) | CheckClose1 | CheckClose2 | Wake.

(** [None]: the event is not possible now. *)
Definition ws_run (e : ws_event) (s : WebSocket) : option WebSocket :=
  match e with
  | Accept => Some (mkWs (S (acceptNum s)) (isCheckClose s) (isChanClose s) (leaving s) (check s) (closedTwice s))
  | Leave =>
      match acceptNum s with
      | O => None
      | S i => Some (mkWs i (isCheckClose s) (isChanClose s) (leaving s ++ [i]) (check s) (closedTwice s))
      end
  | LeaveCheck i =>
      rest ← remove_first (i =.) (leaving s);
      Some (if bool_decide (i = 0) && isCheckClose s
            then if isChanClose s
                 then mkWs (acceptNum s) true true rest (check s) (S (closedTwice s))
                 else mkWs (acceptNum s) true true rest (check s) (closedTwice s)
            else mkWs (acceptNum s) (isCheckClose s) (isChanClose s) rest (check s) (closedTwice s))
  | CheckClose1 =>
      match check s with
      | NotCalled => Some (mkWs (acceptNum s) true (isChanClose s) (leaving s) Flagged (closedTwice s))
      | _ => None
      end
  | CheckClose2 =>
      match check s with
      | Flagged => Some (mkWs (acceptNum s) (isCheckClose s) (isChanClose s) (leaving s)
                           (if decide (0 < acceptNum s) then Waiting else Returned) (closedTwice s))
      | _ => None
      end
  | Wake =>
      match check s with
      | Waiting => if isChanClose s
                   then Some (mkWs (acceptNum s) (isCheckClose s) true (leaving s) Returned (closedTwice s))
                   else None
      | _ => None
      end
  end.

Definition ws_step (s s' : WebSocket) : Prop := ∃ e, ws_run e s = Some s'.

Record ws_ok (s : WebSocket) : Prop := {
  ok_flag : check s ≠ NotCalled → isCheckClose s = true;
  ok_wait : check s = Waiting → isChanClose s = true ∨ 0 < acceptNum s ∨ 0 ∈ leaving s }.

Lemma ws_step_ok s s' : ws_ok s → ws_step s s' → ws_ok s'.
Proof.
  intros [Hf Hw] [e E]. destruct e as [| |i| | |]; simpl in E.
  - injection E as <-. split; [done|]. simpl. intros _. right. left. lia.
  - destruct (acceptNum s) as [|n] eqn:En; [done|]. injection E as <-. split; [done|]. simpl.
    intros Hc. destruct (Hw Hc) as [?|[_|?]]; [by left| |right; right; apply elem_of_app; by left].
    right. destruct n; [right; apply elem_of_app; right; by left|left; lia].
  - destruct (remove_first _ (leaving s)) as [rest|] eqn:Er; simplify_eq/=.
    apply remove_first_eq_Permutation in Er.
    case_bool_decide as Hi; simpl; [destruct (isCheckClose s) eqn:Ef; [destruct (isChanClose s) eqn:Ec|]|].
    + split; [done|]. by left.
    + split; [done|]. by left.
    + split; [done|]. simpl. intros Hc. exfalso. rewrite Hc in Hf. by specialize (Hf ltac:(done)).
    + split; [done|]. simpl. intros Hc. destruct (Hw Hc) as [?|[?|Hin]]; [by left|right; by left|].
      right. right. rewrite Er in Hin. apply elem_of_cons in Hin as [?|?]; [congruence|done].
  - destruct (check s) eqn:Ek; simplify_eq/=. by split.
  - destruct (check s) eqn:Ek; simplify_eq/=. split; simpl; [intros _; apply Hf; congruence|].
    case_decide; [|done]. intros _. right. by left.
  - destruct (check s) eqn:Ek; try done. destruct (isChanClose s); simplify_eq/=. split; [|done].
    intros _. by apply Hf.
Qed.

(** However the connections' goroutines and [CheckClose] interleave, [CheckClose] is
    woken: when it waits and every connection has gone, the channel has been closed.  A
    connection that comes and goes after that closes the channel a second time, which
    panics. *)
Theorem CheckClose_wakes :
  (∀ s, rtc ws_step NewWebSocketHandler s → check s = Waiting → acceptNum s = 0 → leaving s = [] →
     ∃ s', ws_run Wake s = Some s' ∧ check s' = Returned) ∧
  (∃ s, rtc ws_step NewWebSocketHandler s ∧ closedTwice s = 1).
Proof.
  split.
  - intros s Hr Hc Ha Hl. assert (ws_ok s) as [_ Hw].
    { by apply (rtc_preserves _ _ _ _ ws_step_ok) in Hr. }
    destruct (Hw Hc) as [E|[?|Hin]]; [|lia|rewrite Hl in Hin; by apply elem_of_nil in Hin].
    simpl. rewrite Hc, E. by eexists.
  - exists (mkWs 0 true true [] Waiting 1). split; [|done].
    apply (runs_steps ws_run [Accept; CheckClose1; CheckClose2; Leave; LeaveCheck 0; Accept; Leave; LeaveCheck 0]).
    vm_compute. reflexivity.
Qed.
End Closing.

(** ** Witness *)
#[local] Instance log_transport : Transport (list bytes) :=
  {| tr_write b c := (c ++ [b], None); tr_addr _ := "peer"; tr_close c := (c, None) |}.
Definition game_msg : gotype := TType "game" "Msg" KOther.
Definition ready_srv : Srv (list bytes) unit bytes :=
  mkSrv false 0 (Some WebSocketHandler) 1
    (mkNet (mkApi None true (Some 1%positive) true ∅)
       {[5%Z := mkMethodType (Some (Func "OnLeave" [])) "OnLeave" (TPtr game_msg)]} ∅
       {[1%positive := NewSeesion "s" (WsConn [])]} []) [].
Definition gate_conf : ServerConf := mkConf "ws" true false "127.0.0.1:5555" true 1000 10000.
Definition forgetful : methodType → positive → bytes → prog (Net (list bytes) unit bytes) unit :=
  λ _ sess _, on_session sess (RemoveProperty "room") ≫= mret.

(** A short packet; one of a number no handler has; and one to a handler that forgets the
    session's room. *)
Lemma packets_contained_witness :
  ws_handler (λ data _, Ok data) (λ _ _ _, mret tt) gate_conf 1 [0; 1; 2]%Z ready_srv = (ready_srv, Panic SliceBounds) ∧
  (∃ w, ws_handler (λ data _, Ok data) (λ _ _ _, panicking NilDereference) gate_conf 1 [0; 0; 0; 5; 1]%Z ready_srv =
     (set_net w ready_srv, Ret tt)) ∧
  (ws_handler (λ data _, Ok data) forgetful gate_conf 1 [0; 0; 0; 5; 1]%Z ready_srv).2 = Panic UnlockUnlocked.
Proof.
  split_and!.
  - destruct (packets_contained (λ data _, Ok data) (λ _ _ _, mret tt) (λ d : bytes, d) gate_conf 1 ready_srv)
      as (_ & Hshort & _); [done|simpl; lia|done|done|].
    apply Hshort. simpl. lia.
  - destruct (packets_contained (λ data _, Ok data) (λ _ _ _, panicking NilDereference) (λ d : bytes, d) gate_conf 1 ready_srv)
      as (Hok & _ & _); [done|simpl; lia|done|done|].
    destruct Hok as [Hok _]; [done|done|]. destruct (Hok [0; 0; 0; 5; 1]%Z) as (w & _ & E); [simpl; lia|].
    by exists w.
  - destruct (packets_contained (λ data _, Ok data) forgetful (λ d : bytes, d) gate_conf 1 ready_srv)
      as (_ & _ & Hfatal); [done|simpl; lia|done|done|].
    apply (Hfatal _ (mkMethodType (Some (Func "OnLeave" [])) "OnLeave" (TPtr game_msg)) game_msg [1]%Z
             (NewSeesion "s" (WsConn []))); try done; [simpl; lia|]. by exists "room", mret.
Defined.
