(* ===== verification/NetPool.v ===== *)
(** * hNet: the worker pool of the gates

    gPool.go and the reading loop of websocketHandler.go.  Each connection has a
    goroutine that reads packets and adds a job per packet; the first time a worker is
    chosen by the session's identifier, and the callback keeps it for the connection.
    Every worker is a goroutine with a queue of ten jobs, and all share one more queue.
    A step is one channel operation or the end of a job. *)
From Stdlib Require Import Ascii.
From S2P Require Import Prelude Uuid.

Definition jobQueueCap : nat := 10.

(** [int32] sum of the characters of the identifier, for characters of one byte. *)
Definition sum_of (idStr : string) : Z :=
  fold_left (λ sum c, int32 (sum + Z.of_nat (nat_of_ascii c))) (String.list_ascii_of_string idStr) 0%Z.

(** The worker of [AddJobSerial]. *)
Definition worker_of (idStr : string) (wid numWorkers : Z) : outcome Z :=
  if decide (wid ≤ -1 ∨ numWorkers ≤ wid)%Z
  then if decide (numWorkers = 0)%Z then Panic DivideByZero
       else Ret (Z.rem (sum_of idStr) numWorkers)
  else Ret wid.

Section pool.
Context {P : Type}.

(** [job_sess] is the session of a job that was added in order, nothing for the others. *)
Record Job := mkJob { job_WorkerID : Z; job_sess : option string; job_pkg : P }.

Inductive wstate := Idle | Running (j : Job) | Forwarding (j : Job) (k : nat) | Stopped.
Record Worker := mkWorker { w_jobs : list Job; w_state : wstate }.

(** A connection's goroutine: its [wid], what it has read, and the job it is adding. *)
Record reader := mkReader { rd_wid : Z; rd_read : list P; rd_sending : option Job; rd_open : bool }.

(** [jobPool] holds the worker numbers of the jobs put back; [handled] which worker has
    begun which job; [released] how many workers [Release] has stopped. *)
Record gPool := mkPool {
  numWorkers : Z;
  jobQueueLen : nat;
  jobPool : list Z;
  jobQueue : list Job;
  workerQueue : list Worker;
  readers : gmap string reader;
  handled : list (nat * Job);
  releasing : bool;
  released : nat }.

Definition NewPool (n jobQueueLen : nat) : gPool :=
  mkPool (Z.of_nat n) jobQueueLen [] [] (replicate n (mkWorker [] Idle)) ∅ [] false 0.

Definition set_worker (i : nat) (w : Worker) (p : gPool) : gPool :=
  mkPool (numWorkers p) (jobQueueLen p) (jobPool p) (jobQueue p) (<[i := w]> (workerQueue p))
    (readers p) (handled p) (releasing p) (released p).
Definition set_reader (id : string) (r : reader) (p : gPool) : gPool :=
  mkPool (numWorkers p) (jobQueueLen p) (jobPool p) (jobQueue p) (workerQueue p)
    (<[id := r]> (readers p)) (handled p) (releasing p) (released p).
Definition set_jobPool l (p : gPool) : gPool :=
  mkPool (numWorkers p) (jobQueueLen p) l (jobQueue p) (workerQueue p) (readers p) (handled p) (releasing p) (released p).
Definition set_jobQueue l (p : gPool) : gPool :=
  mkPool (numWorkers p) (jobQueueLen p) (jobPool p) l (workerQueue p) (readers p) (handled p) (releasing p) (released p).
Definition log_job (i : nat) (j : Job) (p : gPool) : gPool :=
  mkPool (numWorkers p) (jobQueueLen p) (jobPool p) (jobQueue p) (workerQueue p) (readers p)
    (handled p ++ [(i, j)]) (releasing p) (released p).

(** [jobPool.Get()]: a new job, or one that was put back. *)
Definition get_job (got : option Z) (p : gPool) : option (gPool * Z) :=
  match got with
  | None => Some (p, (-1)%Z)
  | Some w => rest ← remove_first (w =.) (jobPool p); Some (set_jobPool rest p, w)
  end.

(** [workerQueue[k].jobQueue <- job], possible while there is room. *)
Definition push_job (k : nat) (j : Job) (p : gPool) : option gPool :=
  w ← workerQueue p !! k;
  if decide (length (w_jobs w) < jobQueueCap)
  then Some (set_worker k (mkWorker (w_jobs w ++ [j]) (w_state w)) p) else None.

(** One turn of [recv] up to the send: the packet is read and [AddJobSerial] prepares
    its job.  A panic is recovered by the router, and the connection is closed; its packet
    is lost, and [rd_read] has only those a job was made for. *)
Definition recv_packet (id : string) (pkg : P) (got : option Z) (p : gPool) : option gPool :=
  r ← readers p !! id;
  if decide (rd_open r = true ∧ rd_sending r = None) then
    '(p, _) ← get_job got p;
    match worker_of id (rd_wid r) (numWorkers p) with
    | Ret k =>
        if decide (0 ≤ k < Z.of_nat (length (workerQueue p)))%Z
        then Some (set_reader id (mkReader k (rd_read r ++ [pkg]) (Some (mkJob k (Some id) pkg)) true) p)
        else Some (set_reader id (mkReader k (rd_read r) None false) p)
    | _ => Some (set_reader id (mkReader (rd_wid r) (rd_read r) None false) p)
    end
  else None.
Definition recv_send (id : string) (p : gPool) : option gPool :=
  r ← readers p !! id;
  j ← rd_sending r;
  p ← push_job (Z.to_nat (job_WorkerID j)) j p;
  Some (set_reader id (mkReader (rd_wid r) (rd_read r) None (rd_open r)) p).
Definition recv_close (id : string) (p : gPool) : option gPool :=
  r ← readers p !! id;
  if decide (rd_sending r = None) then Some (set_reader id (mkReader (rd_wid r) (rd_read r) None false) p) else None.

(** [AddJobParallel]: the worker number of the job is left as it is. *)
Definition AddJobParallel (pkg : P) (got : option Z) (p : gPool) : option gPool :=
  '(p, w) ← get_job got p;
  if decide (length (jobQueue p) < jobQueueLen p) then Some (set_jobQueue (jobQueue p ++ [mkJob w None pkg]) p) else None.

(** The cases of a worker's [select], and what follows them. *)
Definition run_job (i : nat) (jobs : list Job) (j : Job) (p : gPool) : gPool :=
  log_job i j (set_worker i (mkWorker jobs (Running j)) p).
Definition worker_take (i : nat) (p : gPool) : option gPool :=
  w ← workerQueue p !! i;
  match w_state w, w_jobs w with
  | Idle, j :: jobs => Some (run_job i jobs j p)
  | _, _ => None
  end.
Definition worker_take_shared (i : nat) (p : gPool) : option gPool :=
  w ← workerQueue p !! i;
  match w_state w, jobQueue p with
  | Idle, j :: rest =>
      let p := set_jobQueue rest p in
      if decide (job_WorkerID j ≠ -1 ∧ 0 ≤ job_WorkerID j < numWorkers p)%Z
      then Some (set_worker i (mkWorker (w_jobs w) (Forwarding j (Z.to_nat (job_WorkerID j)))) p)
      else Some (run_job i (w_jobs w) j p)
  | _, _ => None
  end.
Definition worker_forward (i : nat) (p : gPool) : option gPool :=
  w ← workerQueue p !! i;
  match w_state w with
  | Forwarding j k =>
      p ← push_job k j p;
      w ← workerQueue p !! i;
      Some (set_worker i (mkWorker (w_jobs w) Idle) p)
  | _ => None
  end.
Definition worker_done (i : nat) (p : gPool) : option gPool :=
  w ← workerQueue p !! i;
  match w_state w with
  | Running j => Some (set_jobPool (jobPool p ++ [job_WorkerID j]) (set_worker i (mkWorker (w_jobs w) Idle) p))
  | _ => None
  end.
(** [Release]: the workers are stopped one after the other, each when it is idle. *)
Definition Release (p : gPool) : gPool :=
  mkPool (numWorkers p) (jobQueueLen p) (jobPool p) (jobQueue p) (workerQueue p) (readers p) (handled p) true (released p).
Definition worker_stop (i : nat) (p : gPool) : option gPool :=
  w ← workerQueue p !! i;
  match w_state w with
  | Idle =>
      if decide (releasing p = true ∧ i = released p)
      then let p := set_worker i (mkWorker (w_jobs w) Stopped) p in
           Some (mkPool (numWorkers p) (jobQueueLen p) (jobPool p) (jobQueue p) (workerQueue p) (readers p)
                   (handled p) true (S (released p)))
      else None
  | _ => None
  end.

Inductive pool_event :=
| EConnect (id : string)
| ERead (id : string) (pkg : P) (got : option Z)
| ESend (id : string)
| EClose (id : string)
| EParallel (pkg : P) (got : option Z)
| ETake (i : nat)
| ETakeShared (i : nat)
| EForward (i : nat)
| EDone (i : nat)
| ERelease
| EStop (i : nat).

Definition pool_run (e : pool_event) (p : gPool) : option gPool :=
  match e with
  | EConnect id =>
      match readers p !! id with
      | None => Some (set_reader id (mkReader (-1) [] None true) p)
      | Some _ => None
      end
  | ERead id pkg got => recv_packet id pkg got p
  | ESend id => recv_send id p
  | EClose id => recv_close id p
  | EParallel pkg got => AddJobParallel pkg got p
  | ETake i => worker_take i p
  | ETakeShared i => worker_take_shared i p
  | EForward i => worker_forward i p
  | EDone i => worker_done i p
  | ERelease => Some (Release p)
  | EStop i => worker_stop i p
  end.
Definition pool_step (p p' : gPool) : Prop := ∃ e, pool_run e p = Some p'.

(** ** The invariant *)

(** The packets of a session among jobs. *)
Definition pkgs (id : string) (l : list Job) : list P := job_pkg <$> filter (λ j, job_sess j = Some id) l.
Definition queue_of (p : gPool) (r : reader) : list Job :=
  default [] (w_jobs <$> workerQueue p !! Z.to_nat (rd_wid r)).
Definition sending_of (r : reader) : list Job := match rd_sending r with Some j => [j] | None => [] end.

(** A job that is at worker [i] belongs to a connection that has been given [i]. *)
Definition at_home (rs : gmap string reader) (n i : nat) (j : Job) : Prop :=
  match job_sess j with
  | None => True
  | Some id => i < n ∧ ∃ r, rs !! id = Some r ∧ rd_wid r = Z.of_nat i
  end.
Definition state_home rs n i (st : wstate) : Prop :=
  match st with
  | Running j => at_home rs n i j
  | Forwarding j _ => job_sess j = None
  | _ => True
  end.

Abbreviation homes p := (at_home (readers p) (length (workerQueue p))).

Record pool_ok (p : gPool) : Prop := {
  ok_len : numWorkers p = Z.of_nat (length (workerQueue p));
  ok_shared : Forall (λ j, job_sess j = None) (jobQueue p);
  ok_workers : ∀ i w, workerQueue p !! i = Some w →
    Forall (homes p i) (w_jobs w) ∧ state_home (readers p) (length (workerQueue p)) i (w_state w);
  ok_log : Forall (λ '(i, j), homes p i j) (handled p);
  ok_readers : ∀ id r, readers p !! id = Some r →
    pkgs id (handled p).*2 ++ pkgs id (queue_of p r) ++ pkgs id (sending_of r) = rd_read r ∧
    (∀ j, rd_sending r = Some j → job_sess j = Some id ∧ job_WorkerID j = rd_wid r ∧
       (0 ≤ rd_wid r < numWorkers p)%Z) }.

Lemma pkgs_app id l k : pkgs id (l ++ k) = pkgs id l ++ pkgs id k.
Proof. unfold pkgs. by rewrite filter_app, fmap_app. Qed.
Lemma pkgs_own id j : job_sess j = Some id → pkgs id [j] = [job_pkg j].
Proof. intros Hj. unfold pkgs. by rewrite filter_cons, decide_True. Qed.
Lemma pkgs_none id l : Forall (λ j, job_sess j ≠ Some id) l → pkgs id l = [].
Proof.
  unfold pkgs. induction 1 as [|j l Hj _ IH]; [done|]. by rewrite filter_cons, decide_False.
Qed.
Lemma pkgs_shared id j : job_sess j = None → pkgs id [j] = [].
Proof. intros Hj. apply pkgs_none. constructor; [congruence|done]. Qed.

(** Jobs at a worker that is not the session's are not the session's. *)
Lemma pkgs_elsewhere rs n i id l :
  (i < n → ∀ r, rs !! id = Some r → rd_wid r ≠ Z.of_nat i) → Forall (at_home rs n i) l → pkgs id l = [].
Proof.
  intros Hi Hl. apply pkgs_none. eapply Forall_impl; [exact Hl|]. intros j Hj E. unfold at_home in Hj.
  rewrite E in Hj. destruct Hj as (Hlt & r & Hr & Hw). by apply (Hi Hlt r).
Qed.
Lemma pkgs_log_elsewhere rs n id (l : list (nat * Job)) :
  (∀ i, i < n → ∀ r, rs !! id = Some r → rd_wid r ≠ Z.of_nat i) →
  Forall (λ '(i, j), at_home rs n i j) l → pkgs id l.*2 = [].
Proof.
  intros Hi Hl. apply pkgs_none, Forall_fmap. eapply Forall_impl; [exact Hl|]. intros [i j] Hj E.
  unfold at_home in Hj. simpl in E. rewrite E in Hj. destruct Hj as (Hlt & r & Hr & Hw). by apply (Hi i Hlt r).
Qed.

(** A reader keeps its worker once it has a valid one. *)
Lemma at_home_reader rs n id r' i j :
  (∀ r, rs !! id = Some r → rd_wid r' = rd_wid r ∨ ¬ (0 ≤ rd_wid r < Z.of_nat n)%Z) →
  at_home rs n i j → at_home (<[id := r']> rs) n i j.
Proof.
  unfold at_home. destruct (job_sess j) as [id'|]; [|done]. intros Hr (Hlt & r & Er & Hw).
  split; [done|]. destruct (decide (id = id')) as [->|].
  - rewrite lookup_insert_eq. exists r'. split; [done|]. destruct (Hr r Er) as [->|]; [done|lia].
  - rewrite lookup_insert_ne by done. by exists r.
Qed.

(** A worker changes its queue and state, and may begin jobs. *)
Definition add_log (i : nat) (l : list Job) (p : gPool) : gPool :=
  mkPool (numWorkers p) (jobQueueLen p) (jobPool p) (jobQueue p) (workerQueue p) (readers p)
    (handled p ++ ((i,.) <$> l)) (releasing p) (released p).

Lemma pool_ok_worker p i w w' l :
  pool_ok p → workerQueue p !! i = Some w →
  Forall (homes p i) (w_jobs w') → state_home (readers p) (length (workerQueue p)) i (w_state w') →
  Forall (homes p i) l →
  (∀ id, pkgs id l ++ pkgs id (w_jobs w') = pkgs id (w_jobs w)) →
  pool_ok (add_log i l (set_worker i w' p)).
Proof.
  intros [Hlen Hsh Hwk Hlog Hrd] Ei Hj Hst Hl Hp.
  pose proof (lookup_lt_Some _ _ _ Ei) as Hlt.
  split; unfold add_log, set_worker; cbn [numWorkers jobQueue workerQueue readers handled]; rewrite ?length_insert.
  - done.
  - done.
  - intros k wk. rewrite list_lookup_insert_Some. intros [(<- & <- & _)|[Hne Ek]]; [done|by apply Hwk].
  - apply Forall_app. split; [done|]. apply Forall_fmap. exact Hl.
  - intros id r Er. destruct (Hrd id r Er) as [E Hs]. split; [|done]. rewrite <- E.
    rewrite fmap_app, pkgs_app, <- list_fmap_compose, <- !app_assoc. f_equal.
    assert (pkgs id (compose snd (i,.) <$> l) = pkgs id l) as -> by (f_equal; apply list_fmap_id).
    unfold queue_of. cbn [workerQueue]. destruct (decide (Z.to_nat (rd_wid r) = i)) as [->|Hne].
    + rewrite list_lookup_insert_eq, Ei by done. cbn. rewrite app_assoc. by rewrite Hp.
    + rewrite list_lookup_insert_ne by done.
      rewrite (pkgs_elsewhere (readers p) (length (workerQueue p)) i id l); [done| |done].
      intros _ r' Er' Hw. rewrite Er in Er'. injection Er' as <-. lia.
Qed.
Lemma add_log_nil i p : add_log i [] p = p.
Proof. destruct p. unfold add_log. simpl. by rewrite app_nil_r. Qed.

Lemma pool_ok_same p i w st :
  pool_ok p → workerQueue p !! i = Some w →
  state_home (readers p) (length (workerQueue p)) i st → pool_ok (set_worker i (mkWorker (w_jobs w) st) p).
Proof.
  intros Hp Ei Hst. rewrite <- (add_log_nil i). eapply pool_ok_worker; try done.
  destruct Hp as [_ _ Hwk _ _]. by destruct (Hwk i w Ei).
Qed.
Lemma pool_ok_jobPool p l : pool_ok p → pool_ok (set_jobPool l p).
Proof. by intros []. Qed.
Lemma get_job_ok p got p' w : pool_ok p → get_job got p = Some (p', w) →
  pool_ok p' ∧ ∃ l, p' = set_jobPool l p.
Proof.
  intros Hp. unfold get_job. destruct got as [k|].
  - destruct (remove_first _ _) as [rest|]; [|done]. simpl. intros [= <- <-].
    split; [by apply pool_ok_jobPool|by eexists].
  - intros [= <- <-]. split; [done|]. exists (jobPool p). by destruct p.
Qed.

(** What runs next has come from the worker's queue, or is nobody's. *)
Lemma worker_take_ok p i p' : pool_ok p → worker_take i p = Some p' → pool_ok p'.
Proof.
  intros Hp. unfold worker_take. destruct (workerQueue p !! i) as [w|] eqn:Ei; [|done]. simpl.
  destruct (w_state w); try done. destruct (w_jobs w) as [|j jobs] eqn:Ej; [done|]. intros [= <-].
  pose proof Hp as [Hlen Hsh Hwk Hlog Hrd]. destruct (Hwk i w Ei) as [Hj _]. rewrite Ej in Hj.
  apply Forall_cons in Hj as [Hj Hjobs].
  apply (pool_ok_worker p i w (mkWorker jobs (Running j)) [j]); try done.
  - by constructor.
  - intros id. rewrite Ej. by rewrite <- pkgs_app.
Qed.
Lemma worker_take_shared_ok p i p' : pool_ok p → worker_take_shared i p = Some p' → pool_ok p'.
Proof.
  intros Hp. unfold worker_take_shared. destruct (workerQueue p !! i) as [w|] eqn:Ei; [|done]. simpl.
  destruct (w_state w) eqn:Est; try done. destruct (jobQueue p) as [|j rest] eqn:Eq; [done|].
  assert (pool_ok (set_jobQueue rest p) ∧ job_sess j = None) as [Hp' Hj].
  { destruct Hp as [Hlen Hsh Hwk Hlog Hrd]. rewrite Eq in Hsh. apply Forall_cons in Hsh as [Hj Hsh]. by split. }
  assert (homes p i j) as Hh by (unfold at_home; by rewrite Hj).
  case_decide; intros [= <-].
  - by apply (pool_ok_same (set_jobQueue rest p)).
  - apply (pool_ok_worker (set_jobQueue rest p) i w (mkWorker (w_jobs w) (Running j)) [j]); try done.
    + destruct Hp as [_ _ Hwk _ _]. by destruct (Hwk i w Ei).
    + by constructor.
    + intros id. by rewrite pkgs_shared.
Qed.
Lemma push_job_ok p k j p' :
  pool_ok p → job_sess j = None → push_job k j p = Some p' → pool_ok p'.
Proof.
  intros Hp Hj. unfold push_job. destruct (workerQueue p !! k) as [w|] eqn:Ek; [|done]. simpl.
  case_decide; [|done]. intros [= <-]. rewrite <- (add_log_nil k). pose proof Hp as [Hlen Hsh Hwk Hlog Hrd].
  destruct (Hwk k w Ek) as [Hw Hst]. eapply (pool_ok_worker p k w); try done.
  - apply Forall_app. split; [done|]. constructor; [|done]. unfold at_home. by rewrite Hj.
  - intros id. cbn [w_jobs]. rewrite pkgs_app, (pkgs_shared id j), app_nil_r by done. done.
Qed.
Lemma worker_forward_ok p i p' : pool_ok p → worker_forward i p = Some p' → pool_ok p'.
Proof.
  intros Hp. unfold worker_forward. destruct (workerQueue p !! i) as [w|] eqn:Ei; [|done]. simpl.
  destruct (w_state w) as [| |j k|] eqn:Est; try done.
  assert (job_sess j = None) as Hj.
  { destruct Hp as [_ _ Hwk _ _]. destruct (Hwk i w Ei) as [_ Hst]. by rewrite Est in Hst. }
  destruct (push_job k j p) as [p1|] eqn:E1; [|done]. simpl. pose proof (push_job_ok _ _ _ _ Hp Hj E1) as Hp1.
  destruct (workerQueue p1 !! i) as [w1|] eqn:Ei1; [|done]. simpl. intros [= <-]. by apply pool_ok_same.
Qed.

(** ** The connections' goroutines *)
Lemma worker_of_valid id wid n : (0 ≤ wid < n)%Z → worker_of id wid n = Ret wid.
Proof. intros Hw. unfold worker_of. by rewrite decide_False by lia. Qed.

(** A reader changes; its session's packets are accounted for afterwards. *)
Lemma pool_ok_reader p id r' :
  pool_ok p →
  (∀ r, readers p !! id = Some r → rd_wid r' = rd_wid r ∨ ¬ (0 ≤ rd_wid r < numWorkers p)%Z) →
  pkgs id (handled p).*2 ++ pkgs id (queue_of p r') ++ pkgs id (sending_of r') = rd_read r' →
  (∀ j, rd_sending r' = Some j → job_sess j = Some id ∧ job_WorkerID j = rd_wid r' ∧
       (0 ≤ rd_wid r' < numWorkers p)%Z) →
  pool_ok (set_reader id r' p).
Proof.
  intros [Hlen Hsh Hwk Hlog Hrd] Hw E Hs. rewrite Hlen in Hw.
  assert (∀ i j, homes p i j → at_home (<[id := r']> (readers p)) (length (workerQueue p)) i j) as Hh
    by (intros i j; by apply at_home_reader).
  split; unfold set_reader; cbn [numWorkers jobQueue workerQueue readers handled].
  - done.
  - done.
  - intros i w Ei. destruct (Hwk i w Ei) as [Hj Hst]. split; [by eapply Forall_impl; [exact Hj|]; auto|].
    unfold state_home in *. destruct (w_state w); auto.
  - eapply Forall_impl; [exact Hlog|]. intros [i j]. apply Hh.
  - intros id2 r2. rewrite lookup_insert_Some. intros [[<- <-]|[Hne E2]]; [done|by apply Hrd].
Qed.

(** A session whose connection has no worker has no packets anywhere. *)
Lemma no_worker_no_packets p id :
  pool_ok p → (∀ r, readers p !! id = Some r → ¬ (0 ≤ rd_wid r < numWorkers p)%Z) →
  pkgs id (handled p).*2 = [] ∧ ∀ r, pkgs id (queue_of p r) = [].
Proof.
  intros [Hlen Hsh Hwk Hlog Hrd] Hr. split.
  - eapply pkgs_log_elsewhere; [|exact Hlog]. intros i Hi r Er Hw. apply (Hr r Er). lia.
  - intros r. unfold queue_of. destruct (workerQueue p !! Z.to_nat (rd_wid r)) as [w|] eqn:Ew; [|done]. simpl.
    eapply pkgs_elsewhere; [|by apply Hwk]. intros Hi r1 Er Hw. apply (Hr r1 Er). lia.
Qed.

Lemma recv_packet_ok p id pkg got p' : pool_ok p → recv_packet id pkg got p = Some p' → pool_ok p'.
Proof.
  intros Hp. unfold recv_packet. destruct (readers p !! id) as [r|] eqn:Er; [|done]. simpl.
  case_decide as Hopen; [|done]. destruct Hopen as [_ Hns].
  destruct (get_job got p) as [[p1 w]|] eqn:Eg; [|done]. simpl.
  destruct (get_job_ok _ _ _ _ Hp Eg) as [Hp1 [l ->]]. cbn [numWorkers workerQueue set_jobPool].
  pose proof Hp as [Hlen Hsh Hwk Hlog Hrd]. destruct (Hrd id r Er) as [E _].
  assert (sending_of r = []) as Es by (unfold sending_of; by rewrite Hns). rewrite Es in E.
  rewrite app_nil_r in E.
  destruct (decide (0 ≤ rd_wid r < numWorkers p)%Z) as [Hv|Hv].
  - rewrite worker_of_valid by done. rewrite decide_True by lia. intros [= <-].
    apply pool_ok_reader; cbn [rd_wid rd_read rd_sending]; [done| | |].
    + cbn. intros r1 Er1. left. congruence.
    + cbn [handled set_jobPool sending_of rd_sending]. rewrite pkgs_own by done. rewrite app_assoc. f_equal.
      exact E.
    + intros j [= <-]. done.
  - destruct (no_worker_no_packets p id) as [Hh Hq]; [done|intros r1 Er1; congruence|].
    rewrite Hh, Hq in E. simpl in E.
    assert (∀ k o, pool_ok (set_reader id (mkReader k (rd_read r) None o) (set_jobPool l p))) as Hclose.
    { intros k o. apply pool_ok_reader; cbn [rd_wid rd_read rd_sending]; [done| | |done].
      - cbn. intros r1 Er1. right. congruence.
      - change (handled (set_jobPool l p)) with (handled p). rewrite Hh, <- E.
        change (queue_of (set_jobPool l p)) with (queue_of p). by rewrite Hq. }
    destruct (worker_of id (rd_wid r) (numWorkers p)) as [k| |]; [|intros [= <-]; apply Hclose..].
    case_decide as Hk; intros [= <-]; [|apply Hclose].
    apply pool_ok_reader; cbn [rd_wid rd_read rd_sending]; [done| | |].
    + cbn. intros r1 Er1. right. congruence.
    + cbn [handled set_jobPool sending_of rd_sending]. rewrite pkgs_own by done. rewrite Hh, <- E.
      change (queue_of (set_jobPool l p)) with (queue_of p). by rewrite Hq.
    + intros j [= <-]. cbn. split_and!; [done|done|lia|lia].
Qed.

Lemma recv_send_ok p id p' : pool_ok p → recv_send id p = Some p' → pool_ok p'.
Proof.
  intros Hp. unfold recv_send. destruct (readers p !! id) as [r|] eqn:Er; [|done]. simpl.
  destruct (rd_sending r) as [j|] eqn:Ej; [|done]. simpl.
  pose proof Hp as [Hlen Hsh Hwk Hlog Hrd]. destruct (Hrd id r Er) as [E Hs].
  destruct (Hs j Ej) as (Hsj & Hwj & Hv). rewrite Hwj. unfold push_job.
  destruct (workerQueue p !! Z.to_nat (rd_wid r)) as [w|] eqn:Ew; [|done]. simpl.
  case_decide; [|done]. simpl. intros [= <-]. destruct (Hwk _ _ Ew) as [Hj Hst].
  pose proof (lookup_lt_Some _ _ _ Ew) as Hlt.
  assert (∀ i k, homes p i k → at_home (<[id := mkReader (rd_wid r) (rd_read r) None (rd_open r)]> (readers p))
            (length (workerQueue p)) i k) as Hh.
  { intros i k. apply at_home_reader. intros r1 Er1. left. simpl. congruence. }
  split; unfold set_reader, set_worker; cbn [numWorkers jobQueue workerQueue readers handled]; rewrite ?length_insert.
  - done.
  - done.
  - intros i wi. rewrite list_lookup_insert_Some. intros [(<- & <- & _)|[Hne Ei]].
    + cbn [w_jobs w_state]. split.
      * apply Forall_app. split; [by eapply Forall_impl; [exact Hj|]; auto|]. constructor; [|done].
        apply Hh. unfold at_home. rewrite Hsj. split; [done|]. exists r. split; [done|lia].
      * unfold state_home in *. destruct (w_state w); auto.
    + destruct (Hwk i wi Ei) as [Hji Hsti]. split; [by eapply Forall_impl; [exact Hji|]; auto|].
      unfold state_home in *. destruct (w_state wi); auto.
  - eapply Forall_impl; [exact Hlog|]. intros [i k]. apply Hh.
  - intros id2 r2. rewrite lookup_insert_Some. intros [[<- <-]|[Hne E2]].
    + cbn [rd_read rd_sending sending_of]. split; [|done]. rewrite <- E. f_equal. unfold queue_of. cbn [workerQueue rd_wid].
      rewrite list_lookup_insert_eq, Ew by done. simpl. unfold sending_of. rewrite Ej. cbn.
      by rewrite pkgs_app, app_nil_r.
    + destruct (Hrd id2 r2 E2) as [E2' Hs2]. split; [|done]. rewrite <- E2'. f_equal. f_equal.
      unfold queue_of. cbn [workerQueue]. destruct (decide (Z.to_nat (rd_wid r2) = Z.to_nat (rd_wid r))) as [->|Hne2].
      * rewrite list_lookup_insert_eq, Ew by done. simpl. rewrite pkgs_app.
        rewrite (pkgs_none id2 [j]), app_nil_r; [done|]. constructor; [|done]. congruence.
      * by rewrite list_lookup_insert_ne.
Qed.

Lemma NewPool_ok n len : pool_ok (NewPool n len).
Proof.
  split; simpl; [by rewrite length_replicate|constructor| |constructor|by intros ? ?].
  intros i w (-> & _)%lookup_replicate. split; [constructor|done].
Qed.

Lemma pool_step_ok p p' : pool_ok p → pool_step p p' → pool_ok p'.
Proof.
  intros Hp [e E]. destruct e as [id|id pkg got|id|id|pkg got|i|i|i|i| |i]; simpl in E.
  - destruct (readers p !! id) as [r|] eqn:Er; [done|]. injection E as <-.
    destruct (no_worker_no_packets p id Hp) as [Hh Hq]; [congruence|].
    apply pool_ok_reader; [done|congruence| |done]. cbn [rd_read sending_of rd_sending]. by rewrite Hh, Hq.
  - by eapply recv_packet_ok.
  - by eapply recv_send_ok.
  - unfold recv_close in E. destruct (readers p !! id) as [r|] eqn:Er; [|done]. simpl in E.
    case_decide as Hs; [|done]. injection E as <-. pose proof Hp as [_ _ _ _ Hrd].
    destruct (Hrd id r Er) as [Er' _]. apply pool_ok_reader; [done| | |done].
    + intros r1 Er1. left. simpl. congruence.
    + cbn [rd_read]. rewrite <- Er'. unfold sending_of. by rewrite Hs.
  - unfold AddJobParallel in E. destruct (get_job got p) as [[p1 w]|] eqn:Eg; [|done]. simpl in E.
    destruct (get_job_ok _ _ _ _ Hp Eg) as [[Hlen Hsh Hwk Hlog Hrd] _]. case_decide; [|done]. injection E as <-.
    split; try done. apply Forall_app. by repeat constructor.
  - by eapply worker_take_ok.
  - by eapply worker_take_shared_ok.
  - by eapply worker_forward_ok.
  - unfold worker_done in E. destruct (workerQueue p !! i) as [w|] eqn:Ei; [|done]. simpl in E.
    destruct (w_state w); try done. injection E as <-. by apply pool_ok_jobPool, pool_ok_same.
  - injection E as <-. by destruct Hp.
  - unfold worker_stop in E. destruct (workerQueue p !! i) as [w|] eqn:Ei; [|done]. simpl in E.
    destruct (w_state w); try done. case_decide; [|done]. injection E as <-.
    pose proof (pool_ok_same p i w Stopped Hp Ei I) as []. by split.
Qed.

Lemma pool_reachable_ok n len p : rtc pool_step (NewPool n len) p → pool_ok p.
Proof.
  exact (rtc_preserves _ _ _ _ pool_step_ok (NewPool_ok n len)).
Qed.

(** C24: the packets of a connection are handled one at a time, by one worker, in the order
    in which they were read, none twice and none left out: what has been begun, what
    waits at the connection's worker and what is being added are together what was read.
    This holds for any interleaving of connections, workers, jobs of no session and
    [Release]. *)
Theorem sessions_in_order n len p id r :
  rtc pool_step (NewPool n len) p → readers p !! id = Some r →
  pkgs id (handled p).*2 ++ pkgs id (queue_of p r) ++ pkgs id (sending_of r) = rd_read r ∧
  (∀ i j, (i, j) ∈ handled p → job_sess j = Some id → Z.of_nat i = rd_wid r) ∧
  (∀ i w j, workerQueue p !! i = Some w → (w_state w = Running j ∨ j ∈ w_jobs w) →
     job_sess j = Some id → Z.of_nat i = rd_wid r).
Proof.
  intros Hr Er. destruct (pool_reachable_ok n len p Hr) as [Hlen Hsh Hwk Hlog Hrd].
  assert (∀ i j, homes p i j → job_sess j = Some id → Z.of_nat i = rd_wid r) as Hh.
  { intros i j Hj E. unfold at_home in Hj. rewrite E in Hj. destruct Hj as (_ & r' & Er' & Hw). congruence. }
  split_and!.
  - by apply Hrd.
  - intros i j Hin. apply Hh. rewrite Forall_forall in Hlog. by apply (Hlog (i, j)).
  - intros i w j Ei Hj. destruct (Hwk i w Ei) as [Hjobs Hst]. apply Hh. destruct Hj as [E|Hin].
    + by rewrite E in Hst.
    + rewrite Forall_forall in Hjobs. by apply Hjobs.
Qed.
End pool.
Arguments gPool P : clear implicits.
Arguments Job P : clear implicits.

(** ** The identifiers of sessions choose a worker *)
Lemma sum_of_bound (l : list ascii) a :
  (0 ≤ a)%Z → (a + 256 * Z.of_nat (length l) < 2 ^ 31)%Z →
  (0 ≤ fold_left (λ sum c, int32 (sum + Z.of_nat (nat_of_ascii c))) l a ≤ a + 256 * Z.of_nat (length l))%Z.
Proof.
  revert a. induction l as [|c l IH]; intros a Ha Hb; simpl; [lia|]. simpl in Hb.
  pose proof (nat_ascii_bounded c). rewrite swrap_small by lia.
  specialize (IH (a + Z.of_nat (nat_of_ascii c))%Z ltac:(lia) ltac:(lia)). lia.
Qed.

(** A generated identifier never makes the reading loop panic, and the worker it is
    given stays the connection's. *)
Lemma uuid_worker id n :
  well_formed id → (0 < n < 2 ^ 31)%Z →
  ∃ k, worker_of id (-1) n = Ret k ∧ (0 ≤ k < n)%Z ∧ worker_of id k n = Ret k.
Proof.
  intros [Hlen _] Hn. unfold worker_of. rewrite decide_True by lia. rewrite decide_False by lia.
  assert (length (String.list_ascii_of_string id) = 22) as El.
  { unfold totalLen, preLen, seqLen in Hlen. simpl in Hlen. rewrite <- Hlen. clear.
    induction id as [|c id IH]; simpl; [done|]. by rewrite IH. }
  pose proof (sum_of_bound (String.list_ascii_of_string id) 0 ltac:(lia) ltac:(lia)) as Hs.
  fold (sum_of id) in Hs. exists (Z.rem (sum_of id) n).
  assert (0 ≤ Z.rem (sum_of id) n < n)%Z as Hk.
  { rewrite Z.rem_mod_nonneg by lia. apply Z.mod_pos_bound. lia. }
  split_and!; [done|lia|lia|]. by rewrite decide_False by lia.
Qed.

(** ** A job that is used again

    The worker number of a job that served a session is still there when
    [AddJobParallel] takes it from the pool; a worker that takes such a job from the
    shared queue sends it to its own queue, and waits for ever when that is full. *)
Definition twelve : list pool_event :=
  concat (replicate 10 [ERead "A" 1 None; ESend "A"]).
Definition recycled_run : list pool_event :=
  [EConnect "A"; ERead "A" 0 None; ESend "A"; ETake 0; EDone 0; EParallel 9 (Some 0%Z)] ++ twelve ++ [ETakeShared 0].

Definition self_blocked (p : gPool nat) : Prop :=
  ∃ w j, workerQueue p !! 0 = Some w ∧ w_state w = Forwarding j 0 ∧ length (w_jobs w) = jobQueueCap.

Lemma self_blocked_step p p' : length (workerQueue p) = 1 → pool_step p p' → self_blocked p →
  self_blocked p' ∧ length (workerQueue p') = 1 ∧ handled p' = handled p.
Proof.
  intros Hl [e E] (w & j & Ew & Est & Ej).
  assert (∀ i wi, workerQueue p !! i = Some wi → i = 0) as H1 by (intros i wi Hi%lookup_lt_Some; lia).
  assert (∀ k x p2, push_job k x p = Some p2 → False) as Hpush.
  { intros k x p2. unfold push_job. destruct (workerQueue p !! k) as [wk|] eqn:Ek; [|done].
    rewrite (H1 _ _ Ek) in Ek. rewrite Ew in Ek. injection Ek as <-. simpl. rewrite Ej. by case_decide; [lia|]. }
  assert (∀ got p2 k, get_job got p = Some (p2, k) → ∃ l, p2 = set_jobPool l p) as Hget.
  { intros [k|] p2 k2; simpl; [destruct (remove_first _ _); [|done]; simpl; intros [= <- _]; by eexists|].
    intros [= <- _]. exists (jobPool p). by destruct p. }
  assert (∀ i wi, workerQueue p !! i = Some wi → w_state wi = Forwarding j 0) as Hst.
  { intros i wi Hi. rewrite (H1 _ _ Hi) in Hi. congruence. }
  destruct e as [id|id pkg got|id|id|pkg got|i|i|i|i| |i]; simpl in E.
  - destruct (readers p !! id); [done|]. injection E as <-. split_and!; [by exists w, j|done|done].
  - unfold recv_packet in E. destruct (readers p !! id) as [r|]; [|done]. simpl in E. case_decide; [|done].
    destruct (get_job got p) as [[p1 k]|] eqn:Eg; [|done]. destruct (Hget _ _ _ Eg) as [l ->]. simpl in E.
    repeat case_match; simplify_eq/=; (split_and!; [by exists w, j|done|done]).
  - unfold recv_send in E. destruct (readers p !! id) as [r|]; [|done]. simpl in E.
    destruct (rd_sending r); [|done]. simpl in E. destruct (push_job _ _ p) eqn:Ep; [|done]. by apply Hpush in Ep.
  - unfold recv_close in E. destruct (readers p !! id) as [r|]; [|done]. simpl in E. case_decide; [|done].
    injection E as <-. split_and!; [by exists w, j|done|done].
  - unfold AddJobParallel in E. destruct (get_job got p) as [[p1 k]|] eqn:Eg; [|done].
    destruct (Hget _ _ _ Eg) as [l ->]. simpl in E. case_decide; [|done]. injection E as <-.
    split_and!; [by exists w, j|done|done].
  - unfold worker_take in E. destruct (workerQueue p !! i) as [wi|] eqn:Ei; [|done]. simpl in E. by rewrite (Hst _ _ Ei) in E.
  - unfold worker_take_shared in E. destruct (workerQueue p !! i) as [wi|] eqn:Ei; [|done]. simpl in E. by rewrite (Hst _ _ Ei) in E.
  - unfold worker_forward in E. destruct (workerQueue p !! i) as [wi|] eqn:Ei; [|done]. simpl in E.
    rewrite (Hst _ _ Ei) in E. destruct (push_job 0 j p) eqn:Ep; [|done]. by apply Hpush in Ep.
  - unfold worker_done in E. destruct (workerQueue p !! i) as [wi|] eqn:Ei; [|done]. simpl in E. by rewrite (Hst _ _ Ei) in E.
  - injection E as <-. split_and!; [by exists w, j|done|done].
  - unfold worker_stop in E. destruct (workerQueue p !! i) as [wi|] eqn:Ei; [|done]. simpl in E. by rewrite (Hst _ _ Ei) in E.
Qed.

(** A pool of one worker can block for ever on a job of [AddJobParallel] that served a
    session before: from there on no job is begun any more, whatever happens. *)
Theorem recycled_job_blocks :
  ∃ p : gPool nat, rtc pool_step (NewPool 1 5) p ∧ ∀ p', rtc pool_step p p' → handled p' = handled p.
Proof.
  destruct (runs pool_run recycled_run (NewPool 1 5)) as [p|] eqn:E; [|by vm_compute in E].
  exists p. split; [by eapply (runs_steps pool_run)|].
  assert (self_blocked p ∧ length (workerQueue p) = 1) as [Hb Hl].
  { vm_compute in E. injection E as <-. split; [|done]. do 2 eexists. split_and!; [reflexivity..]. }
  clear E. intros p' Hr. revert Hb Hl. induction Hr as [|p1 p2 p3 Hs _ IH]; intros Hb Hl; [done|].
  destruct (self_blocked_step _ _ Hl Hs Hb) as (Hb2 & Hl2 & <-). auto.
Qed.

(** ** Witness *)
Definition two_sessions : list (@pool_event nat) :=
  [EConnect "A"; EConnect "B"; ERead "A" 1 None; ERead "B" 2 None; ESend "B"; ESend "A"; ETake 0; ERead "A" 3 None;
   ESend "A"; ETake 1; EDone 1; ETake 1; ERead "A" 4 None].
Lemma sessions_in_order_witness :
  ∃ p r, runs pool_run two_sessions (NewPool 2 5) = Some p ∧ readers p !! "A" = Some r ∧
    rd_read r = [1; 3; 4] ∧ pkgs "A" (handled p).*2 = [1; 3] ∧
    pkgs "A" (handled p).*2 ++ pkgs "A" (queue_of p r) ++ pkgs "A" (sending_of r) = rd_read r.
Proof.
  destruct (runs pool_run two_sessions (NewPool 2 5)) as [p|] eqn:E; [|vm_compute in E; discriminate E].
  destruct (readers p !! "A") as [r|] eqn:Er.
  - exists p, r. split_and!; [reflexivity|exact Er| | |].
    + vm_compute in E. injection E as <-. vm_compute in Er. injection Er as <-. reflexivity.
    + vm_compute in E. injection E as <-. vm_compute. reflexivity.
    + apply (sessions_in_order 2 5 p "A" r (runs_steps pool_run _ _ _ E) Er).
  - exfalso. vm_compute in E. injection E as <-. vm_compute in Er. discriminate Er.
Defined.
