(* ===== verification/Iter.v ===== *)
(** * hCommon/iter: iterators

    [Iter] is the source's interface of the same name: one method, [Next],
    which answers a value or an error.  The implementations that do not look
    into the object tree are here ([ValueIter], [ListIter], [JoinIter]), with the
    two consumers [Count] and [Collect] (utils.go). *)
From S2P Require Import Prelude GoList.

(** errors.go; [IterOther] stands for any other error a caller's own iterator
    may answer. *)
Inductive iter_error := ErrEndIteration | IterOther (msg : string).

#[global] Instance iter_error_eq_dec : EqDecision iter_error.
Proof. solve_decision. Defined.

Class Iter (St A : Type) := Next : prog St (result iter_error A).

(** [yields s l e s']: iterating from [s] produces the values [l] and then the
    error [e], leaving the iterator in state [s']. *)
Inductive yields `{Iter St A} : St → list A → iter_error → St → Prop :=
| yields_end s s' e : Next s = (s', Ret (Err e)) → yields s [] e s'
| yields_value s s1 s' x l e :
    Next s = (s1, Ret (Ok x)) → yields s1 l e s' → yields s (x :: l) e s'.

(** ** utils.go *)
Section consumers.
Context `{Iter St A}.

(** [for value, err = Next(); err == nil; value, err = Next() { ... }]: the
    values read before the first error, and that error. *)
Fixpoint iterate (fuel : nat) (acc : list A) : prog St (list A * iter_error) :=
  match fuel with
  | O => stuck
  | S fuel =>
      r ← (Next : prog St _);
      match r with
      | Ok x => iterate fuel (acc ++ [x])
      | Err e => mret (acc, e)
      end
  end.

Definition Count (fuel : nat) : prog St (result iter_error nat) :=
  '(vs, err) ← iterate fuel [];
  if decide (err = ErrEndIteration) then mret (Err err) else mret (Ok (length vs)).

Definition Collect (fuel : nat) : prog St (result iter_error (list A)) :=
  '(vs, err) ← iterate fuel [];
  if decide (err = ErrEndIteration) then mret (Err err) else mret (Ok vs).

Lemma iterate_yields s l e s' acc fuel :
  yields s l e s' → length l < fuel → iterate fuel acc s = (s', Ret (acc ++ l, e)).
Proof.
  intros Hy. revert acc fuel.
  induction Hy as [s s' e E|s s1 s' x l e E _ IH]; intros acc [|fuel] Hlt; simpl in *;
    try lia; unfold mbind, prog_bind; rewrite E.
  - by rewrite app_nil_r.
  - rewrite IH by lia. by rewrite <- app_assoc.
Qed.

(** A function whose result depends only on what the iterator yields. *)
Lemma yields_det s l1 e1 s1 l2 e2 s2 :
  yields s l1 e1 s1 → yields s l2 e2 s2 → l1 = l2 ∧ e1 = e2 ∧ s1 = s2.
Proof.
  intros H1. revert l2 e2 s2. induction H1; intros l2 e2 s2 H2;
    inversion H2; subst; same_lhs; [done|].
  match goal with IH : ∀ l2 e2 s2, _ → _, Hy : yields _ _ _ _ |- _ =>
    destruct (IH _ _ _ Hy) as (-> & -> & ->) end. done.
Qed.
End consumers.

(** ** value_iter.go *)
Record ValueIter (A : Type) := { vi_value : A; vi_end : bool }.
Arguments vi_value {A} _.
Arguments vi_end {A} _.

Definition FromValue {A} (v : A) : ValueIter A := {| vi_value := v; vi_end := false |}.

#[global] Instance ValueIter_Next {A} : Iter (ValueIter A) A := λ it,
  if vi_end it then (it, Ret (Err ErrEndIteration))
  else ({| vi_value := vi_value it; vi_end := true |}, Ret (Ok (vi_value it))).

Lemma FromValue_yields {A} (v : A) :
  yields (FromValue v) [v] ErrEndIteration {| vi_value := v; vi_end := true |}.
Proof. by do 2 econstructor. Qed.

(** ** list_iter.go *)
Record ListIter (A : Type) := {
  li_container : golist A;
  li_cursor : option (nat * A);
  li_err : option iter_error }.
Arguments li_container {A} _.
Arguments li_cursor {A} _.
Arguments li_err {A} _.

Definition FromList {A} (l : golist A) : ListIter A :=
  {| li_container := l; li_cursor := None; li_err := None |}.

#[global] Instance ListIter_Next {A} : Iter (ListIter A) A := λ it,
  match li_err it with
  | Some e => (it, Ret (Err e))
  | None =>
      let cursor := match li_cursor it with
                    | None => Front (li_container it)
                    | Some el => next_of el.1 (li_container it)
                    end in
      match cursor with
      | None =>
          ({| li_container := li_container it; li_cursor := None;
              li_err := Some ErrEndIteration |}, Ret (Err ErrEndIteration))
      | Some el =>
          ({| li_container := li_container it; li_cursor := Some el; li_err := None |},
           Ret (Ok el.2))
      end
  end.

Lemma ListIter_yields_from {A} (l : golist A) pre e v suf :
  gl_wf l → gl_elems l = pre ++ (e, v) :: suf →
  yields {| li_container := l; li_cursor := Some (e, v); li_err := None |} suf.*2
    ErrEndIteration
    {| li_container := l; li_cursor := None; li_err := Some ErrEndIteration |}.
Proof.
  intros [Hnd Hlt]. revert pre e v.
  induction suf as [|[e' v'] suf IH]; intros pre e v E; simpl.
  - apply yields_end. unfold Next, ListIter_Next, next_of; simpl.
    by rewrite E, after_split by (by rewrite <- E).
  - eapply yields_value.
    + unfold Next, ListIter_Next, next_of; simpl.
      by rewrite E, after_split by (by rewrite <- E).
    + apply (IH (pre ++ [(e, v)])). by rewrite <- app_assoc.
Qed.

Lemma FromList_yields {A} (l : golist A) :
  gl_wf l → yields (FromList l) (gl_values l) ErrEndIteration
    {| li_container := l; li_cursor := None; li_err := Some ErrEndIteration |}.
Proof.
  intros Hwf. unfold gl_values. destruct (gl_elems l) as [|[e v] suf] eqn:E; simpl.
  - apply yields_end. unfold Next, ListIter_Next, Front; simpl. by rewrite E.
  - eapply yields_value; [|by eapply (ListIter_yields_from l [])].
    unfold Next, ListIter_Next, Front; simpl. by rewrite E.
Qed.

(** ** join_iter.go

    [ji_iterators] are the joined iterators with their own states; the cursor
    and [current] are positions in that list.  A nil value is [None]. *)
Record JoinIter (St : Type) := {
  ji_iterators : list St;
  ji_cursor : option nat;
  ji_current : option nat;
  ji_err : option iter_error }.
Arguments ji_iterators {St} _.
Arguments ji_cursor {St} _.
Arguments ji_current {St} _.
Arguments ji_err {St} _.

Section join.
Context `{Iter St A}.

Definition JoinIter_Add (it : JoinIter St) (target : St) : JoinIter St :=
  {| ji_iterators := ji_iterators it ++ [target]; ji_cursor := ji_cursor it;
     ji_current := ji_current it; ji_err := ji_err it |}.

Definition Join (a b : St) : JoinIter St :=
  JoinIter_Add (JoinIter_Add
    {| ji_iterators := []; ji_cursor := None; ji_current := None; ji_err := None |} a) b.

Definition set_current (c : option nat) (it : JoinIter St) : JoinIter St :=
  {| ji_iterators := ji_iterators it; ji_cursor := ji_cursor it;
     ji_current := c; ji_err := ji_err it |}.
Definition set_err (e : iter_error) (it : JoinIter St) : JoinIter St :=
  {| ji_iterators := ji_iterators it; ji_cursor := ji_cursor it;
     ji_current := ji_current it; ji_err := Some e |}.

Definition nextIterator (it : JoinIter St) : JoinIter St * result iter_error nat :=
  let i := match ji_cursor it with None => 0 | Some i => S i end in
  if decide (i < length (ji_iterators it)) then
    ({| ji_iterators := ji_iterators it; ji_cursor := Some i;
        ji_current := ji_current it; ji_err := ji_err it |}, Ok i)
  else
    ({| ji_iterators := ji_iterators it; ji_cursor := None;
        ji_current := ji_current it; ji_err := ji_err it |}, Err ErrEndIteration).

(** [nextValue] calls itself once per exhausted iterator. *)
Fixpoint nextValue (fuel : nat) (it : JoinIter St)
    : JoinIter St * outcome (result iter_error (option A)) :=
  match fuel with
  | O => (it, Stuck)
  | S fuel =>
      let '(it1, pick) :=
        match ji_current it with
        | Some i => (it, Ok i)
        | None =>
            match nextIterator it with
            | (it1, Err e) => (set_err e it1, Err e)
            | (it1, Ok i) => (set_current (Some i) it1, Ok i)
            end
        end in
      match pick with
      | Err e => (it1, Ret (Err e))
      | Ok i =>
          match ji_iterators it1 !! i with
          | None => (it1, Panic NilDereference)
          | Some sub =>
              let '(sub', r) := (Next : prog St (result iter_error A)) sub in
              let it2 := {| ji_iterators := <[i:=sub']> (ji_iterators it1);
                            ji_cursor := ji_cursor it1; ji_current := ji_current it1;
                            ji_err := ji_err it1 |} in
              match r with
              | Panic p => (it2, Panic p)
              | Stuck => (it2, Stuck)
              | Ret (Ok v) => (it2, Ret (Ok (Some v)))
              | Ret (Err ErrEndIteration) =>
                  match nextValue fuel (set_current None it2) with
                  | (it3, Ret (Err e)) => (set_err e it3, Ret (Err e))
                  | r => r
                  end
              | Ret (Err _) => (it2, Ret (Ok None))
              end
          end
      end
  end.

#[global] Instance JoinIter_Next : Iter (JoinIter St) (option A) := λ it,
  match ji_err it with
  | Some e => (it, Ret (Err e))
  | None => nextValue (S (S (length (ji_iterators it)))) it
  end.
End join.

(** What is still to come out of a joined iterator: the rest of the current
    sub-iterator and then the sub-iterators after the cursor. *)
Section join_spec.
Context `{Iter St A}.

Definition sub_yields (s : St) (l : list A) : Prop := ∃ s', yields s l ErrEndIteration s'.

Definition rest_of (it : JoinIter St) : list St :=
  drop (match ji_cursor it with None => 0 | Some i => S i end) (ji_iterators it).

Definition pending (it : JoinIter St) (l : list A) : Prop :=
  ji_err it = None ∧
  ∃ ls, Forall2 sub_yields (rest_of it) ls ∧
  match ji_current it with
  | None => l = concat ls
  | Some i => ji_cursor it = Some i ∧
      ∃ s l1, ji_iterators it !! i = Some s ∧ sub_yields s l1 ∧ l = l1 ++ concat ls
  end.

Definition next_spec (it : JoinIter St) (l : list A)
    (r : JoinIter St * outcome (result iter_error (option A))) : Prop :=
  match l with
  | [] => r.2 = Ret (Err ErrEndIteration) ∧ ji_err r.1 = Some ErrEndIteration
  | x :: l' => r.2 = Ret (Ok (Some x)) ∧ pending r.1 l' ∧
      length (ji_iterators r.1) = length (ji_iterators it)
  end.

Lemma nextValue_current it i s l1 ls fuel :
  ji_err it = None → ji_cursor it = Some i → ji_current it = Some i →
  ji_iterators it !! i = Some s → sub_yields s l1 → Forall2 sub_yields (rest_of it) ls →
  (∀ it', ji_err it' = None → ji_cursor it' = Some i → ji_current it' = None →
     length (ji_iterators it') = length (ji_iterators it) →
     Forall2 sub_yields (rest_of it') ls →
     next_spec it (concat ls) (nextValue fuel it')) →
  next_spec it (l1 ++ concat ls) (nextValue (S fuel) it).
Proof.
  intros He Hc Hcur Hs [s' Hy] Hrest IH. cbn [nextValue]. rewrite Hcur, Hs.
  assert (∀ x, rest_of {| ji_iterators := <[i:=x]> (ji_iterators it);
    ji_cursor := ji_cursor it; ji_current := ji_current it; ji_err := ji_err it |}
    = rest_of it) as Hins.
  { intros x. unfold rest_of; simpl. rewrite Hc. by rewrite drop_insert_lt by lia. }
  inversion Hy as [? s1 e E|? s1 ? x l2 e E Hy2]; subst; unfold Next in *; rewrite E; simpl.
  - specialize (IH {| ji_iterators := <[i:=s']> (ji_iterators it); ji_cursor := ji_cursor it;
      ji_current := None; ji_err := ji_err it |}).
    unfold set_current; simpl.
    assert (next_spec it (concat ls) (nextValue fuel
      {| ji_iterators := <[i:=s']> (ji_iterators it); ji_cursor := ji_cursor it;
         ji_current := None; ji_err := ji_err it |})) as Hn.
    { apply IH; try done; [by simpl; rewrite length_insert|]. specialize (Hins s').
      unfold rest_of in *; simpl in *. by rewrite Hins. }
    destruct (concat ls); simpl in *; destruct (nextValue fuel _) as [it2 r]; simpl in *.
    + destruct Hn as [-> ?]. done.
    + destruct Hn as [-> ?]. done.
  - split; [done|]. split; [|by simpl; rewrite length_insert]. split; [done|].
    exists ls. rewrite Hins. split; [done|]. simpl. rewrite Hcur. split; [done|].
    exists s1, l2. split; [|split; [by eexists|done]].
    apply list_lookup_insert_eq. by eapply lookup_lt_Some.
Qed.

Lemma nextValue_between n it ls fuel :
  length (rest_of it) = n → n < fuel →
  ji_err it = None → ji_current it = None → Forall2 sub_yields (rest_of it) ls →
  next_spec it (concat ls) (nextValue fuel it).
Proof.
  revert it ls fuel. induction n as [|n IH]; intros it ls fuel Hn Hf He Hcur Hrest;
    (destruct fuel as [|fuel]; [lia|]).
  - cbn [nextValue]. rewrite Hcur. unfold nextIterator.
    rewrite decide_False by (unfold rest_of in Hn; rewrite length_drop in Hn; lia).
    destruct (rest_of it); [|done]. apply Forall2_nil_inv_l in Hrest as ->. done.
  - destruct (rest_of it) as [|s rest] eqn:Er; [done|].
    apply Forall2_cons_inv_l in Hrest as (l1 & ls' & Hs & Hrest & ->).
    cbn [concat].
    set (i := match ji_cursor it with None => 0 | Some i => S i end).
    assert (ji_iterators it !! i = Some s) as Hi.
    { unfold rest_of in Er. fold i in Er.
      replace i with (i + 0) by lia. by rewrite <- lookup_drop, Er. }
    pose proof (lookup_lt_Some _ _ _ Hi) as Hlt.
    set (it1 := {| ji_iterators := ji_iterators it; ji_cursor := Some i;
                   ji_current := Some i; ji_err := ji_err it |}).
    assert (rest_of it1 = rest) as Er1.
    { unfold rest_of; simpl. change (drop i (ji_iterators it) = s :: rest) in Er.
      replace (S i) with (i + 1) by lia. rewrite <- drop_drop, Er. done. }
    assert (nextValue (S fuel) it = nextValue (S fuel) it1) as ->.
    { cbn [nextValue]. rewrite Hcur. unfold nextIterator. fold i.
      rewrite decide_True by done. done. }
    change (next_spec it1 (l1 ++ concat ls') (nextValue (S fuel) it1)).
    eapply nextValue_current; try done; [by rewrite Er1|].
    intros it' He' Hc' Hcur' Hlen' Hrest'.
    assert (next_spec it' (concat ls') (nextValue fuel it')) as Hr.
    { apply IH; try done; [|lia]. apply Forall2_length in Hrest, Hrest'. simpl in Hn. lia. }
    unfold next_spec in *. destruct (concat ls'); [done|].
    destruct Hr as (? & ? & ?). split_and!; try done. simpl in *. congruence.
Qed.

Lemma JoinIter_Next_pending it l :
  pending it l → next_spec it l ((Next : prog (JoinIter St) _) it).
Proof.
  intros (He & ls & Hrest & Hcur). unfold Next, JoinIter_Next. rewrite He.
  assert (length (rest_of it) ≤ length (ji_iterators it)) as Hle.
  { unfold rest_of. rewrite length_drop. lia. }
  destruct (ji_current it) as [i|] eqn:Ec.
  - destruct Hcur as (Hc & s & l1 & Hs & Hy & ->).
    eapply nextValue_current; try done. intros it' He' Hc' Hcur' Hlen' Hrest'.
    assert (next_spec it' (concat ls)
      (nextValue (S (length (ji_iterators it))) it')) as Hr.
    { eapply nextValue_between; try done. apply Forall2_length in Hrest, Hrest'. lia. }
    unfold next_spec in *. destruct (concat ls); [done|].
    destruct Hr as (? & ? & ?). split_and!; try done. congruence.
  - subst l. eapply nextValue_between; try done. lia.
Qed.

Lemma pending_yields l it : pending it l → ∃ it', yields it (Some <$> l) ErrEndIteration it'.
Proof.
  revert it. induction l as [|x l IH]; intros it Hp; pose proof (JoinIter_Next_pending _ _ Hp) as Hn;
    destruct ((Next : prog (JoinIter St) (result iter_error (option A))) it) as [it1 r] eqn:En;
    simpl in Hn; destruct Hn as [-> Hn].
  - exists it1. by apply yields_end.
  - destruct (IH _ (proj1 Hn)) as [it' Hy]. exists it'. simpl. by eapply yields_value.
Qed.
End join_spec.

(** ** Properties *)

(** [Join] enumerates its first iterator and then its second one: when both end
    normally the joined iterator produces the concatenation of their values, each
    once and in order, and then [ErrEndIteration]. *)
Theorem join_concatenates `{Iter St A} (a b : St) (la lb : list A) :
  sub_yields a la → sub_yields b lb →
  ∃ it', yields (Join a b) (Some <$> (la ++ lb)) ErrEndIteration it'.
Proof.
  intros Ha Hb. apply pending_yields. split; [done|].
  exists [la; lb]. split; [by repeat constructor|]. simpl. by rewrite app_nil_r.
Qed.

(** What [Count] and [Collect] answer, by the way the iteration ends.  An
    iterator that ends normally makes them answer [ErrEndIteration] and drop what
    they read; only one that fails with another error gets its values returned,
    without that error. *)
Theorem count_collect_results `{Iter St A} (s s' : St) (l : list A) e fuel :
  yields s l e s' → length l < fuel →
  Collect fuel s = (s', Ret (match e with ErrEndIteration => Err e | _ => Ok l end)) ∧
  Count fuel s = (s', Ret (match e with ErrEndIteration => Err e | _ => Ok (length l) end)).
Proof.
  intros Hy Hlt. unfold Collect, Count, mbind, prog_bind.
  rewrite (iterate_yields s l e s' [] fuel Hy Hlt). simpl. by destruct e.
Qed.

(** ** Witnesses *)
Lemma join_concatenates_witness :
  sub_yields (FromValue 1) [1] ∧ sub_yields (FromValue 2) [2] ∧
  ∃ it', yields (Join (FromValue 1) (FromValue 2)) (Some <$> [1; 2]) ErrEndIteration it'.
Proof.
  assert (∀ n : nat, sub_yields (FromValue n) [n]) as Hv.
  { intros n. eexists. apply FromValue_yields. }
  split_and!; [apply Hv|apply Hv|].
  apply (join_concatenates (FromValue 1) (FromValue 2) [1] [2] (Hv 1) (Hv 2)).
Defined.

Lemma count_collect_results_witness :
  yields (FromValue 7) [7] ErrEndIteration {| vi_value := 7; vi_end := true |} ∧
  Collect 2 (FromValue 7) =
    ({| vi_value := 7; vi_end := true |}, Ret (Err ErrEndIteration)).
Proof.
  split; [apply FromValue_yields|].
  apply (count_collect_results (FromValue 7) _ [7] ErrEndIteration 2 (FromValue_yields 7)).
  simpl. lia.
Defined.
