(* ===== verification/ThreadPool.v ===== *)
(** * hCommon/threadpool: the worker pool

    [ThreadPool] mirrors the struct of threadpool.go.  The mutex [lock] is the field
    [lock]: a call of [Run] takes it and gives it back, and a worker that has come to
    its deferred block holds it from [activeDown] to the end of [nextTask], with the
    task it ran.  The mutex [any] is the flag [any_locked]: [activeUp] locks it when
    the pool becomes busy, [activeDown] unlocks it when the pool becomes idle, and
    [Wait], which does not take [lock], passes while it is free.  The deferred block is
    therefore two steps, [worker_down] and [worker_next], and [Wait] may pass between
    them.  [running] are the tasks whose goroutine has been started and has not reached
    its deferred block yet; [log] is the history of what the pool did. *)
From S2P Require Import Prelude.

(** A task is known by a number; [postprocessing] lists its callbacks. *)
Record Task := { task : nat; postprocessing : list nat }.

#[global] Instance Task_eq_dec : EqDecision Task.
Proof. solve_decision. Defined.

Inductive event :=
| Started (t : Task)
| Finished (t : Task)
| Recovered (t : Task)
| Posted (callback : nat).

Record ThreadPool := Pool {
  MaxThreads : Z;
  active : Z;
  any_locked : bool;
  lock : option Task;
  pending : list Task;
  running : list Task;
  log : list event }.

Definition started (l : list event) : list Task :=
  omap (λ e, match e with Started t => Some t | _ => None end) l.
Definition finished (l : list event) : list Task :=
  omap (λ e, match e with Finished t => Some t | _ => None end) l.
Definition posted (l : list event) : list nat :=
  omap (λ e, match e with Posted n => Some n | _ => None end) l.

(** threadpool.go [New], with the bound the runtime then sets. *)
Definition New (maxThreads : Z) : ThreadPool := Pool maxThreads 0 false None [] [] [].

(** ** Operations, in the program monad over the pool

    [pool.any.Lock()] never returns while the flag is set: the goroutine that
    would clear it needs [pool.lock], which is held here. *)
Abbreviation P := (prog ThreadPool).

Definition any_Lock : P unit := λ p,
  if any_locked p then (p, Stuck)
  else (Pool (MaxThreads p) (active p) true (lock p) (pending p) (running p) (log p), Ret tt).
Definition any_Unlock : P unit := λ p,
  if any_locked p
  then (Pool (MaxThreads p) (active p) false (lock p) (pending p) (running p) (log p), Ret tt)
  else (p, Panic UnlockUnlocked).
Definition add_active (d : Z) : P unit :=
  modify (λ p, Pool (MaxThreads p) (active p + d) (any_locked p) (lock p) (pending p) (running p) (log p)).
Definition set_lock (w : option Task) : P unit :=
  modify (λ p, Pool (MaxThreads p) (active p) (any_locked p) w (pending p) (running p) (log p)).
Definition set_pending (q : list Task) : P unit :=
  modify (λ p, Pool (MaxThreads p) (active p) (any_locked p) (lock p) q (running p) (log p)).
Definition record (e : event) : P unit :=
  modify (λ p, Pool (MaxThreads p) (active p) (any_locked p) (lock p) (pending p) (running p) (log p ++ [e])).
Definition set_running (r : list Task) : P unit :=
  modify (λ p, Pool (MaxThreads p) (active p) (any_locked p) (lock p) (pending p) r (log p)).

Definition activeUp : P bool :=
  p ← get_state;
  if decide (MaxThreads p < 0 ∨ active p < MaxThreads p)%Z then
    _ ← add_active 1;
    p ← get_state;
    _ ← (if decide (active p = 1)%Z then any_Lock else mret tt);
    mret true
  else mret false.

Definition activeDown : P unit :=
  _ ← add_active (-1);
  p ← get_state;
  if decide (active p = 0)%Z then any_Unlock else mret tt.

(** [run] with the pool's lock held: start a goroutine or queue the task. *)
Definition run (t : Task) : P unit :=
  up ← activeUp;
  p ← get_state;
  if (up : bool) then _ ← record (Started t); set_running (running p ++ [t])
  else set_pending (pending p ++ [t]).

(** [Run]: it waits while a worker is in its deferred block. *)
Definition Run (t : Task) : P unit :=
  p ← get_state;
  if decide (lock p = None) then run t else stuck.

Definition nextTask : P unit :=
  p ← get_state;
  match pending p with
  | [] => mret tt
  | t :: q => _ ← set_pending q; run t
  end.

(** The worker's deferred block, entered once [task()] has returned or panicked, up
    to [activeDown]. *)
Definition worker_down (t : Task) (panicked : bool) : P unit :=
  p ← get_state;
  match remove_first (t =.) (running p), lock p with
  | Some rest, None =>
      _ ← set_running rest;
      _ ← set_lock (Some t);
      _ ← record (if panicked then Recovered t else Finished t);
      _ ← (if panicked then record (Finished t) else mret tt);
      activeDown
  | _, _ => stuck
  end.

(** The rest of it: the first callback, the next task, and the lock is given back. *)
Definition worker_next : P unit :=
  p ← get_state;
  match lock p with
  | None => stuck
  | Some t =>
      _ ← match postprocessing t with [] => mret tt | f :: _ => record (Posted f) end;
      _ ← nextTask;
      set_lock None
  end.

(** [Wait]: lock [any] and unlock it at once. *)
Definition Wait : P unit := _ ← any_Lock; any_Unlock.

Definition Active : P Z := p ← get_state; mret (active p).

(** ** Behaviours: callers call [Run], workers end in any order, with the tasks
    submitted on the way. *)
Inductive worker_step (p p' : ThreadPool) : Prop :=
| step_down t b : t ∈ running p → worker_down t b p = (p', Ret tt) → worker_step p p'
| step_next : worker_next p = (p', Ret tt) → worker_step p p'.

Inductive pool_reaches : ThreadPool → list Task → ThreadPool → Prop :=
| run_refl p : pool_reaches p [] p
| run_submit p ts p1 p2 t :
    pool_reaches p ts p1 → Run t p1 = (p2, Ret tt) → pool_reaches p (ts ++ [t]) p2
| run_worker p ts p1 p2 :
    pool_reaches p ts p1 → worker_step p1 p2 → pool_reaches p ts p2.

Definition submitted (p : ThreadPool) : list Task := started (log p) ++ pending p.

(** The pool's invariant, for a positive bound: with tasks pending no thread is idle,
    but for the one of the worker that is about to start the next task. *)
Definition held (p : ThreadPool) : nat := if lock p is Some _ then 1 else 0.

Record pool_ok (p : ThreadPool) : Prop := {
  ok_max : (0 < MaxThreads p)%Z;
  ok_active : active p = Z.of_nat (length (running p));
  ok_bound : (active p + Z.of_nat (held p) ≤ MaxThreads p)%Z;
  ok_any : any_locked p = bool_decide (0 < active p)%Z;
  ok_busy : pending p ≠ [] → (active p + Z.of_nat (held p))%Z = MaxThreads p;
  ok_started : started (log p) ≡ₚ finished (log p) ++ running p }.

Lemma New_ok n : (0 < n)%Z → pool_ok (New n).
Proof. intros. split; unfold held; simpl; try done; lia. Qed.

Lemma started_snoc l e :
  started (l ++ [e]) = started l ++ match e with Started t => [t] | _ => [] end.
Proof. unfold started. rewrite omap_app. by destruct e. Qed.
Lemma finished_snoc l e :
  finished (l ++ [e]) = finished l ++ match e with Finished t => [t] | _ => [] end.
Proof. unfold finished. rewrite omap_app. by destruct e. Qed.
#[export] Hint Rewrite started_snoc finished_snoc @length_app @app_nil_r : pool.

(** The two counters' effect while the flag says whether the pool is busy. *)
Lemma activeUp_eq m a w q r l :
  (0 < m)%Z → (0 ≤ a)%Z →
  activeUp (Pool m a (bool_decide (0 < a)%Z) w q r l) =
    if decide (a < m)%Z then (Pool m (a + 1) true w q r l, Ret true)
    else (Pool m a (bool_decide (0 < a)%Z) w q r l, Ret false).
Proof.
  intros Hm Ha. unfold activeUp, get_state, add_active, modify, any_Lock. unfold_prog.
  destruct (decide (a < m)%Z).
  - rewrite decide_True by lia. simpl. destruct (decide (a = 0%Z)) as [->|Hne].
    + done.
    + rewrite decide_False by lia. by rewrite bool_decide_eq_true_2 by lia.
  - by rewrite decide_False by lia.
Qed.

Lemma activeDown_eq m a w q r l :
  (0 < a)%Z →
  activeDown (Pool m a (bool_decide (0 < a)%Z) w q r l) =
    (Pool m (a - 1) (bool_decide (0 < a - 1)%Z) w q r l, Ret tt).
Proof.
  intros Ha. unfold activeDown, get_state, add_active, modify, any_Unlock. unfold_prog.
  rewrite (bool_decide_eq_true_2 (0 < a)%Z) by done.
  destruct (decide (a = 1%Z)) as [->|Hne]; [done|].
  rewrite decide_False by lia. by rewrite bool_decide_eq_true_2 by lia.
Qed.

Lemma run_eq m a w q r l t :
  (0 < m)%Z → (0 ≤ a)%Z →
  run t (Pool m a (bool_decide (0 < a)%Z) w q r l) =
    if decide (a < m)%Z
    then (Pool m (a + 1) (bool_decide (0 < a + 1)%Z) w q (r ++ [t]) (l ++ [Started t]), Ret tt)
    else (Pool m a (bool_decide (0 < a)%Z) w (q ++ [t]) r l, Ret tt).
Proof.
  intros Hm Ha. unfold run. unfold_prog. rewrite activeUp_eq by done.
  destruct (decide (a < m)%Z); [|done].
  by rewrite (bool_decide_eq_true_2 (0 < a + 1)%Z) by lia.
Qed.

(** [Run] from a consistent pool: it starts the task when a thread is free and
    queues it otherwise, and keeps the invariant; it waits for a worker only. *)
Lemma Run_ok p t :
  pool_ok p → lock p = None →
  ∃ p', Run t p = (p', Ret tt) ∧ pool_ok p' ∧ submitted p' = submitted p ++ [t] ∧
    finished (log p') = finished (log p) ∧ MaxThreads p' = MaxThreads p.
Proof.
  intros [Hm Ha Hb Hany Hbusy Hst] Hw. destruct p as [m a an w q r l]; simpl in *. subst an w.
  unfold Run, get_state. unfold_prog.
  rewrite run_eq by lia. unfold submitted, held in *. simpl in *. case_decide.
  - assert (q = []) as -> by (destruct q; [done|]; specialize (Hbusy ltac:(done)); lia).
    eexists. split; [done|]. split_and!; simpl; autorewrite with pool; simpl; try done.
    split; unfold held; simpl; autorewrite with pool; simpl; try done; try lia.
    by rewrite Hst, <- app_assoc.
  - eexists. split; [done|]. split_and!; simpl; [|by rewrite app_assoc|done|done].
    split; unfold held; simpl; try done; lia.
Qed.

(** A worker comes to its deferred block: its task is recorded as finished, and its
    thread is free. *)
Lemma worker_down_ok p t b :
  pool_ok p → t ∈ running p → lock p = None →
  ∃ p', worker_down t b p = (p', Ret tt) ∧ pool_ok p' ∧ submitted p' = submitted p ∧
    finished (log p') = finished (log p) ++ [t] ∧ MaxThreads p' = MaxThreads p ∧
    lock p' = Some t ∧ length (running p) = S (length (running p')) ∧ pending p' = pending p.
Proof.
  intros [Hm Ha Hb Hany Hbusy Hst] Ht Hw. destruct p as [m a an w q r l]; unfold held in *; simpl in *. subst an w.
  destruct (remove_first_elem_of _ _ Ht) as [rest Hrest].
  pose proof (remove_first_eq_Permutation _ _ _ Hrest) as Hperm.
  assert (length r = S (length rest)) as Hlen by (by rewrite Hperm).
  set (l1 := (if b then l ++ [Recovered t; Finished t] else l ++ [Finished t])).
  assert (worker_down t b (Pool m a (bool_decide (0 < a)%Z) None q r l) =
    (Pool m (a - 1) (bool_decide (0 < a - 1)%Z) (Some t) q rest l1, Ret tt)) as ->.
  { unfold worker_down, l1. unfold_prog. cbn [running lock]. rewrite Hrest. simpl.
    destruct b; simpl; rewrite activeDown_eq by lia; by rewrite <- ?app_assoc. }
  assert (started l1 = started l ∧ finished l1 = finished l ++ [t]) as [Hs Hf].
  { unfold l1. destruct b;
      try change (l ++ [Recovered t; Finished t]) with (l ++ [Recovered t] ++ [Finished t]);
      rewrite ?app_assoc; autorewrite with pool; simpl; by rewrite ?app_nil_r. }
  assert (finished l ++ r ≡ₚ (finished l ++ [t]) ++ rest) as Hfin
    by (by rewrite Hperm, <- app_assoc).
  eexists. split; [done|]. unfold submitted, held in *. simpl in *. rewrite Hs, Hf.
  split_and!; [|done..]. split; unfold held; simpl; rewrite ?Hs, ?Hf; try done; try lia.
  - intros Hq. specialize (Hbusy Hq). lia.
  - by rewrite Hst.
Qed.

(** The rest of the block: the oldest pending task takes over the thread. *)
Lemma worker_next_ok p t :
  pool_ok p → lock p = Some t →
  ∃ p', worker_next p = (p', Ret tt) ∧ pool_ok p' ∧ submitted p' = submitted p ∧
    finished (log p') = finished (log p) ∧ MaxThreads p' = MaxThreads p ∧ lock p' = None ∧
    length (running p') + length (pending p') = length (running p) + length (pending p).
Proof.
  intros [Hm Ha Hb Hany Hbusy Hst] Hw. destruct p as [m a an w q r l]; simpl in *. subst an w.
  set (l2 := match postprocessing t with [] => l | f :: _ => l ++ [Posted f] end).
  assert (worker_next (Pool m a (bool_decide (0 < a)%Z) (Some t) q r l) =
    (_ ← nextTask; set_lock None) (Pool m a (bool_decide (0 < a)%Z) (Some t) q r l2)) as ->.
  { unfold worker_next, l2. unfold_prog. cbn [lock]. by destruct (postprocessing t). }
  assert (started l2 = started l ∧ finished l2 = finished l) as [Hs Hf].
  { unfold l2. destruct (postprocessing t); autorewrite with pool; by rewrite ?app_nil_r. }
  unfold nextTask, get_state, set_pending, set_lock, modify. unfold_prog. unfold submitted, held in *.
  simpl in *. destruct q as [|u q]; simpl.
  - eexists. split; [done|]. simpl. rewrite Hs, Hf.
    split_and!; try done. split; unfold held; simpl; rewrite ?Hs, ?Hf; try done; lia.
  - specialize (Hbusy ltac:(done)). rewrite run_eq by lia. rewrite decide_True by lia.
    eexists. split; [done|]. simpl. autorewrite with pool. rewrite Hs, Hf. simpl.
    split_and!; [|by rewrite <- app_assoc|by autorewrite with pool|done|done|lia].
    split; unfold held; simpl; autorewrite with pool; simpl; rewrite ?Hs, ?Hf; try done; try lia.
    by rewrite Hst, <- app_assoc.
Qed.

Lemma worker_step_ok p p' :
  pool_ok p → worker_step p p' → pool_ok p' ∧ submitted p' = submitted p ∧
    MaxThreads p' = MaxThreads p ∧
    2 * (length (running p') + length (pending p')) + held p' <
      2 * (length (running p) + length (pending p)) + held p.
Proof.
  intros Hok [t b Ht E|E].
  - assert (lock p = None) as Hw.
    { destruct (lock p) as [u|] eqn:Hw; [|done]. revert E. unfold worker_down. unfold_prog.
      rewrite Hw. by destruct (remove_first _ _). }
    destruct (worker_down_ok p t b Hok Ht Hw) as (q & E' & ? & ? & _ & ? & Hl & ? & Hq).
    same_lhs. split_and!; try done. unfold held. rewrite Hl, Hw, Hq. lia.
  - destruct (lock p) as [t|] eqn:Hw; [|by (revert E; unfold worker_next; unfold_prog; rewrite Hw)].
    destruct (worker_next_ok p t Hok Hw) as (q & E' & ? & ? & _ & ? & Hl & ?).
    same_lhs. split_and!; try done. unfold held. rewrite Hl, Hw. lia.
Qed.

Lemma pool_run_ok n ts p :
  (0 < n)%Z → pool_reaches (New n) ts p → pool_ok p ∧ submitted p = ts ∧ MaxThreads p = n.
Proof.
  intros Hn Hr. remember (New n) as p0 eqn:E0.
  assert (pool_ok p0) as Hok0 by (subst; by apply New_ok).
  induction Hr as [p|p ts p1 p2 t _ IH Hrun|p ts p1 p2 _ IH Hs]; subst; [done|..];
    destruct (IH eq_refl Hok0) as (Hok & <- & <-).
  - assert (lock p1 = None) as Hw.
    { revert Hrun. unfold Run. unfold_prog. by destruct (decide (lock p1 = None)). }
    destruct (Run_ok p1 t Hok Hw) as (p' & E & ? & ? & ? & ?). by same_lhs.
  - by destruct (worker_step_ok _ _ Hok Hs) as (? & ? & ? & _).
Qed.

(** The task of the worker in its deferred block has ended. *)
Lemma lock_finished n ts p :
  pool_reaches (New n) ts p → ∀ t, lock p = Some t → t ∈ finished (log p).
Proof.
  intros Hr. remember (New n) as p0 eqn:E0.
  induction Hr as [p|p ts p1 p2 u _ IH Hrun|p ts p1 p2 _ IH [u b Hu E|E]]; intros t Ht; subst; [done|..].
  - exfalso. revert Hrun. unfold Run, run, activeUp, any_Lock. unfold_prog.
    destruct (decide (lock p1 = None)) as [Hl|]; [|done].
    repeat case_decide; destruct (any_locked p1); intros [= <-]; simpl in Ht; congruence.
  - revert E. unfold worker_down, activeDown, any_Unlock. unfold_prog.
    destruct (remove_first _ _), (lock p1); try done.
    destruct b; simpl; case_decide; simpl; try destruct (any_locked p1); simpl;
      intros [= <-]; simpl in *; injection Ht as ->; autorewrite with pool; set_solver.
  - exfalso. revert E. unfold worker_next. unfold_prog. destruct (lock p1); [|done].
    destruct (postprocessing t0); simpl;
      (destruct (nextTask _) as [q2 [[]|?|]]; [|done|done]); intros [= <-]; done.
Qed.

(** [Wait] takes the lock that [any] stands for, which is free when nothing runs. *)
Lemma Wait_idle p : pool_ok p → Wait p = (p, Ret tt) ↔ running p = [].
Proof.
  intros [Hm Ha Hb Hany Hbusy Hst]. unfold Wait, any_Lock, any_Unlock. unfold_prog. rewrite Hany, Ha.
  destruct (running p) as [|t r] eqn:Er; simpl.
  - split; [done|]. intros _. destruct p; simpl in *; subst. done.
  - split; intros; done.
Qed.

Lemma Wait_or_stuck p : pool_ok p → Wait p = (p, Ret tt) ∨ Wait p = (p, Stuck).
Proof.
  intros Hok. destruct (decide (running p = [])) as [Hr|Hr]; [left; by apply Wait_idle|right].
  destruct Hok as [Hm Ha Hb Hany Hbusy Hst]. unfold Wait, any_Lock. unfold_prog. rewrite Hany, Ha.
  by destruct (running p).
Qed.

(** C31: a bounded pool runs every submitted task, in submission order, on at most
    [n] threads at a time, and keeps no task waiting while a thread is idle, but for
    the thread of the one worker that has ended and is about to start the next.
    [Wait] passes exactly when no task is running.  With two threads or more every
    submitted task has then ended; with one thread tasks may still be pending, when
    [Wait] comes between the end of one and the start of the next. *)
Theorem pool_bounded_fifo n ts p :
  (0 < n)%Z → pool_reaches (New n) ts p →
  started (log p) ++ pending p = ts ∧
  started (log p) ≡ₚ finished (log p) ++ running p ∧
  (Z.of_nat (length (running p)) ≤ n)%Z ∧
  (pending p ≠ [] →
     Z.of_nat (length (running p)) = match lock p with None => n | Some _ => n - 1 end)%Z ∧
  (Wait p = (p, Ret tt) ∨ Wait p = (p, Stuck)) ∧
  (Wait p = (p, Ret tt) ↔ running p = []) ∧
  (Wait p = (p, Ret tt) →
     finished (log p) ≡ₚ ts ∨
     n = 1%Z ∧ ∃ t u q, lock p = Some t ∧ t ∈ finished (log p) ∧ pending p = u :: q).
Proof.
  intros Hn Hr. destruct (pool_run_ok _ _ _ Hn Hr) as (Hok & Hsub & <-).
  pose proof (Wait_idle p Hok) as HW. pose proof (Wait_or_stuck p Hok) as HS.
  pose proof (lock_finished _ _ _ Hr) as HF.
  destruct Hok as [Hm Ha Hb Hany Hbusy Hst]. rewrite <- Ha. unfold held in *.
  split_and!; [done|done|destruct (lock p); lia| |done|done|].
  - intros Hp. specialize (Hbusy Hp). destruct (lock p); lia.
  - intros Hi%HW. rewrite Hi in Ha, Hst. simpl in Ha. rewrite app_nil_r in Hst.
    destruct (pending p) as [|u q] eqn:Hq.
    + left. unfold submitted in Hsub. rewrite Hq, app_nil_r in Hsub. by rewrite <- Hst, Hsub.
    + right. specialize (Hbusy ltac:(done)). destruct (lock p) as [t|] eqn:Hw; [|lia].
      split; [lia|]. exists t, u, q. split_and!; [done|by apply HF|done].
Qed.

(** With one thread, [Wait] passes after the first of two tasks. *)
Lemma pool_bounded_fifo_witness :
  let t := {| task := 1; postprocessing := [] |} in
  let u := {| task := 2; postprocessing := [] |} in
  let p := fst (worker_down t false (fst (Run u (fst (Run t (New 1)))))) in
  (0 < 1)%Z ∧ pool_reaches (New 1) [t; u] p ∧ started (log p) ++ pending p = [t; u] ∧
  Wait p = (p, Ret tt) ∧ finished (log p) = [t] ∧ pending p = [u].
Proof.
  intros t u p. assert (pool_reaches (New 1) [t; u] p) as Hr.
  { apply (run_worker (New 1) _ (fst (Run u (fst (Run t (New 1)))))).
    - apply (run_submit (New 1) [t] (fst (Run t (New 1)))); [|reflexivity].
      apply (run_submit (New 1) [] (New 1)); [constructor|reflexivity].
    - apply (step_down _ _ t false); [left|reflexivity]. }
  destruct (pool_bounded_fifo 1 _ p ltac:(lia) Hr) as (Hs & _ & _ & _ & _ & HW & _).
  split; [lia|]. split; [exact Hr|]. split; [exact Hs|].
  split; [by apply HW|]. split; reflexivity.
Defined.

(** Whatever order the workers end in and whether tasks panic or not, the
    pool drains: the workers cannot take more than two steps for each task left, a
    step is possible while a task runs or a worker holds the lock, and when none is
    left every submitted task has finished exactly once and [Wait] returns. *)
Theorem pool_drains n ts p k p' :
  (0 < n)%Z → pool_reaches (New n) ts p → nsteps worker_step k p p' →
  k ≤ 2 * (length (running p) + length (pending p)) + held p ∧
  ((∃ p'', worker_step p' p'') ∨
   finished (log p') ≡ₚ ts ∧ pending p' = [] ∧ Wait p' = (p', Ret tt)).
Proof.
  intros Hn Hr Hs. assert (pool_reaches (New n) ts p' ∧
    k + (2 * (length (running p') + length (pending p')) + held p') ≤
      2 * (length (running p) + length (pending p)) + held p) as [Hr' Hk].
  { clear -Hs Hr Hn. induction Hs as [p|k p p1 p2 Hd _ IH]; [split; [done|lia]|].
    assert (pool_reaches (New n) ts p1) as Hr1 by (by eapply run_worker).
    destruct (pool_run_ok _ _ _ Hn Hr) as (Hok & _).
    destruct (worker_step_ok _ _ Hok Hd) as (_ & _ & _ & ?).
    destruct (IH Hr1). split; [done|lia]. }
  split; [lia|].
  destruct (pool_run_ok _ _ _ Hn Hr') as (Hok & Hsub & Hmax).
  destruct (lock p') as [t|] eqn:Hw.
  { left. destruct (worker_next_ok p' t Hok Hw) as (q & E & _). exists q. by apply step_next. }
  destruct (running p') as [|t r] eqn:Er.
  - right. pose proof (Wait_idle p' Hok) as HW. destruct Hok as [Hm Ha Hb Hany Hbusy Hst].
    unfold held in *. rewrite Hw in *. rewrite Er in Ha, Hst. simpl in Ha. rewrite app_nil_r in Hst.
    assert (pending p' = []) as Hq.
    { destruct (pending p'); [done|]. specialize (Hbusy ltac:(done)). lia. }
    unfold submitted in Hsub. rewrite Hq, app_nil_r in Hsub.
    split_and!; [by rewrite <- Hst, Hsub|done|]. by apply HW.
  - left. destruct (worker_down_ok p' t false Hok) as (q & E & _); [rewrite Er; left|done|].
    exists q. eapply (step_down _ _ t false); [rewrite Er; left|exact E].
Qed.

Lemma pool_drains_witness :
  let t := {| task := 1; postprocessing := [7] |} in
  let p := fst (Run t (New 1)) in
  let p1 := fst (worker_down t true p) in
  let p' := fst (worker_next p1) in
  (0 < 1)%Z ∧ pool_reaches (New 1) [t] p ∧ nsteps worker_step 2 p p' ∧
  posted (log p') = [7] ∧
  ((∃ p'', worker_step p' p'') ∨ finished (log p') ≡ₚ [t] ∧ pending p' = [] ∧ Wait p' = (p', Ret tt)).
Proof.
  intros t p p1 p'.
  assert (pool_reaches (New 1) [t] p) as Hr.
  { apply (run_submit (New 1) [] (New 1)); [constructor|reflexivity]. }
  assert (nsteps worker_step 2 p p') as Hs.
  { apply (nsteps_l _ _ p p1); [apply (step_down _ _ t true); [left|reflexivity]|].
    apply nsteps_once, step_next. reflexivity. }
  split; [lia|]. split; [exact Hr|]. split; [exact Hs|]. split; [reflexivity|].
  apply (pool_drains 1 [t] p 2 p' ltac:(lia) Hr Hs).
Defined.
