(* ===== verification/EcsSystems.v ===== *)
(** * hECS: the four built-in systems and a frame of the runtime

    [QueueSystem] is the common shape of [AwakeSystem], [StartSystem] and
    [DestroySystem] (two lists that [UpdateFrame] swaps), [UpdateSystem] keeps the
    components it updates every frame and the additions ([push]) and removals
    ([pop]) of the frame under way.  A frame runs the systems one after the
    other; inside a system every call is handed to the worker pool and
    [wg.Wait] keeps the next system from starting before all have returned.
    Components are known by address; [implements] says which of the callback
    interfaces the component's type has. *)
From S2P Require Import Prelude GoList Iter.

Abbreviation cid := positive (only parsing).

(** The interfaces a type assertion asks for. *)
Inductive iface :=
| IAwake | IStart | IUpdate | IDestroy | IInit | IUniqueI | IRequireI | IPersistI.

#[global] Instance iface_eq_dec : EqDecision iface.
Proof. solve_decision. Defined.

(** system_update.go and system_destroy.go: the operation codes. *)
Definition SYSTEM_OP_UPDATE_ADD : Z := 0.
Definition SYSTEM_OP_UPDATE_REMOVE : Z := 1.
Definition SYSTEM_OP_DESTROY_ADD : Z := 0.

Record QueueSystem := Queue {
  q_name : string;
  q_components : golist cid;
  q_temp : golist cid;
  q_wg : nat }.

Record UpdateSystem := Update {
  u_components : golist cid;
  u_push : golist cid;
  u_pop : golist cid;
  u_wg : nat }.

(** [Init] of the four systems. *)
Definition Queue_Init (name : string) : QueueSystem := Queue name gl_new gl_new 0.
Definition Update_Init : UpdateSystem := Update gl_new gl_new gl_new 0.

(** ** Queue systems *)
Section queue.
Context (implements : iface → cid → bool).

(** [Filter]: queue the component when it has the system's interface. *)
Definition Queue_Filter (i : iface) (c : cid) (s : QueueSystem) : QueueSystem :=
  if implements i c
  then Queue (q_name s) (PushBack c (q_components s)) (q_temp s) (q_wg s) else s.

(** The start of [UpdateFrame]: [components, temp = temp, components]. *)
Definition Queue_swap (s : QueueSystem) : QueueSystem :=
  Queue (q_name s) (q_temp s) (q_components s) (q_wg s).

(** One turn of the loop of [UpdateFrame]: the front of [temp], removed from it. *)
Definition Queue_take (s : QueueSystem) : option (cid * QueueSystem) :=
  match Front (q_temp s) with
  | None => None
  | Some (e, c) =>
      Some (c, Queue (q_name s) (q_components s) (gl_remove e (q_temp s)) (S (q_wg s)))
  end.

(** [wg.Done()] *)
Definition Queue_done (s : QueueSystem) : QueueSystem :=
  Queue (q_name s) (q_components s) (q_temp s) (pred (q_wg s)).

(** ** The update system *)
Definition Update_Filter (c : cid) (s : UpdateSystem) : UpdateSystem :=
  if implements IUpdate c
  then Update (u_components s) (PushBack c (u_push s)) (u_pop s) (u_wg s) else s.

Definition Update_IndependentFilter (op : Z) (c : cid) (s : UpdateSystem) : UpdateSystem :=
  if decide (op = SYSTEM_OP_UPDATE_ADD) then Update_Filter c s
  else if decide (op = SYSTEM_OP_UPDATE_REMOVE) then
    if implements IUpdate c
    then Update (u_components s) (u_push s) (PushBack c (u_pop s)) (u_wg s) else s
  else s.
End queue.

(** The inner loop of the removal: [for c := Front(); c != nil; c = c.Next()],
    removing the current element when it matches.  The cursor is the element's
    address; a removed element has no [Next]. *)
Fixpoint remove_loop (fuel : nat) (v : cid) (cursor : option (nat * cid)) (l : golist cid)
    : golist cid :=
  match fuel, cursor with
  | S fuel, Some (e, x) =>
      let l := if decide (x = v) then gl_remove e l else l in
      remove_loop fuel v (next_of e l) l
  | _, _ => l
  end.

(** The part of [UpdateSystem.UpdateFrame] that runs under the lock. *)
Definition Update_merge (s : UpdateSystem) : UpdateSystem :=
  let comps := if decide (0 < gl_len (u_push s))
               then PushBackList (u_push s) (u_components s) else u_components s in
  let push := if decide (0 < gl_len (u_push s)) then gl_new else u_push s in
  let comps' := fold_left (λ l v, remove_loop (S (gl_len l)) v (Front l) l)
                  (gl_values (u_pop s)) comps in
  if decide (0 < gl_len (u_pop s)) then Update comps' push gl_new (u_wg s)
  else Update comps push (u_pop s) (u_wg s).

(** ** What the removal loop does *)
Definition without_first (v : cid) (xs : list cid) : list cid :=
  default xs (remove_first (v =.) xs).

Lemma remove_loop_from fuel v pre e x suf l :
  gl_wf l → gl_elems l = pre ++ (e, x) :: suf → length suf < fuel →
  Forall (λ y, v ≠ y.2) pre →
  gl_values (remove_loop fuel v (Some (e, x)) l) = without_first v (gl_values l).
Proof.
  revert pre e x suf l. induction fuel as [|fuel IH]; intros pre e x suf l Hwf E Hlt Hpre; [lia|].
  cbn [remove_loop]. unfold gl_values at 2. rewrite E, fmap_app. simpl.
  assert (∀ rest, remove_first (v =.) (pre.*2 ++ rest) =
                  (pre.*2 ++.) <$> remove_first (v =.) rest) as Hskip.
  { intros rest. clear -Hpre. induction Hpre as [|y pre Hy _ IH]; csimpl.
    - by destruct (remove_first _ rest).
    - rewrite decide_False by done. rewrite IH. by destruct (remove_first _ rest). }
  unfold without_first. rewrite Hskip. simpl. destruct (decide (x = v)) as [->|Hne].
  - rewrite next_of_removed. rewrite decide_True by done. simpl.
    unfold gl_values.
    destruct fuel; cbn [remove_loop]; rewrite (gl_remove_split pre e v suf) by done; by rewrite fmap_app.
  - rewrite decide_False by done. unfold next_of. rewrite E, after_split by (rewrite <- E; apply Hwf).
    destruct suf as [|[e' x'] suf]; simpl.
    + destruct fuel; simpl; unfold gl_values; rewrite E, fmap_app; done.
    + rewrite (IH (pre ++ [(e, x)]) e' x' suf) by
        (done || (by rewrite <- app_assoc) || (simpl in Hlt; lia) ||
         (apply Forall_app; split; [done|by apply Forall_singleton])).
      unfold gl_values. rewrite E, fmap_app. unfold without_first. simpl.
      rewrite Hskip. simpl. rewrite (decide_False (P := v = x)) by done.
      done.
Qed.

Lemma remove_loop_values v l :
  gl_wf l → gl_values (remove_loop (S (gl_len l)) v (Front l) l) = without_first v (gl_values l).
Proof.
  intros Hwf. unfold Front, gl_len. destruct (gl_elems l) as [|[e x] suf] eqn:E; cbn [head length].
  - unfold gl_values. simpl. by rewrite E.
  - apply (remove_loop_from _ v [] e x suf l); [done|done|simpl; lia|constructor].
Qed.

Lemma remove_loop_wf fuel v cur l : gl_wf l → gl_wf (remove_loop fuel v cur l).
Proof.
  revert cur l. induction fuel as [|fuel IH]; intros [[e x]|] l Hwf; simpl; try done.
  apply IH. case_decide; auto with golist.
Qed.

(** The components updated in a frame: those of the last frame, then the ones
    added since, less one occurrence per removal. *)
Definition update_plan (s : UpdateSystem) : list cid :=
  fold_left (λ xs v, without_first v xs) (gl_values (u_pop s))
    (gl_values (u_components s) ++ gl_values (u_push s)).

Lemma gl_len_0 {A} (l : golist A) : ¬ 0 < gl_len l → gl_values l = [].
Proof. unfold gl_len, gl_values. destruct (gl_elems l); simpl; [done|lia]. Qed.

Lemma Update_merge_spec s :
  gl_wf (u_components s) →
  gl_wf (u_components (Update_merge s)) ∧
  gl_values (u_components (Update_merge s)) = update_plan s ∧
  gl_values (u_push (Update_merge s)) = [] ∧ gl_values (u_pop (Update_merge s)) = [].
Proof.
  intros Hwf. unfold Update_merge, update_plan.
  set (comps := if decide (0 < gl_len (u_push s)) then _ else _).
  assert (gl_wf comps ∧ gl_values comps = gl_values (u_components s) ++ gl_values (u_push s))
    as [Hc Hv].
  { unfold comps. case_decide as Hd; [split; [auto with golist|apply PushBackList_values]|].
    by rewrite (gl_len_0 _ Hd), app_nil_r. }
  rewrite <- Hv. clear Hv. clearbody comps.
  assert (gl_values (if decide (0 < gl_len (u_push s)) then gl_new else u_push s) = []) as Hp.
  { case_decide; [done|by apply gl_len_0]. }
  destruct (decide (0 < gl_len (u_pop s))) as [Hd|Hd]; simpl.
  - assert (∀ vs l, gl_wf l →
      gl_wf (fold_left (λ l v, remove_loop (S (gl_len l)) v (Front l) l) vs l) ∧
      gl_values (fold_left (λ l v, remove_loop (S (gl_len l)) v (Front l) l) vs l)
        = fold_left (λ xs v, without_first v xs) vs (gl_values l)) as Hfold.
    { induction vs as [|v vs IH]; intros l Hl; cbn [fold_left]; [done|].
      rewrite <- remove_loop_values by done. apply IH, remove_loop_wf, Hl. }
    destruct (Hfold (gl_values (u_pop s)) comps Hc) as [??]. split_and!; done.
  - rewrite (gl_len_0 _ Hd). split_and!; simpl; try done; by apply gl_len_0.
Qed.

(** ** A frame, interleaved with whatever the other goroutines do *)
Inductive stage := StAwake | StStart | StUpdate | StDestroy.

#[global] Instance stage_eq_dec : EqDecision stage.
Proof. solve_decision. Defined.

Definition stage_rank (st : stage) : nat :=
  match st with StAwake => 0 | StStart => 1 | StUpdate => 2 | StDestroy => 3 end.

Inductive phase :=
| Idle
| InAwake
| InStart
| InUpdate (it : ListIter cid)
| InDestroy.

Definition phase_stage (ph : phase) : option stage :=
  match ph with
  | Idle => None
  | InAwake => Some StAwake
  | InStart => Some StStart
  | InUpdate _ => Some StUpdate
  | InDestroy => Some StDestroy
  end.

(** [f_running]: callbacks handed to the pool and not returned;
    [f_frame]: calls of the frame under way, in order; [f_calls], [f_added]:
    all calls so far, and all the queueings the systems accepted. *)
Record Frame := mkFrame {
  f_awake : QueueSystem;
  f_start : QueueSystem;
  f_update : UpdateSystem;
  f_destroy : QueueSystem;
  f_phase : phase;
  f_running : list (stage * cid);
  f_frame : list (stage * cid);
  f_calls : list (stage * cid);
  f_added : list (stage * cid) }.

Definition Frame_Init : Frame :=
  mkFrame (Queue_Init "awake") (Queue_Init "start") Update_Init (Queue_Init "destroy")
    Idle [] [] [] [].

Definition called (st : stage) (c : cid) (f : Frame) : Frame :=
  mkFrame (f_awake f) (f_start f) (f_update f) (f_destroy f) (f_phase f)
    (f_running f ++ [(st, c)]) (f_frame f ++ [(st, c)]) (f_calls f ++ [(st, c)]) (f_added f).
Definition with_phase (ph : phase) (f : Frame) : Frame :=
  mkFrame (f_awake f) (f_start f) (f_update f) (f_destroy f) ph
    (f_running f) (f_frame f) (f_calls f) (f_added f).
Definition with_awake (q : QueueSystem) (f : Frame) : Frame :=
  mkFrame q (f_start f) (f_update f) (f_destroy f) (f_phase f)
    (f_running f) (f_frame f) (f_calls f) (f_added f).
Definition with_start (q : QueueSystem) (f : Frame) : Frame :=
  mkFrame (f_awake f) q (f_update f) (f_destroy f) (f_phase f)
    (f_running f) (f_frame f) (f_calls f) (f_added f).
Definition with_update (u : UpdateSystem) (f : Frame) : Frame :=
  mkFrame (f_awake f) (f_start f) u (f_destroy f) (f_phase f)
    (f_running f) (f_frame f) (f_calls f) (f_added f).
Definition with_destroy (q : QueueSystem) (f : Frame) : Frame :=
  mkFrame (f_awake f) (f_start f) (f_update f) q (f_phase f)
    (f_running f) (f_frame f) (f_calls f) (f_added f).
Definition note_added (st : stage) (b : bool) (c : cid) (f : Frame) : Frame :=
  mkFrame (f_awake f) (f_start f) (f_update f) (f_destroy f) (f_phase f)
    (f_running f) (f_frame f) (f_calls f)
    (if b then f_added f ++ [(st, c)] else f_added f).

(** [Runtime.UpdateFrame] enters its first system. *)
Definition frame_begin (f : Frame) : option Frame :=
  match f_phase f with
  | Idle =>
      Some (mkFrame (Queue_swap (f_awake f)) (f_start f) (f_update f) (f_destroy f) InAwake
              (f_running f) [] (f_calls f) (f_added f))
  | _ => None
  end.

(** One iteration of the system's loop: hand a callback to the pool. *)
Definition dispatch (f : Frame) : option Frame :=
  match f_phase f with
  | Idle => None
  | InAwake => '(c, q) ← Queue_take (f_awake f); Some (called StAwake c (with_awake q f))
  | InStart => '(c, q) ← Queue_take (f_start f); Some (called StStart c (with_start q f))
  | InUpdate it =>
      match (Next : prog (ListIter cid) _) it with
      | (it', Ret (Ok c)) =>
          let u := f_update f in
          Some (called StUpdate c (with_phase (InUpdate it')
            (with_update (Update (u_components u) (u_push u) (u_pop u) (S (u_wg u))) f)))
      | _ => None
      end
  | InDestroy => '(c, q) ← Queue_take (f_destroy f); Some (called StDestroy c (with_destroy q f))
  end.

(** A callback returns; its postprocessing is [wg.Done]. *)
Definition callback_returns (st : stage) (c : cid) (f : Frame) : option Frame :=
  rest ← remove_first ((st, c) =.) (f_running f);
  let f := mkFrame (f_awake f) (f_start f) (f_update f) (f_destroy f) (f_phase f)
             rest (f_frame f) (f_calls f) (f_added f) in
  Some match st with
       | StAwake => with_awake (Queue_done (f_awake f)) f
       | StStart => with_start (Queue_done (f_start f)) f
       | StUpdate =>
           let u := f_update f in
           with_update (Update (u_components u) (u_push u) (u_pop u) (pred (u_wg u))) f
       | StDestroy => with_destroy (Queue_done (f_destroy f)) f
       end.

(** The loop is over and [wg.Wait] passes: enter the next system. *)
Definition next_system (f : Frame) : option Frame :=
  match dispatch f with
  | Some _ => None
  | None =>
      match f_phase f with
      | Idle => None
      | InAwake =>
          if decide (q_wg (f_awake f) = 0)
          then Some (with_phase InStart (with_start (Queue_swap (f_start f)) f)) else None
      | InStart =>
          if decide (q_wg (f_start f) = 0)
          then let u := Update_merge (f_update f) in
               Some (with_phase (InUpdate (FromList (u_components u))) (with_update u f))
          else None
      | InUpdate _ =>
          if decide (u_wg (f_update f) = 0)
          then Some (with_phase InDestroy (with_destroy (Queue_swap (f_destroy f)) f)) else None
      | InDestroy => if decide (q_wg (f_destroy f) = 0) then Some (with_phase Idle f) else None
      end
  end.

(** What the frame's own goroutine and the pool do. *)
Inductive frame_step (f f' : Frame) : Prop :=
| fs_begin : frame_begin f = Some f' → frame_step f f'
| fs_dispatch : dispatch f = Some f' → frame_step f f'
| fs_returns st c : callback_returns st c f = Some f' → frame_step f f'
| fs_next : next_system f = Some f' → frame_step f f'.

(** What others do meanwhile: [Runtime.SystemFilter] visits the systems one by
    one, [Runtime.SystemOperate] reaches one of them. *)
Section env.
Context (implements : iface → cid → bool).

Definition filter_awake (c : cid) (f : Frame) : Frame :=
  note_added StAwake (implements IAwake c) c
    (with_awake (Queue_Filter implements IAwake c (f_awake f)) f).
Definition filter_start (c : cid) (f : Frame) : Frame :=
  note_added StStart (implements IStart c) c
    (with_start (Queue_Filter implements IStart c (f_start f)) f).
Definition operate_update (op : Z) (c : cid) (f : Frame) : Frame :=
  with_update (Update_IndependentFilter implements op c (f_update f)) f.
Definition filter_update (c : cid) (f : Frame) : Frame :=
  with_update (Update_Filter implements c (f_update f)) f.
Definition operate_destroy (op : Z) (c : cid) (f : Frame) : Frame :=
  note_added StDestroy (implements IDestroy c) c
    (with_destroy (Queue_Filter implements IDestroy c (f_destroy f)) f).

(** [SystemFilter]; the destroy system's [Filter] does nothing. *)
Definition SystemFilter_frame (c : cid) (f : Frame) : Frame :=
  filter_update c (filter_start c (filter_awake c f)).

Inductive env_step (f : Frame) : Frame → Prop :=
| es_awake c : env_step f (filter_awake c f)
| es_start c : env_step f (filter_start c f)
| es_update c : env_step f (filter_update c f)
| es_update_op op c : env_step f (operate_update op c f)
| es_destroy_op op c : env_step f (operate_destroy op c f).

Definition world_step (f f' : Frame) : Prop := frame_step f f' ∨ env_step f f'.
End env.

(** ** The barrier between the systems *)
Definition wg_of (st : stage) (f : Frame) : nat :=
  match st with
  | StAwake => q_wg (f_awake f)
  | StStart => q_wg (f_start f)
  | StUpdate => u_wg (f_update f)
  | StDestroy => q_wg (f_destroy f)
  end.

Definition stage_le (x y : stage * cid) : Prop := stage_rank x.1 ≤ stage_rank y.1.

(** The number of callbacks of a stage that are under way. *)
Definition in_flight (st : stage) (l : list (stage * cid)) : nat :=
  length (filter (λ x, x.1 = st) l).

Record barrier_ok (f : Frame) : Prop := {
  bo_running : Forall (λ x, phase_stage (f_phase f) = Some x.1) (f_running f);
  bo_wg : ∀ st, wg_of st f = in_flight st (f_running f);
  bo_sorted : StronglySorted stage_le (f_frame f);
  bo_before : ∀ st, phase_stage (f_phase f) = Some st →
    Forall (λ x, stage_rank x.1 ≤ stage_rank st) (f_frame f) }.

Lemma StronglySorted_snoc {A} (R : relation A) (l : list A) (x : A) :
  StronglySorted R l → Forall (λ y, R y x) l → StronglySorted R (l ++ [x]).
Proof.
  induction 1 as [|y l _ IH Hy]; simpl; [repeat constructor|].
  intros [Hyx Hl]%Forall_cons. constructor; [by apply IH|].
  apply Forall_app. split; [done|by constructor].
Qed.

Lemma in_flight_app st l k : in_flight st (l ++ k) = in_flight st l + in_flight st k.
Proof. unfold in_flight. by rewrite filter_app, length_app. Qed.

Lemma in_flight_one st st' c : in_flight st [(st', c)] = if decide (st' = st) then 1 else 0.
Proof. unfold in_flight. rewrite filter_cons. simpl. by case_decide. Qed.

Lemma in_flight_perm st l k : l ≡ₚ k → in_flight st l = in_flight st k.
Proof. intros E. unfold in_flight. by rewrite E. Qed.

Lemma Queue_take_wg s c q : Queue_take s = Some (c, q) → q_wg q = S (q_wg s).
Proof. unfold Queue_take. repeat case_match; intros; by simplify_eq. Qed.

(** [dispatch] adds a call of the current stage; nothing else moves. *)
Lemma dispatch_called f f' :
  dispatch f = Some f' →
  ∃ st c, phase_stage (f_phase f) = Some st ∧ phase_stage (f_phase f') = Some st ∧
    f_running f' = f_running f ++ [(st, c)] ∧ f_frame f' = f_frame f ++ [(st, c)] ∧
    f_calls f' = f_calls f ++ [(st, c)] ∧ f_added f' = f_added f ∧
    (∀ st', wg_of st' f' = (if decide (st = st') then 1 else 0) + wg_of st' f).
Proof.
  unfold dispatch. destruct (f_phase f) as [| | |it|] eqn:Ep; [done|..].
  all: try (intros ([c q] & Hq & [= <-])%bind_Some; pose proof (Queue_take_wg _ _ _ Hq) as Hwg;
    eexists _, c; simpl; rewrite Ep; split_and!; try done;
    intros []; simpl; rewrite ?Hwg; repeat case_decide; simplify_eq; lia).
  destruct (Next it) as [it' [[c|e]|p|]]; [|done..]. intros [= <-].
  eexists _, c; simpl; rewrite ?Ep; split_and!; try done; intros []; simpl;
    repeat case_decide; simplify_eq; lia.
Qed.

Lemma Update_merge_wf s :
  gl_wf (u_components s) ∧ gl_wf (u_push s) →
  gl_wf (u_components (Update_merge s)) ∧ gl_wf (u_push (Update_merge s)).
Proof.
  intros [Hc Hp]. split; [by apply Update_merge_spec|]. unfold Update_merge.
  destruct (decide (0 < gl_len (u_pop s))), (decide (0 < gl_len (u_push s))); simpl;
    auto with golist.
Qed.

Lemma Update_merge_wg s : u_wg (Update_merge s) = u_wg s.
Proof. unfold Update_merge. by destruct (decide (0 < gl_len (u_pop s))). Qed.

Lemma next_system_stage f f' :
  next_system f = Some f' → barrier_ok f →
  f_running f = [] ∧ f_running f' = [] ∧ f_frame f' = f_frame f ∧
  (∀ st, wg_of st f' = wg_of st f) ∧
  (∀ st', phase_stage (f_phase f') = Some st' →
    ∃ st, phase_stage (f_phase f) = Some st ∧ stage_rank st ≤ stage_rank st').
Proof.
  intros Hn [Hrun Hwg _ _]. unfold next_system in Hn.
  assert (∀ st, phase_stage (f_phase f) = Some st → wg_of st f = 0 → f_running f = []) as Hnil.
  { intros st Hst H0. rewrite Hwg in H0. destruct (f_running f) as [|x r]; [done|].
    apply Forall_cons in Hrun as [Hx _]. unfold in_flight in H0.
    rewrite filter_cons, decide_True in H0 by congruence. done. }
  destruct (dispatch f); [done|].
  destruct (f_phase f) as [| | |it|] eqn:Ep; try done; case_decide as Hd; simplify_eq;
    assert (f_running f = []) as Hr by (eapply Hnil; [done|exact Hd]);
    (split_and!; [done|by simpl|done|intros []; simpl; rewrite ?Update_merge_wg; done| ]);
    intros st'; simpl; intros; simplify_eq; eexists; (split; [done|simpl; lia]).
Qed.

Lemma frame_step_barrier f f' : frame_step f f' → barrier_ok f → barrier_ok f'.
Proof.
  intros [Hb|Hd|st c Hr|Hn] Hok.
  - unfold frame_begin in Hb. destruct (f_phase f) eqn:Ep; simplify_eq.
    destruct Hok as [Hrun Hwg _ _]. rewrite Ep in Hrun. simpl in Hrun.
    assert (f_running f = []) as Hr0.
    { destruct (f_running f); [done|]. by apply Forall_cons in Hrun as [? _]. }
    rewrite Hr0 in *. split; simpl; rewrite ?Hr0; try constructor.
    intros st. rewrite <- Hwg. by destruct st.
  - destruct (dispatch_called _ _ Hd) as (st & c & Hp & Hp' & Hrun & Hfr & _ & _ & Hwg).
    destruct Hok as [H1 H2 H3 H4]. split.
    + rewrite Hrun, Hp'. rewrite Hp in H1. apply Forall_app. split; [done|by constructor].
    + intros st'. rewrite Hrun, in_flight_app, in_flight_one, Hwg, H2. lia.
    + rewrite Hfr. apply StronglySorted_snoc; [done|]. by apply H4.
    + intros st'. rewrite Hp', Hfr. intros [= <-]. apply Forall_app. split; [by apply H4|].
      by constructor.
  - unfold callback_returns in Hr. apply bind_Some in Hr as (rest & Hrest & [= Hf']).
    pose proof (remove_first_eq_Permutation _ _ _ Hrest) as Hperm.
    destruct Hok as [H1 H2 H3 H4].
    assert (f_running f' = rest ∧ f_phase f' = f_phase f ∧ f_frame f' = f_frame f ∧
      ∀ st', wg_of st' f' = if decide (st = st') then pred (wg_of st' f) else wg_of st' f)
      as (Hrun & Hp & Hfr & Hwg).
    { subst f'. destruct st; (split_and!; [done..|]); intros []; simpl; repeat case_decide; simplify_eq; done. }
    split; rewrite ?Hrun, ?Hp, ?Hfr; try done.
    + rewrite Hperm in H1. by apply Forall_cons in H1 as [_ ?].
    + intros st'. rewrite Hwg, H2, (in_flight_perm _ _ _ Hperm).
      change ((st, c) :: rest) with ([(st, c)] ++ rest).
      rewrite in_flight_app, in_flight_one. case_decide; simpl; lia.
  - destruct (next_system_stage _ _ Hn Hok) as (Hr & Hr' & Hfr & Hwg & Hst).
    destruct Hok as [H1 H2 H3 H4]. split; rewrite ?Hr', ?Hfr; [constructor| |done|].
    + intros st. by rewrite Hwg, H2, Hr.
    + intros st' (st & Hp & Hle)%Hst. eapply Forall_impl; [by apply H4|].
      simpl; intros; lia.
Qed.

Lemma env_step_barrier impl f f' : env_step impl f f' → barrier_ok f → barrier_ok f'.
Proof.
  intros Hs [H1 H2 H3 H4].
  assert (f_running f' = f_running f ∧ f_phase f' = f_phase f ∧ f_frame f' = f_frame f ∧
    ∀ st, wg_of st f' = wg_of st f) as (Hr & Hp & Hf & Hwg).
  { destruct Hs; (split_and!; [done..|]); intros []; simpl;
      unfold Queue_Filter, Update_Filter, Update_IndependentFilter, Update_Filter;
      repeat case_match; done. }
  split; rewrite ?Hr, ?Hp, ?Hf; try done. intros st. by rewrite Hwg.
Qed.

Lemma world_step_barrier impl f :
  rtc (world_step impl) Frame_Init f → barrier_ok f.
Proof.
  apply rtc_preserves; [intros f0 f1 H0 [Hs|Hs]; eauto using frame_step_barrier, env_step_barrier|].
  split; simpl; [apply Forall_nil_2|by intros []|apply SSorted_nil|done].
Qed.

(** ** What happens to a queued component *)
Definition of_stage (st : stage) (l : list (stage * cid)) : list cid :=
  (filter (λ x, x.1 = st) l).*2.

Lemma of_stage_snoc st st' c l :
  of_stage st (l ++ [(st', c)]) = of_stage st l ++ (if decide (st' = st) then [c] else []).
Proof.
  unfold of_stage. rewrite filter_app, filter_cons, fmap_app. simpl. by case_decide.
Qed.

(** The system's queue accounts for every component it accepted: called
    already, due in the frame under way, or due in the next one. *)
Definition queue_ok (st : stage) (q : QueueSystem) (f : Frame) : Prop :=
  gl_wf (q_components q) ∧ gl_wf (q_temp q) ∧
  (phase_stage (f_phase f) ≠ Some st → gl_values (q_temp q) = []) ∧
  of_stage st (f_added f) =
    of_stage st (f_calls f) ++ gl_values (q_temp q) ++ gl_values (q_components q).

Record queues_ok (f : Frame) : Prop := {
  qo_awake : queue_ok StAwake (f_awake f) f;
  qo_start : queue_ok StStart (f_start f) f;
  qo_destroy : queue_ok StDestroy (f_destroy f) f;
  qo_update : gl_wf (u_components (f_update f)) ∧ gl_wf (u_push (f_update f)) }.

Lemma Queue_take_spec q :
  gl_wf (q_temp q) →
  match Queue_take q with
  | None => gl_values (q_temp q) = []
  | Some (c, q') => gl_values (q_temp q) = c :: gl_values (q_temp q') ∧ gl_wf (q_temp q') ∧
      q_components q' = q_components q
  end.
Proof.
  intros Hwf. unfold Queue_take, Front. destruct (gl_elems (q_temp q)) as [|[e c] xs] eqn:E; simpl.
  - unfold gl_values. by rewrite E.
  - split_and!; [|by auto with golist|done].
    rewrite (gl_remove_front e c _ xs) by done. unfold gl_values. by rewrite E.
Qed.

(** A step that leaves a queue and its histories alone. *)
Lemma queue_ok_frame st q f f' :
  queue_ok st q f → of_stage st (f_added f') = of_stage st (f_added f) →
  of_stage st (f_calls f') = of_stage st (f_calls f) →
  (phase_stage (f_phase f) = Some st → phase_stage (f_phase f') ≠ Some st →
     gl_values (q_temp q) = []) →
  queue_ok st q f'.
Proof.
  intros (H1 & H2 & H3 & H4) Ha Hc Hp. split_and!; try done.
  - intros Hne. destruct (decide (phase_stage (f_phase f) = Some st)); auto.
  - by rewrite Ha, Hc.
Qed.

(** Entering a system swaps its two lists. *)
Lemma queue_ok_swap st q f f' :
  queue_ok st q f → phase_stage (f_phase f) ≠ Some st →
  f_added f' = f_added f → f_calls f' = f_calls f →
  phase_stage (f_phase f') = Some st →
  queue_ok st (Queue_swap q) f'.
Proof.
  intros (H1 & H2 & H3 & H4) Hne Ha Hc Hp. unfold queue_ok, Queue_swap; simpl.
  rewrite Ha, Hc, H4, (H3 Hne), app_nil_r. split_and!; done.
Qed.

(** A call takes the front of [temp]. *)
Lemma queue_ok_take st q c q' f f' :
  queue_ok st q f → Queue_take q = Some (c, q') →
  f_added f' = f_added f → f_calls f' = f_calls f ++ [(st, c)] →
  phase_stage (f_phase f') = Some st →
  queue_ok st q' f'.
Proof.
  intros (H1 & H2 & H3 & H4) Ht Ha Hc Hp. pose proof (Queue_take_spec q H2) as Hs.
  rewrite Ht in Hs. destruct Hs as (Hv & Hwf & Hcomp). unfold queue_ok.
  rewrite Ha, Hc, of_stage_snoc, decide_True, Hcomp, H4, Hv by done.
  split_and!; try done. by rewrite <- !app_assoc.
Qed.

Lemma queue_ok_filter (impl : iface → cid → bool) i st c q f f' :
  queue_ok st q f → f_calls f' = f_calls f → f_phase f' = f_phase f →
  f_added f' = (if impl i c then f_added f ++ [(st, c)] else f_added f) →
  queue_ok st (Queue_Filter impl i c q) f'.
Proof.
  intros (H1 & H2 & H3 & H4) Hc Hp Ha. unfold queue_ok, Queue_Filter. rewrite Hc, Hp, Ha.
  destruct (impl i c); simpl; [|done].
  rewrite of_stage_snoc, decide_True, H4, PushBack_values by done.
  split_and!; try done; [by auto with golist|]. by rewrite <- !app_assoc.
Qed.

Lemma queue_ok_done st q f f' :
  queue_ok st q f → f_added f' = f_added f → f_calls f' = f_calls f → f_phase f' = f_phase f →
  queue_ok st (Queue_done q) f' ∧ queue_ok st q f'.
Proof. unfold queue_ok, Queue_done; simpl. by intros ? -> -> ->. Qed.

Ltac queue_frame :=
  match goal with
  | H : queue_ok ?st ?q ?f |- queue_ok ?st ?q _ =>
      apply (queue_ok_frame st q f); [exact H|simpl; rewrite ?of_stage_snoc, ?app_nil_r ..]
  end.

Lemma dispatch_queues f f' : dispatch f = Some f' → queues_ok f → queues_ok f'.
Proof.
  intros Hd [Ha Hs Hde Hu]. pose proof Hd as Hd0. unfold dispatch in Hd.
  destruct (f_phase f) as [| | |it|] eqn:Ep; [done|..].
  3: { repeat case_match; try done. simplify_eq.
    split; try exact Hu; simpl; queue_frame; simpl; rewrite ?Ep, ?app_nil_r; done. }
  all: apply bind_Some in Hd as ([c q] & Hq & [= <-]); split; try exact Hu; simpl.
  all: first [eapply queue_ok_take; [eassumption|eassumption|done|done|simpl; by rewrite Ep]
    |queue_frame; simpl; rewrite ?Ep, ?app_nil_r; done].
Qed.

(** Leaving a system: its [temp] has been emptied. *)
Lemma next_system_queues f f' : next_system f = Some f' → queues_ok f → queues_ok f'.
Proof.
  intros Hn [Ha Hs Hde Hu]. unfold next_system, dispatch in Hn.
  assert (∀ q st, queue_ok st q f → (Queue_take q ≫= λ '(c, q'), Some (c, q')) = None →
    gl_values (q_temp q) = []) as Hempty.
  { intros q st (_ & Hwf & _) E. pose proof (Queue_take_spec q Hwf) as Hq.
    by destruct (Queue_take q) as [[c q']|]. }
  destruct (f_phase f) as [| | |it|] eqn:Ep; [done|..].
  all: repeat case_match; try done; simplify_eq.
  all: split; simpl; try exact Hu; try (apply Update_merge_wf; exact Hu).
  all: try (eapply queue_ok_swap; [eassumption|by rewrite Ep|done|done|done]).
  all: try (queue_frame; simpl; rewrite ?Ep; done).
  all: queue_frame; simpl; rewrite ?Ep; try done; intros _ _; eapply Hempty; [eassumption|];
    match goal with H : _ = None |- _ => revert H end; by destruct (Queue_take _) as [[]|].
Qed.

Lemma frame_step_queues f f' : frame_step f f' → queues_ok f → queues_ok f'.
Proof.
  intros [Hb|Hd|st c Hr|Hn]; eauto using dispatch_queues, next_system_queues;
    intros [Ha Hs Hde Hu].
  - unfold frame_begin in Hb. destruct (f_phase f) eqn:Ep; simplify_eq.
    split; simpl; try exact Hu.
    + eapply queue_ok_swap; [exact Ha|by rewrite Ep|done..].
    + queue_frame; simpl; rewrite ?Ep; done.
    + queue_frame; simpl; rewrite ?Ep; done.
  - unfold callback_returns in Hr. apply bind_Some in Hr as (rest & _ & [= <-]).
    destruct st; split; simpl; try exact Hu; by eapply queue_ok_done.
Qed.

Lemma env_step_queues impl f f' : env_step impl f f' → queues_ok f → queues_ok f'.
Proof.
  intros Hs [Ha Hst Hde Hu].
  destruct Hs; split; simpl;
    try (by eapply queue_ok_filter); try exact Hu;
    try (queue_frame; simpl; repeat case_match; rewrite ?of_stage_snoc; simpl;
         rewrite ?app_nil_r; done);
    unfold Update_IndependentFilter, Update_Filter; repeat case_match; simpl;
    destruct Hu; auto with golist.
Qed.

Lemma world_step_queues impl f : rtc (world_step impl) Frame_Init f → queues_ok f.
Proof.
  apply rtc_preserves; [intros f0 f1 H0 [Hs|Hs]; eauto using frame_step_queues, env_step_queues|].
  split; simpl; try (split_and!; [apply gl_new_wf|apply gl_new_wf|done|done]).
  split; apply gl_new_wf.
Qed.

(** C19: whatever other goroutines add or remove meanwhile, the callbacks of a
    frame are called in the order awake, start, update, destroy of their
    systems, and a system never starts while a callback of another one is
    still under way. *)
Theorem frame_stages_ordered impl f :
  rtc (world_step impl) Frame_Init f →
  StronglySorted stage_le (f_frame f) ∧
  Forall (λ x, phase_stage (f_phase f) = Some x.1) (f_running f) ∧
  (∀ f', next_system f = Some f' → f_running f = []).
Proof.
  intros Hr. pose proof (world_step_barrier impl f Hr) as Hok.
  split_and!; [apply Hok|apply Hok|]. intros f' Hn. by apply (next_system_stage _ _ Hn Hok).
Qed.

(** C22: every awake, start and destroy callback a system accepted is called
    exactly once and in the order of acceptance: the calls made so far, the rest
    of this frame's list and the next frame's list make up exactly what was
    queued; and outside its own stage a system has nothing left over. *)
Theorem queued_called_once impl f st q :
  rtc (world_step impl) Frame_Init f →
  (st, q) ∈ [(StAwake, f_awake f); (StStart, f_start f); (StDestroy, f_destroy f)] →
  of_stage st (f_added f) =
    of_stage st (f_calls f) ++ gl_values (q_temp q) ++ gl_values (q_components q) ∧
  (phase_stage (f_phase f) ≠ Some st → gl_values (q_temp q) = []).
Proof.
  intros [Ha Hs Hd _]%world_step_queues Hin.
  assert (queue_ok st q f) as (_ & _ & ? & ?); [|done].
  rewrite !elem_of_cons in Hin. destruct Hin as [?|[?|[?|?%elem_of_nil]]]; by simplify_eq.
Qed.

(** ** A frame nobody interferes with *)
Definition stage_calls (st : stage) (l : list cid) : list (stage * cid) := (st,.) <$> l.

(** What a frame begun in [f] is to call. *)
Definition frame_plan (f : Frame) : list (stage * cid) :=
  stage_calls StAwake (gl_values (q_components (f_awake f))) ++
  stage_calls StStart (gl_values (q_components (f_start f))) ++
  stage_calls StUpdate (update_plan (f_update f)) ++
  stage_calls StDestroy (gl_values (q_components (f_destroy f))).

Definition remaining (f : Frame) (l : list (stage * cid)) : Prop :=
  let de := stage_calls StDestroy (gl_values (q_components (f_destroy f))) in
  let up := stage_calls StUpdate (update_plan (f_update f)) in
  match f_phase f with
  | Idle => l = []
  | InAwake => l = stage_calls StAwake (gl_values (q_temp (f_awake f))) ++
      stage_calls StStart (gl_values (q_components (f_start f))) ++ up ++ de
  | InStart => l = stage_calls StStart (gl_values (q_temp (f_start f))) ++ up ++ de
  | InUpdate it => ∃ cs it', yields it cs ErrEndIteration it' ∧ l = stage_calls StUpdate cs ++ de
  | InDestroy => l = stage_calls StDestroy (gl_values (q_temp (f_destroy f)))
  end.

(** A step of the frame's own goroutine or of the pool, inside a frame. *)
Definition inner_step (f f' : Frame) : Prop := f_phase f ≠ Idle ∧ frame_step f f'.

Definition phases_left (ph : phase) : nat :=
  match ph with Idle => 0 | InAwake => 4 | InStart => 3 | InUpdate _ => 2 | InDestroy => 1 end.

(** The work left: calls to make and to wait for, systems to enter. *)
Definition work (l : list (stage * cid)) (f : Frame) : nat :=
  2 * length l + length (f_running f) + phases_left (f_phase f).

Definition on_plan (plan : list (stage * cid)) (f : Frame) (n : nat) : Prop :=
  queues_ok f ∧ barrier_ok f ∧
  ∃ l, remaining f l ∧ f_frame f ++ l = plan ∧ n = work l f.

Lemma dispatch_plan plan f f' n :
  on_plan plan f n → dispatch f = Some f' → ∃ n', on_plan plan f' n' ∧ n' < n.
Proof.
  intros (Hq & Hb & l & Hl & <- & ->) Hd.
  assert (∃ l' c, remaining f' l' ∧ l = c :: l' ∧ f_frame f' = f_frame f ++ [c] ∧
    f_running f' = f_running f ++ [c] ∧ phases_left (f_phase f') = phases_left (f_phase f))
    as (l' & c & Hl' & -> & Hf & Hr & Hp).
  { pose proof Hq as [(_ & Ha & _) (_ & Hs & _) (_ & Hde & _) _].
    unfold dispatch in Hd. unfold remaining in *.
    destruct (f_phase f) as [| | |it|] eqn:Ep; [done|..].
    3: { destruct Hl as (cs & it' & Hy & ->).
      destruct Hy as [it it' e E|it it1 it' c cs e E Hy]; rewrite E in Hd; simplify_eq.
      eexists _, _. split_and!; simpl; rewrite ?Ep; try done. by eexists _, _. }
    all: apply bind_Some in Hd as ([c q] & Ht & [= <-]).
    1: pose proof (Queue_take_spec _ Ha) as Hv.
    2: pose proof (Queue_take_spec _ Hs) as Hv.
    3: pose proof (Queue_take_spec _ Hde) as Hv.
    all: rewrite Ht in Hv; destruct Hv as (Hv & _ & Hc); rewrite Hv in Hl; subst l.
    all: eexists _, (_, c); split_and!; simpl; rewrite ?Ep; done. }
  exists (work l' f'). split; [|unfold work; rewrite Hr, Hp, length_app; simpl; lia].
  split_and!; [by eapply dispatch_queues|by eapply frame_step_barrier; [apply fs_dispatch|]|].
  exists l'. split_and!; [done| |done]. by rewrite Hf, <- app_assoc.
Qed.

Lemma returns_plan plan f f' st c n :
  on_plan plan f n → callback_returns st c f = Some f' → ∃ n', on_plan plan f' n' ∧ n' < n.
Proof.
  intros (Hq & Hb & l & Hl & <- & ->) Hd.
  assert (remaining f' l ∧ f_frame f' = f_frame f ∧ f_phase f' = f_phase f ∧
    length (f_running f) = S (length (f_running f'))) as (Hl' & Hf & Hp & Hr).
  { unfold callback_returns in Hd. apply bind_Some in Hd as (rest & Hrest & [= <-]).
    rewrite (remove_first_eq_Permutation _ _ _ Hrest). unfold remaining, update_plan in *.
    destruct st; simpl; (destruct (f_phase f); split_and!; done). }
  exists (work l f'). split; [|unfold work; rewrite Hr, Hp; lia].
  split_and!; [by eapply frame_step_queues; [eapply fs_returns|]
              |by eapply frame_step_barrier; [eapply fs_returns|]|].
  exists l. by rewrite Hf.
Qed.

Lemma next_plan plan f f' n :
  on_plan plan f n → next_system f = Some f' → ∃ n', on_plan plan f' n' ∧ n' < n.
Proof.
  intros (Hq & Hb & l & Hl & <- & ->) Hn.
  destruct (next_system_stage _ _ Hn Hb) as (Hr & Hr' & Hf & _ & _).
  assert (remaining f' l ∧ phases_left (f_phase f') < phases_left (f_phase f)) as (Hl' & Hp).
  { pose proof Hq as [(_ & Ha & _) (_ & Hs & _) (_ & Hde & _) (Hu & _)].
    pose proof (Queue_take_spec _ Ha) as Hva. pose proof (Queue_take_spec _ Hs) as Hvs.
    pose proof (Queue_take_spec _ Hde) as Hvd.
    unfold next_system in Hn. destruct (dispatch f) eqn:Ed; [done|]. unfold dispatch in Ed.
    unfold remaining in *. destruct (f_phase f) as [| | |it|] eqn:Ep; [done|..];
      case_decide; simplify_eq; simpl; (split; [|lia]).
    - destruct (Queue_take (f_awake f)) as [[]|]; [done|]. by rewrite Hva.
    - destruct (Queue_take (f_start f)) as [[]|]; [done|].
      rewrite Hvs. destruct (Update_merge_spec _ Hu) as (Hm & Hv & _).
      eexists _, _. split; [by apply FromList_yields|]. by rewrite Hv.
    - destruct Hl as (cs & it' & Hy & ->).
      destruct Hy as [|? ? ? ? ? ? E]; [done|]. by rewrite E in Ed.
    - destruct (Queue_take (f_destroy f)) as [[]|]; [done|]. by rewrite Hvd. }
  exists (work l f'). split; [|unfold work; rewrite Hr, Hr'; lia].
  split_and!; [by eapply next_system_queues|by eapply frame_step_barrier; [eapply fs_next|]|].
  exists l. by rewrite Hf.
Qed.

Lemma inner_progress plan f n :
  on_plan plan f n → f_phase f ≠ Idle → ∃ f', inner_step f f'.
Proof.
  intros (_ & [Hrun Hwg _ _] & _) Hne. destruct (f_running f) as [|[st c] r] eqn:Er.
  - destruct (dispatch f) as [f'|] eqn:Ed; [exists f'; split; [done|by apply fs_dispatch]|].
    assert (is_Some (next_system f)) as [f' Hn].
    { unfold next_system. rewrite Ed. pose proof (Hwg StAwake). pose proof (Hwg StStart).
      pose proof (Hwg StUpdate). pose proof (Hwg StDestroy). simpl in *.
      destruct (f_phase f); [done|..]; rewrite decide_True by done; eauto. }
    exists f'. split; [done|by apply fs_next].
  - eexists. split; [done|]. apply (fs_returns _ _ st c). unfold callback_returns.
    rewrite Er. simpl. rewrite decide_True by done. done.
Qed.

Lemma frame_runs impl f0 f1 k f2 :
  rtc (world_step impl) Frame_Init f0 → frame_begin f0 = Some f1 → nsteps inner_step k f1 f2 →
  k ≤ 2 * length (frame_plan f0) + 4 ∧
  (f_phase f2 ≠ Idle → ∃ f3, inner_step f2 f3) ∧
  (f_phase f2 = Idle → f_frame f2 = frame_plan f0).
Proof.
  intros Hr Hb Hs.
  pose proof (world_step_queues _ _ Hr) as Hq. pose proof (world_step_barrier _ _ Hr) as Hbar.
  assert (∃ n, on_plan (frame_plan f0) f1 n ∧ n = 2 * length (frame_plan f0) + 4) as (n & Hon & Hn).
  { eexists. split; [|reflexivity]. split_and!.
    - by eapply frame_step_queues; [apply fs_begin|].
    - by eapply frame_step_barrier; [apply fs_begin|].
    - pose proof (bo_running _ Hbar) as Hrun. unfold frame_begin in Hb.
      destruct (f_phase f0) eqn:Ep; simplify_eq. exists (frame_plan f0).
      assert (f_running f0 = []) as Hr0.
      { destruct (f_running f0); [done|]. by apply Forall_cons in Hrun as [? _]. }
      split_and!; [done|done|]. unfold work. cbn [f_running f_phase phases_left].
      rewrite Hr0. simpl. lia. }
  assert (∃ n', on_plan (frame_plan f0) f2 n' ∧ k + n' ≤ n) as (n' & (Hq2 & Hb2 & l & Hl & Hf & _) & Hk).
  { clear -Hs Hon. revert n Hon.
    induction Hs as [f|k f f' f'' [Hne [Hs|Hs|st c Hs|Hs]] _ IH]; intros n Hon;
      [exists n; split; [done|lia]|..].
    - unfold frame_begin in Hs. by destruct (f_phase f).
    - destruct (dispatch_plan _ _ _ _ Hon Hs) as (n1 & Hon1 & ?).
      destruct (IH n1 Hon1) as (n' & ? & ?). exists n'. split; [done|lia].
    - destruct (returns_plan _ _ _ _ _ _ Hon Hs) as (n1 & Hon1 & ?).
      destruct (IH n1 Hon1) as (n' & ? & ?). exists n'. split; [done|lia].
    - destruct (next_plan _ _ _ _ Hon Hs) as (n1 & Hon1 & ?).
      destruct (IH n1 Hon1) as (n' & ? & ?). exists n'. split; [done|lia]. }
  split_and!; [lia| |].
  - intros Hne. eapply inner_progress; [|done]. by split_and!; [..|eexists; split_and!].
  - intros Hi. unfold remaining in Hl. rewrite Hi in Hl. subst l. by rewrite app_nil_r in Hf.
Qed.

(** C28: a frame that nobody interferes with terminates, having called exactly
    the awake, start, update and destroy callbacks that were due when it began,
    in that order, whatever order the workers finish them in. *)
Theorem frame_runs_plan impl f0 f1 k f2 :
  rtc (world_step impl) Frame_Init f0 → frame_begin f0 = Some f1 → nsteps inner_step k f1 f2 →
  k ≤ 2 * length (frame_plan f0) + 4 ∧
  (f_phase f2 ≠ Idle → ∃ f3, inner_step f2 f3) ∧
  (f_phase f2 = Idle → f_frame f2 = frame_plan f0).
Proof. apply frame_runs. Qed.

(** What a frame is to do after components have been shown to its systems. *)
Definition shown_frame (impl : iface → cid → bool) (cs : list cid) (f : Frame) : Frame :=
  fold_left (λ f c, SystemFilter_frame impl c f) cs f.
Lemma shown_frame_app impl cs ds f : shown_frame impl (cs ++ ds) f = shown_frame impl ds (shown_frame impl cs f).
Proof. apply fold_left_app. Qed.
Lemma Queue_Filter_values impl i c q :
  gl_values (q_components (Queue_Filter impl i c q)) = gl_values (q_components q) ++ filter (λ c, impl i c) [c].
Proof.
  unfold Queue_Filter. rewrite filter_cons, filter_nil. destruct (impl i c); simpl; [|by rewrite app_nil_r].
  unfold gl_values. simpl. by rewrite fmap_app.
Qed.
Lemma shown_frame_plan impl cs :
  frame_plan (shown_frame impl cs Frame_Init) =
    stage_calls StAwake (filter (λ c, impl IAwake c) cs) ++ stage_calls StStart (filter (λ c, impl IStart c) cs) ++
    stage_calls StUpdate (filter (λ c, impl IUpdate c) cs).
Proof.
  assert (∀ f, u_pop (f_update f) = gl_new → let f' := shown_frame impl cs f in
    gl_values (q_components (f_awake f')) = gl_values (q_components (f_awake f)) ++ filter (λ c, impl IAwake c) cs ∧
    gl_values (q_components (f_start f')) = gl_values (q_components (f_start f)) ++ filter (λ c, impl IStart c) cs ∧
    update_plan (f_update f') = gl_values (u_components (f_update f)) ++ gl_values (u_push (f_update f)) ++ filter (λ c, impl IUpdate c) cs ∧
    f_destroy f' = f_destroy f) as H.
  { induction cs as [|c cs IH]; intros f Hp.
    - simpl. rewrite !app_nil_r. unfold update_plan. by rewrite Hp.
    - destruct (IH (SystemFilter_frame impl c f)) as (H1 & H2 & H3 & H4).
      { simpl. unfold Update_Filter. by destruct (impl IUpdate c). }
      cbn zeta. unfold shown_frame in *. cbn [fold_left]. rewrite H1, H2, H3, H4. simpl.
      rewrite !Queue_Filter_values, <- !app_assoc, <- !filter_app. split_and!; try done.
      unfold Update_Filter. rewrite filter_cons. destruct (impl IUpdate c); simpl; [|done].
      unfold gl_values at 2. simpl. by rewrite fmap_app, <- app_assoc. }
  destruct (H Frame_Init eq_refl) as (H1 & H2 & H3 & H4). unfold frame_plan. rewrite H1, H2, H3, H4. simpl.
  by rewrite app_nil_r.
Qed.


(** ** Additions and removals between two frames *)
Definition occ (c : cid) (l : list cid) : nat := length (filter (c =.) l).

Lemma occ_app c l k : occ c (l ++ k) = occ c l + occ c k.
Proof. unfold occ. by rewrite filter_app, length_app. Qed.
Lemma occ_cons c x l : occ c (x :: l) = (if decide (c = x) then 1 else 0) + occ c l.
Proof. unfold occ. rewrite filter_cons. by case_decide. Qed.
Lemma occ_perm c l k : l ≡ₚ k → occ c l = occ c k.
Proof. intros E. unfold occ. by rewrite E. Qed.
Lemma occ_0 c l : occ c l = 0 ↔ c ∉ l.
Proof.
  induction l as [|x l IH]; [split; [intros _; apply not_elem_of_nil|done]|].
  rewrite occ_cons, not_elem_of_cons, <- IH. case_decide; naive_solver lia.
Qed.

Lemma occ_without_first c v l :
  occ c (without_first v l) = occ c l - (if decide (c = v) then 1 else 0).
Proof.
  unfold without_first. destruct (remove_first (v =.) l) as [k|] eqn:E; simpl.
  - rewrite (occ_perm _ _ _ (remove_first_eq_Permutation _ _ _ E)), occ_cons.
    case_decide; lia.
  - apply remove_first_None in E. case_decide as Hd; [|lia]. subst v.
    assert (occ c l = 0) as ->; [|done]. apply occ_0. intros Hc.
    rewrite Forall_forall in E. by apply (E c Hc).
Qed.

Lemma without_first_sublist v l : without_first v l `sublist_of` l.
Proof.
  unfold without_first. destruct (remove_first (v =.) l) as [k|] eqn:E; simpl; [|done].
  apply remove_first_Some in E as (l1 & x & l2 & -> & -> & _).
  apply sublist_app; [done|by apply sublist_cons].
Qed.

(** The components of the next update are those of the last one followed by
    the ones added since, in order, less one occurrence per removal; so a
    component added and removed between two frames is not updated. *)
Theorem update_plan_counts s c :
  update_plan s `sublist_of` gl_values (u_components s) ++ gl_values (u_push s) ∧
  occ c (update_plan s) =
    occ c (gl_values (u_components s)) + occ c (gl_values (u_push s)) - occ c (gl_values (u_pop s)).
Proof.
  unfold update_plan. rewrite <- occ_app.
  generalize (gl_values (u_components s) ++ gl_values (u_push s)) as l.
  induction (gl_values (u_pop s)) as [|v vs IH]; intros l; simpl.
  - split; [done|]. change (occ c []) with 0. lia.
  - destruct (IH (without_first v l)) as [Hsub Hocc]. split.
    + etrans; [exact Hsub|apply without_first_sublist].
    + rewrite Hocc, occ_without_first, occ_cons. lia.
Qed.

(** ** An ordering the systems do not give

    Component 2 is added (by [Runtime.SystemFilter]) while the awake callback of
    component 1 runs. *)
Definition all_ifaces : iface → cid → bool := λ _ _, true.

Abbreviation run_frame := (runs (λ (g : Frame → option Frame), g)).

Definition overtaking_run : list (Frame → option Frame) :=
  [frame_begin; dispatch; λ f, Some (SystemFilter_frame all_ifaces 2 f);
   callback_returns StAwake 1; next_system; dispatch; callback_returns StStart 1; dispatch].
Definition one_component : Frame := SystemFilter_frame all_ifaces 1 Frame_Init.

Lemma run_frame_reachable impl fs f f' :
  Forall (λ g, ∀ x y, g x = Some y → rtc (world_step impl) x y) fs →
  run_frame fs f = Some f' → rtc (world_step impl) f f'.
Proof.
  intros Hfs. revert f. induction Hfs as [|g fs Hg _ IH]; intros f; simpl.
  - intros [= ->]. done.
  - intros (f1 & H1 & H2)%bind_Some. etrans; [by apply Hg|by apply IH].
Qed.

Lemma SystemFilter_frame_reachable impl c f :
  rtc (world_step impl) f (SystemFilter_frame impl c f).
Proof.
  eapply rtc_l; [right; apply (es_awake _ _ c)|].
  eapply rtc_l; [right; apply (es_start _ _ c)|].
  eapply rtc_l; [right; apply (es_update _ _ c)|]. done.
Qed.

Lemma shown_frame_reachable impl cs f : rtc (world_step impl) f (shown_frame impl cs f).
Proof. revert f. induction cs as [|c cs IH]; intros f; [done|]. etrans; [apply SystemFilter_frame_reachable|apply IH]. Qed.
Lemma shown_frame_idle impl cs f : f_phase (shown_frame impl cs f) = f_phase f.
Proof. revert f. induction cs as [|c cs IH]; intros f; [done|]. unfold shown_frame in *. simpl. by rewrite IH. Qed.

Lemma overtaking_run_result :
  (λ f, (f_calls f, gl_values (q_components (f_awake f)))) <$> run_frame overtaking_run one_component =
    Some ([(StAwake, 1); (StStart, 1); (StStart, 2)], [2])%positive.
Proof. by vm_compute. Qed.

Lemma overtaking_run_steps :
  Forall (λ g, ∀ x y, g x = Some y → rtc (world_step all_ifaces) x y) overtaking_run.
Proof.
  repeat apply Forall_cons_2; try apply Forall_nil_2; intros x y Hxy;
    first [solve [apply rtc_once; left; eauto using frame_step]
          |apply (inj Some) in Hxy as <-; apply SystemFilter_frame_reachable].
Qed.

(** A component added while a frame's awake system is running is started in
    that same frame although it is only awoken in the next one: its [Start] runs
    before its [Awake]. *)
Theorem start_before_awake :
  ∃ f, rtc (world_step all_ifaces) Frame_Init f ∧
    f_calls f = [(StAwake, 1); (StStart, 1); (StStart, 2)]%positive ∧
    gl_values (q_components (f_awake f)) = [2]%positive.
Proof.
  pose proof overtaking_run_result as Hr.
  destruct (run_frame overtaking_run one_component) as [f|] eqn:E; [|done].
  exists f. split.
  - etrans; [apply (SystemFilter_frame_reachable _ 1)|].
    exact (run_frame_reachable _ _ _ _ overtaking_run_steps E).
  - apply (inj Some), pair_eq in Hr as [? ?]. by split.
Qed.

(** ** Witnesses *)
Lemma one_component_reachable : rtc (world_step all_ifaces) Frame_Init one_component.
Proof. apply SystemFilter_frame_reachable. Qed.

Lemma frame_stages_ordered_witness :
  rtc (world_step all_ifaces) Frame_Init one_component ∧
  StronglySorted stage_le (f_frame one_component).
Proof.
  split; [exact one_component_reachable|].
  apply (frame_stages_ordered all_ifaces one_component one_component_reachable).
Defined.

Lemma queued_called_once_witness :
  rtc (world_step all_ifaces) Frame_Init one_component ∧
  of_stage StAwake (f_added one_component) = [1%positive] ∧
  of_stage StAwake (f_added one_component) =
    of_stage StAwake (f_calls one_component) ++
    gl_values (q_temp (f_awake one_component)) ++ gl_values (q_components (f_awake one_component)).
Proof.
  split; [exact one_component_reachable|]. split; [reflexivity|].
  apply (queued_called_once all_ifaces one_component StAwake (f_awake one_component)
           one_component_reachable). left.
Defined.

Lemma frame_runs_plan_witness :
  frame_plan one_component = [(StAwake, 1); (StStart, 1); (StUpdate, 1)]%positive ∧
  ∃ f1, frame_begin one_component = Some f1 ∧ nsteps inner_step 0 f1 f1 ∧
    (∃ f3, inner_step f1 f3).
Proof.
  split; [reflexivity|]. eexists. split; [reflexivity|]. split; [constructor|].
  eapply (frame_runs_plan all_ifaces one_component _ 0 _ one_component_reachable);
    [reflexivity|constructor|done].
Defined.
