(* ===== verification/Tasks.v ===== *)
(** * Tasks: the goroutines of a runtime (hECS/runtime.go, threadpool/locker.go)

    ScheduleTask's goroutines over the lock [updateLock] and the loop of
    UpdateFrameByInterval, as interleaved steps; and Locker, which does the same
    as ScheduleTask but gives the lock back when its action panics. *)
From S2P Require Import Prelude.

(** ** ScheduleTask

    A goroutine waits for the lock, runs its task, and has ended: by itself, or by
    a panic that it recovered from. The unlock is deferred after the task, so that
    a panic of the task comes before it. *)
Inductive task_pc := TWaiting | TRunning | TEnded | TRecovered.
#[global] Instance task_pc_eq_dec : EqDecision task_pc.
Proof. solve_decision. Defined.
Record tasks := mkTasks { updateLock : bool; pcs : gmap positive task_pc }.

Inductive task_event :=
| Schedule (id : positive)
| Acquire (id : positive)
| Return (id : positive)
| PanicIn (id : positive).

Definition ScheduleTask (e : task_event) (s : tasks) : option tasks :=
  match e with
  | Schedule id =>
      if pcs s !! id is Some _ then None else Some (mkTasks (updateLock s) (<[id := TWaiting]> (pcs s)))
  | Acquire id =>
      if decide (pcs s !! id = Some TWaiting ∧ updateLock s = false)
      then Some (mkTasks true (<[id := TRunning]> (pcs s))) else None
  | Return id =>
      if decide (pcs s !! id = Some TRunning)
      then Some (mkTasks false (<[id := TEnded]> (pcs s))) else None
  | PanicIn id =>
      if decide (pcs s !! id = Some TRunning)
      then Some (mkTasks (updateLock s) (<[id := TRecovered]> (pcs s))) else None
  end.
Definition task_step (s s' : tasks) : Prop := ∃ e, ScheduleTask e s = Some s'.
Definition no_tasks : tasks := mkTasks false ∅.

(** The lock is held for the one that runs, or for ever for one that panicked. *)
Record tasks_ok (s : tasks) : Prop := {
  to_one : ∀ i j, pcs s !! i ∈ [Some TRunning; Some TRecovered] → pcs s !! j ∈ [Some TRunning; Some TRecovered] → i = j;
  to_held : updateLock s = true ↔ ∃ i, pcs s !! i ∈ [Some TRunning; Some TRecovered];
}.

Lemma no_tasks_ok : tasks_ok no_tasks.
Proof.
  split; simpl.
  - intros i j. rewrite lookup_empty. set_solver.
  - split; [done|]. intros [i Hi]. rewrite lookup_empty in Hi. set_solver.
Qed.

Lemma task_step_ok s s' : tasks_ok s → task_step s s' → tasks_ok s'.
Proof.
  intros [H1 H2] [e E].
  destruct e as [id|id|id|id]; simpl in E.
  - destruct (pcs s !! id) eqn:Ei; simplify_eq. split; simpl.
    + intros i j. rewrite !lookup_insert. repeat case_decide; subst; [set_solver..|apply H1].
    + rewrite H2. split; intros [i Hi]; exists i; rewrite lookup_insert in *; case_decide; subst; set_solver.
  - case_decide as Hd; simplify_eq. destruct Hd as [Ei El]. split; simpl.
    + intros i j. rewrite !lookup_insert. repeat case_decide; subst; try done; intros Hi Hj.
      * assert (updateLock s = true) by (apply H2; by exists j). congruence.
      * assert (updateLock s = true) by (apply H2; by exists i). congruence.
      * by apply H1.
    + split; [|done]. intros _. exists id. rewrite lookup_insert_eq. set_solver.
  - case_decide as Ei; simplify_eq. split; simpl.
    + intros i j. rewrite !lookup_insert. repeat case_decide; subst; [set_solver..|apply H1].
    + split; [done|]. intros [i Hi]. rewrite lookup_insert in Hi. case_decide as Hc; [set_solver|].
      destruct Hc. apply H1; [rewrite Ei; set_solver|done].
  - case_decide as Ei; simplify_eq. split; simpl.
    + intros i j. rewrite !lookup_insert. repeat case_decide; subst; try done; intros Hi Hj.
      * apply H1; [rewrite Ei; set_solver|done].
      * apply H1; [done|rewrite Ei; set_solver].
      * by apply H1.
    + rewrite H2. split; intros [i Hi]; exists i; rewrite lookup_insert in *; case_decide; subst; set_solver.
Qed.
Lemma tasks_reachable_ok s : rtc task_step no_tasks s → tasks_ok s.
Proof.
  exact (rtc_preserves _ _ _ _ task_step_ok no_tasks_ok).
Qed.

(** The tasks that have not ended after one panicked. *)
Lemma recovered_step s s' i : tasks_ok s → pcs s !! i = Some TRecovered → task_step s s' →
  pcs s' !! i = Some TRecovered ∧ ∀ j, pcs s !! j = Some TWaiting → pcs s' !! j = Some TWaiting.
Proof.
  intros [H1 H2] Hi [e E].
  assert (updateLock s = true) as Hl by (apply H2; exists i; rewrite Hi; set_solver).
  assert (∀ j, pcs s !! j = Some TRunning → False) as Hno.
  { intros j Hj. assert (i = j); [|congruence]. apply H1; [rewrite Hi|rewrite Hj]; set_solver. }
  destruct e as [id|id|id|id]; simpl in E.
  - destruct (pcs s !! id) eqn:Ei; simplify_eq. simpl.
    assert (i ≠ id) by congruence. split; [by rewrite lookup_insert_ne|].
    intros j Hj. rewrite lookup_insert_ne; [done|congruence].
  - case_decide; simplify_eq. destruct_and!. congruence.
  - case_decide as Hc; simplify_eq. by destruct (Hno _ Hc).
  - case_decide as Hc; simplify_eq. by destruct (Hno _ Hc).
Qed.

(** Scheduled tasks run one at a time. But when one panics, which its goroutine
    recovers from, the lock stays held: no task that is waiting, or is scheduled
    later, ever runs. *)
Theorem tasks_serial s : rtc task_step no_tasks s →
  (∀ i j, pcs s !! i = Some TRunning → pcs s !! j = Some TRunning → i = j) ∧
  (∀ i, pcs s !! i = Some TRecovered → ∀ s', rtc task_step s s' →
     (∀ j, pcs s' !! j ≠ Some TRunning) ∧
     (∀ j, pcs s !! j = Some TWaiting → pcs s' !! j = Some TWaiting)).
Proof.
  intros Hok%tasks_reachable_ok. split.
  - intros i j Hi Hj. apply (to_one s Hok); [rewrite Hi|rewrite Hj]; set_solver.
  - intros i Hi s' Hr. revert Hok Hi. induction Hr as [s|s1 s2 s3 Hs Hr IH]; intros Hok Hi.
    + split; [|done]. intros j Hj. assert (i = j); [|congruence].
      apply (to_one s Hok); [rewrite Hi|rewrite Hj]; set_solver.
    + destruct (recovered_step s1 s2 i Hok Hi Hs) as [Hi2 Hw].
      destruct (IH (task_step_ok _ _ Hok Hs) Hi2) as [Hn Hw2]. auto.
Qed.

(** A task that panics with another one waiting. *)
Definition one_panicked : tasks := mkTasks true {[1%positive := TRecovered; 2%positive := TWaiting]}.
Lemma one_panicked_reached : rtc task_step no_tasks one_panicked.
Proof. apply (runs_steps ScheduleTask [Schedule 2; Schedule 1; Acquire 1; PanicIn 1]). vm_compute. reflexivity. Qed.
Lemma tasks_serial_witness :
  (∀ i j, pcs one_panicked !! i = Some TRunning → pcs one_panicked !! j = Some TRunning → i = j) ∧
  (∀ s', rtc task_step one_panicked s' →
     (∀ j, pcs s' !! j ≠ Some TRunning) ∧
     (∀ j, pcs one_panicked !! j = Some TWaiting → pcs s' !! j = Some TWaiting)).
Proof.
  destruct (tasks_serial one_panicked one_panicked_reached) as [H1 H2].
  split; [exact H1|]. exact (H2 1%positive eq_refl).
Defined.

(** ** Locker: the lock is given back in the function that recovers. *)
Section locker.
Context {St V : Type}.
Record Locker := mkLocker { lk_action : V → prog St unit }.
(** The state is the program's and whether the lock is free; taking it when it is
    not waits for whoever has it. *)
Definition InvokeWith (this : Locker) (data : V) : prog (bool * St) unit := λ '(held, s),
  if (held : bool) then ((held, s), Stuck)
  else match lk_action this data s with
       | (s', Stuck) => ((true, s'), Stuck)
       | (s', _) => ((false, s'), Ret tt)
       end.
Definition Invoke (nil : V) (this : Locker) : prog (bool * St) unit := InvokeWith this nil.

(** Unlike ScheduleTask. *)
Lemma InvokeWith_gives_back this data s : (lk_action this data s).2 ≠ Stuck →
  ∃ s', InvokeWith this data (false, s) = ((false, s'), Ret tt).
Proof. intros H. unfold InvokeWith. destruct (lk_action this data s) as [s' [[]|p|]]; simpl in *; by eauto. Qed.
End locker.

(** ** UpdateFrameByInterval

    The goroutine waits for a shutdown or a tick, and runs a frame before it waits
    again; [ticking] is its variable. The ticker keeps one tick that nobody took. *)
Inductive ticker_pc := KSelect | KFrame | KReturned.
Record ticker := mkTicker { k_pc : ticker_pc; ticking : bool; pending : bool; frames : nat; skipped : nat }.
Inductive tick_event := Tick | TakeTick | FrameEnds | Shutdown.
Definition UpdateFrameByInterval (e : tick_event) (k : ticker) : option ticker :=
  match e, k_pc k with
  | Tick, _ => Some (mkTicker (k_pc k) (ticking k) true (frames k) (skipped k))
  | TakeTick, KSelect =>
      if pending k then
        if ticking k then Some (mkTicker KSelect true false (frames k) (S (skipped k)))
        else Some (mkTicker KFrame true false (S (frames k)) (skipped k))
      else None
  | FrameEnds, KFrame => Some (mkTicker KSelect false (pending k) (frames k) (skipped k))
  | Shutdown, KSelect => Some (mkTicker KReturned (ticking k) (pending k) (frames k) (skipped k))
  | _, _ => None
  end.
Definition ticker_step (k k' : ticker) : Prop := ∃ e, UpdateFrameByInterval e k = Some k'.
Definition ticker_started : ticker := mkTicker KSelect false false 0 0.

(** The branch that is to skip a frame while one is running is never taken: there
    is no other goroutine, and a tick that comes during a frame is run after it. *)
Theorem no_frame_skipped k : rtc ticker_step ticker_started k →
  skipped k = 0 ∧ (ticking k = true ↔ k_pc k = KFrame).
Proof.
  apply (rtc_preserves ticker_step (λ k, skipped k = 0 ∧ (ticking k = true ↔ k_pc k = KFrame))); [clear k|by split].
  intros k1 k2 [H1 H2] [e E]. destruct k1 as [pc t p f s]; simpl in *.
  destruct e, pc; simpl in E; repeat case_match; simplify_eq/=; split; (done || tauto || naive_solver).
Qed.
