(* ===== verification/EcsObject.v ===== *)
(** * hECS: objects, components and the runtime's tree

    The object tree of object.go with its component base (component.go), the two
    iterators over it (iter_object_array.go, iter_filtered_component_array.go) and
    the part of [Runtime] it calls (runtime.go).  Pointers are identifiers into a
    shared store ([World]); one goroutine runs the operations, and the mutex of an
    object is part of its state, so that locking it twice is visible.  What a
    component's own methods answer ([IUnique], [IRequire], [IInit], the interfaces
    the systems look for) are parameters: they are user code. *)
From S2P Require Import Prelude GoList Iter EcsSystems.

Abbreviation oid := positive.
Abbreviation rid := positive.

(** ** Types, errors and the store *)

(** [reflect.Type] as far as the code looks into it. *)
Inductive rtype :=
| RNamed (pkg name : string)
| RInterface (pkg name : string)
| RPtr (elem : rtype).

#[global] Instance rtype_eq_dec : EqDecision rtype.
Proof. solve_decision. Defined.

Definition is_interface (t : rtype) : bool :=
  match t with RInterface _ _ => true | _ => false end.

(** errors.go, with the errors of the iterators, those made with [errors.New]
    and the one [WithLock] makes of a recovered panic. *)
Inductive ecs_error :=
| ErrNullValue | ErrUnknownComponent | ErrBadValue | ErrNoMatch | ErrBadObject
| ErrNotSupported | ErrUniqueComponent | ErrMissingComponent | ErrMissingGroup
| ErrNoThisChild
| IterErr (e : iter_error)
| NewError (msg : string)
| Recovered (p : panic).

#[global] Instance ecs_error_eq_dec : EqDecision ecs_error.
Proof. solve_decision. Defined.

Definition UNIQUE_TYPE_NONE : Z := 0.
Definition UNIQUE_TYPE_LOCAL : Z := 1.
Definition UNIQUE_TYPE_GLOBAL : Z := 2.

Inductive rwmutex := Free | Writing | Reading (n : positive).

Record Object := mkObject {
  obj_id : string;
  obj_name : string;
  obj_runtime : option rid;
  obj_components : list cid;
  obj_children : list oid;
  obj_parent : option oid;
  obj_locker : rwmutex }.

Record ComponentBase := mkComponentBase {
  cb_typ : option rtype;
  cb_runtime : option rid;
  cb_parent : option oid }.

(** A custom system is user code: what the runtime does to it is the calls it
    receives. *)
Record CustomSystem := mkCustom {
  cs_name : string;
  cs_filtered : list cid;
  cs_operated : list (Z * cid) }.

Record Runtime := mkRuntime {
  rt_root : oid;
  innerSystems : Frame;
  customSystems : list CustomSystem }.

(** [w_log] is what went to [hLog.Error] ([None] for a nil error), [w_inits] the
    components whose [Initialize] was called. *)
Record World := mkWorld {
  w_objs : gmap oid Object;
  w_comps : gmap cid ComponentBase;
  w_rts : gmap rid Runtime;
  w_log : list (option ecs_error);
  w_inits : list cid }.

Abbreviation W := (prog World).

Definition set_obj (o : oid) (x : Object) (w : World) : World :=
  mkWorld (<[o:=x]> (w_objs w)) (w_comps w) (w_rts w) (w_log w) (w_inits w).
Definition set_comp (c : cid) (b : ComponentBase) (w : World) : World :=
  mkWorld (w_objs w) (<[c:=b]> (w_comps w)) (w_rts w) (w_log w) (w_inits w).
Definition set_rt (r : rid) (x : Runtime) (w : World) : World :=
  mkWorld (w_objs w) (w_comps w) (<[r:=x]> (w_rts w)) (w_log w) (w_inits w).

(** Following a pointer. *)
Definition obj (o : oid) : W Object := λ w,
  match w_objs w !! o with Some x => (w, Ret x) | None => (w, Panic NilDereference) end.
Definition comp (c : cid) : W ComponentBase := λ w,
  match w_comps w !! c with Some x => (w, Ret x) | None => (w, Panic NilDereference) end.
Definition rt (r : rid) : W Runtime := λ w,
  match w_rts w !! r with Some x => (w, Ret x) | None => (w, Panic NilDereference) end.
Definition upd (o : oid) (f : Object → Object) : W unit :=
  x ← obj o; modify (set_obj o (f x)).
Definition hLog_Error (e : option ecs_error) : W unit :=
  modify (λ w, mkWorld (w_objs w) (w_comps w) (w_rts w) (w_log w ++ [e]) (w_inits w)).

Definition with_name n x :=
  mkObject (obj_id x) n (obj_runtime x) (obj_components x) (obj_children x) (obj_parent x) (obj_locker x).
Definition with_runtime r x :=
  mkObject (obj_id x) (obj_name x) r (obj_components x) (obj_children x) (obj_parent x) (obj_locker x).
Definition with_components cs x :=
  mkObject (obj_id x) (obj_name x) (obj_runtime x) cs (obj_children x) (obj_parent x) (obj_locker x).
Definition with_children cs x :=
  mkObject (obj_id x) (obj_name x) (obj_runtime x) (obj_components x) cs (obj_parent x) (obj_locker x).
Definition with_parent p x :=
  mkObject (obj_id x) (obj_name x) (obj_runtime x) (obj_components x) (obj_children x) p (obj_locker x).
Definition with_locker l x :=
  mkObject (obj_id x) (obj_name x) (obj_runtime x) (obj_components x) (obj_children x) (obj_parent x) l.

(** ** Locking *)
Definition Lock (o : oid) : W unit :=
  x ← obj o;
  match obj_locker x with Free => upd o (with_locker Writing) | _ => stuck end.
Definition Unlock (o : oid) : W unit :=
  x ← obj o;
  match obj_locker x with
  | Writing => upd o (with_locker Free)
  | _ => panicking UnlockUnlocked
  end.
Definition RLock (o : oid) : W unit :=
  x ← obj o;
  match obj_locker x with
  | Free => upd o (with_locker (Reading 1))
  | Reading n => upd o (with_locker (Reading (Pos.succ n)))
  | Writing => stuck
  end.
Definition RUnlock (o : oid) : W unit :=
  x ← obj o;
  match obj_locker x with
  | Reading n =>
      upd o (with_locker (if decide (n = 1%positive) then Free else Reading (Pos.pred n)))
  | _ => panicking UnlockUnlocked
  end.

Definition WithLock (o : oid) (action : W (option ecs_error)) : W (option ecs_error) :=
  _ ← Lock o;
  err ← recovering action (λ p, mret (Some (Recovered p)));
  _ ← Unlock o;
  mret err.

(** [RLock(); defer RUnlock()] around a body. *)
Definition reading {A} (o : oid) (m : W A) : W A :=
  _ ← RLock o;
  a ← recovering m (λ p, _ ← RUnlock o; panicking p);
  _ ← RUnlock o;
  mret a.
Definition Name (o : oid) : W string := reading o (x ← obj o; mret (obj_name x)).
Definition ID (o : oid) : W string := reading o (x ← obj o; mret (obj_id x)).

(** ** Walking towards the root

    The loops follow parent pointers.  Their fuel is the number of objects: a
    chain of parents without repetition is not longer, and a chain with one is a
    loop the code never leaves. *)
Definition objects_fuel : W nat := w ← get_state; mret (S (size (w_objs w))).

Definition Parent (o : oid) : W (option oid) := x ← obj o; mret (obj_parent x).

Fixpoint HasParent_loop (fuel : nat) (root : oid) (object : oid) : W bool :=
  match fuel with
  | O => stuck
  | S fuel =>
      p ← Parent root;
      if decide (p = Some object) then mret true
      else match p with None => mret false | Some root => HasParent_loop fuel root object end
  end.
Definition HasParent (o object : oid) : W bool :=
  fuel ← objects_fuel; HasParent_loop fuel o object.

Fixpoint Root_loop (fuel : nat) (i : oid) : W oid :=
  match fuel with
  | O => stuck
  | S fuel =>
      j ← Parent i;
      match j with None => mret i | Some j => Root_loop fuel j end
  end.
Definition Root (o : oid) : W oid := fuel ← objects_fuel; Root_loop fuel o.

Fixpoint runtime_loop (fuel : nat) (o : oid) (marker : option oid) : W (option rid) :=
  match fuel with
  | O => stuck
  | S fuel =>
      match marker with
      | None => mret None
      | Some m =>
          x ← obj m;
          match obj_runtime x with
          | Some r => _ ← upd o (with_runtime (Some r)); mret (Some r)
          | None => runtime_loop fuel o (obj_parent x)
          end
      end
  end.
Definition _runtime (o : oid) : W (option rid) :=
  x ← obj o;
  match obj_runtime x with
  | Some r => mret (Some r)
  | None => fuel ← objects_fuel; runtime_loop (S fuel) o (obj_parent x)
  end.
Definition Object_Runtime (o : oid) : W (option rid) := reading o (_runtime o).

(** ** Objects by name *)
Definition find_child (name : string) (w : World) (cs : list oid) : option oid :=
  list_find (λ c, obj_name <$> (w_objs w !! c) = Some name) cs ≫= λ ic, Some ic.2.

Definition GetObject (o : oid) (name : string) : W (result ecs_error oid) :=
  x ← obj o; w ← get_state;
  mret match find_child name w (obj_children x) with
       | Some c => Ok c
       | None => Err ErrNoMatch
       end.
Definition HasObject (o : oid) (name : string) : W bool :=
  x ← obj o; w ← get_state;
  mret (bool_decide (is_Some (find_child name w (obj_children x)))).

(** The loop of [FindObject]: one [GetObject] per name of the path. *)
Fixpoint FindObject_loop (cursor : oid) (query : string) (rest : list string)
    : W (result ecs_error oid) :=
  r ← GetObject cursor query;
  match r with
  | Err e => mret (Err e)
  | Ok next =>
      match rest with
      | [] => mret (Ok next)
      | q :: rest => FindObject_loop next q rest
      end
  end.
Definition FindObject (o : oid) (query : list string) : W (result ecs_error oid) :=
  match query with
  | [] => mret (Err ErrBadValue)
  | q :: rest => FindObject_loop o q rest
  end.

Definition Rename (o : oid) (name : string) : W unit :=
  err ← WithLock o (_ ← upd o (with_name name); mret None);
  hLog_Error err.

(** ** iter_object_array.go

    The list is only used as a queue: its front is removed, children go to its
    back. *)
Record ObjectIter := mkObjectIter {
  oi_values : list oid;
  oi_decend : bool;
  oi_err : option ecs_error }.

Definition fromObject (root : option oid) (decend : bool) : W ObjectIter :=
  match root with
  | None => mret (mkObjectIter [] decend (Some ErrNullValue))
  | Some o =>
      x ← obj o;
      mret match obj_children x with
           | [] => mkObjectIter [] decend (Some (IterErr ErrEndIteration))
           | cs => mkObjectIter cs decend None
           end
  end.

Definition nextObject (it : ObjectIter) : W (ObjectIter * option oid) :=
  match oi_values it with
  | [] => mret (mkObjectIter [] (oi_decend it) (Some (IterErr ErrEndIteration)), None)
  | o :: rest =>
      if oi_decend it then
        x ← obj o; mret (mkObjectIter (rest ++ obj_children x) true (oi_err it), Some o)
      else mret (mkObjectIter rest false (oi_err it), Some o)
  end.

Definition ObjectIter_Next (it : ObjectIter) : W (ObjectIter * result ecs_error oid) :=
  match oi_err it with
  | Some e => mret (it, Err e)
  | None =>
      '(it, o) ← nextObject it;
      match o with
      | Some o => mret (it, Ok o)
      | None => mret (it, Err (default (IterErr ErrEndIteration) (oi_err it)))
      end
  end.

Definition Objects (o : oid) : W ObjectIter := fromObject (Some o) false.
Definition ObjectsInChildren (o : oid) : W ObjectIter := fromObject (Some o) true.

(** [for val, err = Next(); err == nil; ...]: everything the iterator gives. *)
Fixpoint drain (fuel : nat) (it : ObjectIter) : W (list oid) :=
  match fuel with
  | O => stuck
  | S fuel =>
      '(it, r) ← ObjectIter_Next it;
      match r with
      | Err _ => mret []
      | Ok o => l ← drain fuel it; mret (o :: l)
      end
  end.

(** ** iter_filtered_component_array.go

    A group is a pointer to an object's slice of components: the object. *)
Record FilterIter := mkFilterIter {
  fi_target : option rtype;
  fi_values : list oid;
  fi_current : option oid;
  fi_offset : Z;
  fi_err : option iter_error }.

Definition fromComponentArray (values : option oid) (T : option rtype) : FilterIter :=
  mkFilterIter T (option_list values) None (-1) None.
Definition FilterIter_Add (values : oid) (it : FilterIter) : FilterIter :=
  mkFilterIter (fi_target it) (fi_values it ++ [values]) (fi_current it) (fi_offset it) (fi_err it).
Definition with_offset (n : Z) (it : FilterIter) : FilterIter :=
  mkFilterIter (fi_target it) (fi_values it) (fi_current it) n (fi_err it).

Definition nextGroup (it : FilterIter) : FilterIter * bool :=
  match fi_values it with
  | g :: gs => (mkFilterIter (fi_target it) gs (Some g) 0 (fi_err it), false)
  | [] => (mkFilterIter (fi_target it) [] (fi_current it) (fi_offset it)
             (Some ErrEndIteration), true)
  end.

(** [reflect.Type.Elem], which panics for a type without element. *)
Definition Elem (t : rtype) : outcome rtype :=
  match t with RPtr e => Ret e | _ => Panic (PanicVal "reflect: Elem of invalid type") end.

Definition lift {A} (r : outcome A) : W A := λ w, (w, r).

(** ** Components and their user code *)
Section user_code.
(** The static interfaces of the components' types, with what their methods
    answer: [implements] drives the systems, [type_implements] is
    [reflect.Type.Implements]. *)
Context (implements : iface → cid → bool).
Context (type_implements : rtype → rtype → bool).
Context (type_of : cid → rtype).
Context (IsUnique : cid → option Z).
Context (GetRequire : cid → option (list (oid * list rtype))).

Definition type_match (typ : option rtype) (target : rtype) : outcome bool :=
  if decide (typ = Some target) then Ret true
  else match typ with
       | None => Panic NilDereference
       | Some t => if is_interface t then e ← Elem target; Ret (type_implements t e) else Ret false
       end.

Definition fi_match (it : FilterIter) (c : cid) : W bool :=
  match fi_target it with
  | None => mret true
  | Some t => b ← comp c; lift (type_match (cb_typ b) t)
  end.

(** The loop of [Next]; one turn per component looked at. *)
Fixpoint FilterIter_loop (fuel : nat) (it : FilterIter)
    : W (FilterIter * result iter_error cid) :=
  match fuel with
  | O => stuck
  | S fuel =>
      let '(it, over) :=
        match fi_current it with
        | None => nextGroup it
        | Some _ => (with_offset (fi_offset it + 1) it, false)
        end in
      if (over : bool) then mret (it, Err ErrEndIteration) else
      match fi_current it with
      | None => panicking NilDereference
      | Some g =>
          x ← obj g;
          let '(it, over) :=
            if decide (Z.of_nat (length (obj_components x)) ≤ fi_offset it)%Z
            then nextGroup it else (it, false) in
          if (over : bool) then mret (it, Err ErrEndIteration) else
          match fi_current it with
          | None => panicking NilDereference
          | Some g =>
              x ← obj g;
              match obj_components x !! Z.to_nat (fi_offset it) with
              | None => panicking IndexOutOfRange
              | Some c =>
                  b ← fi_match it c;
                  if (b : bool) then mret (it, Ok c) else FilterIter_loop fuel it
              end
          end
      end
  end.

(** More turns than there are components in the groups are never needed. *)
Definition group_size (w : World) (g : oid) : nat :=
  match w_objs w !! g with Some x => length (obj_components x) | None => 0 end.
Definition fi_fuel (it : FilterIter) : W nat :=
  w ← get_state;
  mret (S (sum_list (group_size w <$> (option_list (fi_current it) ++ fi_values it)))).

Definition FilterIter_Next (it : FilterIter) : W (FilterIter * result iter_error cid) :=
  match fi_err it with
  | Some e => mret (it, Err e)
  | None => fuel ← fi_fuel it; FilterIter_loop fuel it
  end.

(** Seen as an iterator, over the store and the iterator's own state. *)
#[local] Instance FilterIter_Iter : Iter (World * FilterIter) cid := λ '(w, it),
  match FilterIter_Next it w with
  | (w', Ret (it', r)) => ((w', it'), Ret r)
  | (w', Panic p) => ((w', it), Panic p)
  | (w', Stuck) => ((w', it), Stuck)
  end.

Definition GetComponents (o : oid) (T : option rtype) : FilterIter :=
  fromComponentArray (Some o) T.
Definition AllComponents (o : oid) : FilterIter := fromComponentArray (Some o) None.
Definition GetComponentsInChildren (o : oid) (T : option rtype) : W FilterIter :=
  objIter ← ObjectsInChildren o;
  fuel ← objects_fuel;
  vals ← drain fuel objIter;
  w ← get_state;
  mret (foldl (λ it v, if decide (0 < group_size w v) then FilterIter_Add v it else it)
          (fromComponentArray None T) vals).

Definition HasComponent (o : oid) (T : rtype) : W bool :=
  _ ← obj o;
  '(_, r) ← FilterIter_Next (GetComponents o (Some T));
  mret match r with Ok _ => true | Err _ => false end.

(** [Find]: the first component of the type pointed to, in this object or in the
    one the path names; the result is what is stored through the pointer. *)
Definition Find (o : oid) (pointer_to : rtype) (query : list string) : W (result ecs_error cid) :=
  r ← (match query with [] => mret (Ok o) | _ => FindObject o query end);
  match r with
  | Err e => mret (Err e)
  | Ok o =>
      _ ← obj o;
      '(_, r) ← FilterIter_Next (GetComponents o (Some pointer_to));
      mret match r with Ok c => Ok c | Err e => Err (IterErr e) end
  end.

(** ** What an object asks of its runtime (runtime.go) *)
Definition SystemFilter (r : rid) (c : cid) : W unit :=
  x ← rt r;
  modify (set_rt r (mkRuntime (rt_root x) (SystemFilter_frame implements c (innerSystems x))
    ((λ s, mkCustom (cs_name s) (cs_filtered s ++ [c]) (cs_operated s)) <$> customSystems x))).

(** [IndependentFilter] of the built-in system with that name, if there is one. *)
Definition inner_operate (name : string) (op : Z) (c : cid) (f : Frame) : option Frame :=
  if decide (name = "awake") then Some (filter_awake implements c f)
  else if decide (name = "start") then Some (filter_start implements c f)
  else if decide (name = "update") then Some (operate_update implements op c f)
  else if decide (name = "destroy") then Some (operate_destroy implements op c f)
  else None.

(** The last custom system with that name. *)
Fixpoint operate_custom (name : string) (op : Z) (c : cid) (l : list CustomSystem)
    : option (list CustomSystem) :=
  match l with
  | [] => None
  | s :: l =>
      match operate_custom name op c l with
      | Some l => Some (s :: l)
      | None =>
          if decide (cs_name s = name)
          then Some (mkCustom (cs_name s) (cs_filtered s) (cs_operated s ++ [(op, c)]) :: l)
          else None
      end
  end.

Definition SystemOperate (r : rid) (name : string) (op : Z) (c : cid) : W (option ecs_error) :=
  x ← rt r;
  match inner_operate name op c (innerSystems x) with
  | Some f => _ ← modify (set_rt r (mkRuntime (rt_root x) f (customSystems x))); mret None
  | None =>
      match operate_custom name op c (customSystems x) with
      | Some l => _ ← modify (set_rt r (mkRuntime (rt_root x) (innerSystems x) l)); mret None
      | None => mret (Some (NewError "system not found"))
      end
  end.

Definition RegisterSystem (r : rid) (name : string) : W unit :=
  x ← rt r;
  if decide (Exists (λ s, cs_name s = name) (customSystems x)) then mret tt
  else modify (set_rt r (mkRuntime (rt_root x) (innerSystems x)
         (customSystems x ++ [mkCustom name [] []]))).

(** ** Components of an object *)
Definition is_some_err (e : option ecs_error) : bool := bool_decide (is_Some e).
Definition log_err (e : option ecs_error) : W unit :=
  if is_some_err e then hLog_Error e else mret tt.

Definition ComponentBase_Init (c : cid) (typ : rtype) (r : option rid) (parent : oid) : W unit :=
  modify (set_comp c (mkComponentBase (Some typ) r (Some parent))).

(** [for obj, requires := range GetRequire() { for _, require := range requires ...]:
    is some required component missing? *)
Fixpoint requires_of (obj : oid) (ts : list rtype) : W bool :=
  match ts with
  | [] => mret true
  | t :: ts => b ← HasComponent obj t; if (b : bool) then requires_of obj ts else mret false
  end.
Fixpoint requires_met (l : list (oid * list rtype)) : W bool :=
  match l with
  | [] => mret true
  | (obj, ts) :: l => b ← requires_of obj ts; if (b : bool) then requires_met l else mret false
  end.

(** The uniqueness check: is there already such a component? *)
Definition unique_taken (o : oid) (c : cid) : W bool :=
  match IsUnique c with
  | None => mret false
  | Some u =>
      if decide (u = UNIQUE_TYPE_GLOBAL) then
        root ← Root o;
        it ← GetComponentsInChildren root (Some (type_of c));
        '(_, r) ← FilterIter_Next it;
        mret match r with Ok _ => true | Err _ => false end
      else if decide (u = UNIQUE_TYPE_LOCAL) then HasComponent o (type_of c)
      else mret false
  end.

(** The action [AddComponent] runs under the lock. *)
Definition AddComponent_action (o : oid) (c : cid) : W (option ecs_error) :=
  taken ← unique_taken o c;
  if (taken : bool) then mret (Some ErrUniqueComponent) else
  met ← requires_met (default [] (GetRequire c));
  if negb met then mret (Some ErrMissingComponent) else
  _ ← upd o (λ x, with_components (obj_components x ++ [c]) x);
  r ← _runtime o;
  match r with
  | None => mret None
  | Some r => _ ← SystemFilter r c; mret None
  end.

(** [Initialize] is user code: the model records the call, what it does to the
    tree is further operations. *)
Definition call_Initialize (c : cid) : W unit :=
  modify (λ w, mkWorld (w_objs w) (w_comps w) (w_rts w) (w_log w)
                 (if implements IInit c then w_inits w ++ [c] else w_inits w)).

Definition AddComponent (o : oid) (c : cid) : W unit :=
  r ← Object_Runtime o;
  _ ← ComponentBase_Init c (type_of c) r o;
  err ← WithLock o (AddComponent_action o c);
  _ ← log_err err;
  call_Initialize c.

(** Tell the runtime that a component is gone. *)
Definition operate_removed (r : rid) (c : cid) : W unit :=
  err ← SystemOperate r "update" SYSTEM_OP_UPDATE_REMOVE c;
  _ ← log_err err;
  err ← SystemOperate r "destroy" SYSTEM_OP_DESTROY_ADD c;
  log_err err.

Definition no_runtime : ecs_error := NewError "this object has no runtime".

Definition RemoveComponent (o : oid) (c : cid) : W unit :=
  err ← WithLock o (
    _ ← upd o (λ x, with_components (default (obj_components x)
                                       (remove_first (c =.) (obj_components x))) x);
    x ← obj o;
    match obj_runtime x with
    | None => mret (Some no_runtime)
    | Some r => _ ← operate_removed r c; mret None
    end);
  log_err err.

(** [range o.components] reads the slice it started with; [append] on a prefix
    of it shifts the elements of that same array to the left. *)
Definition shift_out {A} (i : nat) (arr : list A) : list A :=
  take i arr ++ drop (S i) arr ++ option_list (last arr).

Fixpoint RemoveComponentsByType_loop (n index : nat) (arr : list cid) (o : oid) (t : rtype)
    : W (option ecs_error) :=
  match n with
  | O => mret None
  | S n =>
      match arr !! index with
      | None => mret None
      | Some c =>
          b ← comp c;
          if decide (cb_typ b = Some t) then
            x ← obj o;
            if decide (index < length (obj_components x)) then
              _ ← upd o (with_components (take index (obj_components x) ++
                                          drop (S index) (obj_components x)));
              r ← Object_Runtime o;
              match r with
              | None => mret (Some no_runtime)
              | Some r =>
                  _ ← operate_removed r c;
                  RemoveComponentsByType_loop n (S index) (shift_out index arr) o t
              end
            else panicking SliceBounds
          else RemoveComponentsByType_loop n (S index) arr o t
      end
  end.

Definition RemoveComponentsByType (o : oid) (t : rtype) : W unit :=
  err ← WithLock o (
    x ← obj o;
    RemoveComponentsByType_loop (length (obj_components x)) 0 (obj_components x) o t);
  hLog_Error err.

(** ** Creating, moving and destroying objects *)

(** The address is fresh; [uuid] is what [hCommon.GetUUID] answers. *)
Definition NewObject (uuid name : string) : W oid :=
  w ← get_state;
  let o := fresh (dom (w_objs w)) in
  _ ← modify (set_obj o (mkObject uuid name None [] [] None Free));
  mret o.

Definition AddObject (o object : oid) : W (option ecs_error) :=
  p ← Parent object;
  if decide (is_Some p) then mret (Some ErrBadObject) else
  WithLock o (
    has ← (if decide (o = object) then mret true else HasParent o object);
    if (has : bool) then mret (Some ErrBadObject) else
    x ← obj o;
    _ ← upd object (with_parent (Some o));
    _ ← upd object (with_runtime (obj_runtime x));
    _ ← upd o (λ x, with_children (obj_children x ++ [object]) x);
    mret None).

Definition AddObjectWithComponent (o object : oid) (c : cid) : W (option ecs_error) :=
  err ← AddObject o object;
  if is_some_err err then mret err else
  _ ← AddComponent object c; mret None.

Definition AddObjectWithComponents (o object : oid) (cs : list cid) : W (option ecs_error) :=
  err ← AddObject o object;
  if is_some_err err then mret err else
  _ ← for_each cs (AddComponent object); mret None.

Definition AddNewObjectWithComponent (o : oid) (c : cid) (uuid name : string)
    : W (oid * option ecs_error) :=
  object ← NewObject uuid name;
  err ← AddObjectWithComponent o object c; mret (object, err).

Definition AddNewbjectWithComponents (o : oid) (cs : list cid) (uuid name : string)
    : W (oid * option ecs_error) :=
  object ← NewObject uuid name;
  err ← AddObjectWithComponents o object cs; mret (object, err).

Definition disposed (x : Object) : Object :=
  mkObject (obj_id x) "" None [] [] (obj_parent x) (obj_locker x).
Definition _dispose (o : oid) : W unit := upd o disposed.

(** [_destroy] recurses on the children; one level of fuel per level of the tree. *)
Fixpoint destroy_rec (fuel : nat) (o : oid) : W unit :=
  match fuel with
  | O => stuck
  | S fuel =>
      err ← WithLock o (
        x ← obj o;
        _ ← for_each (obj_components x) (λ c,
              x ← obj o;
              match obj_runtime x with
              | None => mret tt
              | Some r => operate_removed r c
              end);
        x ← obj o;
        _ ← for_each (obj_children x) (destroy_rec fuel);
        _ ← _dispose o;
        mret None);
      log_err err
  end.
Definition _destroy (o : oid) : W unit := fuel ← objects_fuel; destroy_rec fuel o.

Definition RemoveObject (o object : oid) : W (option ecs_error) :=
  if decide (o = object) then mret (Some ErrBadObject) else
  WithLock o (
    x ← obj o;
    match remove_first (object =.) (obj_children x) with
    | None => mret None
    | Some cs =>
        _ ← upd o (with_children cs);
        _ ← _destroy object;
        mret None
    end).

Definition Destroy (o : oid) : W (option ecs_error) :=
  p ← Parent o;
  match p with
  | None => _ ← _destroy o; mret None
  | Some p =>
      err ← RemoveObject p o;
      if decide (err = Some ErrNoThisChild) then _ ← _destroy o; mret err else mret err
  end.

(** runtime.go: [NewRuntime] makes the root object and points it to the runtime. *)
Definition NewRuntime (uuid : string) : W rid :=
  root ← NewObject uuid "runtime";
  w ← get_state;
  let r := fresh (dom (w_rts w)) in
  _ ← modify (set_rt r (mkRuntime root Frame_Init []));
  _ ← upd root (with_runtime (Some r));
  mret r.

(** ** Sequences of operations *)
Definition World_Init : World := mkWorld ∅ ∅ ∅ [] [].

Inductive op :=
| OpNewRuntime (uuid : string)
| OpRegisterSystem (r : rid) (name : string)
| OpNewObject (uuid name : string)
| OpAddObject (o object : oid)
| OpRemoveObject (o object : oid)
| OpDestroy (o : oid)
| OpAddComponent (o : oid) (c : cid)
| OpRemoveComponent (o : oid) (c : cid)
| OpRemoveComponentsByType (o : oid) (t : rtype)
| OpRename (o : oid) (name : string).

Definition run_op (p : op) : W unit :=
  match p with
  | OpNewRuntime u => _ ← NewRuntime u; mret tt
  | OpRegisterSystem r n => RegisterSystem r n
  | OpNewObject u n => _ ← NewObject u n; mret tt
  | OpAddObject o x => _ ← AddObject o x; mret tt
  | OpRemoveObject o x => _ ← RemoveObject o x; mret tt
  | OpDestroy o => _ ← Destroy o; mret tt
  | OpAddComponent o c => AddComponent o c
  | OpRemoveComponent o c => RemoveComponent o c
  | OpRemoveComponentsByType o t => RemoveComponentsByType o t
  | OpRename o n => Rename o n
  end.
End user_code.
