(* ===== verification/EcsTree.v ===== *)
(** * hECS: the object tree's theorems

    Over the definitions of EcsObject.v: the operations keep the objects a forest
    and never wait for ever, [AddObject], [Destroy] and [RemoveObject] do what
    they say on every branch, walking up and enumerating down are complete, and
    how far the uniqueness of components goes. *)
From S2P Require Import Prelude GoList Iter EcsSystems EcsObject.

(** ** The shape of the store

    What the tree's operations look at: parent, children and mutex of each object. *)
Record node := mkNode {
  n_parent : option oid;
  n_children : list oid;
  n_locker : rwmutex }.

Definition node_of (x : Object) : node := mkNode (obj_parent x) (obj_children x) (obj_locker x).
Definition view (w : World) : gmap oid node := node_of <$> w_objs w.

Lemma view_lookup w o n :
  view w !! o = Some n ↔ ∃ x, w_objs w !! o = Some x ∧ node_of x = n.
Proof. unfold view. rewrite lookup_fmap, fmap_Some. naive_solver. Qed.

Lemma view_obj w o x : w_objs w !! o = Some x → view w !! o = Some (node_of x).
Proof. intros. apply view_lookup. eauto. Qed.

Lemma view_set_obj w o x : view (set_obj o x w) = <[o:=node_of x]> (view w).
Proof. apply fmap_insert. Qed.

Lemma set_obj_Some w o x p z :
  w_objs (set_obj o x w) !! p = Some z → (o = p ∧ x = z) ∨ (o ≠ p ∧ w_objs w !! p = Some z).
Proof. apply lookup_insert_Some. Qed.

Lemma view_size w : size (view w) = size (w_objs w).
Proof. apply map_size_fmap. Qed.

(** The ancestors of an object, nearest first. *)
Inductive chain (v : gmap oid node) : oid → list oid → Prop :=
| chain_root o n : v !! o = Some n → n_parent n = None → chain v o []
| chain_parent o n p l :
    v !! o = Some n → n_parent n = Some p → chain v p l → chain v o (p :: l).

Record shape (v : gmap oid node) : Prop := {
  sh_child o n c : v !! o = Some n → c ∈ n_children n →
    ∃ m, v !! c = Some m ∧ n_parent m = Some o;
  sh_nodup o n : v !! o = Some n → NoDup (n_children n);
  sh_chain o n : v !! o = Some n → ∃ l, chain v o l }.

Definition all_free (v : gmap oid node) : Prop :=
  ∀ o n, v !! o = Some n → n_locker n = Free.

Definition forest (w : World) : Prop := shape (view w) ∧ all_free (view w).

Section chains.
Context (v : gmap oid node).

Lemma chain_det o l1 l2 : chain v o l1 → chain v o l2 → l1 = l2.
Proof.
  intros H1. revert l2. induction H1; intros l2 H2; inversion H2; subst; same_lhs; auto.
  f_equal. auto.
Qed.

Lemma chain_lookup o l : chain v o l → is_Some (v !! o).
Proof. by destruct 1; eexists. Qed.

Lemma chain_suffix o l x : chain v o l → x ∈ l → ∃ l1 l2, l = l1 ++ x :: l2 ∧ chain v x l2.
Proof.
  induction 1 as [|o n p l Hn Hp Hc IH]; [by intros ?%elem_of_nil|].
  intros [->|Hx]%elem_of_cons.
  - exists [], l. done.
  - destruct (IH Hx) as (l1 & l2 & -> & ?). by exists (p :: l1), l2.
Qed.

Lemma chain_not_self o l : chain v o l → o ∉ l.
Proof.
  intros Hc Ho. destruct (chain_suffix _ _ _ Hc Ho) as (l1 & l2 & -> & Hc2).
  pose proof (chain_det _ _ _ Hc Hc2) as E. apply (f_equal length) in E.
  rewrite length_app in E. simpl in E. lia.
Qed.

Lemma chain_NoDup o l : chain v o l → NoDup (o :: l).
Proof.
  induction 1 as [|o n p l Hn Hp Hc IH]; [by apply NoDup_singleton|].
  apply NoDup_cons. split; [|done]. eapply chain_not_self. by econstructor.
Qed.

Lemma chain_elem_lookup o l x : chain v o l → x ∈ o :: l → is_Some (v !! x).
Proof.
  intros Hc [->|Hx]%elem_of_cons; [by eapply chain_lookup|].
  destruct (chain_suffix _ _ _ Hc Hx) as (? & ? & _ & ?). by eapply chain_lookup.
Qed.

Lemma chain_length o l : chain v o l → length l < size v.
Proof.
  intros Hc. pose proof (chain_NoDup _ _ Hc) as Hnd.
  assert (size (list_to_set (C:=gset oid) (o :: l)) ≤ size (dom v)) as Hle.
  { apply subseteq_size. intros x Hx%elem_of_list_to_set. apply elem_of_dom.
    by eapply chain_elem_lookup. }
  rewrite size_list_to_set, size_dom in Hle by done. simpl in Hle. lia.
Qed.
End chains.

(** ** Walking towards the root *)
Lemma obj_bind {A} (f : Object → W A) w o x :
  w_objs w !! o = Some x → (obj o ≫= f) w = f x w.
Proof. intros Hx. unfold mbind, prog_bind, obj. by rewrite Hx. Qed.

Lemma Parent_eq w o x : w_objs w !! o = Some x → Parent o w = (w, Ret (obj_parent x)).
Proof. intros Hx. unfold Parent, mbind, prog_bind, obj. by rewrite Hx. Qed.

Lemma HasParent_loop_eq w o l fuel object :
  chain (view w) o l → length l < fuel →
  HasParent_loop fuel o object w = (w, Ret (bool_decide (object ∈ l))).
Proof.
  intros Hc. revert fuel. induction Hc as [o n Hn Hp|o n p l Hn Hp Hc IH];
    intros [|fuel] Hlt; simpl in Hlt; try lia;
    apply view_lookup in Hn as (x & Hx & <-); cbn [HasParent_loop];
    unfold mbind, prog_bind; rewrite (Parent_eq _ _ _ Hx); simpl in Hp; rewrite Hp.
  - by rewrite decide_False by done.
  - destruct (decide (Some p = Some object)) as [[= ->]|Hne].
    + rewrite bool_decide_true by set_solver. done.
    + rewrite IH by lia. do 2 f_equal. apply bool_decide_ext. set_solver.
Qed.

Lemma objects_fuel_bind {A} (f : nat → W A) w :
  (objects_fuel ≫= f) w = f (S (size (w_objs w))) w.
Proof. done. Qed.

Lemma HasParent_eq w o l object :
  chain (view w) o l → HasParent o object w = (w, Ret (bool_decide (object ∈ l))).
Proof.
  intros Hc. unfold HasParent. rewrite objects_fuel_bind.
  apply HasParent_loop_eq; [done|].
  pose proof (chain_length _ _ _ Hc) as Hl. rewrite view_size in Hl. lia.
Qed.

Lemma Root_loop_eq w o l fuel :
  chain (view w) o l → length l < fuel → Root_loop fuel o w = (w, Ret (default o (last l))).
Proof.
  intros Hc. revert fuel. induction Hc as [o n Hn Hp|o n p l Hn Hp Hc IH];
    intros [|fuel] Hlt; simpl in Hlt; try lia;
    apply view_lookup in Hn as (x & Hx & <-); cbn [Root_loop];
    unfold mbind, prog_bind; rewrite (Parent_eq _ _ _ Hx); simpl in Hp; rewrite Hp; [done|].
  rewrite IH by lia. do 2 f_equal. rewrite last_cons. by destruct (last l).
Qed.

Lemma Root_eq w o l : chain (view w) o l → Root o w = (w, Ret (default o (last l))).
Proof.
  intros Hc. unfold Root. rewrite objects_fuel_bind.
  apply Root_loop_eq; [done|].
  pose proof (chain_length _ _ _ Hc) as Hl. rewrite view_size in Hl. lia.
Qed.

(** In a forest, [HasParent o x] answers, without looping, whether [x] is a
    proper ancestor of [o], and [Root o] the ancestor of [o] that has no parent;
    neither changes the tree. *)
Theorem HasParent_Root_correct w o x :
  forest w → w_objs w !! o = Some x →
  ∃ l, chain (view w) o l ∧
    (∀ object, HasParent o object w = (w, Ret (bool_decide (object ∈ l)))) ∧
    ∃ root, Root o w = (w, Ret root) ∧ root ∈ o :: l ∧
      obj_parent <$> (w_objs w !! root) = Some None.
Proof.
  intros [Hs _] Hx. destruct (sh_chain _ Hs o _ (view_obj _ _ _ Hx)) as [l Hc].
  exists l. split; [done|]. split; [intros; by apply HasParent_eq|].
  exists (default o (last l)). split; [by apply Root_eq|].
  clear Hx x. induction Hc as [o n Hn Hp|o n p l Hn Hp Hc IH].
  - apply view_lookup in Hn as (x & Hx & <-). simpl in *. rewrite Hx, <- Hp. set_solver.
  - rewrite last_cons. destruct (last l) eqn:El; simpl in *; set_solver.
Qed.

(** ** Programs that keep the tree

    [keeps m]: from a store of the right shape, [m] ends (a panic is an end, but none is a
    fatal error) and leaves parents, children and mutexes as they were, and the runtime pointers
    of the objects sound. *)
Definition rts_ok (w : World) : Prop := ∀ o x r,
  w_objs w !! o = Some x → obj_runtime x = Some r → is_Some (w_rts w !! r).

Record same (w w' : World) : Prop := {
  same_view : view w' = view w;
  same_rts : dom (w_rts w') = dom (w_rts w);
  same_ok : rts_ok w → rts_ok w' }.

#[global] Instance same_preorder : PreOrder same.
Proof.
  split; [by intros w; split|]. intros w1 w2 w3 [V1 D1 O1] [V2 D2 O2]. split.
  - congruence.
  - congruence.
  - auto.
Qed.

Definition keeps {A} (m : W A) : Prop := ∀ w,
  shape (view w) → wp m (λ _ w', same w w') (λ p w', fatal p = false ∧ same w w') w.

Create HintDb keeps.

Lemma keeps_pure {A} (m : W A) : (∀ w, ∃ r, m w = (w, r) ∧ goes_on r = true) → keeps m.
Proof.
  intros H w _. unfold wp. destruct (H w) as (r & -> & Hr). destruct r as [|p|]; [done| |done].
  simpl in Hr. by destruct (fatal p).
Qed.

Lemma keeps_ret {A} (a : A) : keeps (mret a).
Proof. by intros w _. Qed.
Lemma keeps_get : keeps get_state.
Proof. by intros w _. Qed.
Lemma keeps_panicking {A} p : fatal p = false → keeps (panicking (A:=A) p).
Proof. by intros Hp w _. Qed.
Lemma keeps_lift {A} (r : outcome A) : goes_on r = true → keeps (lift r).
Proof. intros Hr. apply keeps_pure. intros w. by exists r. Qed.
Lemma keeps_obj o : keeps (obj o).
Proof. intros w _. unfold wp, obj. by destruct (_ !! _). Qed.
Lemma keeps_comp c : keeps (comp c).
Proof. intros w _. unfold wp, comp. by destruct (_ !! _). Qed.
Lemma keeps_rt r : keeps (rt r).
Proof. intros w _. unfold wp, rt. by destruct (_ !! _). Qed.
Lemma keeps_modify f : (∀ w, same w (f w)) → keeps (modify f).
Proof. intros Hf w _. apply wp_modify, Hf. Qed.

Lemma keeps_bind {A B} (m : W A) (f : A → W B) :
  keeps m → (∀ a, keeps (f a)) → keeps (m ≫= f).
Proof.
  intros Hm Hf w Hs. apply wp_bind. eapply wp_mono; [by apply Hm| |done].
  simpl. intros a w' E. eapply wp_mono; [apply Hf; by rewrite (same_view _ _ E)|..]; simpl.
  - intros. by etrans.
  - intros p s' [Hp E']. split; [done|]. by etrans.
Qed.

Lemma same_set_obj w o x y :
  w_objs w !! o = Some x → node_of y = node_of x →
  (∀ r, obj_runtime y = Some r → obj_runtime x = Some r ∨ is_Some (w_rts w !! r)) →
  same w (set_obj o y w).
Proof.
  intros Hx Hn Hr. split.
  - rewrite view_set_obj, Hn. apply insert_id. by apply view_obj.
  - done.
  - intros Hok p z r [[<- <-]|[_ Hz]]%set_obj_Some Hzr; [|by eapply Hok].
    destruct (Hr _ Hzr); [by eapply Hok|done].
Qed.

Lemma same_rts_only w w' :
  w_objs w' = w_objs w → dom (w_rts w') = dom (w_rts w) → same w w'.
Proof.
  intros Ho Hd. split; [by unfold view; rewrite Ho|done|].
  intros Hok o x r Hx Hr. rewrite Ho in Hx.
  rewrite <- elem_of_dom, Hd, elem_of_dom. by eapply Hok.
Qed.

Lemma keeps_upd o f :
  (∀ x, node_of (f x) = node_of x ∧ obj_runtime (f x) = obj_runtime x) → keeps (upd o f).
Proof.
  intros Hf w _. unfold upd. apply wp_bind. unfold wp, obj.
  destruct (w_objs w !! o) as [x|] eqn:Hx; [|done]. simpl.
  destruct (Hf x) as [Hn Hr]. apply (same_set_obj _ _ x); [done|done|]. rewrite Hr. auto.
Qed.

Lemma keeps_for_each {A} (l : list A) body :
  (∀ x, x ∈ l → keeps (body x)) → keeps (for_each l body).
Proof.
  induction l as [|x l IH]; intros Hb; simpl; [apply keeps_ret|].
  apply keeps_bind; [apply Hb; set_solver|]. intros _. apply IH. set_solver.
Qed.

#[export] Hint Extern 1 (keeps (panicking _)) => by apply keeps_panicking : keeps.
#[export] Hint Resolve keeps_ret keeps_get keeps_obj keeps_comp keeps_rt
  keeps_for_each : keeps.
#[export] Hint Extern 1 (keeps (modify _)) =>
  apply keeps_modify; intros ?; by apply same_rts_only : keeps.
#[export] Hint Extern 1 (keeps (upd _ _)) => apply keeps_upd; done : keeps.
#[export] Hint Extern 2 (keeps (_ ≫= _)) => apply keeps_bind; [|intros ?] : keeps.
#[export] Hint Extern 2 (keeps (match ?x with _ => _ end)) => destruct x : keeps.

Lemma keeps_Parent o : keeps (Parent o).
Proof. unfold Parent. auto with keeps. Qed.

Lemma keeps_reads_chain {A} (m : W A) o :
  (∀ w l, chain (view w) o l → ∃ a, m w = (w, Ret a)) →
  (∀ w, view w !! o = None → m w = (w, Panic NilDereference)) → keeps m.
Proof.
  intros Hc Hn w Hs. unfold wp. destruct (view w !! o) as [n|] eqn:E.
  - destruct (sh_chain _ Hs _ _ E) as [l Hl]. by destruct (Hc _ _ Hl) as [a ->].
  - by rewrite (Hn _ E).
Qed.

Lemma view_None w o : view w !! o = None → w_objs w !! o = None.
Proof. unfold view. by rewrite lookup_fmap, fmap_None. Qed.

Lemma keeps_HasParent o x : keeps (HasParent o x).
Proof.
  apply (keeps_reads_chain _ o).
  - intros w l Hc. eexists. by apply HasParent_eq.
  - intros w Hn%view_None.
    unfold HasParent. rewrite objects_fuel_bind. cbn [HasParent_loop].
    unfold Parent, mbind, prog_bind, obj. by rewrite Hn.
Qed.

Lemma keeps_Root o : keeps (Root o).
Proof.
  apply (keeps_reads_chain _ o).
  - intros w l Hc. eexists. by apply Root_eq.
  - intros w Hn%view_None.
    unfold Root. rewrite objects_fuel_bind. cbn [Root_loop].
    unfold Parent, mbind, prog_bind, obj. by rewrite Hn.
Qed.
#[export] Hint Resolve keeps_Parent keeps_HasParent keeps_Root : keeps.

(** ** Subtrees

    [subtree n v o]: [o] and what is below it, depth first, [n] levels deep. *)
Definition children_of (v : gmap oid node) (o : oid) : list oid :=
  match v !! o with Some n => n_children n | None => [] end.

Fixpoint subtree (n : nat) (v : gmap oid node) (o : oid) : list oid :=
  match n with
  | O => []
  | S n => o :: (children_of v o ≫= subtree n v)
  end.

(** Enough levels for the whole subtree of [o]. *)
Definition deep (n : nat) (v : gmap oid node) (o : oid) : Prop :=
  ∃ l, chain v o l ∧ size v ≤ n + length l.

(** [x] can be reached from [o] by going to children. *)
Definition child_rel (v : gmap oid node) (o c : oid) : Prop := c ∈ children_of v o.
Definition below (v : gmap oid node) : oid → oid → Prop := rtc (child_rel v).

Section subtrees.
Context (v : gmap oid node) (Hv : shape v).

Lemma child_chain o c l : c ∈ children_of v o → chain v o l → chain v c (o :: l).
Proof.
  unfold children_of. intros Hc Hl. destruct (v !! o) as [n|] eqn:Hn; [|set_solver].
  destruct (sh_child _ Hv _ _ _ Hn Hc) as (m & Hm & Hp). by econstructor.
Qed.

Lemma children_NoDup o : NoDup (children_of v o).
Proof.
  unfold children_of. destruct (v !! o) eqn:E; [by eapply sh_nodup|constructor].
Qed.

Lemma deep_S n o : deep n v o → ∃ n', n = S n' ∧ ∀ c, c ∈ children_of v o → deep n' v c.
Proof.
  intros (l & Hl & Hn). pose proof (chain_length _ _ _ Hl) as Hlt.
  destruct n as [|n]; [lia|]. exists n. split; [done|].
  intros c Hc. exists (o :: l). split; [by apply child_chain|]. simpl. lia.
Qed.

Lemma deep_size o : is_Some (v !! o) → deep (size v) v o.
Proof.
  intros [n Hn]. destruct (sh_chain _ Hv _ _ Hn) as [l Hl]. exists l. split; [done|lia].
Qed.

Lemma subtree_fuel n m o : deep n v o → deep m v o → subtree n v o = subtree m v o.
Proof.
  revert m o. induction n as [|n IH]; intros m o Hn Hm.
  - by destruct (deep_S _ _ Hn) as (? & ? & _).
  - destruct (deep_S _ _ Hn) as (? & [= <-] & Hn').
    destruct (deep_S _ _ Hm) as (m' & -> & Hm'). cbn [subtree]. f_equal.
    apply Forall_bind_ext, Forall_forall. auto.
Qed.

Lemma chain_split x l c : chain v x l → c ∈ x :: l →
  ∃ l1 l2, x :: l = l1 ++ c :: l2 ∧ chain v c l2.
Proof.
  intros Hl [->|Hc]%elem_of_cons; [by exists [], l|].
  destruct (chain_suffix _ _ _ _ Hl Hc) as (l1 & l2 & -> & ?). by exists (x :: l1), l2.
Qed.

Lemma below_chain o x l : below v o x → chain v x l → o ∈ x :: l.
Proof.
  intros Hb. revert l. induction Hb as [o|o c x Hoc _ IH]; intros l Hl; [set_solver|].
  specialize (IH l Hl). destruct (chain_split _ _ _ Hl IH) as (l1 & l2 & E & Hc).
  unfold child_rel, children_of in Hoc. destruct (v !! o) as [n|] eqn:Hn; [|set_solver].
  destruct (sh_child _ Hv _ _ _ Hn Hoc) as (m & Hm & Hp).
  inversion Hc; subst; same_lhs. rewrite E. set_solver.
Qed.

Lemma below_lookup o x : is_Some (v !! o) → below v o x → is_Some (v !! x).
Proof.
  intros Ho Hb. induction Hb as [|o c x Hoc _ IH]; [done|]. apply IH.
  unfold child_rel, children_of in Hoc. destruct (v !! o) as [n|] eqn:E; [|set_solver].
  destruct (sh_child _ Hv _ _ _ E Hoc) as (m & -> & _). by eexists.
Qed.

Lemma elem_of_subtree n o x : deep n v o → x ∈ subtree n v o ↔ below v o x.
Proof.
  revert o x. induction n as [|n IH]; intros o x Hn.
  - by destruct (deep_S _ _ Hn) as (? & ? & _).
  - destruct (deep_S _ _ Hn) as (? & [= <-] & Hn'). cbn [subtree].
    rewrite elem_of_cons, list_elem_of_bind. split.
    + intros [->|(c & Hx & Hc)]; [apply rtc_refl|].
      eapply rtc_l; [exact Hc|]. by apply IH; [apply Hn'|].
    + intros Hb. apply rtc_inv in Hb as [->|(c & Hc & Hb)]; [by left|right].
      exists c. split; [by apply IH; [apply Hn'|]|done].
Qed.

(** Two objects with the same parent on one chain are the same. *)
Lemma siblings_on_chain x l o c1 c2 :
  chain v x l → c1 ∈ x :: l → c2 ∈ x :: l →
  c1 ∈ children_of v o → c2 ∈ children_of v o → c1 = c2.
Proof.
  intros Hl H1 H2 Hc1 Hc2.
  destruct (chain_split _ _ _ Hl H1) as (l1 & k1 & E1 & C1).
  destruct (chain_split _ _ _ Hl H2) as (l2 & k2 & E2 & C2).
  assert (∃ lo, chain v o lo) as [lo Hlo].
  { unfold children_of in Hc1. destruct (v !! o) eqn:E; [|set_solver]. by eapply sh_chain. }
  pose proof (child_chain _ _ _ Hc1 Hlo) as D1. pose proof (child_chain _ _ _ Hc2 Hlo) as D2.
  rewrite (chain_det _ _ _ _ C1 D1) in E1. rewrite (chain_det _ _ _ _ C2 D2) in E2.
  rewrite E1 in E2. apply app_inj_2 in E2; [|done]. naive_solver.
Qed.

Lemma subtree_NoDup n o : deep n v o → NoDup (subtree n v o).
Proof.
  revert o. induction n as [|n IH]; intros o Hn; cbn [subtree]; [constructor|].
  destruct (deep_S _ _ Hn) as (? & [= <-] & Hn').
  assert (∀ c x, c ∈ children_of v o → x ∈ subtree n v c →
    ∃ l, chain v x l ∧ c ∈ x :: l) as Hup.
  { intros c x Hc Hx%elem_of_subtree; [|by apply Hn'].
    destruct (Hn' _ Hc) as (lc & Hlc & _).
    destruct (below_lookup _ _ (chain_lookup _ _ _ Hlc) Hx) as [m Hm].
    destruct (sh_chain _ Hv _ _ Hm) as [l Hl]. exists l. split; [done|by eapply below_chain]. }
  apply NoDup_cons. split.
  - intros (c & Ho & Hc)%list_elem_of_bind.
    destruct (Hup _ _ Hc Ho) as (l & Hl & Hcl).
    apply (chain_not_self v c (o :: l)); [by apply child_chain|set_solver].
  - apply NoDup_bind; [|auto|apply children_NoDup].
    intros c1 c2 x Hc1 Hc2 Hx1 Hx2.
    destruct (Hup _ _ Hc1 Hx1) as (l1 & Hl1 & ?), (Hup _ _ Hc2 Hx2) as (l2 & Hl2 & ?).
    assert (l2 = l1) as -> by (by eapply chain_det). by eapply (siblings_on_chain x l1 o).
Qed.

Lemma NoDup_dom_length (l : list oid) :
  NoDup l → (∀ x, x ∈ l → is_Some (v !! x)) → length l ≤ size v.
Proof.
  intros Hnd Hl. rewrite <- size_dom, <- (size_list_to_set (C:=gset oid) l) by done.
  apply subseteq_size. intros x Hx%elem_of_list_to_set. by apply elem_of_dom, Hl.
Qed.

(** The whole subtree. *)
Definition tree_of (o : oid) : list oid := subtree (size v) v o.

Lemma tree_of_unfold o : is_Some (v !! o) → tree_of o = o :: (children_of v o ≫= tree_of).
Proof.
  intros Ho. unfold tree_of. destruct (deep_S _ _ (deep_size _ Ho)) as (n & E & Hc).
  rewrite E at 1. cbn [subtree]. f_equal. apply Forall_bind_ext, Forall_forall. intros c Hin.
  apply subtree_fuel; [auto|]. apply deep_size.
  destruct (Hc _ Hin) as (l & Hl & _). by eapply chain_lookup.
Qed.
End subtrees.

(** ** Enumerating the objects below one *)
Section enumerate.
Context (w : World) (Hs : shape (view w)).
Abbreviation v := (view w).

Lemma children_obj o x : w_objs w !! o = Some x → children_of v o = obj_children x.
Proof. intros Hx. unfold children_of. by rewrite (view_obj _ _ _ Hx). Qed.

Lemma children_present o c : c ∈ children_of v o → is_Some (v !! c).
Proof.
  unfold children_of. destruct (v !! o) eqn:E; [|set_solver].
  intros Hc. destruct (sh_child _ Hs _ _ _ E Hc) as (? & -> & _). by eexists.
Qed.

Lemma drain_queue fuel q :
  (∀ o, o ∈ q → is_Some (v !! o)) → length (q ≫= tree_of v) < fuel →
  ∃ l, drain fuel (mkObjectIter q true None) w = (w, Ret l) ∧ l ≡ₚ q ≫= tree_of v.
Proof.
  revert q. induction fuel as [|fuel IH]; intros q Hq Hlt; [lia|].
  destruct q as [|o rest]; [by exists []|].
  assert (is_Some (v !! o)) as Ho by (apply Hq; set_solver).
  pose proof Ho as [n Hn]. apply view_lookup in Hn as (x & Hx & _).
  assert ((rest ++ children_of v o) ≫= tree_of v ≡ₚ
    (rest ≫= tree_of v) ++ (children_of v o ≫= tree_of v)) as Hperm by (by rewrite bind_app).
  csimpl in Hlt. rewrite tree_of_unfold in Hlt by done. simpl in Hlt.
  destruct (IH (rest ++ children_of v o)) as (l & Hl & Hp).
  { intros y [Hy|Hy]%elem_of_app; [apply Hq; set_solver|by eapply children_present]. }
  { rewrite Hperm, length_app. rewrite length_app in Hlt. lia. }
  exists (o :: l). split.
  - cbn [drain]. unfold ObjectIter_Next, nextObject, mbind, prog_bind, obj, mret, prog_ret; simpl.
    rewrite Hx. simpl. rewrite <- (children_obj _ _ Hx), Hl. done.
  - csimpl. rewrite tree_of_unfold by done. simpl. constructor. by rewrite Hp, Hperm, (comm (++)).
Qed.

Definition below_list (o : oid) : list oid := children_of v o ≫= tree_of v.

Lemma below_list_NoDup o : is_Some (v !! o) → NoDup (o :: below_list o).
Proof.
  intros Ho. unfold below_list. rewrite <- tree_of_unfold by done.
  apply subtree_NoDup; [done|by apply deep_size].
Qed.

Lemma elem_of_below_list o x :
  is_Some (v !! o) → x ∈ below_list o ↔ x ≠ o ∧ below v o x.
Proof.
  intros Ho. pose proof (below_list_NoDup _ Ho) as [Hno _]%NoDup_cons.
  rewrite <- (elem_of_subtree v Hs (size v) o x) by (by apply deep_size).
  change (subtree (size v) v o) with (tree_of v o). rewrite tree_of_unfold by done.
  unfold below_list in *. set_solver.
Qed.

Lemma below_list_length o : is_Some (v !! o) → length (below_list o) < size v.
Proof.
  intros Ho. pose proof (below_list_NoDup _ Ho) as Hnd.
  apply (NoDup_dom_length v _ Hnd). intros x [->|Hx]%elem_of_cons; [done|].
  apply elem_of_below_list in Hx as [_ Hx]; [|done]. by eapply below_lookup.
Qed.

Lemma ObjectsInChildren_eq o x fuel :
  w_objs w !! o = Some x → size v ≤ fuel →
  ∃ it, ObjectsInChildren o w = (w, Ret it) ∧
    ∃ l, drain fuel it w = (w, Ret l) ∧ l ≡ₚ below_list o.
Proof.
  intros Hx Hf. unfold ObjectsInChildren, fromObject, mbind, prog_bind, obj. rewrite Hx.
  eexists. split; [done|].
  assert (is_Some (v !! o)) as Ho by (eexists; by apply view_obj).
  pose proof (below_list_length _ Ho) as Hlen.
  destruct (obj_children x) as [|c cs] eqn:Hcs.
  - destruct fuel as [|fuel]; [lia|]. exists []. split; [done|].
    unfold below_list. by rewrite (children_obj _ _ Hx), Hcs.
  - destruct (drain_queue fuel (c :: cs)) as (l & Hl & Hp).
    + rewrite <- Hcs, <- (children_obj _ _ Hx). apply children_present.
    + rewrite <- Hcs, <- (children_obj _ _ Hx).
      change (children_of v o ≫= tree_of v) with (below_list o). lia.
    + exists l. split; [done|]. rewrite Hp, <- Hcs, <- (children_obj _ _ Hx). done.
Qed.
End enumerate.

(** In a forest, iterating [ObjectsInChildren o] to its end (no more turns than
    there are objects) gives every object below [o] exactly once and nothing else,
    and leaves the store alone. *)
Theorem ObjectsInChildren_enumerates w o x :
  forest w → w_objs w !! o = Some x →
  ∃ it l, ObjectsInChildren o w = (w, Ret it) ∧ drain (size (w_objs w)) it w = (w, Ret l) ∧
    NoDup l ∧ ∀ y, y ∈ l ↔ y ≠ o ∧ below (view w) o y.
Proof.
  intros [Hs _] Hx. assert (is_Some (view w !! o)) as Ho by (eexists; by apply view_obj).
  destruct (ObjectsInChildren_eq w Hs o x (size (w_objs w)) Hx) as (it & Hit & l & Hl & Hp);
    [by rewrite view_size|].
  exists it, l. split_and!; try done.
  - rewrite Hp. by pose proof (below_list_NoDup w Hs o Ho) as [_ ?]%NoDup_cons.
  - intros y. by rewrite Hp, elem_of_below_list.
Qed.

(** ** The component iterator *)
Section filter_iter.
Context (type_implements : rtype → rtype → bool).
Context (w : World).
Abbreviation fi_match := (fi_match type_implements).
Abbreviation FilterIter_loop := (FilterIter_loop type_implements).

Definition comps_of (g : oid) : list cid :=
  match w_objs w !! g with Some x => obj_components x | None => [] end.

(** The components an iterator has still to look at. *)
Definition fi_rest (it : FilterIter) : list cid :=
  match fi_current it with
  | None => fi_values it ≫= comps_of
  | Some g => drop (Z.to_nat (fi_offset it + 1)) (comps_of g) ++ (fi_values it ≫= comps_of)
  end.

(** All groups exist, and none is empty but possibly the very first. *)
Definition fi_ok (it : FilterIter) : Prop :=
  fi_err it = None ∧
  match fi_current it with
  | None => match fi_values it with
            | [] => True
            | g :: gs => is_Some (w_objs w !! g) ∧
                Forall (λ g, is_Some (w_objs w !! g) ∧ comps_of g ≠ []) gs
            end
  | Some g => (0 ≤ fi_offset it)%Z ∧ is_Some (w_objs w !! g) ∧
      Forall (λ g, is_Some (w_objs w !! g) ∧ comps_of g ≠ []) (fi_values it)
  end.

(** What a search through a list of components finds, and what follows it. *)
Fixpoint scan (T : option rtype) (cs : list cid) : outcome (option (cid * list cid)) :=
  match cs with
  | [] => Ret None
  | c :: cs =>
      b ← (match T with
           | None => Ret true
           | Some t => match w_comps w !! c with
                       | None => Panic NilDereference
                       | Some b => type_match type_implements (cb_typ b) t
                       end
           end);
      if (b : bool) then Ret (Some (c, cs)) else scan T cs
  end.

Lemma obj_components_of g x : w_objs w !! g = Some x → obj_components x = comps_of g.
Proof. unfold comps_of. by intros ->. Qed.

(** One turn of the loop, from the second half of which a group is current. *)
Definition look (fuel : nat) (it : FilterIter) : W (FilterIter * result iter_error cid) :=
  match fi_current it with
  | None => panicking NilDereference
  | Some g =>
      x ← obj g;
      match obj_components x !! Z.to_nat (fi_offset it) with
      | None => panicking IndexOutOfRange
      | Some c =>
          b ← fi_match it c;
          if (b : bool) then mret (it, Ok c) else FilterIter_loop fuel it
      end
  end.

Lemma look_group fuel g gs T n :
  is_Some (w_objs w !! g) → n < length (comps_of g) →
  Forall (λ g, is_Some (w_objs w !! g) ∧ comps_of g ≠ []) gs →
  let it := mkFilterIter T gs (Some g) (Z.of_nat n) None in
  ∃ c, drop n (comps_of g) ++ (gs ≫= comps_of) = c :: fi_rest it ∧ fi_ok it ∧
    look fuel it w =
      (b ← fi_match it c; if (b : bool) then mret (it, Ok c) else FilterIter_loop fuel it) w.
Proof.
  intros [x Hx] Hn Hgs it. destruct (lookup_lt_is_Some_2 _ _ Hn) as [c Hc].
  exists c. split_and!.
  - rewrite (drop_S _ c) by done. unfold fi_rest; simpl.
    by replace (Z.to_nat (Z.of_nat n + 1)) with (S n) by lia.
  - split; [done|]. simpl. split_and!; [lia|by eexists|done].
  - unfold look; simpl. rewrite (obj_bind _ _ _ _ Hx), Nat2Z.id.
    by rewrite (obj_components_of _ _ Hx), Hc.
Qed.

Lemma loop_turn fuel it :
  fi_ok it →
  match fi_rest it with
  | [] => ∃ it', FilterIter_loop (S fuel) it w = (w, Ret (it', Err ErrEndIteration))
  | c :: cs => ∃ it', fi_rest it' = cs ∧ fi_ok it' ∧ fi_target it' = fi_target it ∧
      FilterIter_loop (S fuel) it w =
      (b ← fi_match it' c; if (b : bool) then mret (it', Ok c) else FilterIter_loop fuel it') w
  end.
Proof.
  destruct it as [T vs cur n e]. intros [He Hok]; simpl in He, Hok; subst e.
  assert (∀ g gs it1, is_Some (w_objs w !! g) ∧ comps_of g ≠ [] →
    Forall (λ g, is_Some (w_objs w !! g) ∧ comps_of g ≠ []) gs →
    it1 = mkFilterIter T gs (Some g) 0 None →
    match comps_of g ++ (gs ≫= comps_of) with
    | [] => ∃ it', look fuel it1 w = (w, Ret (it', Err ErrEndIteration))
    | c :: cs => ∃ it', fi_rest it' = cs ∧ fi_ok it' ∧ fi_target it' = T ∧
        look fuel it1 w =
        (b ← fi_match it' c; if (b : bool) then mret (it', Ok c) else FilterIter_loop fuel it') w
    end) as Hnext.
  { intros g gs it1 [Hg Hne] Hgs ->.
    destruct (look_group fuel g gs T 0 Hg) as (c & E & Hit & El); [|done|].
    { destruct (comps_of g); [done|simpl; lia]. }
    rewrite drop_0 in E. rewrite E. eexists. split_and!; [done|exact Hit|done|exact El]. }
  destruct cur as [g|]; simpl in Hok.
  - destruct Hok as (Hn & Hg & Hvs). pose proof Hg as [x Hx].
    unfold fi_rest; simpl. cbn [EcsObject.FilterIter_loop fi_current].
    unfold with_offset; simpl. rewrite (obj_bind _ _ _ _ Hx).
    rewrite (obj_components_of _ _ Hx).
    destruct (decide (Z.of_nat (length (comps_of g)) ≤ n + 1)%Z) as [Hle|Hlt].
    + rewrite drop_ge by lia. simpl. destruct vs as [|g' gs]; simpl; [by eexists|].
      apply Forall_cons in Hvs as [Hg' Hgs]. exact (Hnext g' gs (mkFilterIter T gs (Some g') 0 None) Hg' Hgs eq_refl).
    + destruct (look_group fuel g vs T (Z.to_nat (n + 1)) Hg) as (c & E & Hit & El); [lia|done|].
      rewrite E. rewrite Z2Nat.id in Hit, El by lia.
      rewrite Z2Nat.id by lia. eexists. split_and!; [done|exact Hit|done|exact El].
  - unfold fi_rest; simpl. destruct vs as [|g gs]; [by eexists|].
    destruct Hok as [Hg Hgs]. pose proof Hg as [x Hx]. csimpl.
    cbn [EcsObject.FilterIter_loop nextGroup fi_values fi_current]. simpl.
    rewrite (obj_bind _ _ _ _ Hx). rewrite (obj_components_of _ _ Hx).
    destruct (comps_of g) as [|c cs] eqn:Hcs; simpl.
    + destruct gs as [|g' gs]; simpl; [by eexists|].
      apply Forall_cons in Hgs as [Hg' Hgs]. exact (Hnext g' gs (mkFilterIter T gs (Some g') 0 None) Hg' Hgs eq_refl).
    + assert (comps_of g ≠ []) as Hne by (by rewrite Hcs).
      pose proof (Hnext g gs (mkFilterIter T gs (Some g) 0 None) (conj Hg Hne) Hgs eq_refl) as H.
      rewrite Hcs in H. simpl in H. exact H.
Qed.

Definition scan_result (T : option rtype) (it : FilterIter)
    (r : World * outcome (FilterIter * result iter_error cid)) : Prop :=
  match scan T (fi_rest it) with
  | Ret None => ∃ it', r = (w, Ret (it', Err ErrEndIteration))
  | Ret (Some (c, cs)) => ∃ it', fi_rest it' = cs ∧ fi_ok it' ∧
      fi_target it' = fi_target it ∧ r = (w, Ret (it', Ok c))
  | Panic p => r = (w, Panic p)
  | Stuck => False
  end.

Lemma fi_match_eq it c :
  ∃ r : outcome bool, r ≠ Stuck ∧ fi_match it c w = (w, r) ∧
    (∀ cs, scan (fi_target it) (c :: cs) =
       (b ← r; if (b : bool) then Ret (Some (c, cs)) else scan (fi_target it) cs)).
Proof.
  unfold EcsObject.fi_match. simpl. destruct (fi_target it) as [t|].
  - unfold mbind, prog_bind, comp, lift. destruct (w_comps w !! c) as [b|]; simpl.
    + eexists. split_and!; [|done|done]. unfold type_match.
      destruct (decide _); [done|]. destruct (cb_typ b) as [t'|]; [|done].
      destruct (is_interface t'); [|done]. unfold mbind, outcome_bind, Elem. by destruct t.
    + by exists (Panic NilDereference).
  - by exists (Ret true).
Qed.

Lemma loop_scan fuel it :
  fi_ok it → length (fi_rest it) < fuel →
  scan_result (fi_target it) it (FilterIter_loop fuel it w).
Proof.
  revert it. induction fuel as [|fuel IH]; intros it Hok Hlt; [lia|].
  pose proof (loop_turn fuel it Hok) as Ht. unfold scan_result.
  destruct (fi_rest it) as [|c cs]; [exact Ht|].
  destruct Ht as (it' & Hr' & Hok' & HT & Hl). rewrite Hl. clear Hl.
  destruct (fi_match_eq it' c) as (r & Hr & Hm & Hscan). rewrite <- HT, Hscan.
  unfold mbind, prog_bind, outcome_bind. rewrite Hm. destruct r as [[]|p|]; [|..|done].
  - by exists it'.
  - specialize (IH it' Hok'). rewrite Hr' in IH. unfold scan_result in IH. rewrite Hr' in IH.
    simpl in Hlt. specialize (IH ltac:(lia)). exact IH.
  - done.
Qed.

Lemma sum_sizes gs : sum_list (group_size w <$> gs) = length (gs ≫= comps_of).
Proof.
  induction gs as [|g gs IH]; [done|]. csimpl. rewrite length_app, IH. f_equal.
  unfold group_size, comps_of. by destruct (_ !! _).
Qed.

Lemma fi_rest_length it :
  length (fi_rest it) < S (sum_list (group_size w <$> (option_list (fi_current it) ++ fi_values it))).
Proof.
  rewrite sum_sizes. unfold fi_rest. destruct (fi_current it); csimpl; [|lia].
  rewrite !length_app, length_drop. lia.
Qed.

Lemma Next_scan it :
  fi_ok it → scan_result (fi_target it) it (FilterIter_Next type_implements it w).
Proof.
  intros Hok. pose proof Hok as [He _]. unfold FilterIter_Next, fi_fuel. rewrite He.
  apply loop_scan; [done|]. apply fi_rest_length.
Qed.

(** Searching components whose types are recorded and concrete. *)
Definition comp_type (c : cid) : option rtype := w_comps w !! c ≫= cb_typ.
Definition matching (T : option rtype) (c : cid) : Prop := T = None ∨ comp_type c = T.
#[global] Instance matching_dec T c : Decision (matching T c).
Proof. unfold matching. apply _. Defined.
Definition typed (cs : list cid) : Prop :=
  Forall (λ c, ∃ t, comp_type c = Some t ∧ is_interface t = false) cs.

Lemma scan_typed T cs :
  typed cs →
  (filter (matching T) cs = [] ∧ scan T cs = Ret None) ∨
  (∃ c cs', filter (matching T) cs = c :: filter (matching T) cs' ∧ typed cs' ∧
     length cs' < length cs ∧ scan T cs = Ret (Some (c, cs'))).
Proof.
  induction 1 as [|c cs (t & Ht & Hi) Hcs IH]; [by left|]. rewrite filter_cons. simpl.
  assert ((match T with
     | None => Ret true
     | Some t0 => match w_comps w !! c with
                  | None => Panic NilDereference
                  | Some b => type_match type_implements (cb_typ b) t0
                  end
     end) = Ret (bool_decide (matching T c))) as ->.
  { destruct T as [t0|]; [|by rewrite bool_decide_true by (by left)].
    pose proof Ht as (b & Hb & Ht')%bind_Some. rewrite Hb.
    unfold type_match. rewrite Ht', Hi. destruct (decide (Some t = Some t0)) as [E|Hne].
    - rewrite bool_decide_true; [done|right; congruence].
    - rewrite bool_decide_false; [done|intros [|]; congruence]. }
  simpl. destruct (decide (matching T c)) as [Hm|Hm].
  - rewrite bool_decide_true by done. right. exists c, cs. split_and!; auto.
  - rewrite bool_decide_false by done. simpl in *.
    destruct IH as [[-> ->]|(c' & cs' & -> & ? & ? & ->)]; [by left|right].
    exists c', cs'. split_and!; auto with lia.
Qed.

Lemma Next_yields it :
  fi_ok it → typed (fi_rest it) →
  ∃ s', @yields _ _ (FilterIter_Iter type_implements) (w, it)
          (filter (matching (fi_target it)) (fi_rest it)) ErrEndIteration s'.
Proof.
  remember (length (fi_rest it)) as n eqn:Hn. revert it Hn.
  induction (lt_wf n) as [n _ IH]. intros it -> Hok Hty.
  pose proof (Next_scan it Hok) as Hs. unfold scan_result in Hs.
  destruct (scan_typed (fi_target it) _ Hty) as [[-> E]|(c & cs & -> & Hcs & Hlt & E)];
    rewrite E in Hs.
  - destruct Hs as [it' Hit]. exists (w, it'). constructor.
    unfold Next, FilterIter_Iter. by rewrite Hit.
  - destruct Hs as (it' & <- & Hok' & HT & Hit).
    edestruct (IH _ Hlt it' eq_refl Hok' Hcs) as [s' Hy]. exists s'.
    rewrite <- HT. econstructor; [|exact Hy]. unfold Next, FilterIter_Iter. by rewrite Hit.
Qed.
End filter_iter.

(** ** Searching components *)
Section search.
Context (type_implements : rtype → rtype → bool).

Lemma GetComponents_ok w o x T :
  w_objs w !! o = Some x →
  fi_ok w (GetComponents o T) ∧ fi_rest w (GetComponents o T) = obj_components x.
Proof.
  intros Hx. split.
  - split; [done|]. simpl. split; [by eexists|constructor].
  - unfold fi_rest, comps_of; simpl. rewrite Hx. by rewrite app_nil_r.
Qed.

Lemma foldl_Add_values w vals it :
  foldl (λ it v, if decide (0 < group_size w v) then FilterIter_Add v it else it) it vals =
  mkFilterIter (fi_target it) (fi_values it ++ filter (λ v, 0 < group_size w v) vals)
    (fi_current it) (fi_offset it) (fi_err it).
Proof.
  revert it. induction vals as [|v vals IH]; intros it; simpl.
  - rewrite app_nil_r. by destruct it.
  - rewrite IH, filter_cons. destruct (decide _); simpl; [by rewrite <- app_assoc|done].
Qed.

Lemma GetComponentsInChildren_eq w o x T :
  shape (view w) → w_objs w !! o = Some x →
  ∃ it l, GetComponentsInChildren o T w = (w, Ret it) ∧ l ≡ₚ below_list w o ∧
    fi_ok w it ∧ fi_target it = T ∧ fi_rest w it = l ≫= comps_of w.
Proof.
  intros Hs Hx.
  destruct (ObjectsInChildren_eq w Hs o x (S (size (w_objs w))) Hx) as (it & Hit & l & Hl & Hp);
    [rewrite view_size; lia|].
  unfold GetComponentsInChildren. eexists _, l. split.
  { rewrite (bind_Ret _ _ _ _ _ Hit), objects_fuel_bind. by rewrite (bind_Ret _ _ _ _ _ Hl). }
  split; [done|]. rewrite foldl_Add_values. simpl.
  assert (∀ y, y ∈ l → is_Some (w_objs w !! y)) as Hpres.
  { intros y Hy. rewrite Hp in Hy.
    assert (is_Some (view w !! o)) as Ho by (eexists; by apply view_obj).
    apply (elem_of_below_list w Hs o y Ho) in Hy as [_ Hy].
    destruct (below_lookup _ Hs _ _ Ho Hy) as [n Hn]. apply view_lookup in Hn as (z & ? & _).
    by eexists. }
  split_and!; [split; [done|]|done|]; simpl.
  - assert (Forall (λ g, is_Some (w_objs w !! g) ∧ comps_of w g ≠ [])
      (filter (λ v, 0 < group_size w v) l)) as Hall.
    { apply Forall_forall. intros g [Hg Hin]%list_elem_of_filter. split; [auto|].
      unfold group_size in Hg. unfold comps_of. destruct (w_objs w !! g); [|lia].
      intros E. rewrite E in Hg. simpl in Hg. lia. }
    destruct (filter _ l); [done|]. apply Forall_cons in Hall as [[? _] ?]. done.
  - unfold fi_rest; simpl. clear -l. induction l as [|g l IH]; [done|]. csimpl.
    rewrite filter_cons. destruct (decide _) as [Hg|Hg]; csimpl; [by rewrite IH|].
    rewrite IH. unfold group_size in Hg. unfold comps_of at 2.
    destruct (w_objs w !! g) as [y|]; [|done].
    assert (obj_components y = []) as ->; [|done]. destruct (obj_components y); [done|simpl in Hg; lia].
Qed.

Lemma HasComponent_eq w o x t :
  w_objs w !! o = Some x → typed w (obj_components x) →
  HasComponent type_implements o t w =
    (w, Ret (bool_decide (Exists (λ c, comp_type w c = Some t) (obj_components x)))).
Proof.
  intros Hx Hty. destruct (GetComponents_ok w o x (Some t) Hx) as [Hok Hrest].
  pose proof (Next_scan type_implements w _ Hok) as Hs. unfold scan_result in Hs.
  rewrite Hrest in Hs. unfold HasComponent. rewrite (obj_bind _ _ _ _ Hx).
  assert (∀ c, matching w (Some t) c ↔ comp_type w c = Some t) as Hm
    by (intros c; unfold matching; naive_solver).
  destruct (scan_typed type_implements w (Some t) _ Hty) as [[E1 E2]|(c & cs & E1 & _ & _ & E2)];
    cbn [fi_target GetComponents fromComponentArray] in Hs; rewrite E2 in Hs.
  - destruct Hs as [it' Hit]. rewrite (bind_Ret _ _ _ _ _ Hit).
    unfold mret, prog_ret. do 2 f_equal. symmetry.
    apply bool_decide_eq_false. rewrite Exists_exists. intros (c & Hc & Ht).
    assert (c ∈ filter (matching w (Some t)) (obj_components x)) as Hin
      by (apply list_elem_of_filter; by rewrite Hm).
    rewrite E1 in Hin. set_solver.
  - destruct Hs as (it' & _ & _ & _ & Hit). rewrite (bind_Ret _ _ _ _ _ Hit).
    unfold mret, prog_ret. do 2 f_equal. symmetry. apply bool_decide_eq_true. rewrite Exists_exists.
    assert (c ∈ filter (matching w (Some t)) (obj_components x)) as Hin
      by (rewrite E1; set_solver).
    apply list_elem_of_filter in Hin as [Hc Hin]. rewrite Hm in Hc. eauto.
Qed.

(** A search never gets stuck, whatever the recorded types are, and ends with no fatal
    error. *)
Lemma scan_goes_on w T cs : goes_on (scan type_implements w T cs) = true.
Proof.
  induction cs as [|c cs IH]; [done|]. simpl. unfold mbind, outcome_bind.
  destruct T as [t|]; [|done]. destruct (w_comps w !! c) as [b|]; [|done].
  assert (goes_on (type_match type_implements (cb_typ b) t) = true) as Hm.
  { unfold type_match. case_decide; [done|]. destruct (cb_typ b) as [t'|]; [|done].
    destruct (is_interface t'); [|done]. unfold Elem. by destruct t. }
  by destruct (type_match _ _ _) as [[]| |].
Qed.
Lemma keeps_Next it w :
  fi_ok w it → ∃ r, FilterIter_Next type_implements it w = (w, r) ∧ goes_on r = true.
Proof.
  intros Hok. pose proof (Next_scan type_implements w it Hok) as Hs. unfold scan_result in Hs.
  pose proof (scan_goes_on w (fi_target it) (fi_rest w it)) as Hg.
  destruct (scan _ _ _ _) as [[[c cs]|]|p|]; [..|done].
  - destruct Hs as (it' & _ & _ & _ & ->). eauto.
  - destruct Hs as [it' ->]. eauto.
  - rewrite Hs. eauto.
Qed.

Lemma keeps_HasComponent o t : keeps (HasComponent type_implements o t).
Proof.
  apply keeps_pure. intros w. unfold HasComponent.
  destruct (w_objs w !! o) as [x|] eqn:Hx.
  - rewrite (obj_bind _ _ _ _ Hx).
    destruct (keeps_Next (GetComponents o (Some t)) w) as (r & Hr & Hns).
    { by eapply GetComponents_ok. }
    unfold mbind, prog_bind. rewrite Hr. destruct r as [[it r]|p|]; [|by exists (Panic p)|done].
    eexists. split; [done|]. by destruct r.
  - exists (Panic NilDereference). split; [|done]. unfold mbind, prog_bind, obj. by rewrite Hx.
Qed.
End search.
#[export] Hint Resolve keeps_HasComponent : keeps.

(** Iterating [GetComponents o T] gives exactly the components of [o] whose type
    is [T] (all of them for a nil [T]), in order, and then [ErrEndIteration], and
    [HasComponent] answers whether there is one: the iterator with its cursor,
    group changes and early stop is a filter. *)
Theorem GetComponents_filters ti w o x T :
  w_objs w !! o = Some x → typed w (obj_components x) →
  (∃ s', @yields _ _ (FilterIter_Iter ti) (w, GetComponents o T)
     (filter (matching w T) (obj_components x)) ErrEndIteration s') ∧
  ∀ t, HasComponent ti o t w =
    (w, Ret (bool_decide (Exists (λ c, comp_type w c = Some t) (obj_components x)))).
Proof.
  intros Hx Hty. split; [|intros; by apply HasComponent_eq].
  destruct (GetComponents_ok w o x T Hx) as [Hok Hrest].
  destruct (Next_yields ti w _ Hok) as [s' Hy]; [by rewrite Hrest|].
  exists s'. by rewrite Hrest in Hy.
Qed.

(** Iterating [GetComponentsInChildren o T] gives the components of type [T] of
    the objects below [o], and of no other: those of [o] itself are not among
    them. *)
Theorem GetComponentsInChildren_filters ti w o x T :
  forest w → w_objs w !! o = Some x →
  (∀ y z, below (view w) o y → w_objs w !! y = Some z → typed w (obj_components z)) →
  ∃ it cs s', GetComponentsInChildren o T w = (w, Ret it) ∧
    @yields _ _ (FilterIter_Iter ti) (w, it) cs ErrEndIteration s' ∧
    ∀ c, c ∈ cs ↔ matching w T c ∧
      ∃ y, y ≠ o ∧ below (view w) o y ∧ c ∈ comps_of w y.
Proof.
  intros [Hs _] Hx Hty.
  assert (is_Some (view w !! o)) as Ho by (eexists; by apply view_obj).
  destruct (GetComponentsInChildren_eq w o x T Hs Hx) as (it & l & Hit & Hp & Hok & HT & Hrest).
  destruct (Next_yields ti w it Hok) as [s' Hy].
  { rewrite Hrest. apply Forall_forall. intros c (y & Hc & Hl)%list_elem_of_bind.
    rewrite Hp in Hl. apply (elem_of_below_list w Hs o y Ho) in Hl as [_ Hb].
    unfold comps_of in Hc. destruct (w_objs w !! y) as [z|] eqn:Hz; [|set_solver].
    specialize (Hty y z Hb Hz). unfold typed in Hty. rewrite Forall_forall in Hty. by apply Hty. }
  rewrite HT, Hrest in Hy. eexists it, _, s'. split_and!; [done|exact Hy|].
  intros c. rewrite list_elem_of_filter, list_elem_of_bind. f_equiv. split.
  - intros (y & Hc & Hl). rewrite Hp, (elem_of_below_list w Hs o y Ho) in Hl. naive_solver.
  - intros (y & ? & ? & ?). exists y. rewrite Hp, (elem_of_below_list w Hs o y Ho). auto.
Qed.

(** ** What the other pieces keep *)
Lemma keeps_ext {A} (m m' : W A) : (∀ w, m w = m' w) → keeps m → keeps m'.
Proof. intros E Hm w Hs. specialize (Hm w Hs). unfold wp in *. by rewrite <- E. Qed.

Lemma keeps_rt_set {A} r (f : Runtime → option (Runtime * A)) (a : A) :
  keeps (x ← rt r; match f x with
                   | Some (y, b) => _ ← modify (set_rt r y); mret b
                   | None => mret a
                   end).
Proof.
  intros w _. unfold wp, mbind, prog_bind, rt.
  destruct (w_rts w !! r) as [x|] eqn:Hx; [|done].
  destruct (f x) as [[y b]|]; [|done]. simpl. apply same_rts_only; [done|]. simpl.
  rewrite dom_insert_L. apply elem_of_dom_2 in Hx. set_solver.
Qed.

Section keeps_more.
Context (implements : iface → cid → bool) (type_implements : rtype → rtype → bool).
Context (type_of : cid → rtype) (IsUnique : cid → option Z).
Context (GetRequire : cid → option (list (oid * list rtype))).

Lemma keeps_first_below o T :
  keeps (it ← GetComponentsInChildren o T; FilterIter_Next type_implements it).
Proof.
  intros w Hs. unfold wp. destruct (w_objs w !! o) as [x|] eqn:Hx.
  - destruct (GetComponentsInChildren_eq w o x T Hs Hx) as (it & l & Hit & _ & Hok & _ & _).
    rewrite (bind_Ret _ _ _ _ _ Hit).
    destruct (keeps_Next type_implements it w Hok) as (r & -> & Hr). destruct r as [|p|]; [done| |done].
    simpl in Hr. by destruct (fatal p).
  - unfold GetComponentsInChildren, ObjectsInChildren, fromObject.
    unfold mbind, prog_bind, obj. by rewrite Hx.
Qed.

Lemma keeps_unique_taken o c : keeps (unique_taken type_implements type_of IsUnique o c).
Proof.
  unfold unique_taken. destruct (IsUnique c) as [u|]; auto with keeps.
  destruct (decide _); [|destruct (decide _); auto with keeps].
  apply keeps_bind; [auto with keeps|]. intros root.
  eapply keeps_ext; [intros; apply bind_assoc|].
  apply keeps_bind; [apply keeps_first_below|]. intros [it r]. auto with keeps.
Qed.

Lemma keeps_requires_of o ts : keeps (requires_of type_implements o ts).
Proof. induction ts; simpl; auto with keeps. Qed.
Lemma keeps_requires_met l : keeps (requires_met type_implements l).
Proof.
  induction l as [|[o ts] l IH]; simpl; auto with keeps.
  apply keeps_bind; [apply keeps_requires_of|]. intros []; auto with keeps.
Qed.

Lemma keeps_cache_runtime o r w :
  is_Some (w_rts w !! r) ∨ ¬ rts_ok w →
  wp (_ ← upd o (with_runtime (Some r)); mret (Some r)) (λ _ w', same w w') (λ p w', fatal p = false ∧ same w w') w.
Proof.
  intros Hr. unfold upd, wp. rewrite bind_assoc.
  destruct (w_objs w !! o) as [x|] eqn:Hx.
  - rewrite (obj_bind _ _ _ _ Hx). simpl. split.
    + rewrite view_set_obj. apply insert_id. by apply (view_obj w o x).
    + done.
    + intros Hok. destruct Hr as [Hr|]; [|done].
      by apply (same_set_obj w o x); [| |intros ? [= <-]; right|].
  - by unfold mbind, prog_bind, obj; rewrite Hx.
Qed.

Lemma runtime_loop_keeps fuel o m w l :
  chain (view w) m l → S (length l) < fuel →
  wp (runtime_loop fuel o (Some m)) (λ _ w', same w w') (λ p w', fatal p = false ∧ same w w') w.
Proof.
  intros Hc. revert fuel. induction Hc as [m n Hn Hp|m n p l Hn Hp Hc IH];
    intros [|fuel] Hlt; simpl in Hlt; try lia;
    apply view_lookup in Hn as (x & Hx & <-); simpl in Hp;
    cbn [runtime_loop]; unfold wp; rewrite (obj_bind _ _ _ _ Hx);
    (destruct (obj_runtime x) as [r|] eqn:Hr; [apply keeps_cache_runtime|]); rewrite ?Hp.
  1,3: destruct (w_rts w !! r) eqn:E; [left; by eexists|right]; intros Hok;
    by destruct (Hok _ _ _ Hx Hr) as [? ?]; simplify_eq.
  - destruct fuel; [lia|done].
  - apply IH. lia.
Qed.

Lemma keeps__runtime o : keeps (_runtime o).
Proof.
  intros w Hs. unfold wp, _runtime. destruct (w_objs w !! o) as [x|] eqn:Hx.
  - rewrite (obj_bind _ _ _ _ Hx). destruct (obj_runtime x); [by apply wp_ret|].
    rewrite objects_fuel_bind. destruct (obj_parent x) as [p|] eqn:Hp; [|done].
    destruct (sh_chain _ Hs o _ (view_obj _ _ _ Hx)) as [l Hl].
    assert (∃ l', chain (view w) p l') as [l' Hl'].
    { inversion Hl as [? n Hn Hpn|? n p' l' Hn Hpn Hl']; subst;
        rewrite (view_obj _ _ _ Hx) in Hn; injection Hn as <-; simpl in Hpn;
        rewrite Hp in Hpn; [done|]. injection Hpn as <-. eauto. }
    apply (runtime_loop_keeps _ o p w l' Hl').
    pose proof (chain_length _ _ _ Hl') as Hlen. rewrite view_size in Hlen. lia.
  - unfold mbind, prog_bind, obj. by rewrite Hx.
Qed.

Lemma keeps_SystemFilter r c : keeps (SystemFilter implements r c).
Proof.
  eapply keeps_ext; [|apply (keeps_rt_set r (λ x, Some (mkRuntime (rt_root x)
    (SystemFilter_frame implements c (innerSystems x)) ((λ s, mkCustom (cs_name s)
      (cs_filtered s ++ [c]) (cs_operated s)) <$> customSystems x), tt)) tt)].
  intros w. unfold SystemFilter, mbind, prog_bind, rt. by destruct (_ !! _).
Qed.
Lemma keeps_SystemOperate r name op c : keeps (SystemOperate implements r name op c).
Proof.
  eapply keeps_ext; [|apply (keeps_rt_set r (λ x,
    match inner_operate implements name op c (innerSystems x) with
    | Some f => Some (mkRuntime (rt_root x) f (customSystems x), None)
    | None => (λ l, (mkRuntime (rt_root x) (innerSystems x) l, None)) <$>
                operate_custom name op c (customSystems x)
    end) (Some (NewError "system not found")))].
  intros w. unfold SystemOperate, mbind, prog_bind, rt. destruct (_ !! _) as [x|]; [|done].
  destruct (inner_operate _ _ _ _ _); [done|]. by destruct (operate_custom _ _ _ _).
Qed.
Lemma keeps_hLog e : keeps (hLog_Error e).
Proof. unfold hLog_Error. auto with keeps. Qed.
Lemma keeps_log_err e : keeps (log_err e).
Proof. unfold log_err. destruct (is_some_err e); auto using keeps_hLog with keeps. Qed.
Lemma keeps_operate_removed r c : keeps (operate_removed implements r c).
Proof.
  unfold operate_removed. apply keeps_bind; [apply keeps_SystemOperate|]. intros e1.
  apply keeps_bind; [apply keeps_log_err|]. intros _.
  apply keeps_bind; [apply keeps_SystemOperate|]. intros e2. apply keeps_log_err.
Qed.

Lemma keeps_AddComponent_action o c :
  keeps (AddComponent_action implements type_implements type_of IsUnique GetRequire o c).
Proof.
  unfold AddComponent_action. apply keeps_bind; [apply keeps_unique_taken|]. intros [];
    [auto with keeps|].
  apply keeps_bind; [apply keeps_requires_met|]. intros []; simpl; [|auto with keeps].
  apply keeps_bind; [auto with keeps|]. intros _.
  apply keeps_bind; [apply keeps__runtime|]. intros [r|]; [|auto with keeps].
  apply keeps_bind; [apply keeps_SystemFilter|]. auto with keeps.
Qed.

(** ** Locking an object that is free *)
Lemma view_upd_free v o n l : v !! o = Some n → shape v →
  shape (<[o := mkNode (n_parent n) (n_children n) l]> v).
Proof.
  intros Hn Hv. set (n' := mkNode _ _ _).
  assert (∀ y m, <[o:=n']> v !! y = Some m → ∃ m0, v !! y = Some m0 ∧
    n_parent m0 = n_parent m ∧ n_children m0 = n_children m) as Hold.
  { intros y m [[<- <-]|[_ Hy]]%lookup_insert_Some; [by exists n|by exists m]. }
  assert (∀ y m0, v !! y = Some m0 → ∃ m, <[o:=n']> v !! y = Some m ∧
    n_parent m0 = n_parent m ∧ n_children m0 = n_children m) as Hnew.
  { intros y m0 Hy. destruct (decide (y = o)) as [->|Hne].
    - exists n'. rewrite lookup_insert_eq. by simplify_eq.
    - exists m0. by rewrite lookup_insert_ne. }
  split.
  - intros y m c (m0 & Hy & _ & Hc)%Hold Hin. rewrite <- Hc in Hin.
    destruct (sh_child _ Hv _ _ _ Hy Hin) as (k & (k' & ? & ? & _)%Hnew & ?).
    exists k'. split; congruence.
  - intros y m (m0 & Hy & _ & <-)%Hold. by eapply sh_nodup.
  - intros y m (m0 & Hy & _ & _)%Hold. destruct (sh_chain _ Hv _ _ Hy) as [k Hk]. exists k.
    clear -Hk Hnew. induction Hk as [y m0 Hy Hp|y m0 p k Hy Hp _ IH];
      destruct (Hnew _ _ Hy) as (m & ? & ? & _); econstructor; eauto; congruence.
Qed.

Lemma same_lock w o n l x :
  view w !! o = Some n → w_objs w !! o = Some x →
  rts_ok w → rts_ok (set_obj o (with_locker l x) w).
Proof.
  intros Hn Hx Hok p z r [[<- <-]|[_ Hz]]%set_obj_Some; simpl; eauto.
Qed.

(** Taking a free lock, and releasing it after a program that kept the tree. *)
Lemma lock_view w o x lk :
  w_objs w !! o = Some x → shape (view w) → shape (view (set_obj o (with_locker lk x) w)).
Proof.
  intros Hx Hs. rewrite view_set_obj.
  apply (view_upd_free (view w) o (node_of x) lk (view_obj _ _ _ Hx) Hs).
Qed.

Lemma relock w o x lk w2 :
  w_objs w !! o = Some x → obj_locker x = Free →
  same (set_obj o (with_locker lk x) w) w2 →
  ∃ y, w_objs w2 !! o = Some y ∧ obj_locker y = lk ∧ same w (set_obj o (with_locker Free y) w2).
Proof.
  intros Hx Hfree [E D O]. rewrite view_set_obj in E.
  assert (view w2 !! o = Some (node_of (with_locker lk x))) as Hn2 by (by rewrite E, lookup_insert_eq).
  apply view_lookup in Hn2 as (y & Hy & Hny). injection Hny as Hp Hc Hl.
  exists y. split_and!; [done|done|]. split.
  - rewrite view_set_obj, E, insert_insert_eq. apply insert_id. rewrite (view_obj _ _ _ Hx). f_equal.
    unfold node_of; simpl. by rewrite Hp, Hc, Hfree.
  - by simpl; rewrite D.
  - intros Hok. eapply same_lock; [by apply view_obj|done|]. apply O. by eapply same_lock; [apply view_obj|..].
Qed.

Lemma WithLock_keeps w o x action :
  keeps action → shape (view w) → w_objs w !! o = Some x → obj_locker x = Free →
  wp (WithLock o action) (λ _ w', same w w') (λ _ _, False) w.
Proof.
  intros Ha Hs Hx Hfree. unfold WithLock, Lock.
  apply wp_bind. unfold wp at 1. rewrite (obj_bind _ _ _ _ Hx), Hfree.
  unfold upd. rewrite (obj_bind _ _ _ _ Hx). simpl. apply wp_bind, wp_recovering.
  assert (∀ e w2, same (set_obj o (with_locker Writing x) w) w2 →
    wp (_ ← Unlock o; mret (M:=W) (e : option ecs_error)) (λ _ w', same w w') (λ _ _, False) w2)
    as Hun.
  { intros e w2 Hw2. destruct (relock _ _ _ _ _ Hx Hfree Hw2) as (y & Hy & Hl & Hsame).
    unfold wp, Unlock. rewrite bind_assoc, (obj_bind _ _ _ _ Hy), Hl. unfold upd.
    by rewrite bind_assoc, (obj_bind _ _ _ _ Hy). }
  eapply wp_mono; [apply Ha; by apply lock_view|simpl; eauto|].
  simpl. intros p w2 [Hp E]. rewrite Hp. apply wp_ret. by apply Hun.
Qed.

Lemma reading_keeps {A} w o x (m : W A) :
  keeps m → shape (view w) → w_objs w !! o = Some x → obj_locker x = Free →
  wp (reading o m) (λ _ w', same w w') (λ p w', fatal p = false ∧ same w w') w.
Proof.
  intros Ha Hs Hx Hfree. unfold reading, RLock.
  apply wp_bind. unfold wp at 1. rewrite (obj_bind _ _ _ _ Hx), Hfree.
  unfold upd. rewrite (obj_bind _ _ _ _ Hx). simpl. apply wp_bind, wp_recovering.
  assert (∀ B (k : W B) Q w2, (∀ w3, same w w3 → wp k Q (λ p w', fatal p = false ∧ same w w') w3) →
    same (set_obj o (with_locker (Reading 1) x) w) w2 →
    wp (_ ← RUnlock o; k) Q (λ p w', fatal p = false ∧ same w w') w2) as Hun.
  { intros B k Q w2 Hk Hw2. destruct (relock _ _ _ _ _ Hx Hfree Hw2) as (y & Hy & Hl & Hsame).
    unfold wp, RUnlock. rewrite bind_assoc, (obj_bind _ _ _ _ Hy), Hl. unfold upd.
    rewrite decide_True by done. rewrite bind_assoc, (obj_bind _ _ _ _ Hy).
    apply Hk in Hsame. exact Hsame. }
  eapply wp_mono; [apply Ha; by apply lock_view|..]; simpl.
  - intros a w2 Hw2. by apply Hun; [|done].
  - intros p w2 [Hp Hw2]. rewrite Hp. by apply Hun; [|done].
Qed.
End keeps_more.

(** ** Running under the lock *)
Lemma WithLock_run w o x action w' x' r :
  w_objs w !! o = Some x → obj_locker x = Free →
  action (set_obj o (with_locker Writing x) w) = (w', r) → goes_on r = true →
  w_objs w' !! o = Some x' → obj_locker x' = Writing →
  WithLock o action w =
    (set_obj o (with_locker Free x') w',
     Ret match r with Ret e => e | Panic p => Some (Recovered p) | Stuck => None end).
Proof.
  intros Hx Hfree Ha Hr Hx' Hl. unfold WithLock.
  assert (Lock o w = (set_obj o (with_locker Writing x) w, Ret tt)) as HL.
  { unfold Lock. rewrite (obj_bind _ _ _ _ Hx), Hfree. unfold upd. by rewrite (obj_bind _ _ _ _ Hx). }
  assert (Unlock o w' = (set_obj o (with_locker Free x') w', Ret tt)) as HU.
  { unfold Unlock. rewrite (obj_bind _ _ _ _ Hx'), Hl. unfold upd. by rewrite (obj_bind _ _ _ _ Hx'). }
  rewrite (bind_Ret _ _ _ _ _ HL). unfold recovering, mbind at 1, prog_bind. rewrite Ha.
  destruct r as [e|p|]; [..|done]; simpl in Hr |- *; [|destruct (fatal p); [done|]; simpl];
    by rewrite (bind_Ret _ _ _ _ _ HU).
Qed.

Lemma upd_run w o f x : w_objs w !! o = Some x → upd o f w = (set_obj o (f x) w, Ret tt).
Proof. intros Hx. unfold upd. by rewrite (obj_bind _ _ _ _ Hx). Qed.

Lemma set_obj_id w o x : w_objs w !! o = Some x → set_obj o x w = w.
Proof. intros Hx. unfold set_obj. rewrite insert_id by done. by destruct w. Qed.
Lemma set_obj_set_obj w o x y : set_obj o x (set_obj o y w) = set_obj o x w.
Proof. unfold set_obj; simpl. by rewrite insert_insert_eq. Qed.
Lemma set_obj_comm w o p x y :
  o ≠ p → set_obj o x (set_obj p y w) = set_obj p y (set_obj o x w).
Proof. intros. unfold set_obj; simpl. by rewrite insert_insert_ne. Qed.
Lemma with_locker_idem l l' x : with_locker l (with_locker l' x) = with_locker l x.
Proof. done. Qed.
Lemma with_locker_id x : with_locker (obj_locker x) x = x.
Proof. by destruct x. Qed.
Lemma set_obj_lookup w o x : w_objs (set_obj o x w) !! o = Some x.
Proof. apply lookup_insert_eq. Qed.
Lemma set_obj_lookup_ne w o p x : o ≠ p → w_objs (set_obj o x w) !! p = w_objs w !! p.
Proof. apply lookup_insert_ne. Qed.

Lemma chain_parents v v' o l :
  (∀ y m, v !! y = Some m → ∃ m', v' !! y = Some m' ∧ n_parent m' = n_parent m) →
  chain v o l → chain v' o l.
Proof.
  intros Hv. induction 1 as [o n Hn Hp|o n p l Hn Hp _ IH];
    destruct (Hv _ _ Hn) as (n' & ? & ?); econstructor; eauto; congruence.
Qed.

Lemma chain_locked w o x lk y l :
  w_objs w !! o = Some x → chain (view w) y l → chain (view (set_obj o (with_locker lk x) w)) y l.
Proof.
  intros Hx. apply chain_parents. intros z m Hz. rewrite view_set_obj.
  destruct (decide (o = z)) as [<-|Hne].
  - rewrite lookup_insert_eq. eexists. split; [done|].
    rewrite (view_obj _ _ _ Hx) in Hz. by simplify_eq.
  - rewrite lookup_insert_ne by done. eauto.
Qed.

(** ** Adding an object *)
Definition attached (o object : oid) (x y : Object) (w : World) : World :=
  set_obj o (with_children (obj_children x ++ [object]) x)
    (set_obj object (with_runtime (obj_runtime x) (with_parent (Some o) y)) w).

Lemma AddObject_bad w o object x :
  w_objs w !! o = Some x → obj_locker x = Free →
  ∀ lo, chain (view w) o lo → (o = object ∨ object ∈ lo) →
  WithLock o (
    has ← (if decide (o = object) then mret true else HasParent o object);
    if (has : bool) then mret (Some ErrBadObject) else
    x ← obj o;
    _ ← upd object (with_parent (Some o));
    _ ← upd object (with_runtime (obj_runtime x));
    _ ← upd o (λ x, with_children (obj_children x ++ [object]) x);
    mret None) w = (w, Ret (Some ErrBadObject)).
Proof.
  intros Hx Hfree lo Hlo Hbad. rewrite (WithLock_run w o x _
    (set_obj o (with_locker Writing x) w) (with_locker Writing x) (Ret (Some ErrBadObject)));
    try done; [| |apply set_obj_lookup].
  - f_equal. rewrite set_obj_set_obj, with_locker_idem, <- Hfree, with_locker_id.
    by apply set_obj_id.
  - destruct (decide (o = object)) as [->|Hne]; [done|].
    rewrite (bind_Ret _ _ _ _ _ (HasParent_eq _ _ _ object (chain_locked _ _ _ _ _ _ Hx Hlo))).
    rewrite bool_decide_true by naive_solver. done.
Qed.

Lemma AddObject_attach w o object x y lo :
  w_objs w !! o = Some x → obj_locker x = Free → w_objs w !! object = Some y →
  chain (view w) o lo → o ≠ object → object ∉ lo →
  WithLock o (
    has ← (if decide (o = object) then mret true else HasParent o object);
    if (has : bool) then mret (Some ErrBadObject) else
    x ← obj o;
    _ ← upd object (with_parent (Some o));
    _ ← upd object (with_runtime (obj_runtime x));
    _ ← upd o (λ x, with_children (obj_children x ++ [object]) x);
    mret None) w = (attached o object x y w, Ret None).
Proof.
  intros Hx Hfree Hy Hlo Hne Hnin. set (w1 := set_obj o (with_locker Writing x) w).
  set (y' := with_runtime (obj_runtime x) (with_parent (Some o) y)).
  set (x' := with_children (obj_children x ++ [object]) x).
  rewrite (WithLock_run w o x _
    (set_obj o (with_locker Writing x') (set_obj object y' w1)) (with_locker Writing x') (Ret None));
    try done; [| |apply set_obj_lookup].
  - f_equal. rewrite set_obj_set_obj, with_locker_idem. unfold w1, attached.
    rewrite (set_obj_comm _ object o) by done. rewrite set_obj_set_obj.
    f_equal. subst x'. by destruct x; simpl in *; subst.
  - fold w1. rewrite decide_False by done.
    assert (chain (view w1) o lo) as Hlo1 by (by eapply chain_locked).
    rewrite (bind_Ret _ _ _ _ _ (HasParent_eq _ _ _ object Hlo1)).
    rewrite bool_decide_false by done.
    assert (w_objs w1 !! o = Some (with_locker Writing x)) as Hx1 by apply set_obj_lookup.
    assert (w_objs w1 !! object = Some y) as Hy1
      by (unfold w1; by rewrite set_obj_lookup_ne by done).
    rewrite (obj_bind _ _ _ _ Hx1), (bind_Ret _ _ _ _ _ (upd_run _ _ _ _ Hy1)).
    rewrite (bind_Ret _ _ _ _ _ (upd_run _ _ _ _ (set_obj_lookup _ _ _))), set_obj_set_obj.
    rewrite (bind_Ret _ _ _ _ _ (upd_run _ o _ (with_locker Writing x)
      (eq_trans (set_obj_lookup_ne _ _ _ _ (not_eq_sym Hne)) Hx1))). done.
Qed.

(** C6: [AddObject] on every branch: an object that has a parent is refused, and so
    is [o] itself or one of its ancestors, the store being left as it was;
    otherwise the object gets [o] as its parent, the runtime [o] has recorded, and
    the last place among the children of [o]. *)
Theorem AddObject_result w o object x y :
  forest w → w_objs w !! o = Some x → w_objs w !! object = Some y →
  ∃ lo, chain (view w) o lo ∧
    AddObject o object w =
      if decide (is_Some (obj_parent y) ∨ o = object ∨ object ∈ lo)
      then (w, Ret (Some ErrBadObject)) else (attached o object x y w, Ret None).
Proof.
  intros [Hs Hfree] Hx Hy. destruct (sh_chain _ Hs o _ (view_obj _ _ _ Hx)) as [lo Hlo].
  pose proof (Hfree _ _ (view_obj _ _ _ Hx)) as Hl. simpl in Hl.
  exists lo. split; [done|]. unfold AddObject.
  rewrite (bind_Ret _ _ _ _ _ (Parent_eq _ _ _ Hy)).
  destruct (decide (is_Some (obj_parent y))) as [Hp|Hp]; [by rewrite decide_True by (by left)|].
  destruct (decide (o = object ∨ object ∈ lo)) as [Hbad|Hok].
  - rewrite (decide_True (P := _ ∨ _)) by (by right). by eapply AddObject_bad.
  - rewrite (decide_False (P := _ ∨ _)) by (intros [?|?]; [by apply Hp|by apply Hok]).
    eapply AddObject_attach; naive_solver.
Qed.

(** ** Destroying a subtree *)
Section destroying.
Context (implements : iface → cid → bool).

(** What the runtime's systems see of a removed component. *)
Definition removed_from (R : Runtime) (c : cid) : Runtime :=
  mkRuntime (rt_root R)
    (operate_destroy implements SYSTEM_OP_DESTROY_ADD c
       (operate_update implements SYSTEM_OP_UPDATE_REMOVE c (innerSystems R)))
    (customSystems R).

Definition queue_one (y : oid) (w : World) : World :=
  match w_objs w !! y with
  | None => w
  | Some x =>
      match obj_runtime x ≫= λ r, (r,.) <$> (w_rts w !! r) with
      | None => w
      | Some (r, R) => set_rt r (foldl removed_from R (obj_components x)) w
      end
  end.

Definition dispose_one (y : oid) (w : World) : World :=
  match w_objs w !! y with None => w | Some x => set_obj y (disposed x) w end.

(** Object after object: its components are handed to its runtime, then it is
    emptied. *)
Definition destroyed (l : list oid) (w : World) : World :=
  foldl (λ w y, dispose_one y (queue_one y w)) w l.

Lemma set_rt_set_rt r R R' w : set_rt r R (set_rt r R' w) = set_rt r R w.
Proof. unfold set_rt; simpl. by rewrite insert_insert_eq. Qed.
Lemma set_rt_id r R w : w_rts w !! r = Some R → set_rt r R w = w.
Proof. intros. unfold set_rt. rewrite insert_id by done. by destruct w. Qed.
Lemma set_obj_set_rt o x r R w : set_obj o x (set_rt r R w) = set_rt r R (set_obj o x w).
Proof. done. Qed.

Lemma SystemOperate_run r name op c w R f :
  w_rts w !! r = Some R → inner_operate implements name op c (innerSystems R) = Some f →
  SystemOperate implements r name op c w =
    (set_rt r (mkRuntime (rt_root R) f (customSystems R)) w, Ret None).
Proof.
  intros HR Hf. unfold SystemOperate, mbind, prog_bind, rt. rewrite HR, Hf. done.
Qed.

Lemma operate_removed_run r R c w :
  w_rts w !! r = Some R →
  operate_removed implements r c w = (set_rt r (removed_from R c) w, Ret tt).
Proof.
  intros HR. unfold operate_removed.
  rewrite (bind_Ret _ _ _ _ _ (SystemOperate_run r "update" SYSTEM_OP_UPDATE_REMOVE c w R _ HR eq_refl)).
  unfold log_err. simpl.
  set (w1 := set_rt r _ w).
  assert (w_rts w1 !! r = Some (mkRuntime (rt_root R)
    (operate_update implements SYSTEM_OP_UPDATE_REMOVE c (innerSystems R)) (customSystems R))) as H1
    by apply lookup_insert_eq.
  rewrite (bind_Ret _ _ w1 w1 tt) by done.
  rewrite (bind_Ret _ _ _ _ _ (SystemOperate_run r "destroy" SYSTEM_OP_DESTROY_ADD c w1 _ _ H1 eq_refl)).
  unfold w1. by rewrite set_rt_set_rt.
Qed.

Lemma components_loop_run o x w cs :
  w_objs w !! o = Some x →
  (∀ r, obj_runtime x = Some r → is_Some (w_rts w !! r)) →
  for_each cs (λ c, x ← obj o;
      match obj_runtime x with None => mret tt | Some r => operate_removed implements r c end) w =
    (match obj_runtime x ≫= λ r, (r,.) <$> (w_rts w !! r) with
     | None => w
     | Some (r, R) => set_rt r (foldl removed_from R cs) w
     end, Ret tt).
Proof.
  revert w. induction cs as [|c cs IH]; intros w Hx Hr; cbn [for_each].
  - destruct (obj_runtime x) as [r|]; simpl; [|done].
    destruct (Hr r eq_refl) as [R HR]. rewrite HR. simpl. by rewrite set_rt_id.
  - destruct (obj_runtime x) as [r|] eqn:Hxr.
    + destruct (Hr r eq_refl) as [R HR].
      assert ((x ← obj o; match obj_runtime x with None => mret tt
               | Some r => operate_removed implements r c end) w =
              (set_rt r (removed_from R c) w, Ret tt)) as Hstep.
      { rewrite (obj_bind _ _ _ _ Hx), Hxr. by apply operate_removed_run. }
      rewrite (bind_Ret _ _ _ _ _ Hstep), IH; [|done|].
      * simpl. rewrite HR. simpl. rewrite lookup_insert_eq. simpl. by rewrite set_rt_set_rt.
      * intros r' [= <-]. simpl. rewrite lookup_insert_eq. by eexists.
    + assert ((x ← obj o; match obj_runtime x with None => mret tt
               | Some r => operate_removed implements r c end) w = (w, Ret tt)) as Hstep
        by (by rewrite (obj_bind _ _ _ _ Hx), Hxr).
      by rewrite (bind_Ret _ _ _ _ _ Hstep), IH.
Qed.

Lemma queue_one_set_obj o y x w : o ≠ y → queue_one y (set_obj o x w) = set_obj o x (queue_one y w).
Proof.
  intros Hne. unfold queue_one. rewrite set_obj_lookup_ne by done. simpl.
  destruct (w_objs w !! y) as [z|]; [|done]. by destruct (obj_runtime z ≫= _) as [[r R]|].
Qed.
Lemma queue_one_objs y w : w_objs (queue_one y w) = w_objs w.
Proof.
  unfold queue_one. destruct (w_objs w !! y) as [z|]; [|done].
  by destruct (obj_runtime z ≫= _) as [[r R]|].
Qed.
Lemma dispose_one_set_obj o y x w :
  o ≠ y → dispose_one y (set_obj o x w) = set_obj o x (dispose_one y w).
Proof.
  intros Hne. unfold dispose_one. rewrite set_obj_lookup_ne by done.
  destruct (w_objs w !! y); [by rewrite set_obj_comm|done].
Qed.

Lemma destroyed_set_obj o x l w : o ∉ l → destroyed l (set_obj o x w) = set_obj o x (destroyed l w).
Proof.
  unfold destroyed. revert w. induction l as [|y l IH]; intros w Ho; [done|].
  apply not_elem_of_cons in Ho as [Hne Ho]. simpl.
  by rewrite queue_one_set_obj, dispose_one_set_obj, IH.
Qed.

(** What [destroyed] leaves at each address. *)
Lemma destroyed_lookup l w y :
  w_objs (destroyed l w) !! y =
    (λ x, if decide (y ∈ l) then disposed x else x) <$> (w_objs w !! y).
Proof.
  unfold destroyed. revert w. induction l as [|z l IH]; intros w; simpl.
  - by destruct (_ !! _).
  - rewrite IH. unfold dispose_one. rewrite queue_one_objs.
    destruct (w_objs w !! z) as [x|] eqn:Hz.
    + destruct (decide (z = y)) as [->|Hne].
      * rewrite set_obj_lookup, Hz. csimpl. rewrite (decide_True (P := y ∈ y :: l)) by set_solver.
        by destruct (decide (y ∈ l)).
      * rewrite set_obj_lookup_ne by done. rewrite queue_one_objs.
        destruct (w_objs w !! y); [|done]. csimpl. f_equal.
        by repeat destruct (decide _); set_solver.
    + rewrite queue_one_objs. destruct (decide (z = y)) as [->|Hne]; [by rewrite Hz|].
      destruct (w_objs w !! y); [|done]. csimpl. f_equal.
      by repeat destruct (decide _); set_solver.
Qed.

Lemma destroyed_comps l w : w_comps (destroyed l w) = w_comps w.
Proof.
  unfold destroyed. revert w. induction l as [|z l IH]; intros w; simpl; [done|].
  rewrite IH. unfold dispose_one, queue_one.
  by repeat (case_match; simplify_eq/=).
Qed.

Lemma queue_one_rts y w : dom (w_rts (queue_one y w)) = dom (w_rts w).
Proof.
  unfold queue_one. destruct (w_objs w !! y) as [x|]; [|done].
  destruct (obj_runtime x) as [r|]; simpl; [|done].
  destruct (w_rts w !! r) eqn:E; simpl; [|done].
  rewrite dom_insert_L. apply elem_of_dom_2 in E. set_solver.
Qed.
Lemma dispose_one_rts y w : w_rts (dispose_one y w) = w_rts w.
Proof. unfold dispose_one. by destruct (_ !! _). Qed.

Lemma destroyed_rts l w : dom (w_rts (destroyed l w)) = dom (w_rts w).
Proof.
  unfold destroyed. revert w. induction l as [|z l IH]; intros w; simpl; [done|].
  by rewrite IH, dispose_one_rts, queue_one_rts.
Qed.

Lemma queue_one_relock o x lk w :
  w_objs w !! o = Some x →
  queue_one o (set_obj o (with_locker lk x) w) = set_obj o (with_locker lk x) (queue_one o w).
Proof.
  intros Hx. unfold queue_one. rewrite set_obj_lookup, Hx. simpl.
  by destruct (obj_runtime x ≫= _) as [[r R]|].
Qed.

(** The objects of [l] are, in [w], as [v] has them, free, with a sound runtime. *)
Definition ready (v : gmap oid node) (l : list oid) (w : World) : Prop :=
  ∀ y, y ∈ l → ∃ x, w_objs w !! y = Some x ∧ v !! y = Some (node_of x) ∧ obj_locker x = Free ∧
    ∀ r, obj_runtime x = Some r → is_Some (w_rts w !! r).

Lemma ready_mono v l k w : (∀ y, y ∈ k → y ∈ l) → ready v l w → ready v k w.
Proof. intros Hsub Hl y Hy. auto. Qed.

Lemma ready_frame v l w w' :
  ready v l w → (∀ y, y ∈ l → w_objs w' !! y = w_objs w !! y) →
  dom (w_rts w') = dom (w_rts w) → ready v l w'.
Proof.
  intros Hl Ho Hd y Hy. destruct (Hl y Hy) as (x & Hx & Hv & Hf & Hr). exists x.
  rewrite Ho by done. split_and!; try done. intros r Hxr.
  rewrite <- elem_of_dom, Hd, elem_of_dom. auto.
Qed.

Lemma destroyed_app l k w : destroyed (l ++ k) w = destroyed k (destroyed l w).
Proof. apply foldl_app. Qed.

(** [for _, child := range o.children { child._destroy() }] *)
Lemma children_loop_run n v cs w :
  shape v → NoDup (cs ≫= subtree n v) → ready v (cs ≫= subtree n v) w →
  (∀ c w', c ∈ cs → ready v (subtree n v c) w' →
     destroy_rec implements n c w' = (destroyed (subtree n v c) w', Ret tt)) →
  for_each cs (destroy_rec implements n) w = (destroyed (cs ≫= subtree n v) w, Ret tt).
Proof.
  intros Hv. revert w. induction cs as [|c cs IH]; intros w Hnd Hready Hrec; [done|].
  csimpl in *. apply NoDup_app in Hnd as (Hnd1 & Hdisj & Hnd2). cbn [for_each].
  assert (ready v (subtree n v c) w) as Hr1
    by (eapply ready_mono; [|exact Hready]; set_solver).
  assert (ready v (cs ≫= subtree n v) w) as Hr2
    by (eapply ready_mono; [|exact Hready]; set_solver).
  rewrite (bind_Ret _ _ _ _ _ (Hrec c w ltac:(set_solver) Hr1)).
  rewrite IH; [by rewrite destroyed_app|done| |set_solver].
  eapply ready_frame; [exact Hr2| |apply destroyed_rts].
  intros y Hy. rewrite destroyed_lookup.
  destruct (decide (y ∈ subtree n v c)) as [Hin|]; [by destruct (Hdisj y)|].
  by destruct (w_objs w !! y).
Qed.

Lemma destroy_rec_run n v o w :
  shape v → deep n v o → ready v (subtree n v o) w →
  destroy_rec implements n o w = (destroyed (subtree n v o) w, Ret tt).
Proof.
  intros Hv. revert o w. induction n as [|n IH]; intros o w Hdeep Hready.
  { by destruct (deep_S _ Hv _ _ Hdeep) as (? & ? & _). }
  pose proof (subtree_NoDup _ Hv _ _ Hdeep) as Hnd. cbn [subtree] in Hnd.
  apply NoDup_cons in Hnd as [Ho Hnd].
  destruct (deep_S _ Hv _ _ Hdeep) as (? & [= <-] & Hdeep').
  destruct (Hready o) as (x & Hx & Hvo & Hfree & Hrt); [cbn [subtree]; set_solver|].
  set (L := children_of v o ≫= subtree n v) in *.
  assert (obj_children x = children_of v o) as Hch by (unfold children_of; by rewrite Hvo).
  set (w1 := set_obj o (with_locker Writing x) w).
  set (w2 := set_obj o (with_locker Writing x) (queue_one o w)).
  set (w3 := destroyed L w2).
  assert (w_objs w2 !! o = Some (with_locker Writing x)) as Hx2 by apply set_obj_lookup.
  assert (w_objs w3 !! o = Some (with_locker Writing x)) as Hx3.
  { unfold w3. rewrite destroyed_lookup, Hx2. simpl. by rewrite decide_False by done. }
  assert (for_each (children_of v o) (destroy_rec implements n) w2 = (w3, Ret tt)) as Hkids.
  { apply (children_loop_run n v); [done|exact Hnd| |].
    - eapply ready_frame; [eapply (ready_mono _ _ L); [|exact Hready]; cbn [subtree]; set_solver| |].
      + intros y Hy. unfold w2. rewrite set_obj_lookup_ne by set_solver. by rewrite queue_one_objs.
      + apply queue_one_rts.
    - intros c w' Hc Hw'. apply IH; auto. }
  cbn [destroy_rec]. erewrite bind_Ret.
  2: { eapply (WithLock_run w o x _ (set_obj o (disposed (with_locker Writing x)) w3)
         (disposed (with_locker Writing x)) (Ret None));
         [done|done| |done|apply set_obj_lookup|done].
       assert (w_objs w1 !! o = Some (with_locker Writing x)) as Hx1 by apply set_obj_lookup.
       rewrite (obj_bind _ _ _ _ Hx1).
       rewrite (bind_Ret _ _ w1 w2 tt).
       - rewrite (obj_bind _ _ _ _ Hx2).
         change (obj_children (with_locker Writing x)) with (obj_children x).
         rewrite Hch, (bind_Ret _ _ _ _ _ Hkids).
         by rewrite (bind_Ret _ _ _ _ _ (upd_run _ _ disposed _ Hx3)).
       - unfold w2. rewrite <- (queue_one_relock o x Writing w Hx). fold w1.
         rewrite (components_loop_run o (with_locker Writing x) w1 _ Hx1 Hrt).
         unfold queue_one. by rewrite Hx1. }
  unfold log_err. simpl. f_equal. rewrite set_obj_set_obj.
    change (with_locker Free (disposed (with_locker Writing x))) with (with_locker Free (disposed x)).
    replace (with_locker Free (disposed x)) with (disposed x) by (by destruct x; simpl in *; subst).
    unfold w3, w2. rewrite <- destroyed_set_obj by done. rewrite set_obj_set_obj.
    unfold destroyed at 2. simpl. unfold dispose_one at 2. rewrite queue_one_objs, Hx. done.
Qed.
End destroying.

(** A tree whose runtime pointers are sound. *)
Definition wf (w : World) : Prop := forest w ∧ rts_ok w.

Section removing.
Context (implements : iface → cid → bool).
Context (w : World) (Hwf : wf w).
Abbreviation v := (view w).

Lemma ready_subtree o : is_Some (v !! o) → ready v (tree_of v o) w.
Proof.
  destruct Hwf as [[Hs Hfree] Hok]. intros Ho y Hy.
  apply (elem_of_subtree v Hs _ o y (deep_size v Hs o Ho)) in Hy.
  destruct (below_lookup v Hs _ _ Ho Hy) as [n Hn]. pose proof Hn as (x & Hx & <-)%view_lookup.
  exists x. split_and!; try done; [by apply (Hfree y (node_of x))|]. intros r. by apply Hok with y.
Qed.

Lemma destroy_run o x w1 fuel :
  w_objs w !! o = Some x → size (w_objs w) < fuel →
  ready v (tree_of v o) w1 →
  destroy_rec implements fuel o w1 = (destroyed implements (tree_of v o) w1, Ret tt).
Proof.
  destruct Hwf as [[Hs _] _]. intros Hx Hfuel Hr.
  assert (is_Some (v !! o)) as Ho by (eexists; by apply view_obj).
  assert (deep fuel v o) as Hd.
  { destruct (deep_size v Hs o Ho) as (l & Hl & _). exists l. rewrite view_size. split; [done|lia]. }
  assert (subtree fuel v o = tree_of v o) as E by (apply subtree_fuel; auto using deep_size).
  rewrite <- E in *. by apply (destroy_rec_run implements fuel v).
Qed.

(** [destroyed] below [object], [o] having dropped it. *)
Definition removed (o object : oid) (x : Object) (cs : list oid) : World :=
  destroyed implements (tree_of v object) (set_obj o (with_children cs x) w).

Lemma not_below_parent o x object :
  w_objs w !! o = Some x → object ∈ obj_children x → o ∉ tree_of v object.
Proof.
  destruct Hwf as [[Hs _] _]. intros Hx Hin Ho.
  destruct (sh_child _ Hs o _ object (view_obj _ _ _ Hx) Hin) as (m & Hm & Hp).
  apply (elem_of_subtree v Hs _ object o) in Ho; [|apply deep_size; [done|by eexists]].
  destruct (sh_chain _ Hs o _ (view_obj _ _ _ Hx)) as [l Hl].
  pose proof (below_chain v Hs _ _ _ Ho Hl) as Hel.
  apply (chain_not_self v object (o :: l)); [|set_solver]. by econstructor.
Qed.

Lemma RemoveObject_run o object x :
  w_objs w !! o = Some x →
  RemoveObject implements o object w =
    if decide (o = object) then (w, Ret (Some ErrBadObject)) else
    match remove_first (object =.) (obj_children x) with
    | None => (w, Ret None)
    | Some cs => (removed o object x cs, Ret None)
    end.
Proof.
  intros Hx. unfold RemoveObject. destruct (decide (o = object)) as [->|Hne]; [done|].
  pose proof Hwf as [[Hs Hfree] Hok]. pose proof (Hfree _ _ (view_obj _ _ _ Hx)) as Hl. simpl in Hl.
  assert (∀ cs, with_locker Free (with_children cs (with_locker Writing x)) = with_children cs x)
    as Hfr by (intros cs; clear -Hl; destruct x; simpl in *; by subst).
  set (w1 := set_obj o (with_locker Writing x) w).
  assert (w_objs w1 !! o = Some (with_locker Writing x)) as Hx1 by apply set_obj_lookup.
  assert (set_obj o (with_locker Free (with_locker Writing x)) w1 = w) as Hback.
  { unfold w1. rewrite set_obj_set_obj, with_locker_idem, <- Hl, with_locker_id.
    by apply set_obj_id. }
  destruct (remove_first (object =.) (obj_children x)) as [cs|] eqn:Hrem.
  - assert (object ∈ obj_children x) as Hin
      by (rewrite (remove_first_eq_Permutation _ _ _ Hrem); set_solver).
    assert (is_Some (w_objs w !! object)) as [y Hy].
    { destruct (sh_child _ Hs o _ object (view_obj _ _ _ Hx) Hin) as (m & Hm & _).
      apply view_lookup in Hm as (y & ? & _). by eexists. }
    pose proof (not_below_parent o x object Hx Hin) as Hnot.
    assert (is_Some (v !! object)) as Hobj by (eexists; by apply view_obj).
    set (w2 := set_obj o (with_children cs (with_locker Writing x)) w1).
    assert (w2 = set_obj o (with_children cs (with_locker Writing x)) w) as Ew2
      by (unfold w2, w1; by rewrite set_obj_set_obj).
    assert (ready v (tree_of v object) w2) as Hready.
    { eapply ready_frame; [by apply ready_subtree| |done]. intros z Hz. rewrite Ew2.
      apply set_obj_lookup_ne. intros ->. done. }
    eapply eq_trans; [eapply (WithLock_run w o x _ (destroyed implements (tree_of v object) w2)
      (with_children cs (with_locker Writing x)) (Ret None)); [done|done| |done| |done]|].
    + fold w1. rewrite (obj_bind _ _ _ _ Hx1). cbn [obj_children with_locker]. rewrite Hrem.
      rewrite (bind_Ret _ _ _ _ _ (upd_run _ _ _ _ Hx1)). fold w2. unfold _destroy.
      rewrite bind_assoc, objects_fuel_bind. erewrite bind_Ret; [done|].
      apply (destroy_run object y); [done| |done].
      rewrite Ew2. simpl. rewrite map_size_insert_Some by (by eexists). lia.
    + rewrite destroyed_lookup, Ew2, set_obj_lookup. simpl. by rewrite decide_False by done.
    + f_equal. unfold removed. rewrite <- destroyed_set_obj by done. rewrite Ew2, set_obj_set_obj.
      by rewrite Hfr.
  - eapply eq_trans; [eapply (WithLock_run w o x _ w1 (with_locker Writing x) (Ret None));
      [done|done| |done|done|done]|by rewrite Hback].
    fold w1. rewrite (obj_bind _ _ _ _ Hx1). cbn [obj_children with_locker]. by rewrite Hrem.
Qed.

Lemma Destroy_run o x :
  w_objs w !! o = Some x →
  Destroy implements o w =
    match obj_parent x with
    | None => (destroyed implements (tree_of v o) w, Ret None)
    | Some p =>
        match w_objs w !! p with
        | None => (w, Panic NilDereference)
        | Some xp => match remove_first (o =.) (obj_children xp) with
                     | None => (w, Ret None)
                     | Some cs => (removed p o xp cs, Ret None)
                     end
        end
    end.
Proof.
  intros Hx. unfold Destroy. rewrite (bind_Ret _ _ _ _ _ (Parent_eq _ _ _ Hx)).
  pose proof Hwf as [[Hs _] _].
  destruct (obj_parent x) as [p|] eqn:Hp.
  - destruct (sh_chain _ Hs o _ (view_obj _ _ _ Hx)) as [l Hl].
    assert (p ≠ o ∧ is_Some (w_objs w !! p)) as [Hne [xp Hxp]].
    { inversion Hl as [? n Hn Hpn|? n p' l' Hn Hpn Hl']; subst;
        rewrite (view_obj _ _ _ Hx) in Hn; injection Hn as <-; simpl in Hpn;
        rewrite Hp in Hpn; [done|]. injection Hpn as <-. split.
      - intros ->. by apply (chain_not_self v _ _ Hl); set_solver.
      - destruct (chain_lookup _ _ _ Hl') as [n (z & ? & _)%view_lookup]. by eexists. }
    rewrite Hxp. pose proof (RemoveObject_run p o xp Hxp) as Hrun.
    rewrite decide_False in Hrun by done.
    destruct (remove_first (o =.) (obj_children xp)); by rewrite (bind_Ret _ _ _ _ _ Hrun).
  - unfold _destroy. rewrite bind_assoc, objects_fuel_bind. erewrite bind_Ret; [done|].
    apply (destroy_run o x); [done|lia|].
    apply ready_subtree. eexists. by apply view_obj.
Qed.
End removing.

(** ** Every operation keeps the forest *)
Section operations.
Context (implements : iface → cid → bool) (type_implements : rtype → rtype → bool).
Context (type_of : cid → rtype) (IsUnique : cid → option Z).
Context (GetRequire : cid → option (list (oid * list rtype))).
Abbreviation run_op := (run_op implements type_implements type_of IsUnique GetRequire).

Lemma same_wf w w' : same w w' → wf w → wf w'.
Proof.
  intros [E D O] [[Hs Hf] Hok]. split; [|auto]. unfold forest. by rewrite E.
Qed.

Lemma wf_free w o x : wf w → w_objs w !! o = Some x → obj_locker x = Free.
Proof. intros [[_ Hf] _] Hx. by apply (Hf o (node_of x)), view_obj. Qed.

(** Dropping children keeps the shape. *)
Lemma shape_drop v v' :
  (∀ y m', v' !! y = Some m' → ∃ m, v !! y = Some m ∧ n_parent m = n_parent m' ∧
     n_children m' `sublist_of` n_children m) →
  (∀ y m, v !! y = Some m → ∃ m', v' !! y = Some m' ∧ n_parent m' = n_parent m) →
  shape v → shape v'.
Proof.
  intros Hold Hnew Hs. split.
  - intros o n c (m & Hm & _ & Hsub)%Hold Hc.
    destruct (sh_child _ Hs o m c Hm) as (k & Hk & Hp); [eapply elem_of_sublist; eauto|].
    destruct (Hnew _ _ Hk) as (k' & ? & ?). exists k'. split; congruence.
  - intros o n (m & Hm & _ & Hsub)%Hold. eapply sublist_NoDup; [|exact Hsub]. by eapply sh_nodup; eauto.
  - intros o n (m & Hm & _)%Hold. destruct (sh_chain _ Hs _ _ Hm) as [l Hl]. exists l.
    by eapply chain_parents.
Qed.

Lemma wf_drop w w' :
  wf w → dom (w_rts w') = dom (w_rts w) →
  (∀ y x', w_objs w' !! y = Some x' → ∃ x, w_objs w !! y = Some x ∧ obj_parent x = obj_parent x' ∧
     obj_children x' `sublist_of` obj_children x ∧ obj_locker x' = obj_locker x ∧
     (obj_runtime x' = obj_runtime x ∨ obj_runtime x' = None)) →
  (∀ y x, w_objs w !! y = Some x → is_Some (w_objs w' !! y)) → wf w'.
Proof.
  intros [[Hs Hf] Hok] Hd Hold Hnew. split; [split|].
  - apply (shape_drop (view w)); [| |done].
    + intros y m' (x' & Hx' & <-)%view_lookup. destruct (Hold _ _ Hx') as (x & Hx & ? & ? & _).
      exists (node_of x). split_and!; [by apply view_obj|done|done].
    + intros y m (x & Hx & <-)%view_lookup. destruct (Hnew _ _ Hx) as [x' Hx'].
      destruct (Hold _ _ Hx') as (z & Hz & ? & _). simplify_eq.
      exists (node_of x'). split; [by apply view_obj|done].
  - intros y m' (x' & Hx' & <-)%view_lookup. destruct (Hold _ _ Hx') as (x & Hx & _ & _ & Hl & _).
    simpl. rewrite Hl. by apply (Hf y (node_of x)), view_obj.
  - intros y x' r Hx' Hr. destruct (Hold _ _ Hx') as (x & Hx & _ & _ & _ & [E|E]);
      rewrite E in Hr; [|done]. rewrite <- elem_of_dom, Hd, elem_of_dom. by eapply Hok.
Qed.

Lemma wf_destroyed l w : wf w → wf (destroyed implements l w).
Proof.
  intros Hwf. apply (wf_drop w); [done|apply destroyed_rts|..].
  - intros y x'. rewrite destroyed_lookup, fmap_Some. intros (x & Hx & ->). exists x.
    destruct (decide _); split_and!; auto using sublist_nil_l.
  - intros y x Hx. rewrite destroyed_lookup, Hx. by eexists.
Qed.

Lemma wf_with_children w o x cs :
  wf w → w_objs w !! o = Some x → cs `sublist_of` obj_children x →
  wf (set_obj o (with_children cs x) w).
Proof.
  intros Hwf Hx Hsub. apply (wf_drop w); [done|done|..].
  - intros y x' [[<- <-]|[_ Hy]]%set_obj_Some; [by exists x; auto 6|exists x'; auto 6].
  - intros y z Hz. destruct (decide (o = y)) as [->|Hne].
    + rewrite set_obj_lookup. by eexists.
    + rewrite set_obj_lookup_ne by done. by eexists.
Qed.

Lemma remove_first_sublist {A} (P : A → Prop) `{∀ x, Decision (P x)} l k :
  remove_first P l = Some k → k `sublist_of` l.
Proof.
  intros (l1 & y & l2 & -> & -> & _)%remove_first_Some.
  apply sublist_app; [done|by apply sublist_cons].
Qed.

(** Hanging a parentless object below one that it is not an ancestor of. *)
Lemma wf_attached w o object x y lo :
  wf w → w_objs w !! o = Some x → w_objs w !! object = Some y → obj_parent y = None →
  chain (view w) o lo → o ≠ object → object ∉ lo → wf (attached o object x y w).
Proof.
  intros [[Hs Hf] Hok] Hx Hy Hyp Hlo Hne Hnin.
  set (v := view w) in *. set (v' := view (attached o object x y w)).
  assert (v' = <[o := mkNode (obj_parent x) (obj_children x ++ [object]) (obj_locker x)]>
    (<[object := mkNode (Some o) (obj_children y) (obj_locker y)]> v)) as Ev'
    by (unfold v', attached; by rewrite !view_set_obj).
  assert (v' !! o = Some (mkNode (obj_parent x) (obj_children x ++ [object]) (obj_locker x))) as Ho
    by (by rewrite Ev', lookup_insert_eq).
  assert (v' !! object = Some (mkNode (Some o) (obj_children y) (obj_locker y))) as Hobj
    by (by rewrite Ev', lookup_insert_ne, lookup_insert_eq).
  assert (∀ z, z ≠ o → z ≠ object → v' !! z = v !! z) as Hrest
    by (intros; by rewrite Ev', !lookup_insert_ne by done).
  pose proof (view_obj _ _ _ Hx) as Hvo. pose proof (view_obj _ _ _ Hy) as Hvy.
  assert (∀ z m, z ≠ object → v !! z = Some m → ∃ m', v' !! z = Some m' ∧ n_parent m' = n_parent m)
    as Hpar.
  { intros z m Hz Hm. destruct (decide (z = o)) as [->|]; [|rewrite Hrest by done; eauto].
    eexists. split; [exact Ho|]. fold v in Hvo. by simplify_eq. }
  assert (∀ z l, chain v z l → object ∉ z :: l → chain v' z l) as Hchain.
  { intros z l Hl. induction Hl as [z n Hn Hp|z n p l Hn Hp Hl IH]; intros Hz;
      destruct (Hpar z n ltac:(set_solver) Hn) as (m' & Hm' & Hpm');
      [eapply chain_root|eapply chain_parent]; eauto; try congruence. apply IH. set_solver. }
  assert (chain v' object (o :: lo)) as Hcobj
    by (eapply chain_parent; [exact Hobj|done|apply Hchain; [done|set_solver]]).
  assert (∀ z l, chain v z l → ∃ l', chain v' z l') as Hchain'.
  { intros z l Hl. induction Hl as [z n Hn Hp|z n p l Hn Hp Hl [l' IH]];
      (destruct (decide (z = object)) as [->|Hz]; [by eexists|]);
      destruct (Hpar z n Hz Hn) as (m' & Hm' & Hpm').
    - exists []. eapply chain_root; [done|congruence].
    - exists (p :: l'). eapply chain_parent; [done|congruence|done]. }
  split; [split|]; [split|..].
  - intros z n c Hn Hc. fold v' in Hn.
    assert (c = object ∧ z = o ∨ ∃ n0, v !! z = Some n0 ∧ c ∈ n_children n0) as [[-> ->]|(n0 & Hn0 & Hc0)].
    { destruct (decide (z = o)) as [->|]; [|destruct (decide (z = object)) as [->|]].
      - rewrite Ho in Hn. simplify_eq/=. apply elem_of_app in Hc as [Hc|Hc]; [right|left; set_solver].
        exists (node_of x). done.
      - rewrite Hobj in Hn. simplify_eq/=. right. exists (node_of y). done.
      - right. exists n. by rewrite <- Hrest. }
    + by eexists.
    + destruct (sh_child _ Hs _ _ _ Hn0 Hc0) as (m & Hm & Hp).
      destruct (Hpar c m) as (m' & ? & ?); [|done|exists m'; split; [done|congruence]].
      intros ->. fold v in Hvy. simplify_eq/=; congruence.
  - intros z n Hn. fold v' in Hn. destruct (decide (z = o)) as [->|]; [|destruct (decide (z = object)) as [->|]].
    + rewrite Ho in Hn. simplify_eq/=. apply NoDup_app. split_and!.
      * by apply (sh_nodup _ Hs o (node_of x)).
      * intros c Hc Hc'%list_elem_of_singleton. subst c.
        destruct (sh_child _ Hs o (node_of x) object Hvo Hc) as (m & Hm & Hp).
        fold v in Hvy. simplify_eq/=; congruence.
      * apply NoDup_singleton.
    + rewrite Hobj in Hn. simplify_eq/=. by apply (sh_nodup _ Hs object (node_of y)).
    + rewrite Hrest in Hn by done. by eapply sh_nodup.
  - intros z n Hn. fold v' in Hn.
    assert (is_Some (v !! z)) as [m Hm].
    { destruct (decide (z = o)) as [->|]; [by eexists|].
      destruct (decide (z = object)) as [->|]; [by eexists|]. rewrite <- Hrest by done. by eexists. }
    destruct (sh_chain _ Hs _ _ Hm) as [l Hl]. by eapply Hchain'.
  - intros z n Hn. fold v' in Hn. destruct (decide (z = o)) as [->|]; [|destruct (decide (z = object)) as [->|]].
    + rewrite Ho in Hn. simplify_eq/=. by apply (Hf o (node_of x)).
    + rewrite Hobj in Hn. simplify_eq/=. by apply (Hf object (node_of y)).
    + rewrite Hrest in Hn by done. by eapply Hf.
  - intros z u r Hu Hr. unfold attached in Hu.
    apply set_obj_Some in Hu as [[<- <-]|[_ [[<- <-]|[_ Hu]]%set_obj_Some]]; simpl in Hr.
    + by apply (Hok o x).
    + by apply (Hok o x).
    + by apply (Hok z u).
Qed.

Lemma wf_fresh w o x :
  wf w → w_objs w !! o = None → obj_parent x = None → obj_children x = [] →
  obj_locker x = Free → (∀ r, obj_runtime x = Some r → is_Some (w_rts w !! r)) →
  wf (set_obj o x w).
Proof.
  intros [[Hs Hf] Hok] Ho Hp Hc Hl Hr.
  assert (view w !! o = None) as Hvo by (unfold view; by rewrite lookup_fmap, Ho).
  assert (∀ z l, chain (view w) z l → chain (view (set_obj o x w)) z l) as Hchain.
  { intros z l. apply chain_parents. intros y m Hy. rewrite view_set_obj.
    rewrite lookup_insert_ne by (intros ->; congruence). eauto. }
  rewrite view_set_obj in Hchain.
  split; [split; [split|]|].
  - intros z n c. rewrite view_set_obj. intros [[<- <-]|[_ Hn]]%lookup_insert_Some Hc'.
    + simpl in Hc'. rewrite Hc in Hc'. set_solver.
    + destruct (sh_child _ Hs _ _ _ Hn Hc') as (m & Hm & ?). exists m.
      rewrite lookup_insert_ne by (intros ->; congruence). done.
  - intros z n. rewrite view_set_obj. intros [[<- <-]|[_ Hn]]%lookup_insert_Some.
    + simpl. rewrite Hc. constructor.
    + by eapply sh_nodup.
  - intros z n. rewrite view_set_obj. intros [[<- <-]|[_ Hn]]%lookup_insert_Some.
    + exists []. eapply chain_root; [apply lookup_insert_eq|done].
    + destruct (sh_chain _ Hs _ _ Hn) as [l Hl']. eauto.
  - intros z n. rewrite view_set_obj. intros [[<- <-]|[_ Hn]]%lookup_insert_Some; [done|by eapply Hf].
  - intros z u r [[<- <-]|[_ Hu]]%set_obj_Some Hur; [by apply Hr|by eapply Hok].
Qed.

(** What an operation does: it ends, with a tree and without a fatal error. *)
Definition ends_wf {A} (m : W A) (w : World) : Prop :=
  wp m (λ _ w', wf w') (λ p w', fatal p = false ∧ wf w') w.

Lemma ends_eq {A} (m : W A) w w' r : m w = (w', r) → goes_on r = true → wf w' → ends_wf m w.
Proof.
  intros E Hr Hw. unfold ends_wf, wp. rewrite E. destruct r as [|p|]; [done| |done].
  simpl in Hr. by destruct (fatal p).
Qed.

Lemma ends_same {A} (m : W A) w :
  wf w → wp m (λ _ w', same w w') (λ p w', fatal p = false ∧ same w w') w → ends_wf m w.
Proof. intros Hw Hm. eapply wp_mono; [exact Hm|..]; simpl; [eauto using same_wf|]. intros p w' [? ?]. eauto using same_wf. Qed.

Lemma ends_keeps {A} (m : W A) w : keeps m → wf w → ends_wf m w.
Proof. intros Hm Hw. apply ends_same; [done|]. apply Hm. by destruct Hw as [[? _] _]. Qed.

Lemma ends_bind {A B} (m : W A) (f : A → W B) w :
  ends_wf m w → (∀ a w', wf w' → ends_wf (f a) w') → ends_wf (m ≫= f) w.
Proof. intros Hm Hf. apply wp_bind. eapply wp_mono; [exact Hm|..]; simpl; auto. Qed.

Lemma ends_WithLock o action w : keeps action → wf w → ends_wf (WithLock o action) w.
Proof.
  intros Ha Hw. destruct (w_objs w !! o) as [x|] eqn:Hx.
  - apply ends_same; [done|]. eapply wp_mono; [apply (WithLock_keeps w o x)|..]; eauto using wf_free.
    + by destruct Hw as [[? _] _].
    + done.
  - eapply (ends_eq _ w w (Panic NilDereference)); [|done|done].
    unfold WithLock, Lock, mbind, prog_bind, obj. by rewrite Hx.
Qed.

Lemma ends_missing {A} o (f : Object → W A) w :
  wf w → w_objs w !! o = None → ends_wf (obj o ≫= f) w.
Proof.
  intros Hw Hx. eapply (ends_eq _ w w (Panic NilDereference)); [|done|done].
  unfold mbind, prog_bind, obj. by rewrite Hx.
Qed.

Lemma keeps_RemoveComponent_action o c : keeps (
    _ ← upd o (λ x, with_components (default (obj_components x)
                                       (remove_first (c =.) (obj_components x))) x);
    x ← obj o;
    match obj_runtime x with
    | None => mret (Some no_runtime)
    | Some r => _ ← operate_removed implements r c; mret None
    end).
Proof.
  apply keeps_bind; [auto with keeps|]. intros _. apply keeps_bind; [auto with keeps|]. intros x.
  destruct (obj_runtime x); [|auto with keeps].
  apply keeps_bind; [apply keeps_operate_removed|auto with keeps].
Qed.

Lemma ends_AddComponent o c w :
  wf w → ends_wf (AddComponent implements type_implements type_of IsUnique GetRequire o c) w.
Proof.
  intros Hw. unfold AddComponent. apply ends_bind.
  { destruct (w_objs w !! o) as [x|] eqn:Hx.
    - apply ends_same; [done|]. eapply reading_keeps; eauto using wf_free, keeps__runtime.
      by destruct Hw as [[? _] _].
    - unfold Object_Runtime, reading, RLock. eapply (ends_eq _ w w (Panic NilDereference)); [|done|done].
      unfold mbind, prog_bind, obj. by rewrite Hx. }
  intros r w1 Hw1. apply ends_bind; [apply ends_keeps; [unfold ComponentBase_Init; auto with keeps|done]|].
  intros _ w2 Hw2. apply ends_bind; [apply ends_WithLock; [apply keeps_AddComponent_action|done]|].
  intros e w3 Hw3. apply ends_bind; [apply ends_keeps; [apply keeps_log_err|done]|].
  intros _ w4 Hw4. apply ends_keeps; [unfold call_Initialize; auto with keeps|done].
Qed.

Lemma ends_AddObject o object w : wf w → ends_wf (AddObject o object) w.
Proof.
  intros Hw. destruct (w_objs w !! object) as [y|] eqn:Hy; cycle 1.
  { unfold AddObject, Parent. eapply (ends_eq _ w w (Panic NilDereference)); [|done|done].
    unfold mbind, prog_bind, obj. by rewrite Hy. }
  destruct (w_objs w !! o) as [x|] eqn:Hx; cycle 1.
  { unfold AddObject. unfold ends_wf, wp. rewrite (bind_Ret _ _ _ _ _ (Parent_eq _ _ _ Hy)).
    destruct (decide _); [done|]. unfold WithLock, Lock, mbind, prog_bind, obj. by rewrite Hx. }
  pose proof Hw as [[Hs Hf] Hok]. destruct (sh_chain _ Hs o _ (view_obj _ _ _ Hx)) as [lo Hlo].
  pose proof (wf_free _ _ _ Hw Hx) as Hl.
  unfold AddObject, ends_wf, wp. rewrite (bind_Ret _ _ _ _ _ (Parent_eq _ _ _ Hy)).
  destruct (decide (is_Some (obj_parent y))) as [|Hp]; [done|].
  destruct (decide (o = object ∨ object ∈ lo)) as [Hbad|Hgood].
  - by rewrite (AddObject_bad w o object x Hx Hl lo Hlo Hbad).
  - rewrite (AddObject_attach w o object x y lo Hx Hl Hy Hlo) by tauto.
    apply (wf_attached w o object x y lo); try done; [|tauto|tauto].
    by apply eq_None_not_Some.
Qed.

Lemma wf_removed w o object x cs :
  wf w → w_objs w !! o = Some x → remove_first (object =.) (obj_children x) = Some cs →
  wf (removed implements w o object x cs).
Proof.
  intros Hw Hx Hcs. apply wf_destroyed, wf_with_children; [done|done|].
  by eapply remove_first_sublist.
Qed.

Lemma ends_RemoveObject o object w : wf w → ends_wf (RemoveObject implements o object) w.
Proof.
  intros Hw. destruct (w_objs w !! o) as [x|] eqn:Hx.
  - unfold ends_wf, wp. rewrite (RemoveObject_run implements w Hw o object x Hx).
    destruct (decide _); [done|].
    destruct (remove_first _ _) as [cs|] eqn:Hcs; [|done]. by apply wf_removed.
  - unfold RemoveObject, ends_wf, wp. destruct (decide _); [done|].
    unfold WithLock, Lock, mbind, prog_bind, obj. by rewrite Hx.
Qed.

Lemma ends_Destroy o w : wf w → ends_wf (Destroy implements o) w.
Proof.
  intros Hw. destruct (w_objs w !! o) as [x|] eqn:Hx.
  - unfold ends_wf, wp. rewrite (Destroy_run implements w Hw o x Hx).
    destruct (obj_parent x) as [p|]; [|by apply wf_destroyed].
    destruct (w_objs w !! p) as [xp|] eqn:Hxp; [|done].
    destruct (remove_first _ _) as [cs|] eqn:Hcs; [|done]. by apply wf_removed.
  - unfold Destroy, Parent. eapply (ends_eq _ w w (Panic NilDereference)); [|done|done].
    unfold mbind, prog_bind, obj. by rewrite Hx.
Qed.

Lemma ends_NewObject u n w : wf w → ends_wf (NewObject u n) w.
Proof.
  intros Hw. unfold ends_wf, wp, NewObject. simpl. apply wf_fresh; try done.
  apply not_elem_of_dom, is_fresh.
Qed.

Lemma NewObject_run u n w :
  NewObject u n w = (set_obj (fresh (dom (w_objs w))) (mkObject u n None [] [] None Free) w,
                     Ret (fresh (dom (w_objs w)))).
Proof. done. Qed.

Lemma NewRuntime_run u w :
  let root := fresh (dom (w_objs w)) in let r := fresh (dom (w_rts w)) in
  NewRuntime u w = (set_obj root (mkObject u "runtime" (Some r) [] [] None Free)
    (set_rt r (mkRuntime root Frame_Init []) w), Ret r).
Proof.
  intros root r. set (x := mkObject u "runtime" None [] [] None Free).
  unfold NewRuntime. rewrite (bind_Ret _ _ w (set_obj root x w) root) by done.
  rewrite (bind_Ret _ _ (set_obj root x w) (set_obj root x w) (set_obj root x w)) by done.
  rewrite (bind_Ret _ _ _ (set_rt r (mkRuntime root Frame_Init []) (set_obj root x w)) tt) by done.
  rewrite <- set_obj_set_rt.
  rewrite (bind_Ret _ _ _ _ _ (upd_run _ _ _ _ (set_obj_lookup _ _ _))).
  by rewrite set_obj_set_obj.
Qed.

Lemma ends_NewRuntime u w : wf w → ends_wf (NewRuntime u) w.
Proof.
  intros Hw. unfold ends_wf, wp. rewrite NewRuntime_run. apply wf_fresh; try done.
  - destruct Hw as [Hf Hok]. split; [exact Hf|]. intros o y q Hy Hq. simpl.
    destruct (decide (fresh (dom (w_rts w)) = q)) as [<-|];
      [rewrite lookup_insert_eq; by eexists|].
    rewrite lookup_insert_ne by done. by eapply Hok.
  - simpl. apply not_elem_of_dom, is_fresh.
  - simpl. intros q [= <-]. rewrite lookup_insert_eq. by eexists.
Qed.

Lemma keeps_RegisterSystem r n : keeps (RegisterSystem r n).
Proof.
  intros w _. unfold wp, RegisterSystem, mbind, prog_bind, rt.
  destruct (w_rts w !! r) as [x|] eqn:Hx; [|done]. destruct (decide _); [done|].
  apply same_rts_only; [done|]. simpl. rewrite dom_insert_L. apply elem_of_dom_2 in Hx. set_solver.
Qed.

(** ** Removing by type *)

(** Where the loop meets its first component of type [t]; a component it cannot
    read before that makes it panic. *)
Fixpoint first_of_type (w : World) (t : rtype) (cs : list cid) : option nat :=
  match cs with
  | [] => None
  | c :: cs =>
      b ← w_comps w !! c;
      if decide (cb_typ b = Some t) then Some 0 else S <$> first_of_type w t cs
  end.

(** The store in which a call of [RemoveComponentsByType] hangs: the component is
    out of the object's list, and the object's mutex is held. *)
Definition hung (o : oid) (x : Object) (i : nat) (w : World) : World :=
  set_obj o (with_locker Writing
    (with_components (take i (obj_components x) ++ drop (S i) (obj_components x)) x)) w.

Lemma by_type_loop_run o x t w :
  w_objs w !! o = Some x → obj_locker x = Writing → ∀ l n,
  drop n (obj_components x) = l →
  let loop := RemoveComponentsByType_loop implements (length (obj_components x) - n) n (obj_components x) o t w in
  match first_of_type w t l with
  | Some i => loop = (hung o x (n + i) w, Stuck)
  | None => loop = (w, Ret None) ∨ loop = (w, Panic NilDereference)
  end.
Proof.
  intros Hx Hl l. induction l as [|c l IH]; intros n Hd loop; unfold loop; clear loop; simpl.
  - assert (length (obj_components x) - n = 0) as -> by (rewrite <- length_drop, Hd; done). by left.
  - assert (obj_components x !! n = Some c) as Hc by (rewrite <- (Nat.add_0_r n), <- lookup_drop, Hd; done).
    assert (n < length (obj_components x)) as Hn by (by eapply lookup_lt_Some).
    replace (length (obj_components x) - n) with (S (length (obj_components x) - S n)) by lia.
    cbn [RemoveComponentsByType_loop]. rewrite Hc.
    destruct (w_comps w !! c) as [b|] eqn:Hb; simpl;
      [|right; apply bind_Panic; unfold comp; by rewrite Hb].
    rewrite (bind_Ret _ _ w w b) by (unfold comp; by rewrite Hb).
    destruct (decide (cb_typ b = Some t)) as [Ht|Ht].
    + rewrite (obj_bind _ _ _ _ Hx). rewrite decide_True by lia.
      rewrite (bind_Ret _ _ _ _ _ (upd_run _ _ _ _ Hx)). rewrite Nat.add_0_r.
      assert (hung o x n w = set_obj o (with_components (take n (obj_components x) ++
        drop (S n) (obj_components x)) x) w) as ->.
      { unfold hung. f_equal. clear -Hl. destruct x; simpl in *; by subst. }
      apply bind_Stuck. unfold Object_Runtime, reading, RLock. apply bind_Stuck.
      rewrite (obj_bind _ _ _ _ (set_obj_lookup _ _ _)). simpl. by rewrite Hl.
    + specialize (IH (S n)). simpl in IH. rewrite (drop_S _ c n) in Hd by done.
      specialize (IH ltac:(congruence)).
      destruct (first_of_type w t l) as [i|]; simpl; [by rewrite Nat.add_succ_r|done].
Qed.

Lemma first_of_type_Some w t l i : first_of_type w t l = Some i →
  ∃ c, l !! i = Some c ∧ comp_type w c = Some t.
Proof.
  revert i. induction l as [|c l IH]; intros i; simpl; [done|].
  destruct (w_comps w !! c) as [b|] eqn:Hb; simpl; [|done]. destruct (decide _) as [Ht|_].
  - intros [= <-]. exists c. split; [done|]. unfold comp_type. by rewrite Hb.
  - rewrite fmap_Some. intros (j & Hj & ->). simpl. by apply IH.
Qed.

Lemma first_of_type_set_obj o x w t l : first_of_type (set_obj o x w) t l = first_of_type w t l.
Proof.
  induction l as [|c l IH]; simpl; [done|]. destruct (w_comps w !! c); simpl; [|done].
  by rewrite IH.
Qed.

(** [RemoveComponentsByType] never returns when the object has a component of
    that type: [o.Runtime()] asks for the read lock of the object whose write lock
    the call holds. *)
Theorem RemoveComponentsByType_deadlocks w o x t i :
  w_objs w !! o = Some x → obj_locker x = Free → first_of_type w t (obj_components x) = Some i →
  RemoveComponentsByType implements o t w = (hung o x i w, Stuck).
Proof.
  intros Hx Hl Hi. set (w1 := set_obj o (with_locker Writing x) w).
  pose proof (by_type_loop_run o (with_locker Writing x) t w1 (set_obj_lookup _ _ _) eq_refl _ 0
    eq_refl) as E. cbn zeta in E. rewrite drop_0, Nat.sub_0_r in E. unfold w1 in E at 1.
  rewrite first_of_type_set_obj in E. simpl obj_components in E. rewrite Hi in E. simpl in E.
  assert (hung o (with_locker Writing x) i w1 = hung o x i w) as Eh.
  { unfold hung, w1. by rewrite set_obj_set_obj. }
  rewrite Eh in E. unfold RemoveComponentsByType. apply bind_Stuck. unfold WithLock.
  assert (Lock o w = (w1, Ret tt)) as HL.
  { unfold Lock. rewrite (obj_bind _ _ _ _ Hx), Hl. by apply upd_run. }
  rewrite (bind_Ret _ _ _ _ _ HL). apply bind_Stuck. unfold recovering.
  assert (w_objs w1 !! o = Some (with_locker Writing x)) as Hx1 by apply set_obj_lookup.
  rewrite (obj_bind _ _ _ _ Hx1). simpl obj_components. by rewrite E.
Qed.

Lemma RemoveComponentsByType_quiet o t w :
  wf w → (∀ x, w_objs w !! o = Some x → first_of_type w t (obj_components x) = None) →
  (∃ e, RemoveComponentsByType implements o t w = hLog_Error e w) ∨
  RemoveComponentsByType implements o t w = (w, Panic NilDereference).
Proof.
  intros Hw Hno. destruct (w_objs w !! o) as [x|] eqn:Hx; cycle 1.
  { right. unfold RemoveComponentsByType. apply bind_Panic.
    unfold WithLock, Lock, mbind, prog_bind, obj. by rewrite Hx. }
  specialize (Hno x eq_refl). pose proof (wf_free _ _ _ Hw Hx) as Hl.
  set (w1 := set_obj o (with_locker Writing x) w).
  pose proof (by_type_loop_run o (with_locker Writing x) t w1 (set_obj_lookup _ _ _) eq_refl _ 0
    eq_refl) as E. cbn zeta in E. rewrite drop_0, Nat.sub_0_r in E. unfold w1 in E at 1.
  rewrite first_of_type_set_obj in E. simpl obj_components in E. rewrite Hno in E.
  assert (∃ e, WithLock o (x ← obj o; RemoveComponentsByType_loop implements
    (length (obj_components x)) 0 (obj_components x) o t) w = (w, Ret e)) as [e Ee].
  { assert (set_obj o (with_locker Free (with_locker Writing x)) w1 = w) as Hback.
    { unfold w1. rewrite set_obj_set_obj. apply set_obj_id. rewrite Hx. f_equal.
      clear -Hl. destruct x; simpl in *; by subst. }
    assert (∃ r, RemoveComponentsByType_loop implements (length (obj_components x)) 0
      (obj_components x) o t w1 = (w1, r) ∧ goes_on r = true) as (r & Er & Hr)
      by (destruct E as [E|E]; rewrite E; by eexists).
    eexists. rewrite (WithLock_run w o x _ w1 (with_locker Writing x) r Hx Hl);
      [by rewrite Hback| |done|apply set_obj_lookup|done].
    rewrite (obj_bind _ _ _ _ (set_obj_lookup _ _ _)). exact Er. }
  left. exists e. unfold RemoveComponentsByType. by rewrite (bind_Ret _ _ _ _ _ Ee).
Qed.

Lemma ends_RemoveComponentsByType o t w :
  wf w → (∀ x, w_objs w !! o = Some x → first_of_type w t (obj_components x) = None) →
  ends_wf (RemoveComponentsByType implements o t) w.
Proof.
  intros Hw Hno. unfold ends_wf, wp.
  destruct (RemoveComponentsByType_quiet o t w Hw Hno) as [[e ->]| ->]; [|done].
  exact (ends_keeps _ w (keeps_hLog e) Hw).
Qed.

(** The one operation that hangs: [RemoveComponentsByType] on an object that has a
    component of the type. *)
Definition hangs (p : op) (w : World) : option (oid * Object * nat) :=
  match p with
  | OpRemoveComponentsByType o t =>
      x ← w_objs w !! o;
      i ← first_of_type w t (obj_components x);
      Some (o, x, i)
  | _ => None
  end.

Lemma ends_run_op p w : wf w → hangs p w = None → ends_wf (run_op p) w.
Proof.
  intros Hw Hh. destruct p; simpl.
  - apply ends_bind; [by apply ends_NewRuntime|done].
  - by apply ends_keeps, Hw; apply keeps_RegisterSystem.
  - apply ends_bind; [by apply ends_NewObject|done].
  - apply ends_bind; [by apply ends_AddObject|done].
  - apply ends_bind; [by apply ends_RemoveObject|done].
  - apply ends_bind; [by apply ends_Destroy|done].
  - by apply ends_AddComponent.
  - apply ends_bind; [apply ends_WithLock; [apply keeps_RemoveComponent_action|done]|].
    intros e w' Hw'. apply ends_keeps; [apply keeps_log_err|done].
  - apply ends_RemoveComponentsByType; [done|]. intros x Hx. simpl in Hh. rewrite Hx in Hh.
    simpl in Hh. by destruct (first_of_type w t _).
  - apply ends_bind; [apply ends_WithLock; [auto with keeps|done]|].
    intros e w' Hw'. apply ends_keeps; [apply keeps_hLog|done].
Qed.

Lemma hangs_inv p w o x i : hangs p w = Some (o, x, i) →
  ∃ t, p = OpRemoveComponentsByType o t ∧ w_objs w !! o = Some x ∧
    first_of_type w t (obj_components x) = Some i.
Proof.
  destruct p as [| | | | | | | |o' t|]; simpl; try done.
  destruct (w_objs w !! o') as [x'|] eqn:Hx; simpl; [|done].
  destruct (first_of_type w t _) as [i'|] eqn:Hi; simpl; [|done]. intros [= -> -> ->]. by exists t.
Qed.

Lemma run_op_hangs p w o x i :
  wf w → hangs p w = Some (o, x, i) → run_op p w = (hung o x i w, Stuck).
Proof.
  intros Hw Hh. destruct (hangs_inv _ _ _ _ _ Hh) as (t & -> & Hx & Hi).
  apply RemoveComponentsByType_deadlocks; [done|by eapply wf_free|done].
Qed.

Lemma run_op_cases p w : wf w →
  match hangs p w with
  | None => ∃ w' r, run_op p w = (w', r) ∧ goes_on r = true ∧ wf w'
  | Some (o, x, i) => run_op p w = (hung o x i w, Stuck)
  end.
Proof.
  intros Hw. destruct (hangs p w) as [[[o x] i]|] eqn:Hh; [by apply run_op_hangs|].
  pose proof (ends_run_op p w Hw Hh) as He. unfold ends_wf, wp in He.
  destruct (run_op p w) as [w' [a|q|]]; [eauto 6| |done]. destruct He as [Hq Hw'].
  exists w', (Panic q). simpl. by rewrite Hq.
Qed.

(** One operation, run to its end (also a panic is one). *)
Definition op_step (w w' : World) : Prop := ∃ p r, run_op p w = (w', r) ∧ r ≠ Stuck.

Lemma op_step_wf w w' : wf w → op_step w w' → wf w'.
Proof.
  intros Hw (p & r & E & Hr). pose proof (run_op_cases p w Hw) as Hc.
  destruct (hangs p w) as [[[o x] i]|]; [rewrite E in Hc; by injection Hc as _ ->|].
  destruct Hc as (w1 & r1 & E1 & _ & Hw1). rewrite E in E1; by injection E1 as -> _.
Qed.

Lemma wf_Init : wf World_Init.
Proof.
  assert (∀ o, view World_Init !! o = None) as Hv by done.
  split; [split; [split|]|]; intros o x; rewrite ?Hv; (done || intros; by set_solver).
Qed.

(** C1: the object tree is a forest after any sequence of operations that end: every
    child's parent is the object that lists it, no child is listed twice, no object is
    its own ancestor, no mutex is left locked and every recorded runtime exists.  From
    such a store every operation comes to an end that leaves the process alive and keeps
    all this, with one exception:
    [RemoveComponentsByType] on an object that has a component of the type takes the
    first one out of the object's list and then hangs for ever with the object's mutex
    held. *)
Theorem tree_invariant w :
  rtc op_step World_Init w →
  wf w ∧ ∀ p,
    match hangs p w with
    | None => ∃ w' r, run_op p w = (w', r) ∧ goes_on r = true ∧ wf w'
    | Some (o, x, i) => ∃ t c,
        p = OpRemoveComponentsByType o t ∧ w_objs w !! o = Some x ∧
        obj_components x !! i = Some c ∧ comp_type w c = Some t ∧
        run_op p w = (hung o x i w, Stuck)
    end.
Proof.
  intros Hr. assert (wf w) as Hw.
  { pose proof wf_Init as H0. induction Hr as [w|w w' w2 Hs _ IH]; [done|].
    by apply IH, (op_step_wf w). }
  split; [done|]. intros p. pose proof (run_op_cases p w Hw) as Hc.
  destruct (hangs p w) as [[[o x] i]|] eqn:Hh; [|done].
  destruct (hangs_inv p w o x i Hh) as (t & -> & Hx & Hi).
  destruct (first_of_type_Some w t _ i Hi) as (c & Hci & Ht). by exists t, c.
Qed.

(** ** What destroying an object amounts to *)

(** The components of an object whose recorded runtime is [r]. *)
Definition comps_in (w : World) (r : rid) (y : oid) : list cid :=
  match w_objs w !! y with
  | Some x => if decide (obj_runtime x = Some r) then obj_components x else []
  | None => []
  end.

Lemma queue_one_lookup y w r :
  w_rts (queue_one implements y w) !! r =
    (λ R, foldl (removed_from implements) R (comps_in w r y)) <$> (w_rts w !! r).
Proof.
  unfold queue_one, comps_in. destruct (w_objs w !! y) as [x|]; [|by destruct (_ !! _)].
  destruct (obj_runtime x) as [r'|] eqn:Hr; simpl; [|by destruct (_ !! _)].
  destruct (decide (r' = r)) as [->|Hne].
  - destruct (w_rts w !! r) as [R|] eqn:HR; simpl; [|by rewrite HR].
    rewrite lookup_insert_eq, decide_True by done. done.
  - rewrite (decide_False (P := Some r' = Some r)) by congruence.
    destruct (w_rts w !! r') as [R|]; simpl; [rewrite lookup_insert_ne by done|];
      by destruct (w_rts w !! r).
Qed.

Lemma destroyed_rts_lookup l w r :
  NoDup l →
  w_rts (destroyed implements l w) !! r =
    (λ R, foldl (removed_from implements) R (l ≫= comps_in w r)) <$> (w_rts w !! r).
Proof.
  unfold destroyed. revert w. induction l as [|y l IH]; intros w Hnd; [by destruct (_ !! _)|].
  apply NoDup_cons in Hnd as [Hy Hnd]. simpl. rewrite (IH _ Hnd), dispose_one_rts, queue_one_lookup.
  rewrite <- option_fmap_compose. apply option_fmap_ext. intros R. simpl. csimpl.
  rewrite foldl_app. f_equal. apply Forall_bind_ext, Forall_forall. intros z Hz.
  unfold comps_in, dispose_one. rewrite queue_one_objs. destruct (w_objs w !! y) as [x|] eqn:Hx.
  - rewrite set_obj_lookup_ne by (intros ->; done). by rewrite queue_one_objs.
  - by rewrite queue_one_objs.
Qed.

(** C5: [Destroy] on an object that hangs in the tree (or is a root): the object and
    everything below it is emptied, its parent forgets it, no other object changes,
    and each runtime receives, in the order of the walk, one update-removal and one
    destroy request per component of the emptied objects that belong to it. *)
Theorem Destroy_result w o x :
  wf w → w_objs w !! o = Some x →
  (∀ p, obj_parent x = Some p → ∃ xp, w_objs w !! p = Some xp ∧ o ∈ obj_children xp) →
  ∃ w' l, Destroy implements o w = (w', Ret None) ∧
    NoDup l ∧ (∀ y, y ∈ l ↔ below (view w) o y) ∧
    (∀ y z, w_objs w !! y = Some z → w_objs w' !! y = Some (
       if decide (y ∈ l) then disposed z
       else if decide (obj_parent x = Some y)
            then with_children (default [] (remove_first (o =.) (obj_children z))) z else z)) ∧
    (∀ r R, w_rts w !! r = Some R →
       w_rts w' !! r = Some (foldl (removed_from implements) R (l ≫= comps_in w r))).
Proof.
  intros Hwf Hx Hatt. pose proof Hwf as [[Hs _] _].
  assert (is_Some (view w !! o)) as Ho by (eexists; by apply view_obj).
  set (l := tree_of (view w) o).
  assert (NoDup l) as Hnd by (apply subtree_NoDup; [done|by apply deep_size]).
  assert (∀ y, y ∈ l ↔ below (view w) o y) as Hl
    by (intros; apply elem_of_subtree; [done|by apply deep_size]).
  pose proof (Destroy_run implements w Hwf o x Hx) as Hrun.
  destruct (obj_parent x) as [p|] eqn:Hp.
  - destruct (Hatt p eq_refl) as (xp & Hxp & Hin). rewrite Hxp in Hrun.
    destruct (remove_first_elem_of o (obj_children xp) Hin) as [cs Hcs]. rewrite Hcs in Hrun.
    pose proof (not_below_parent w Hwf p xp o Hxp Hin) as Hnp. fold l in Hnp.
    exists (removed implements w p o xp cs), l. split_and!; [done|done|done| |].
    + intros y z Hz. unfold removed. rewrite destroyed_lookup. fold l.
      destruct (decide (p = y)) as [<-|Hne].
      * rewrite set_obj_lookup. simplify_eq/=. rewrite 2!(decide_False (P := p ∈ l)) by done.
        by rewrite decide_True, Hcs by done.
      * rewrite set_obj_lookup_ne, Hz by done. simpl. f_equal. destruct (decide (y ∈ l)); [done|].
        by rewrite decide_False by congruence.
    + intros r R HR. unfold removed. rewrite destroyed_rts_lookup by done. simpl. rewrite HR. simpl.
      do 2 f_equal. apply Forall_bind_ext, Forall_forall. intros y Hy. unfold comps_in.
      by rewrite set_obj_lookup_ne by (intros ->; done).
  - exists (destroyed implements l w), l. split_and!; [done|done|done| |].
    + intros y z Hz. by rewrite destroyed_lookup, Hz.
    + intros r R HR. rewrite destroyed_rts_lookup, HR by done. done.
Qed.

End operations.

(** ** Witnesses

    A runtime with its root (1), two objects below it (2, and 3 below 2) and two
    components of one type in object 2. *)
Module Example.
Definition implements : iface → cid → bool := λ _ _, true.
Definition type_implements : rtype → rtype → bool := λ _ _, false.
Definition type_of : cid → rtype := λ _, RPtr (RNamed "game" "Player").
Definition IsUnique : cid → option Z := λ _, None.
Definition GetRequire : cid → option (list (oid * list rtype)) := λ _, None.

Definition run_all (ps : list op) (w : World) : World :=
  foldl (λ w p, (run_op implements type_implements type_of IsUnique GetRequire p w).1) w ps.

(** No operation of the list hangs where it is run. *)
Fixpoint none_hangs (ps : list op) (w : World) : Prop :=
  match ps with
  | [] => True
  | p :: ps => hangs p w = None ∧
      none_hangs ps (run_op implements type_implements type_of IsUnique GetRequire p w).1
  end.

Lemma run_all_steps ps w : wf w → none_hangs ps w →
  rtc (op_step implements type_implements type_of IsUnique GetRequire) w (run_all ps w) ∧
  wf (run_all ps w).
Proof.
  revert w. induction ps as [|p ps IH]; intros w Hw Hn; [done|]. destruct Hn as [Hh Hn].
  pose proof (run_op_cases implements type_implements type_of IsUnique GetRequire p w Hw) as Hc.
  rewrite Hh in Hc. destruct Hc as (w' & r & E & Hr & Hw').
  unfold run_all. simpl. rewrite E in Hn |- *. destruct (IH w' Hw' Hn) as [Hs Hf].
  split; [|exact Hf]. eapply rtc_l; [|exact Hs]. exists p, r. split; [done|]. by intros ->.
Qed.

Lemma run_all_wf ps w : wf w → none_hangs ps w → wf (run_all ps w).
Proof. intros Hw Hn. by apply run_all_steps. Qed.

Definition tree : World := run_all
  [OpNewRuntime "u1"; OpNewObject "u2" "a"; OpNewObject "u3" "b"; OpAddObject 1 2;
   OpAddObject 2 3; OpAddComponent 2 7; OpAddComponent 2 8] World_Init.

Lemma tree_ran : none_hangs [OpNewRuntime "u1"; OpNewObject "u2" "a"; OpNewObject "u3" "b";
  OpAddObject 1 2; OpAddObject 2 3; OpAddComponent 2 7; OpAddComponent 2 8] World_Init.
Proof. repeat split. Qed.

Lemma tree_wf : wf tree.
Proof. apply run_all_wf; [apply wf_Init|exact tree_ran]. Qed.

Definition root : Object := mkObject "u1" "runtime" (Some 1%positive) [] [2%positive] None Free.
Definition a : Object :=
  mkObject "u2" "a" (Some 1%positive) [7; 8]%positive [3%positive] (Some 1%positive) Free.
Definition b : Object := mkObject "u3" "b" (Some 1%positive) [] [] (Some 2%positive) Free.

Lemma tree_root : w_objs tree !! 1%positive = Some root.
Proof. by vm_compute. Qed.
Lemma tree_a : w_objs tree !! 2%positive = Some a.
Proof. by vm_compute. Qed.
Lemma tree_b : w_objs tree !! 3%positive = Some b.
Proof. by vm_compute. Qed.
Lemma tree_typed : typed tree (obj_components a).
Proof. repeat constructor; eexists; split; by vm_compute. Qed.
Lemma tree_typed_below y z :
  below (view tree) 1 y → w_objs tree !! y = Some z → typed tree (obj_components z).
Proof.
  intros _ Hz. apply elem_of_map_to_list in Hz. vm_compute in Hz.
  repeat (apply elem_of_cons in Hz as [Hz|Hz]; [injection Hz as -> ->;
    repeat constructor; eexists; split; by vm_compute|]). by apply elem_of_nil in Hz.
Qed.
End Example.

Lemma tree_invariant_witness :
  let run := run_op Example.implements Example.type_implements Example.type_of Example.IsUnique
    Example.GetRequire in
  rtc (op_step Example.implements Example.type_implements Example.type_of Example.IsUnique
         Example.GetRequire) World_Init Example.tree ∧ wf Example.tree ∧
  (∃ w' r, run (OpAddComponent 3 9) Example.tree = (w', r) ∧ goes_on r = true ∧ wf w') ∧
  run (OpRemoveComponentsByType 2 (RPtr (RNamed "game" "Player"))) Example.tree =
    (hung 2 Example.a 0 Example.tree, Stuck).
Proof.
  cbn zeta. assert (rtc (op_step Example.implements Example.type_implements Example.type_of
    Example.IsUnique Example.GetRequire) World_Init Example.tree) as Hr.
  { apply (Example.run_all_steps _ World_Init wf_Init Example.tree_ran). }
  destruct (tree_invariant Example.implements Example.type_implements Example.type_of
    Example.IsUnique Example.GetRequire Example.tree Hr) as [Hw Hops].
  split; [exact Hr|]. split; [exact Hw|]. split; [exact (Hops (OpAddComponent 3 9))|].
  specialize (Hops (OpRemoveComponentsByType 2 (RPtr (RNamed "game" "Player")))).
  assert (hangs (OpRemoveComponentsByType 2 (RPtr (RNamed "game" "Player"))) Example.tree =
    Some (2%positive, Example.a, 0)) as Hh by (by vm_compute).
  rewrite Hh in Hops. destruct Hops as (t & c & _ & _ & _ & _ & E). exact E.
Defined.

Lemma HasParent_Root_correct_witness :
  w_objs Example.tree !! 3%positive = Some Example.b ∧
  ∃ root, Root 3 Example.tree = (Example.tree, Ret root).
Proof.
  split; [apply Example.tree_b|].
  destruct (HasParent_Root_correct Example.tree 3 Example.b (proj1 Example.tree_wf) Example.tree_b)
    as (l & _ & _ & root & Hr & _).
  exists root. exact Hr.
Defined.

Lemma ObjectsInChildren_enumerates_witness :
  w_objs Example.tree !! 1%positive = Some Example.root ∧
  ∃ it (l : list oid), ObjectsInChildren 1 Example.tree = (Example.tree, Ret it) ∧ NoDup l.
Proof.
  split; [apply Example.tree_root|].
  destruct (ObjectsInChildren_enumerates Example.tree 1 Example.root (proj1 Example.tree_wf)
    Example.tree_root) as (it & l & Hit & _ & Hl & _).
  exists it, l. split; [exact Hit|exact Hl].
Defined.

Lemma GetComponents_filters_witness :
  typed Example.tree (obj_components Example.a) ∧
  HasComponent Example.type_implements 2 (RPtr (RNamed "game" "Player")) Example.tree =
    (Example.tree, Ret true).
Proof.
  split; [apply Example.tree_typed|].
  destruct (GetComponents_filters Example.type_implements Example.tree 2 Example.a None
    Example.tree_a Example.tree_typed) as [_ H].
  etrans; [apply H|]. by vm_compute.
Defined.

Lemma GetComponentsInChildren_filters_witness :
  w_objs Example.tree !! 1%positive = Some Example.root ∧
  ∃ it, GetComponentsInChildren 1 None Example.tree = (Example.tree, Ret it).
Proof.
  split; [apply Example.tree_root|].
  destruct (GetComponentsInChildren_filters Example.type_implements Example.tree 1 Example.root None
    (proj1 Example.tree_wf) Example.tree_root Example.tree_typed_below) as (it & cs & s & Hit & _).
  exists it. exact Hit.
Defined.

Lemma AddObject_result_witness :
  w_objs Example.tree !! 3%positive = Some Example.b ∧
  AddObject 3 1 Example.tree = (Example.tree, Ret (Some ErrBadObject)).
Proof.
  split; [apply Example.tree_b|].
  destruct (AddObject_result Example.tree 3 1 Example.b Example.root (proj1 Example.tree_wf)
    Example.tree_b Example.tree_root) as (lo & Hlo & ->).
  rewrite decide_True; [done|]. right; right.
  inversion Hlo as [? n Hn Hp|? n p l Hn Hp Hl]; subst; vm_compute in Hn; simplify_eq/=.
  inversion Hl as [? n Hn2 Hp|? n p l' Hn2 Hp Hl']; subst; vm_compute in Hn2; simplify_eq/=.
  set_solver.
Defined.

Lemma Destroy_result_witness :
  w_objs Example.tree !! 2%positive = Some Example.a ∧
  ∃ w', Destroy Example.implements 2 Example.tree = (w', Ret None).
Proof.
  split; [apply Example.tree_a|].
  destruct (Destroy_result Example.implements Example.tree 2 Example.a Example.tree_wf Example.tree_a)
    as (w' & l & Hd & _).
  - intros p [= <-]. exists Example.root. split; [apply Example.tree_root|]. by left.
  - exists w'. exact Hd.
Defined.

Lemma RemoveComponentsByType_deadlocks_witness :
  w_objs Example.tree !! 2%positive = Some Example.a ∧
  RemoveComponentsByType Example.implements 2 (RPtr (RNamed "game" "Player")) Example.tree =
    (hung 2 Example.a 0 Example.tree, Stuck).
Proof.
  split; [apply Example.tree_a|].
  apply (RemoveComponentsByType_deadlocks Example.implements Example.tree 2 Example.a _ 0
    Example.tree_a); by vm_compute.
Defined.
