(* ===== verification/EcsComponents.v ===== *)
(** * hECS: components and their uniqueness

    What [AddComponent], [RemoveComponent] and [Rename] do on every branch, and
    how far the declared uniqueness of a component type is enforced. *)
From S2P Require Import Prelude GoList Iter EcsSystems EcsObject EcsTree.

(** ** The runtime an object belongs to *)

(** The first runtime recorded along a list of objects. *)
Definition first_runtime (w : World) (ys : list oid) : option rid :=
  head (omap (λ y, w_objs w !! y ≫= obj_runtime) ys).

Lemma first_runtime_cons w y x ys :
  w_objs w !! y = Some x →
  first_runtime w (y :: ys) = match obj_runtime x with Some r => Some r | None => first_runtime w ys end.
Proof. intros Hx. unfold first_runtime. csimpl. rewrite Hx. simpl. by destruct (obj_runtime x). Qed.

Lemma first_runtime_ext w w' ys :
  (∀ y, (w_objs w' !! y ≫= obj_runtime) = (w_objs w !! y ≫= obj_runtime)) →
  first_runtime w' ys = first_runtime w ys.
Proof.
  intros E. unfold first_runtime. f_equal. induction ys as [|y ys IH]; [done|]. csimpl.
  rewrite E. by destruct (_ ≫= _); rewrite IH.
Qed.

Lemma runtime_loop_run fuel o x m w l :
  w_objs w !! o = Some x → chain (view w) m l → S (length l) < fuel →
  runtime_loop fuel o (Some m) w =
    (match first_runtime w (m :: l) with
     | Some r => set_obj o (with_runtime (Some r) x) w
     | None => w
     end, Ret (first_runtime w (m :: l))).
Proof.
  intros Ho Hc. revert fuel. induction Hc as [m n Hn Hp|m n p l Hn Hp Hc IH];
    intros [|fuel] Hlt; simpl in Hlt; try lia;
    apply view_lookup in Hn as (y & Hy & <-); simpl in Hp;
    cbn [runtime_loop]; rewrite (obj_bind _ _ _ _ Hy), (first_runtime_cons _ _ _ _ Hy);
    (destruct (obj_runtime y) as [r|] eqn:Hr;
      [by rewrite (bind_Ret _ _ _ _ _ (upd_run _ _ _ _ Ho))|]); rewrite Hp.
  - by destruct fuel; [lia|].
  - by apply IH; lia.
Qed.

Lemma _runtime_run o x w l :
  w_objs w !! o = Some x → chain (view w) o l →
  _runtime o w = (set_obj o (with_runtime (first_runtime w (o :: l)) x) w,
                  Ret (first_runtime w (o :: l))).
Proof.
  intros Hx Hl. unfold _runtime. rewrite (obj_bind _ _ _ _ Hx), (first_runtime_cons _ _ _ _ Hx).
  destruct (obj_runtime x) as [r|] eqn:Hr.
  { rewrite <- Hr. replace (with_runtime (obj_runtime x) x) with x by (by destruct x).
    by rewrite set_obj_id by done. }
  rewrite objects_fuel_bind.
  assert (with_runtime None x = x) as Hnone by (clear -Hr; destruct x; simpl in *; by subst).
  inversion Hl as [? n Hn Hpn|? n p l' Hn Hpn Hl']; subst;
    rewrite (view_obj _ _ _ Hx) in Hn; injection Hn as <-; simpl in Hpn; rewrite Hpn.
  - cbn [runtime_loop]. unfold first_runtime. csimpl. by rewrite Hnone, set_obj_id by done.
  - pose proof (chain_length _ _ _ Hl') as Hlen. rewrite view_size in Hlen.
    rewrite (runtime_loop_run _ o x p w l' Hx Hl') by lia.
    destruct (first_runtime w (p :: l')); [done|]. by rewrite Hnone, set_obj_id by done.
Qed.

Lemma first_runtime_relock w o x lk ys :
  w_objs w !! o = Some x →
  first_runtime (set_obj o (with_locker lk x) w) ys = first_runtime w ys.
Proof.
  intros Hx. apply first_runtime_ext. intros y. destruct (decide (o = y)) as [<-|Hne].
  - by rewrite set_obj_lookup, Hx.
  - by rewrite set_obj_lookup_ne.
Qed.

Lemma Object_Runtime_run o x w l :
  w_objs w !! o = Some x → obj_locker x = Free → chain (view w) o l →
  Object_Runtime o w = (set_obj o (with_runtime (first_runtime w (o :: l)) x) w,
                        Ret (first_runtime w (o :: l))).
Proof.
  intros Hx Hfree Hl. set (r := first_runtime w (o :: l)).
  set (w1 := set_obj o (with_locker (Reading 1) x) w).
  assert (RLock o w = (w1, Ret tt)) as HL.
  { unfold RLock. rewrite (obj_bind _ _ _ _ Hx), Hfree. apply (upd_run _ _ _ _ Hx). }
  set (x2 := with_runtime r (with_locker (Reading 1) x)).
  assert (_runtime o w1 = (set_obj o x2 w1, Ret r)) as Hrun.
  { rewrite (_runtime_run o (with_locker (Reading 1) x) w1 l).
    - unfold w1. by rewrite !(first_runtime_relock w o x (Reading 1) _ Hx).
    - apply set_obj_lookup.
    - by apply chain_locked. }
  assert (RUnlock o (set_obj o x2 w1) = (set_obj o (with_runtime r x) w, Ret tt)) as HU.
  { unfold RUnlock. rewrite (obj_bind _ _ _ _ (set_obj_lookup _ _ _)). cbn [obj_locker x2 with_runtime with_locker].
    rewrite (upd_run _ _ _ _ (set_obj_lookup _ _ _)). rewrite decide_True by done.
    unfold w1. rewrite !set_obj_set_obj. do 2 f_equal. clear -Hfree.
    destruct x; simpl in *. by subst. }
  unfold Object_Runtime, reading. rewrite (bind_Ret _ _ _ _ _ HL).
  unfold recovering, mbind at 1, prog_bind. rewrite Hrun. by rewrite (bind_Ret _ _ _ _ _ HU).
Qed.

Section components.
Context (implements : iface → cid → bool) (type_implements : rtype → rtype → bool).
Context (type_of : cid → rtype) (IsUnique : cid → option Z).
Context (GetRequire : cid → option (list (oid * list rtype))).
(** A component's dynamic type is never an interface type. *)
Hypothesis concrete : ∀ c, is_interface (type_of c) = false.

(** Every component of every object has its own type recorded. *)
Definition typed_world (w : World) : Prop := ∀ o x c,
  w_objs w !! o = Some x → c ∈ obj_components x → comp_type w c = Some (type_of c).

Lemma typed_components w o x :
  typed_world w → w_objs w !! o = Some x → typed w (obj_components x).
Proof.
  intros Ht Hx. apply Forall_forall. intros c Hc. exists (type_of c). split; [by eapply Ht|].
  apply concrete.
Qed.

(** Is there a component of that type in this object? *)
Definition has_type (w : World) (o : oid) (t : rtype) : Prop :=
  ∃ d, d ∈ comps_of w o ∧ type_of d = t.
#[local] Instance has_type_dec w o t : Decision (has_type w o t).
Proof.
  refine (cast_if (decide (Exists (λ d, type_of d = t) (comps_of w o))));
    rewrite Exists_exists in *; done.
Defined.

Lemma HasComponent_run w o x t :
  typed_world w → w_objs w !! o = Some x →
  HasComponent type_implements o t w = (w, Ret (bool_decide (has_type w o t))).
Proof.
  intros Ht Hx. rewrite (HasComponent_eq type_implements w o x t Hx (typed_components _ _ _ Ht Hx)).
  do 2 f_equal. apply bool_decide_ext. rewrite Exists_exists. unfold has_type, comps_of. rewrite Hx.
  split; intros (d & Hd & E); exists d; (split; [done|]);
    pose proof (Ht _ _ _ Hx Hd); congruence.
Qed.

Lemma filter_ext_in {A} (P Q : A → Prop) `{∀ x, Decision (P x), ∀ x, Decision (Q x)} (l : list A) :
  (∀ x, x ∈ l → P x ↔ Q x) → filter P l = filter Q l.
Proof.
  induction l as [|x l IH]; intros Hl; [done|]. rewrite !filter_cons.
  rewrite IH by (intros y Hy; apply Hl; by right). pose proof (Hl x ltac:(by left)).
  destruct (decide (P x)), (decide (Q x)); tauto.
Qed.
(** [Find] without a path: the first component of the type, in the order they were added. *)
Lemma Find_run w o x t :
  typed_world w → w_objs w !! o = Some x →
  Find type_implements o t [] w = (w, Ret match head (filter (λ d, type_of d = t) (obj_components x)) with
    | Some c => Ok c | None => Err (IterErr ErrEndIteration) end).
Proof.
  intros Ht Hx. pose proof (typed_components _ _ _ Ht Hx) as Hty.
  destruct (GetComponents_ok w o x (Some t) Hx) as [Hok Hrest].
  pose proof (Next_scan type_implements w _ Hok) as Hs. unfold scan_result in Hs.
  rewrite Hrest in Hs. unfold Find. unfold mbind at 1, prog_bind at 1. cbn. rewrite (obj_bind _ _ _ _ Hx).
  assert (filter (λ d, type_of d = t) (obj_components x) = filter (matching w (Some t)) (obj_components x)) as ->.
  { apply filter_ext_in. intros d Hd. pose proof (Ht _ _ _ Hx Hd) as Hd'. unfold matching. rewrite Hd'.
    split; [intros ->; by right|intros [?|E]; [done|congruence]]. }
  destruct (scan_typed type_implements w (Some t) _ Hty) as [[E1 E2]|(c & cs & E1 & _ & _ & E2)];
    cbn [fi_target GetComponents fromComponentArray] in Hs; rewrite E2 in Hs; rewrite E1.
  - destruct Hs as [it' Hit]. by rewrite (bind_Ret _ _ _ _ _ Hit).
  - destruct Hs as (it' & _ & _ & _ & Hit). by rewrite (bind_Ret _ _ _ _ _ Hit).
Qed.

(** What stands against adding [c] to [o]: a component of its type, in [o] when
    the type is declared unique in its object, anywhere below the root when it is
    declared globally unique. *)
Definition taken (w : World) (o root : oid) (c : cid) : Prop :=
  match IsUnique c with
  | None => False
  | Some u =>
      if decide (u = UNIQUE_TYPE_GLOBAL)
      then ∃ y, y ≠ root ∧ below (view w) root y ∧ has_type w y (type_of c)
      else if decide (u = UNIQUE_TYPE_LOCAL) then has_type w o (type_of c) else False
  end.

Lemma unique_taken_run w o x l c :
  shape (view w) → typed_world w → w_objs w !! o = Some x → chain (view w) o l →
  ∃ b, unique_taken type_implements type_of IsUnique o c w = (w, Ret b) ∧
    (b = true ↔ taken w o (default o (last l)) c).
Proof.
  intros Hs Ht Hx Hl. unfold unique_taken, taken.
  destruct (IsUnique c) as [u|]; [|by exists false].
  destruct (decide (u = UNIQUE_TYPE_GLOBAL)) as [_|_].
  - set (root := default o (last l)). rewrite (bind_Ret _ _ _ _ _ (Root_eq _ _ _ Hl)).
    assert (is_Some (view w !! root)) as Hroot.
    { apply (chain_elem_lookup (view w) o l); [done|]. unfold root.
      destruct (last l) as [z|] eqn:E; simpl; [|set_solver].
      apply last_Some_elem_of in E. set_solver. }
    pose proof Hroot as [n (xr & Hxr & _)%view_lookup].
    destruct (GetComponentsInChildren_eq w root xr (Some (type_of c)) Hs Hxr)
      as (it & ys & Hit & Hys & Hok & HT & Hrest).
    rewrite (bind_Ret _ _ _ _ _ Hit).
    assert (typed w (fi_rest w it)) as Hty.
    { rewrite Hrest. apply Forall_forall. intros d (y & Hd & _)%list_elem_of_bind.
      unfold comps_of in Hd. destruct (w_objs w !! y) as [z|] eqn:Hz; [|set_solver].
      exists (type_of d). split; [by eapply Ht|apply concrete]. }
    pose proof (Next_scan type_implements w it Hok) as Hn. unfold scan_result in Hn.
    rewrite HT in Hn.
    assert (∀ d, d ∈ filter (matching w (Some (type_of c))) (fi_rest w it) ↔
      ∃ y, y ≠ root ∧ below (view w) root y ∧ d ∈ comps_of w y ∧ type_of d = type_of c) as Hfilter.
    { intros d. rewrite list_elem_of_filter, Hrest, list_elem_of_bind. unfold matching. split.
      - intros ([?|Hd] & y & Hdy & Hy); [done|].
        rewrite Hys, (elem_of_below_list w Hs root y Hroot) in Hy. exists y.
        destruct Hy. split_and!; try done. unfold comps_of in Hdy.
        destruct (w_objs w !! y) as [z|] eqn:Hz; [|set_solver].
        pose proof (Ht _ _ _ Hz Hdy). congruence.
      - intros (y & Hne & Hb & Hdy & Hd). split.
        + right. unfold comps_of in Hdy. destruct (w_objs w !! y) as [z|] eqn:Hz; [|set_solver].
          rewrite <- Hd. by eapply Ht.
        + exists y. rewrite Hys, (elem_of_below_list w Hs root y Hroot). auto. }
    destruct (scan_typed type_implements w (Some (type_of c)) _ Hty)
      as [[E1 E2]|(d & ds & E1 & _ & _ & E2)]; rewrite E2 in Hn.
    + destruct Hn as [it' Hit']. rewrite (bind_Ret _ _ _ _ _ Hit'). exists false. split; [done|].
      split; [done|]. intros (y & ? & ? & d & ? & ?).
      assert (d ∈ filter (matching w (Some (type_of c))) (fi_rest w it)) as Hd
        by (apply Hfilter; eauto).
      rewrite E1 in Hd. set_solver.
    + destruct Hn as (it' & _ & _ & _ & Hit'). rewrite (bind_Ret _ _ _ _ _ Hit').
      exists true. split; [done|]. split; [|done]. intros _.
      assert (d ∈ filter (matching w (Some (type_of c))) (fi_rest w it)) as Hd
        by (rewrite E1; set_solver).
      apply Hfilter in Hd as (y & ? & ? & ? & ?). exists y. split_and!; [done|done|]. by exists d.
  - destruct (decide (u = UNIQUE_TYPE_LOCAL)) as [_|_]; [|by exists false].
    eexists. split; [by apply (HasComponent_run w o x)|]. apply bool_decide_eq_true.
Qed.

(** The requirements [GetRequire] declares, met in the objects it names. *)
Definition requirements (c : cid) : list (oid * list rtype) := default [] (GetRequire c).
Definition met (w : World) (rs : list (oid * list rtype)) : Prop :=
  Forall (λ r, Forall (has_type w r.1) r.2) rs.
Definition exist (w : World) (rs : list (oid * list rtype)) : Prop :=
  Forall (λ r, is_Some (w_objs w !! r.1)) rs.
(** A component that declares nothing is in nobody's way. *)
Definition undemanding (c : cid) : Prop := IsUnique c = None ∧ GetRequire c = None.
Lemma undemanding_free w o root c : undemanding c →
  requirements c = [] ∧ ¬ taken w o root c ∧ met w (requirements c).
Proof.
  intros [Hu Hr]. unfold taken, requirements. rewrite Hu, Hr. split_and!; [done|tauto|constructor].
Qed.
#[local] Instance met_dec w rs : Decision (met w rs).
Proof. unfold met. apply _. Defined.

Lemma requires_of_run w o x ts :
  typed_world w → w_objs w !! o = Some x →
  requires_of type_implements o ts w = (w, Ret (bool_decide (Forall (has_type w o) ts))).
Proof.
  intros Ht Hx. induction ts as [|t ts IH]; [done|]. cbn [requires_of].
  rewrite (bind_Ret _ _ _ _ _ (HasComponent_run w o x t Ht Hx)).
  destruct (decide (has_type w o t)) as [H|H].
  - rewrite bool_decide_true by done. rewrite IH. do 2 f_equal. apply bool_decide_ext.
    rewrite Forall_cons. naive_solver.
  - rewrite !bool_decide_false; [done|by rewrite Forall_cons; naive_solver|done].
Qed.

Lemma requires_met_run w rs :
  typed_world w → exist w rs →
  requires_met type_implements rs w = (w, Ret (bool_decide (met w rs))).
Proof.
  intros Ht. induction rs as [|[o ts] rs IH]; intros Hex; [done|].
  apply Forall_cons in Hex as [[x Hx] Hex]. cbn [requires_met]. simpl in Hx.
  rewrite (bind_Ret _ _ _ _ _ (requires_of_run w o x ts Ht Hx)).
  destruct (decide (Forall (has_type w o) ts)) as [H|H].
  - rewrite bool_decide_true by done. rewrite IH by done. do 2 f_equal. apply bool_decide_ext.
    unfold met. rewrite Forall_cons. naive_solver.
  - rewrite !bool_decide_false; [done|unfold met; by rewrite Forall_cons; naive_solver|done].
Qed.

(** ** AddComponent *)

(** The store in which the check is made: the runtime of [o] is cached, the
    component's base knows its type, runtime and object. *)
Definition initialised (w : World) (o : oid) (x : Object) (l : list oid) (c : cid) : World :=
  set_comp c (mkComponentBase (Some (type_of c)) (first_runtime w (o :: l)) (Some o))
    (set_obj o (with_runtime (first_runtime w (o :: l)) x) w).

Definition logged (e : ecs_error) (w : World) : World :=
  mkWorld (w_objs w) (w_comps w) (w_rts w) (w_log w ++ [Some e]) (w_inits w).
Definition inited (c : cid) (w : World) : World :=
  mkWorld (w_objs w) (w_comps w) (w_rts w) (w_log w)
    (if implements IInit c then w_inits w ++ [c] else w_inits w).

(** The component is stored in the object and shown to the runtime's systems. *)
Definition filtered (c : cid) (R : Runtime) : Runtime :=
  mkRuntime (rt_root R) (SystemFilter_frame implements c (innerSystems R))
    ((λ s, mkCustom (cs_name s) (cs_filtered s ++ [c]) (cs_operated s)) <$> customSystems R).
Definition shown (r : option rid) (cs : list cid) (m : gmap rid Runtime) : gmap rid Runtime :=
  match r with Some q => alter (λ R, fold_left (λ R c, filtered c R) cs R) q m | None => m end.
Arguments shown : simpl never.
Lemma shown_nil r m : shown r [] m = m.
Proof. destruct r as [q|]; [|done]. by apply alter_id. Qed.
Lemma shown_app r cs ds m : shown r (cs ++ ds) m = shown r ds (shown r cs m).
Proof.
  destruct r as [q|]; [|done]. unfold shown. apply map_eq. intros p. destruct (decide (p = q)) as [->|Hne].
  - rewrite !lookup_alter_eq. destruct (m !! q); [|done]. simpl. by rewrite fold_left_app.
  - by rewrite !lookup_alter_ne.
Qed.
Lemma shown_lookup q cs m R : m !! q = Some R → shown (Some q) cs m !! q = Some (fold_left (λ R c, filtered c R) cs R).
Proof. intros HR. unfold shown. by rewrite lookup_alter_eq, HR. Qed.
Definition stored (o : oid) (x : Object) (r : option rid) (c : cid) (w : World) : World :=
  let w' := set_obj o (with_components (obj_components x ++ [c]) (with_runtime r x)) w in
  match r ≫= λ r, (r,.) <$> (w_rts w !! r) with
  | Some (r, R) => set_rt r (filtered c R) w'
  | None => w'
  end.

Lemma filtered_all cs R : customSystems R = [] →
  fold_left (λ R c, filtered c R) cs R = mkRuntime (rt_root R) (shown_frame implements cs (innerSystems R)) [].
Proof.
  revert R. induction cs as [|c cs IH]; intros R HR; simpl; [destruct R; simpl in *; by subst|].
  rewrite IH; simpl; [done|by rewrite HR].
Qed.
Lemma stored_rts o x r c w : w_rts (stored o x r c w) = shown r [c] (w_rts w).
Proof.
  unfold stored, shown. destruct r as [q|]; [|done]. simpl. destruct (w_rts w !! q) as [R|] eqn:HR; simpl.
  - apply map_eq. intros p. destruct (decide (p = q)) as [->|Hne];
      [by rewrite lookup_insert_eq, lookup_alter_eq, HR|by rewrite lookup_insert_ne, lookup_alter_ne].
  - symmetry. apply alter_id. intros R HR'. congruence.
Qed.

Lemma typed_initialised w o x l c :
  typed_world w → w_objs w !! o = Some x → typed_world (initialised w o x l c).
Proof.
  intros Ht Hx p y d Hy Hd. unfold comp_type. simpl.
  assert (∃ z, w_objs w !! p = Some z ∧ obj_components z = obj_components y) as (z & Hz & Hc).
  { simpl in Hy. apply lookup_insert_Some in Hy as [[<- <-]|[_ Hy]]; [by exists x|by exists y]. }
  destruct (decide (c = d)) as [->|Hne].
  - by rewrite lookup_insert_eq.
  - rewrite lookup_insert_ne by done. rewrite <- Hc in Hd. by apply (Ht p z).
Qed.

Lemma typed_set_obj w o x y :
  typed_world w → w_objs w !! o = Some x → obj_components y = obj_components x →
  typed_world (set_obj o y w).
Proof.
  intros Ht Hx Hc p z d [[<- <-]|[_ Hz]]%set_obj_Some Hd; [|by apply (Ht p z)].
  rewrite Hc in Hd. by apply (Ht o x).
Qed.

(** Stores that differ in locks, runtimes and component bases only. *)
Definition alike (w w' : World) : Prop := ∀ y,
  (λ x, (obj_components x, obj_children x)) <$> (w_objs w' !! y) =
  (λ x, (obj_components x, obj_children x)) <$> (w_objs w !! y).

Lemma alike_sym w w' : alike w w' → alike w' w.
Proof. intros H y. by rewrite H. Qed.
Lemma alike_trans w1 w2 w3 : alike w1 w2 → alike w2 w3 → alike w1 w3.
Proof. intros H1 H2 y. by rewrite H2, H1. Qed.

Lemma alike_set_obj w o x y :
  w_objs w !! o = Some x → obj_components y = obj_components x → obj_children y = obj_children x →
  alike w (set_obj o y w).
Proof.
  intros Hx Hc Hk z. destruct (decide (o = z)) as [<-|Hne].
  - rewrite set_obj_lookup, Hx. simpl. by rewrite Hc, Hk.
  - by rewrite set_obj_lookup_ne.
Qed.

Lemma has_type_alike w w' y t : alike w w' → has_type w' y t ↔ has_type w y t.
Proof.
  intros H. unfold has_type. replace (comps_of w' y) with (comps_of w y); [done|].
  unfold comps_of. specialize (H y). destruct (w_objs w' !! y), (w_objs w !! y); naive_solver.
Qed.

Lemma below_alike w w' o y : alike w w' → below (view w') o y ↔ below (view w) o y.
Proof.
  intros H. assert (∀ z, children_of (view w') z = children_of (view w) z) as Hch.
  { intros z. unfold children_of, view. rewrite !lookup_fmap. specialize (H z).
    destruct (w_objs w' !! z), (w_objs w !! z); simpl in *; congruence. }
  unfold below. split; intros Hb; induction Hb as [|a b d Hab _ IH]; try apply rtc_refl;
    (eapply rtc_l; [|exact IH]); unfold child_rel in *; congruence.
Qed.

Lemma taken_alike w w' o root c : alike w w' → taken w' o root c ↔ taken w o root c.
Proof.
  intros H. unfold taken. destruct (IsUnique c); [|done].
  destruct (decide _); [|destruct (decide _); [by apply has_type_alike|done]].
  f_equiv. intros y. by rewrite (below_alike w w'), (has_type_alike w w').
Qed.

Lemma met_alike w w' rs : alike w w' → met w' rs ↔ met w rs.
Proof.
  intros H. unfold met. apply Forall_iff. intros r. apply Forall_iff. intros t.
  by apply has_type_alike.
Qed.

Lemma first_runtime_cached w w' o x' l r :
  r = first_runtime w (o :: l) → w_objs w' !! o = Some x' → obj_runtime x' = r →
  is_Some (w_objs w !! o) → (∀ y, y ≠ o → w_objs w' !! y = w_objs w !! y) →
  first_runtime w' (o :: l) = r.
Proof.
  intros Hr Hx' Hrx [x Hx] Hrest. rewrite (first_runtime_cons _ _ _ _ Hx'), Hrx.
  destruct r as [r|]; [done|]. rewrite (first_runtime_cons _ _ _ _ Hx) in Hr.
  destruct (obj_runtime x) eqn:Hox; [done|]. rewrite Hr. apply first_runtime_ext.
  intros y. destruct (decide (y = o)) as [->|Hne]; [|by rewrite Hrest].
  rewrite Hx', Hx. simpl. congruence.
Qed.

Lemma SystemFilter_run r R c w :
  w_rts w !! r = Some R → SystemFilter implements r c w = (set_rt r (filtered c R) w, Ret tt).
Proof. intros HR. unfold SystemFilter, mbind, prog_bind, rt. by rewrite HR. Qed.

(** The last part of the action: store the component, tell the runtime. *)
Lemma store_run w o x l c w1 :
  let r := first_runtime w (o :: l) in
  rts_ok w → w_objs w !! o = Some x → chain (view w) o l →
  w1 = set_comp c (mkComponentBase (Some (type_of c)) r (Some o))
         (set_obj o (with_locker Writing (with_runtime r x)) w) →
  (_ ← upd o (λ x, with_components (obj_components x ++ [c]) x);
   r ← _runtime o;
   match r with None => mret None | Some r => _ ← SystemFilter implements r c; mret None end) w1 =
  (stored o (with_locker Writing x) r c w1, Ret (None : option ecs_error)).
Proof.
  intros r Hok Hx Hl ->. set (w1 := set_comp _ _ _).
  assert (w_objs w1 !! o = Some (with_locker Writing (with_runtime r x))) as Hx1 by apply set_obj_lookup.
  rewrite (bind_Ret _ _ _ _ _ (upd_run _ _ _ _ Hx1)).
  set (x2 := with_components _ _). set (w2 := set_obj o x2 w1).
  assert (w_objs w2 !! o = Some x2) as Hx2 by apply set_obj_lookup.
  assert (first_runtime w2 (o :: l) = r) as Hr.
  { apply (first_runtime_cached w w2 o x2 l r); [done|done|done|by eexists|].
    intros y Hy. unfold w2, w1. rewrite set_obj_lookup_ne by done. simpl.
    by rewrite lookup_insert_ne by done. }
  assert (chain (view w2) o l) as Hl2.
  { eapply chain_parents; [|exact Hl]. intros y m (z & Hz & <-)%view_lookup.
    destruct (decide (y = o)) as [->|Hne].
    - exists (node_of x2). split; [by apply view_obj|]. by simplify_eq.
    - exists (node_of z). split; [|done]. apply view_obj. unfold w2, w1.
      rewrite set_obj_lookup_ne by done. simpl. by rewrite lookup_insert_ne. }
  rewrite (bind_Ret _ _ _ _ _ (_runtime_run o x2 w2 l Hx2 Hl2)), Hr.
  replace (with_runtime r x2) with x2 by done. rewrite set_obj_id by done.
  unfold stored. change (w_rts w1) with (w_rts w).
  assert (set_obj o (with_components (obj_components (with_locker Writing x) ++ [c])
    (with_runtime r (with_locker Writing x))) w1 = w2) as -> by done.
  destruct r as [r'|] eqn:Hr'; simpl; [|done].
  assert (is_Some (w_rts w !! r')) as [R HR].
  { unfold r, first_runtime in Hr'. apply head_Some_elem_of, list_elem_of_omap in Hr'
      as (y & _ & (z & Hz & Hzr)%bind_Some). by eapply Hok. }
  rewrite HR. simpl. by rewrite (bind_Ret _ _ _ _ _ (SystemFilter_run r' R c w2 HR)).
Qed.

Lemma set_obj_initialised w o x y l c :
  set_obj o y (initialised w o x l c) =
  set_comp c (mkComponentBase (Some (type_of c)) (first_runtime w (o :: l)) (Some o)) (set_obj o y w).
Proof.
  unfold initialised. change (set_obj o y (set_comp ?c ?b ?w)) with (set_comp c b (set_obj o y w)).
  by rewrite set_obj_set_obj.
Qed.

Lemma AddComponent_action_run w o x l c :
  let r := first_runtime w (o :: l) in
  let w1 := initialised w o x l c in
  let w2 := set_obj o (with_locker Writing (with_runtime r x)) w1 in
  wf w → typed_world w → exist w (requirements c) → w_objs w !! o = Some x → chain (view w) o l →
  ∃ b, (b = true ↔ taken w o (default o (last l)) c) ∧
  AddComponent_action implements type_implements type_of IsUnique GetRequire o c w2 =
    if (b : bool) then (w2, Ret (Some ErrUniqueComponent))
    else if decide (met w (requirements c)) then (stored o (with_locker Writing x) r c w2, Ret None)
    else (w2, Ret (Some ErrMissingComponent)).
Proof.
  intros r w1 w2 [[Hs _] Hok] Ht Hex Hx Hl.
  assert (w2 = set_comp c (mkComponentBase (Some (type_of c)) r (Some o))
    (set_obj o (with_locker Writing (with_runtime r x)) w)) as Ew2 by apply set_obj_initialised.
  assert (alike w w2) as Hal by (rewrite Ew2; by eapply (alike_set_obj w o x)).
  assert (w_objs w2 !! o = Some (with_locker Writing (with_runtime r x))) as Hx2 by apply set_obj_lookup.
  assert (view w2 = <[o := mkNode (obj_parent x) (obj_children x) Writing]> (view w)) as Hview
    by (rewrite Ew2; apply view_set_obj).
  assert (shape (view w2)) as Hs2.
  { rewrite Hview. exact (view_upd_free _ _ (node_of x) Writing (view_obj _ _ _ Hx) Hs). }
  assert (chain (view w2) o l) as Hl2.
  { rewrite Hview. eapply chain_parents; [|exact Hl]. intros y m Hy.
    destruct (decide (o = y)) as [<-|Hne].
    - rewrite lookup_insert_eq. eexists. split; [done|]. rewrite (view_obj _ _ _ Hx) in Hy. by simplify_eq.
    - rewrite lookup_insert_ne by done. eauto. }
  assert (typed_world w2) as Ht2.
  { eapply (typed_set_obj w1 o (with_runtime r x)); [by apply typed_initialised| |done].
    apply set_obj_lookup. }
  destruct (unique_taken_run w2 o _ l c Hs2 Ht2 Hx2 Hl2) as (b & Hb & Hbt).
  exists b. split; [by rewrite Hbt, (taken_alike w w2)|].
  unfold AddComponent_action. rewrite (bind_Ret _ _ _ _ _ Hb). destruct b; [done|].
  assert (exist w2 (requirements c)) as Hex2.
  { eapply Forall_impl; [exact Hex|]. intros rq [y Hy]. specialize (Hal rq.1). cbv beta in Hy.
    rewrite Hy in Hal. destruct (w_objs w2 !! rq.1); [by eexists|done]. }
  rewrite (bind_Ret _ _ _ _ _ (requires_met_run w2 _ Ht2 Hex2)).
  rewrite (bool_decide_ext _ (met w (requirements c))) by (by apply met_alike).
  destruct (decide (met w (requirements c))) as [Hm|Hm].
  - rewrite bool_decide_true by done. exact (store_run w o x l c w2 Hok Hx Hl Ew2).
  - rewrite bool_decide_false by done. done.
Qed.

(** The store after [AddComponent], on every branch. *)
Lemma AddComponent_run w o x c :
  wf w → typed_world w → exist w (requirements c) → w_objs w !! o = Some x →
  ∃ l b, chain (view w) o l ∧ (b = true ↔ taken w o (default o (last l)) c) ∧
    let r := first_runtime w (o :: l) in
    let w1 := initialised w o x l c in
    AddComponent implements type_implements type_of IsUnique GetRequire o c w =
      (inited c (if (b : bool) then logged ErrUniqueComponent w1
                 else if decide (met w (requirements c)) then stored o x r c w1
                 else logged ErrMissingComponent w1), Ret tt).
Proof.
  intros Hwf Ht Hex Hx. pose proof Hwf as [[Hs _] Hok].
  destruct (sh_chain _ Hs o _ (view_obj _ _ _ Hx)) as [l Hl].
  pose proof (wf_free _ _ _ Hwf Hx) as Hfree.
  destruct (AddComponent_action_run w o x l c Hwf Ht Hex Hx Hl) as (b & Hb & Hact).
  exists l, b. split_and!; [done|done|]. intros r w1. fold r w1 in Hact.
  set (w2 := set_obj o (with_locker Writing (with_runtime r x)) w1) in *.
  assert (w_objs w1 !! o = Some (with_runtime r x)) as Hx1 by apply set_obj_lookup.
  assert (set_obj o (with_locker Free (with_locker Writing (with_runtime r x))) w2 = w1) as Hback.
  { unfold w2. rewrite set_obj_set_obj. rewrite <- (set_obj_id w1 o (with_runtime r x) Hx1) at 2.
    f_equal. clear -Hfree. destruct x; simpl in *. by subst. }
  unfold AddComponent. rewrite (bind_Ret _ _ _ _ _ (Object_Runtime_run o x w l Hx Hfree Hl)).
  rewrite (bind_Ret _ _ _ w1 tt) by done.
  assert (∃ e w3, WithLock o (AddComponent_action implements type_implements type_of IsUnique
      GetRequire o c) w1 = (w3, Ret e) ∧
    (if (b : bool) then logged ErrUniqueComponent w1
     else if decide (met w (requirements c)) then stored o x r c w1
     else logged ErrMissingComponent w1) = match e with Some e => logged e w3 | None => w3 end)
    as (e & w3 & Hlock & ->).
  { destruct b; [|destruct (decide (met w (requirements c)))].
    - exists (Some ErrUniqueComponent), w1. split; [|done].
      rewrite (WithLock_run w1 o _ _ w2 (with_locker Writing (with_runtime r x))
        (Ret (Some ErrUniqueComponent)) Hx1 Hfree Hact);
        [by rewrite Hback|done|apply set_obj_lookup|done].
    - exists None, (stored o x r c w1). split; [|done].
      set (x3 := with_components (obj_components x ++ [c])
        (with_runtime r (with_locker Writing x))).
      rewrite (WithLock_run w1 o _ _ (stored o (with_locker Writing x) r c w2) x3
        (Ret None) Hx1 Hfree Hact); [|done| |done].
      + f_equal. unfold stored. change (w_rts w2) with (w_rts w1).
        destruct (r ≫= _) as [[r' R]|]; rewrite ?set_obj_set_rt; [f_equal|];
          unfold w2; rewrite !set_obj_set_obj; f_equal; clear -Hfree; unfold x3;
          destruct x; simpl in *; by subst.
      + unfold stored. destruct (_ ≫= _) as [[r' R]|]; apply set_obj_lookup.
    - exists (Some ErrMissingComponent), w1. split; [|done].
      rewrite (WithLock_run w1 o _ _ w2 (with_locker Writing (with_runtime r x))
        (Ret (Some ErrMissingComponent)) Hx1 Hfree Hact);
        [by rewrite Hback|done|apply set_obj_lookup|done]. }
  rewrite (bind_Ret _ _ _ _ _ Hlock). by destruct e.
Qed.

(** C4: what [AddComponent] does, branch by branch.  The component's base is
    initialised and the object's runtime cached in any case; the component is
    stored, and shown to the runtime's systems, exactly when its uniqueness is not
    violated and its requirements are met; otherwise the matching error is logged.
    [Initialize] is called in all three cases, also for a component that was
    refused. *)
Theorem AddComponent_result w o x c :
  wf w → typed_world w → exist w (requirements c) → w_objs w !! o = Some x →
  ∃ l b, chain (view w) o l ∧ (b = true ↔ taken w o (default o (last l)) c) ∧
    let r := first_runtime w (o :: l) in
    let w1 := initialised w o x l c in
    AddComponent implements type_implements type_of IsUnique GetRequire o c w =
      (inited c (if (b : bool) then logged ErrUniqueComponent w1
                 else if decide (met w (requirements c)) then stored o x r c w1
                 else logged ErrMissingComponent w1), Ret tt).
Proof. apply AddComponent_run. Qed.

(** What every branch leaves: the object with its runtime cached and with [added] behind
    its components, the component's base initialised, and the rest as it was. *)
Lemma AddComponent_store w o x c :
  wf w → typed_world w → exist w (requirements c) → w_objs w !! o = Some x →
  ∃ w' l added, AddComponent implements type_implements type_of IsUnique GetRequire o c w = (w', Ret tt) ∧
    chain (view w) o l ∧ let r := first_runtime w (o :: l) in
    w_objs w' = <[o := with_components (obj_components x ++ added) (with_runtime r x)]> (w_objs w) ∧
    w_comps w' = <[c := mkComponentBase (Some (type_of c)) r (Some o)]> (w_comps w) ∧
    (added = [] ∨ added = [c]) ∧
    (added = [c] ↔ ¬ taken w o (default o (last l)) c ∧ met w (requirements c)) ∧
    (added = [c] → w_log w' = w_log w) ∧ w_rts w' = shown r added (w_rts w).
Proof.
  intros Hwf Ht Hex Hx. destruct (AddComponent_run w o x c Hwf Ht Hex Hx) as (l & b & Hl & Hb & E).
  assert (with_components (obj_components x ++ []) (with_runtime (first_runtime w (o :: l)) x) =
    with_runtime (first_runtime w (o :: l)) x) as E0 by (rewrite app_nil_r; by destruct x).
  eexists _, l, (if b then [] else if decide (met w (requirements c)) then [c] else []).
  split; [exact E|]. split; [exact Hl|]. destruct b; [|destruct (decide (met w (requirements c))) as [Hm|Hm]]; simpl.
  - rewrite E0. split_and!; [done|done|by left| |done|by rewrite shown_nil].
    split; [done|]. intros [Hn _]. by destruct Hn; apply Hb.
  - unfold stored. split_and!; [destruct (_ ≫= _) as [[]|]; simpl; by rewrite insert_insert_eq
      |by destruct (_ ≫= _) as [[]|]|by right| |by destruct (_ ≫= _) as [[]|]|].
    2: { exact (stored_rts o x (first_runtime w (o :: l)) c (initialised w o x l c)). }
    split; [|done]. intros _. split; [|done]. by intros ?%Hb.
  - rewrite E0. split_and!; [done|done|by left| |done|by rewrite shown_nil]. split; [done|]. by intros [_ ?].
Qed.

(** A type declared globally unique is not unique: the check enumerates what is
    below the root, so that a root object without children accepts a component of
    a type it already holds. *)
Theorem global_unique_ignores_root w o x c d :
  wf w → typed_world w → exist w (requirements c) → met w (requirements c) →
  w_objs w !! o = Some x → obj_parent x = None → obj_children x = [] →
  IsUnique c = Some UNIQUE_TYPE_GLOBAL → d ∈ obj_components x → type_of d = type_of c →
  ∃ w', AddComponent implements type_implements type_of IsUnique GetRequire o c w = (w', Ret tt) ∧
    obj_components <$> (w_objs w' !! o) = Some (obj_components x ++ [c]).
Proof.
  intros Hwf Ht Hex Hm Hx Hp Hch Hu Hd Hdt.
  destruct (AddComponent_run w o x c Hwf Ht Hex Hx) as (l & b & Hl & Hb & Hrun).
  assert (l = []) as ->.
  { eapply chain_det; [exact Hl|]. eapply chain_root; [by apply view_obj|done]. }
  assert (b = false) as ->.
  { destruct b; [|done]. destruct Hb as [Hb _]. specialize (Hb eq_refl). exfalso.
    unfold taken in Hb. rewrite Hu in Hb. rewrite decide_True in Hb by done.
    destruct Hb as (y & Hne & Hbelow & _). simpl in *.
    apply rtc_inv in Hbelow as [?|(z & Hz & _)]; [done|].
    unfold child_rel, children_of in Hz. rewrite (view_obj _ _ _ Hx) in Hz. simpl in Hz.
    rewrite Hch in Hz. set_solver. }
  eexists. split; [exact Hrun|]. simpl. rewrite decide_True by done. unfold stored.
  destruct (_ ≫= _) as [[r' R]|]; simpl; by rewrite lookup_insert_eq.
Qed.

(** ** Removing a component, renaming *)
Lemma RemoveComponent_run w o x c :
  wf w → w_objs w !! o = Some x →
  let cs := default (obj_components x) (remove_first (c =.) (obj_components x)) in
  let w1 := set_obj o (with_components cs x) w in
  RemoveComponent implements o c w =
    (match obj_runtime x ≫= λ r, (r,.) <$> (w_rts w !! r) with
     | Some (r, R) => set_rt r (removed_from implements R c) w1
     | None => logged no_runtime w1
     end, Ret tt).
Proof.
  intros Hwf Hx cs w1. pose proof (wf_free _ _ _ Hwf Hx) as Hfree.
  set (w2 := set_obj o (with_locker Writing x) w).
  assert (w_objs w2 !! o = Some (with_locker Writing x)) as Hx2 by apply set_obj_lookup.
  set (x3 := with_components cs (with_locker Writing x)).
  set (w3 := set_obj o x3 w2).
  assert (w_objs w3 !! o = Some x3) as Hx3 by apply set_obj_lookup.
  assert (set_obj o (with_locker Free x3) w3 = w1) as Hback.
  { unfold w3, w2, w1. rewrite !set_obj_set_obj. f_equal. clear -Hfree. unfold x3.
    destruct x; simpl in *; by subst. }
  unfold RemoveComponent.
  destruct (obj_runtime x) as [r|] eqn:Hr.
  - destruct Hwf as [_ Hok]. destruct (Hok _ _ _ Hx Hr) as [R HR].
    erewrite bind_Ret.
    2: { eapply (WithLock_run w o x _ (set_rt r (removed_from implements R c) w3) x3 (Ret None));
           [done|done| |done|done|done]. fold w2.
         rewrite (bind_Ret _ _ _ _ _ (upd_run _ _ _ _ Hx2)).
         change (set_obj o _ w2) with w3. rewrite (obj_bind _ _ _ _ Hx3).
         change (obj_runtime x3) with (obj_runtime x). rewrite Hr.
         by rewrite (bind_Ret _ _ _ _ _ (operate_removed_run implements r R c w3 HR)). }
    simpl. rewrite HR. simpl. unfold log_err. simpl. by rewrite set_obj_set_rt, Hback.
  - erewrite bind_Ret.
    2: { eapply (WithLock_run w o x _ w3 x3 (Ret (Some no_runtime))); [done|done| |done|done|done].
         fold w2. rewrite (bind_Ret _ _ _ _ _ (upd_run _ _ _ _ Hx2)).
         change (set_obj o _ w2) with w3. rewrite (obj_bind _ _ _ _ Hx3).
         change (obj_runtime x3) with (obj_runtime x). by rewrite Hr. }
    by rewrite Hback.
Qed.

Lemma Rename_run w o x n :
  wf w → w_objs w !! o = Some x →
  Rename o n w = (mkWorld (<[o:=with_name n x]> (w_objs w)) (w_comps w) (w_rts w)
                    (w_log w ++ [None]) (w_inits w), Ret tt).
Proof.
  intros Hwf Hx. pose proof (wf_free _ _ _ Hwf Hx) as Hfree.
  set (w2 := set_obj o (with_locker Writing x) w).
  assert (w_objs w2 !! o = Some (with_locker Writing x)) as Hx2 by apply set_obj_lookup.
  unfold Rename. erewrite bind_Ret.
  2: { eapply (WithLock_run w o x _ (set_obj o (with_name n (with_locker Writing x)) w2)
         (with_name n (with_locker Writing x)) (Ret None)); [done|done| |done|apply set_obj_lookup|done].
       fold w2. by rewrite (bind_Ret _ _ _ _ _ (upd_run _ _ _ _ Hx2)). }
  unfold hLog_Error, modify. simpl. do 2 f_equal. rewrite !insert_insert_eq. f_equal.
  clear -Hfree. destruct x; simpl in *; by subst.
Qed.

(** ** Local uniqueness over all operations *)
Definition local_only (c : cid) : Prop := IsUnique c = Some UNIQUE_TYPE_LOCAL.
#[local] Instance local_only_dec c : Decision (local_only c).
Proof. unfold local_only. apply _. Defined.

Definition local_types (x : Object) : list rtype := type_of <$> filter local_only (obj_components x).
Definition local_ok (w : World) : Prop := ∀ o x, w_objs w !! o = Some x → NoDup (local_types x).

(** The operation's own requirements name existing objects. *)
Definition admissible (p : op) (w : World) : Prop :=
  match p with OpAddComponent _ c => exist w (requirements c) | _ => True end.
Definition checked_step (w w' : World) : Prop := ∃ p r, admissible p w ∧ r ≠ Stuck ∧
  run_op implements type_implements type_of IsUnique GetRequire p w = (w', r).

(** Steps that give objects no new components. *)
Definition comp_frame (w w' : World) : Prop :=
  w_comps w' = w_comps w ∧ ∀ o x', w_objs w' !! o = Some x' →
    obj_components x' = [] ∨
    ∃ x, w_objs w !! o = Some x ∧ obj_components x' `sublist_of` obj_components x.

Lemma comp_frame_refl w : comp_frame w w.
Proof. split; [done|]. intros o x Hx. right. by exists x. Qed.

Lemma comp_frame_set_obj w o x y :
  w_objs w !! o = Some x → obj_components y `sublist_of` obj_components x →
  comp_frame w (set_obj o y w).
Proof.
  intros Hx Hs. split; [done|]. intros p z [[<- <-]|[_ Hz]]%set_obj_Some; right; eauto.
Qed.

Lemma comp_frame_trans w1 w2 w3 : comp_frame w1 w2 → comp_frame w2 w3 → comp_frame w1 w3.
Proof.
  intros [C1 F1] [C2 F2]. split; [congruence|]. intros o z Hz.
  destruct (F2 o z Hz) as [?|(y & Hy & Hs2)]; [by left|].
  destruct (F1 o y Hy) as [E|(x & Hx & Hs1)].
  - left. rewrite E in Hs2. by apply sublist_nil_r in Hs2.
  - right. exists x. split; [done|]. by etrans.
Qed.

Lemma comp_frame_fresh w o x :
  obj_components x = [] → comp_frame w (set_obj o x w).
Proof. intros Hx. split; [done|]. intros p z [[<- <-]|[_ Hz]]%set_obj_Some; eauto. Qed.

Lemma comp_frame_destroyed l w : comp_frame w (destroyed implements l w).
Proof.
  split; [apply destroyed_comps|]. intros o x'. rewrite destroyed_lookup, fmap_Some.
  intros (x & Hx & ->). destruct (decide _); [by left|right; eauto].
Qed.

Lemma comp_frame_inv w w' :
  comp_frame w w' → typed_world w → local_ok w → typed_world w' ∧ local_ok w'.
Proof.
  intros [Hc Hf] Ht Hl. split.
  - intros o x' c Hx' Hin. unfold comp_type. rewrite Hc.
    destruct (Hf o x' Hx') as [E|(x & Hx & Hs)]; [rewrite E in Hin; set_solver|].
    apply (Ht o x); [done|]. by eapply elem_of_sublist.
  - intros o x' Hx'. unfold local_types.
    destruct (Hf o x' Hx') as [->|(x & Hx & Hs)]; [constructor|].
    eapply sublist_NoDup; [exact (Hl o x Hx)|]. unfold local_types.
    apply fmap_sublist. clear -Hs.
    induction Hs as [|z l1 l2 _ IH|z l1 l2 _ IH]; [done|..]; rewrite !filter_cons.
    + destruct (decide _); [by apply sublist_skip|done].
    + destruct (decide _); [by apply sublist_cons|done].
Qed.

(** What the operations other than [AddComponent] do to components: nothing, or
    they take some away. *)
Lemma frame_bind_unit {A} (m : W A) w w' r :
  (_ ← m; mret tt) w = (w', r) → ∃ r0, m w = (w', r0).
Proof.
  unfold mbind, prog_bind. destruct (m w) as [w0 [a|p|]]; intros [= <- _]; by eexists.
Qed.

Lemma missing_bind {A} o (f : Object → W A) w :
  w_objs w !! o = None → (obj o ≫= f) w = (w, Panic NilDereference).
Proof. intros Hx. unfold mbind, prog_bind, obj. by rewrite Hx. Qed.

Lemma WithLock_missing o act w :
  w_objs w !! o = None → WithLock o act w = (w, Panic NilDereference).
Proof. intros Hx. unfold WithLock, Lock. by rewrite bind_assoc, missing_bind. Qed.

Lemma frame_removed w o object x cs :
  w_objs w !! o = Some x → comp_frame w (removed implements w o object x cs).
Proof.
  intros Hx. apply (comp_frame_trans _ (set_obj o (with_children cs x) w)); [|apply comp_frame_destroyed].
  by apply (comp_frame_set_obj w o x).
Qed.

Lemma frame_AddObject w o object w' r :
  wf w → AddObject o object w = (w', r) → comp_frame w w'.
Proof.
  intros Hwf E. destruct (w_objs w !! object) as [y|] eqn:Hy; cycle 1.
  { unfold AddObject, Parent in E. rewrite bind_assoc, missing_bind in E by done. simplify_eq.
    apply comp_frame_refl. }
  destruct (w_objs w !! o) as [x|] eqn:Hx; cycle 1.
  { unfold AddObject in E. rewrite (bind_Ret _ _ _ _ _ (Parent_eq _ _ _ Hy)) in E.
    destruct (decide _); [|rewrite WithLock_missing in E by done]; ret_eq E; apply comp_frame_refl. }
  pose proof Hwf as [[Hs _] _]. destruct (sh_chain _ Hs o _ (view_obj _ _ _ Hx)) as [lo Hlo].
  pose proof (wf_free _ _ _ Hwf Hx) as Hl.
  unfold AddObject in E. rewrite (bind_Ret _ _ _ _ _ (Parent_eq _ _ _ Hy)) in E.
  destruct (decide (is_Some (obj_parent y))); [ret_eq E; apply comp_frame_refl|].
  destruct (decide (o = object ∨ object ∈ lo)) as [Hbad|Hgood].
  - rewrite (AddObject_bad w o object x Hx Hl lo Hlo Hbad) in E. simplify_eq. apply comp_frame_refl.
  - rewrite (AddObject_attach w o object x y lo Hx Hl Hy Hlo) in E by tauto. simplify_eq.
    unfold attached. apply (comp_frame_trans _ (set_obj object
      (with_runtime (obj_runtime x) (with_parent (Some o) y)) w)).
    { by apply (comp_frame_set_obj w object y). }
    apply (comp_frame_set_obj _ o x); [|done].
    rewrite set_obj_lookup_ne; [done|]. intros ->. by apply Hgood; left.
Qed.

Lemma frame_RemoveObject w o object w' r :
  wf w → RemoveObject implements o object w = (w', r) → comp_frame w w'.
Proof.
  intros Hwf E. destruct (w_objs w !! o) as [x|] eqn:Hx.
  - rewrite (RemoveObject_run implements w Hwf o object x Hx) in E.
    destruct (decide _); [ret_eq E; apply comp_frame_refl|].
    destruct (remove_first _ _); simplify_eq; [by apply frame_removed|apply comp_frame_refl].
  - unfold RemoveObject in E. destruct (decide _); [|rewrite WithLock_missing in E by done];
      ret_eq E; apply comp_frame_refl.
Qed.

Lemma frame_Destroy w o w' r : wf w → Destroy implements o w = (w', r) → comp_frame w w'.
Proof.
  intros Hwf E. destruct (w_objs w !! o) as [x|] eqn:Hx.
  - rewrite (Destroy_run implements w Hwf o x Hx) in E.
    destruct (obj_parent x) as [p|]; [|simplify_eq; apply comp_frame_destroyed].
    destruct (w_objs w !! p) as [xp|] eqn:Hxp; [|simplify_eq; apply comp_frame_refl].
    destruct (remove_first _ _); simplify_eq; [by apply frame_removed|apply comp_frame_refl].
  - unfold Destroy, Parent in E. rewrite bind_assoc, missing_bind in E by done. simplify_eq.
    apply comp_frame_refl.
Qed.

Lemma frame_RemoveComponent w o c w' r :
  wf w → RemoveComponent implements o c w = (w', r) → comp_frame w w'.
Proof.
  intros Hwf E. destruct (w_objs w !! o) as [x|] eqn:Hx.
  - rewrite (RemoveComponent_run w o x c Hwf Hx) in E.
    set (cs := default _ _) in E.
    assert (comp_frame w (set_obj o (with_components cs x) w)) as Hf.
    { apply (comp_frame_set_obj w o x); [done|]. unfold cs.
      destruct (remove_first _ _) eqn:Er; simpl; [by eapply remove_first_sublist|done]. }
    destruct (_ ≫= _) as [[r' R]|]; simplify_eq; exact Hf.
  - unfold RemoveComponent in E. rewrite (bind_Panic _ _ _ _ _ (WithLock_missing _ _ _ Hx)) in E.
    simplify_eq. apply comp_frame_refl.
Qed.

Lemma frame_RemoveComponentsByType w o t w' r :
  wf w → r ≠ Stuck → RemoveComponentsByType implements o t w = (w', r) → comp_frame w w'.
Proof.
  intros Hwf Hr E.
  assert (∀ x, w_objs w !! o = Some x → first_of_type w t (obj_components x) = None) as Hno.
  { intros x Hx. destruct (first_of_type w t _) as [i|] eqn:Hi; [|done].
    rewrite (RemoveComponentsByType_deadlocks implements w o x t i) in E; [by simplify_eq|done| |done].
    by eapply wf_free. }
  destruct (RemoveComponentsByType_quiet implements o t w Hwf Hno) as [[e E']|E'];
    rewrite E' in E; [|simplify_eq; apply comp_frame_refl].
  unfold hLog_Error, modify in E. simplify_eq. split; [done|]. intros p x Hx. right. eauto.
Qed.

Lemma frame_Rename w o n w' r : wf w → Rename o n w = (w', r) → comp_frame w w'.
Proof.
  intros Hwf E. destruct (w_objs w !! o) as [x|] eqn:Hx.
  - rewrite (Rename_run w o x n Hwf Hx) in E. simplify_eq.
    exact (comp_frame_set_obj w o x (with_name n x) Hx (reflexivity _)).
  - unfold Rename in E. rewrite (bind_Panic _ _ _ _ _ (WithLock_missing _ _ _ Hx)) in E.
    simplify_eq. apply comp_frame_refl.
Qed.

Lemma RegisterSystem_objs w q n w' r :
  RegisterSystem q n w = (w', r) → w_objs w' = w_objs w ∧ w_comps w' = w_comps w.
Proof.
  unfold RegisterSystem, mbind, prog_bind, rt. destruct (w_rts w !! q); [|naive_solver].
  destruct (decide _); intros [= <- <-]; done.
Qed.

Lemma typed_AddComponent w o x c w' :
  wf w → typed_world w → exist w (requirements c) → w_objs w !! o = Some x →
  AddComponent implements type_implements type_of IsUnique GetRequire o c w = (w', Ret tt) → typed_world w'.
Proof.
  intros Hwf Ht Hex Hx E. destruct (AddComponent_store w o x c Hwf Ht Hex Hx) as (w2 & l & added & E' & _ & Ho & Hc & Ha & _).
  rewrite E in E'. injection E' as <-. intros p y d Hy Hd. unfold comp_type. rewrite Hc.
  destruct (decide (d = c)) as [->|Hne]; [by rewrite lookup_insert_eq|rewrite lookup_insert_ne by done].
  rewrite Ho in Hy. apply lookup_insert_Some in Hy as [[<- <-]|[_ Hy]]; [|by apply (Ht p y)].
  apply (Ht o x); [done|]. simpl in Hd. apply elem_of_app in Hd as [Hd|Hd]; [done|].
  destruct Ha as [->| ->]; [by apply elem_of_nil in Hd|]. by apply list_elem_of_singleton in Hd.
Qed.

Lemma local_AddComponent w o c w' r :
  wf w → typed_world w → local_ok w → exist w (requirements c) →
  AddComponent implements type_implements type_of IsUnique GetRequire o c w = (w', r) →
  typed_world w' ∧ local_ok w'.
Proof.
  intros Hwf Ht Hl Hex E. destruct (w_objs w !! o) as [x|] eqn:Hx; cycle 1.
  { unfold AddComponent, Object_Runtime, reading, RLock in E.
    rewrite !bind_assoc, missing_bind in E by done. by simplify_eq. }
  destruct (AddComponent_store w o x c Hwf Ht Hex Hx) as (w2 & l & added & E' & _ & Ho & _ & Ha & Hb & _).
  rewrite E in E'. injection E' as <- ->. split; [by eapply typed_AddComponent|].
  intros p z Hz. rewrite Ho in Hz. apply lookup_insert_Some in Hz as [[<- <-]|[_ Hz]]; [|by apply (Hl p z)].
  unfold local_types. simpl. rewrite filter_app, fmap_app.
  destruct Ha as [->|Ha]; [rewrite app_nil_r; exact (Hl o x Hx)|].
  destruct (proj1 Hb Ha) as [Hn _]. rewrite Ha, filter_cons. destruct (decide (local_only c)) as [Hu|]; simpl;
    [|rewrite app_nil_r; exact (Hl o x Hx)].
  apply NoDup_app. split_and!; [exact (Hl o x Hx)| |apply NoDup_singleton].
  intros t Hin ->%list_elem_of_singleton. apply Hn.
  unfold taken. rewrite Hu, decide_False, decide_True by done.
  apply list_elem_of_fmap in Hin as (d & Htd & [_ Hd]%list_elem_of_filter).
  exists d. split; [unfold comps_of; by rewrite Hx|done].
Qed.

Lemma checked_step_inv w w' :
  wf w → typed_world w → local_ok w → checked_step w w' → wf w' ∧ typed_world w' ∧ local_ok w'.
Proof.
  intros Hwf Ht Hl (p & r & Had & Hr & E). split.
  { apply (op_step_wf implements type_implements type_of IsUnique GetRequire w); [done|].
    by exists p, r. }
  destruct p; simpl in E, Had;
    try (apply frame_bind_unit in E as [r0 E]; rewrite ?NewRuntime_run in E).
  - simplify_eq. apply (comp_frame_inv w); [|done|done].
    eapply comp_frame_trans; [|by apply comp_frame_fresh]. split; [done|]. intros q z Hz. eauto.
  - destruct (RegisterSystem_objs _ _ _ _ _ E) as [Ho Hc].
    apply (comp_frame_inv w); [|done|done]. split; [done|]. rewrite Ho. intros q z Hz. eauto.
  - rewrite NewObject_run in E. simplify_eq. by apply (comp_frame_inv w); [apply comp_frame_fresh|..].
  - apply (comp_frame_inv w); [by eapply frame_AddObject|done|done].
  - apply (comp_frame_inv w); [by eapply frame_RemoveObject|done|done].
  - apply (comp_frame_inv w); [by eapply frame_Destroy|done|done].
  - by eapply local_AddComponent.
  - apply (comp_frame_inv w); [by eapply frame_RemoveComponent|done|done].
  - apply (comp_frame_inv w); [by eapply frame_RemoveComponentsByType|done|done].
  - apply (comp_frame_inv w); [by eapply frame_Rename|done|done].
Qed.

Lemma World_Init_inv : wf World_Init ∧ typed_world World_Init ∧ local_ok World_Init.
Proof. split_and!; [split; [split; [split|]|]|..]; intros o x; (done || intros; by set_solver). Qed.

(** C7: whatever sequence of operations is run, no object ever holds two components
    of one type that is declared unique within its object. *)
Theorem local_uniqueness w o x :
  rtc checked_step World_Init w → w_objs w !! o = Some x → NoDup (local_types x).
Proof.
  intros Hr. assert (wf w ∧ typed_world w ∧ local_ok w) as (_ & _ & Hl); [|by apply Hl].
  pose proof World_Init_inv as H0. induction Hr as [w|w w' w2 Hs _ IH]; [done|].
  apply IH. destruct H0 as (? & ? & ?). by apply (checked_step_inv w).
Qed.
End components.

(** ** Witnesses *)
Lemma Example_concrete c : is_interface (Example.type_of c) = false.
Proof. done. Qed.

Lemma Example_objs :
  map_to_list (w_objs Example.tree) = [(3, Example.b); (2, Example.a); (1, Example.root)]%positive.
Proof. by vm_compute. Qed.

Lemma Example_typed : typed_world Example.type_of Example.tree.
Proof.
  intros o x c Hx Hc. apply elem_of_map_to_list in Hx. rewrite Example_objs in Hx.
  apply list_elem_of_In in Hx.
  destruct Hx as [Hx|[Hx|[Hx|[]]]]; injection Hx as <- <-; apply list_elem_of_In in Hc;
    simpl in Hc; repeat (destruct Hc as [<-|Hc]; [by vm_compute|]); done.
Qed.

Lemma AddComponent_result_witness :
  w_objs Example.tree !! 2%positive = Some Example.a ∧
  ∃ w', AddComponent Example.implements Example.type_implements Example.type_of Example.IsUnique
    Example.GetRequire 2 9 Example.tree = (w', Ret tt).
Proof.
  split; [apply Example.tree_a|].
  destruct (AddComponent_result Example.implements Example.type_implements Example.type_of
    Example.IsUnique Example.GetRequire Example_concrete Example.tree 2 Example.a 9
    Example.tree_wf Example_typed (Forall_nil_2 _) Example.tree_a) as (l & b & _ & _ & H).
  eexists. exact H.
Defined.

(** A root object that holds component 7, and component 8 of the same, globally
    unique type. *)
Definition lone : Object := mkObject "u1" "runtime" None [7%positive] [] None Free.
Definition lone_world : World :=
  mkWorld {[ 1%positive := lone ]}
    {[ 7%positive := mkComponentBase (Some (Example.type_of 7)) None (Some 1%positive) ]} ∅ [] [].

Lemma lone_lookup o x : w_objs lone_world !! o = Some x → o = 1%positive ∧ x = lone.
Proof. unfold lone_world; simpl. by intros [<- <-]%lookup_singleton_Some. Qed.
Lemma lone_view o n : view lone_world !! o = Some n → o = 1%positive ∧ n = node_of lone.
Proof. intros (x & [-> ->]%lone_lookup & <-)%view_lookup. done. Qed.

Lemma lone_wf : wf lone_world.
Proof.
  split; [split; [split|]|].
  - intros o n c [-> ->]%lone_view Hc. by apply elem_of_nil in Hc.
  - intros o n [-> ->]%lone_view. constructor.
  - intros o n [-> ->]%lone_view. exists []. by apply (chain_root _ _ (node_of lone)).
  - intros o n [-> ->]%lone_view. done.
  - intros o x r [-> ->]%lone_lookup Hr. done.
Qed.

Lemma lone_typed : typed_world Example.type_of lone_world.
Proof. intros o x c [-> ->]%lone_lookup Hc. apply list_elem_of_singleton in Hc as ->. done. Qed.

Lemma global_unique_ignores_root_witness :
  7%positive ∈ obj_components lone ∧
  ∃ w', AddComponent Example.implements Example.type_implements Example.type_of
      (λ _, Some UNIQUE_TYPE_GLOBAL) Example.GetRequire 1 8 lone_world = (w', Ret tt) ∧
    obj_components <$> (w_objs w' !! 1%positive) = Some [7; 8]%positive.
Proof.
  split; [by left|].
  apply (global_unique_ignores_root Example.implements Example.type_implements Example.type_of
    (λ _, Some UNIQUE_TYPE_GLOBAL) Example.GetRequire Example_concrete lone_world 1 lone 8 7
    lone_wf lone_typed (Forall_nil_2 _) (Forall_nil_2 _)); try done. by left.
Defined.

Lemma run_all_checked ps w : wf w → Example.none_hangs ps w →
  rtc (checked_step Example.implements Example.type_implements Example.type_of Example.IsUnique
         Example.GetRequire) w (Example.run_all ps w).
Proof.
  revert w. induction ps as [|p ps IH]; intros w Hw Hn; [done|]. destruct Hn as [Hh Hn].
  pose proof (run_op_cases Example.implements Example.type_implements Example.type_of
    Example.IsUnique Example.GetRequire p w Hw) as Hc. rewrite Hh in Hc.
  destruct Hc as (w' & r & E & Hr & Hw'). unfold Example.run_all. simpl. rewrite E in Hn |- *.
  eapply rtc_l; [|by apply IH]. exists p, r.
  split; [destruct p; done || apply Forall_nil_2|]. split; [by intros ->|done].
Qed.

Lemma local_uniqueness_witness :
  w_objs Example.tree !! 2%positive = Some Example.a ∧
  NoDup (local_types Example.type_of Example.IsUnique Example.a).
Proof.
  split; [apply Example.tree_a|].
  apply (local_uniqueness Example.implements Example.type_implements Example.type_of
    Example.IsUnique Example.GetRequire Example_concrete Example.tree 2 Example.a
    (run_all_checked _ _ wf_Init Example.tree_ran) Example.tree_a).
Defined.
