(* ===== verification/EcsBase.v ===== *)
(** * hECS: the base of a component (component.go)

    The methods of ComponentBase, which every component embeds, over the store of
    EcsObject: what a component sees of its object and its runtime after AddComponent, and
    what it does not see when its object is attached later; and the runtime's list of custom
    systems (runtime.go). *)
From S2P Require Import Prelude GoList Iter EcsSystems EcsObject EcsTree EcsComponents.

Section base.
Context (implements : iface → cid → bool) (type_implements : rtype → rtype → bool).
Context (type_of : cid → rtype) (IsUnique : cid → option Z).
Context (GetRequire : cid → option (list (oid * list rtype))).
Hypothesis concrete : ∀ c, is_interface (type_of c) = false.

(** A base that [Init] was not called on is the zero value. *)
Definition base (c : cid) : W ComponentBase := λ w,
  (w, Ret (default (mkComponentBase None None None) (w_comps w !! c))).

Definition Base_Type (c : cid) : W (option rtype) := b ← base c; mret (cb_typ b).
Definition Base_Runtime (c : cid) : W (option rid) := b ← base c; mret (cb_runtime b).
Definition Base_Parent (c : cid) : W (option oid) := b ← base c; mret (cb_parent b).
(** A method of a nil pointer that reads through it. *)
Definition through {A B} (p : option A) (m : A → W B) : W B :=
  match p with Some a => m a | None => panicking NilDereference end.
Definition Runtime_Root (r : rid) : W oid := x ← rt r; mret (rt_root x).
Definition Base_Root (c : cid) : W oid := r ← Base_Runtime c; through r Runtime_Root.
Definition Base_GetComponent (c : cid) (cpt : rtype) : W (result ecs_error cid) :=
  o ← Base_Parent c; through o (λ o, Find type_implements o cpt []).
Definition Base_AddComponent (c cpt : cid) : W unit :=
  o ← Base_Parent c; through o (λ o, AddComponent implements type_implements type_of IsUnique GetRequire o cpt).

(** Before it is added to an object a component has nothing to ask: each of these panics. *)
Lemma base_unset c w : w_comps w !! c = None →
  Base_Root c w = (w, Panic NilDereference) ∧ (∀ t, Base_GetComponent c t w = (w, Panic NilDereference)) ∧
  (∀ d, Base_AddComponent c d w = (w, Panic NilDereference)).
Proof.
  intros Hc. unfold Base_Root, Base_GetComponent, Base_AddComponent, Base_Runtime, Base_Parent, base.
  unfold_prog. by rewrite Hc.
Qed.

(** What a component that was given to an object sees, whether it was accepted or not: its
    type, the object, the first component of a type that the object has, and the runtime
    that the object or the nearest object above it has recorded, with its root; without
    one, [Root] panics. *)
Theorem base_of_component w o x c :
  wf w → typed_world type_of w → exist w (requirements GetRequire c) → w_objs w !! o = Some x →
  ∃ w' l added, AddComponent implements type_implements type_of IsUnique GetRequire o c w = (w', Ret tt) ∧
    chain (view w) o l ∧ (added = [] ∨ added = [c]) ∧ let r := first_runtime w (o :: l) in
    Base_Type c w' = (w', Ret (Some (type_of c))) ∧ Base_Parent c w' = (w', Ret (Some o)) ∧
    Base_Runtime c w' = (w', Ret r) ∧
    (∀ t, Base_GetComponent c t w' = (w', Ret match head (filter (λ d, type_of d = t) (obj_components x ++ added)) with
       | Some d => Ok d | None => Err (IterErr ErrEndIteration) end)) ∧
    (∀ d, Base_AddComponent c d w' = AddComponent implements type_implements type_of IsUnique GetRequire o d w') ∧
    (Base_Root c w').2 = match r ≫= (w_rts w' !!.) with Some R => Ret (rt_root R) | None => Panic NilDereference end.
Proof.
  intros Hwf Ht Hex Hx.
  destruct (AddComponent_store implements type_implements type_of IsUnique GetRequire concrete w o x c Hwf Ht Hex Hx) as (w' & l & added & E & Hl & Ho & Hc & Ha & _).
  exists w', l, added. split; [exact E|]. split; [exact Hl|]. split; [exact Ha|]. cbn zeta.
  assert (w_comps w' !! c = Some (mkComponentBase (Some (type_of c)) (first_runtime w (o :: l)) (Some o))) as Hb
    by (rewrite Hc; apply lookup_insert_eq).
  unfold Base_Root, Base_GetComponent, Base_AddComponent, Base_Type, Base_Runtime, Base_Parent, base. unfold_prog.
  rewrite Hb. cbn -[Find AddComponent Runtime_Root]. split; [done|]. split; [done|]. split; [done|]. split; [|split; [done|]].
  - intros t. rewrite (Find_run type_implements type_of concrete w' o
      (with_components (obj_components x ++ added) (with_runtime (first_runtime w (o :: l)) x))); [done| |].
    + by eapply typed_AddComponent.
    + rewrite Ho. apply lookup_insert_eq.
  - destruct (first_runtime w (o :: l)) as [r|]; [|done]. cbn. unfold Runtime_Root, rt. unfold_prog.
    by destruct (w_rts w' !! r).
Qed.

(** ** A component whose object is attached later *)
Lemma AddObject_rts w o object w' r : wf w → AddObject o object w = (w', r) → w_rts w' = w_rts w.
Proof.
  intros Hwf E. destruct (w_objs w !! object) as [y|] eqn:Hy; cycle 1.
  { unfold AddObject, Parent in E. rewrite bind_assoc, missing_bind in E by done. by simplify_eq. }
  destruct (w_objs w !! o) as [x|] eqn:Hx; cycle 1.
  { unfold AddObject in E. rewrite (bind_Ret _ _ _ _ _ (Parent_eq _ _ _ Hy)) in E.
    destruct (decide _); [|rewrite WithLock_missing in E by done]; by ret_eq E. }
  pose proof Hwf as [[Hs _] _]. destruct (sh_chain _ Hs o _ (view_obj _ _ _ Hx)) as [lo Hlo].
  pose proof (wf_free _ _ _ Hwf Hx) as Hl.
  unfold AddObject in E. rewrite (bind_Ret _ _ _ _ _ (Parent_eq _ _ _ Hy)) in E.
  destruct (decide (is_Some (obj_parent y))); [by ret_eq E|].
  destruct (decide (o = object ∨ object ∈ lo)) as [Hbad|Hgood].
  - rewrite (AddObject_bad w o object x Hx Hl lo Hlo Hbad) in E. by simplify_eq.
  - rewrite (AddObject_attach w o object x y lo Hx Hl Hy Hlo) in E by tauto. by simplify_eq.
Qed.

(** A component that is added to an object outside of any runtime is shown to no system,
    and attaching the object to a runtime's tree does not make up for it: no system of any
    runtime ever hears of the component, so that it is neither awakened nor started nor
    updated, and its [Root] still panics; only its type and its object are known. *)
Theorem late_component w o x c p w1 w2 r :
  wf w → typed_world type_of w → exist w (requirements GetRequire c) → w_objs w !! o = Some x →
  obj_parent x = None → obj_runtime x = None →
  AddComponent implements type_implements type_of IsUnique GetRequire o c w = (w1, Ret tt) →
  AddObject p o w1 = (w2, r) →
  w_rts w2 = w_rts w ∧ Base_Root c w2 = (w2, Panic NilDereference) ∧ Base_Parent c w2 = (w2, Ret (Some o)).
Proof.
  intros Hwf Ht Hex Hx Hp Hr E1 E2.
  destruct (AddComponent_run implements type_implements type_of IsUnique GetRequire concrete w o x c Hwf Ht Hex Hx) as (l & b & Hl & _ & E). cbn zeta in E.
  assert (first_runtime w (o :: l) = None) as Hnone.
  { assert (l = []) as ->.
    { destruct Hl as [o n _ _|o n q l Hn Hq _]; [done|]. rewrite (view_obj _ _ _ Hx) in Hn. by simplify_eq/=. }
    by rewrite (first_runtime_cons _ _ _ _ Hx), Hr. }
  assert (w_rts w1 = w_rts w ∧ w_comps w1 !! c = Some (mkComponentBase (Some (type_of c)) None (Some o))) as [Hrts Hb].
  { rewrite E in E1. injection E1 as <-. unfold inited, stored, initialised. rewrite Hnone.
    destruct b; [|destruct (decide _)]; simpl; by rewrite lookup_insert_eq. }
  assert (wf w1) as Hwf1.
  { pose proof (ends_AddComponent implements type_implements type_of IsUnique GetRequire o c w Hwf) as H.
    unfold ends_wf, wp in H. by rewrite E1 in H. }
  destruct (frame_AddObject IsUnique GetRequire w1 p o w2 r Hwf1 E2) as [Hc _].
  rewrite (AddObject_rts w1 p o w2 r Hwf1 E2), Hrts. split; [done|].
  assert (w_comps w2 !! c = Some (mkComponentBase (Some (type_of c)) None (Some o))) as Hb2 by (by rewrite Hc).
  unfold Base_Root, Base_Parent, Base_Runtime, base. unfold_prog. by rewrite Hb2.
Qed.
End base.

(** ** Custom systems (runtime.go)

    They are user code; the runtime keeps a list of them, and calls them by it. *)
Section customs.
Context (implements : iface → cid → bool).

(** [UpdateFrame] behind the four systems: the registered systems, in the order of their
    registration. *)
Definition UpdateFrame_customs (q : rid) : W (list string) := R ← rt q; mret (cs_name <$> customSystems R).
Definition names_once (w : World) : Prop := ∀ q R, w_rts w !! q = Some R → NoDup (cs_name <$> customSystems R).

Lemma operate_custom_names name op c l : ∀ l', operate_custom name op c l = Some l' → cs_name <$> l' = cs_name <$> l.
Proof.
  induction l as [|s l IH]; intros l' E; [done|]. cbn [operate_custom] in E.
  destruct (operate_custom name op c l) as [l1|] eqn:El.
  - injection E as <-. csimpl. by rewrite (IH l1).
  - destruct (decide (cs_name s = name)); [|done]. by injection E as <-.
Qed.
Lemma names_once_set w q R : names_once w → NoDup (cs_name <$> customSystems R) → names_once (set_rt q R w).
Proof. intros Hw HR p R'. simpl. intros [[_ <-]|[_ Hp]]%lookup_insert_Some; [done|by eapply Hw]. Qed.
Lemma operate_custom_found name op c l : name ∈ cs_name <$> l → is_Some (operate_custom name op c l).
Proof.
  induction l as [|s l IH]; [by intros ?%elem_of_nil|]. csimpl. intros Hin.
  destruct (operate_custom name op c l) eqn:E; [by eexists|]. destruct (decide (cs_name s = name)); [by eexists|].
  apply elem_of_cons in Hin as [->|Hin]; [done|]. by destruct (IH Hin).
Qed.
Lemma RegisterSystem_names q name w w1 : names_once w → RegisterSystem q name w = (w1, Ret tt) →
  ∃ R, w_rts w1 !! q = Some R ∧ names_once w1 ∧ name ∈ cs_name <$> customSystems R.
Proof.
  intros Hw E. unfold RegisterSystem, rt in E. revert E. unfold_prog. destruct (w_rts w !! q) as [R|] eqn:HR; [|done].
  destruct (decide (Exists (λ s, cs_name s = name) (customSystems R))) as [Hd|Hd]; intros E; injection E as <-.
  - exists R. split; [done|]. split; [done|]. apply Exists_exists in Hd as (s & Hs & <-). by apply list_elem_of_fmap_2.
  - eexists. split; [apply lookup_insert_eq|]. split.
    + apply names_once_set; [done|]. simpl. rewrite fmap_app. apply NoDup_app. split; [by eapply Hw|].
      split; [|apply NoDup_singleton]. intros n (s & -> & Hs)%list_elem_of_fmap Hn%list_elem_of_singleton.
      apply Hd, Exists_exists. by exists s.
    + simpl. rewrite fmap_app. apply elem_of_app. right. by left.
Qed.

(** However systems are registered and components are shown and taken away, every
    registered system is called once in a frame, in its place; and one that has the name of
    a built-in system is never reached by SystemOperate. *)
Theorem customs_once w q name op c w1 w2 w3 r3 :
  names_once w →
  RegisterSystem q name w = (w1, Ret tt) → SystemFilter implements q c w1 = (w2, Ret tt) →
  SystemOperate implements q name op c w2 = (w3, Ret r3) →
  names_once w1 ∧ names_once w2 ∧ names_once w3 ∧ r3 = None ∧
  (∃ names, UpdateFrame_customs q w3 = (w3, Ret names) ∧ name ∈ names) ∧
  (name ∈ ["awake"; "start"; "update"; "destroy"] → ∀ R2 R3, w_rts w2 !! q = Some R2 → w_rts w3 !! q = Some R3 →
     customSystems R3 = customSystems R2).
Proof.
  intros Hw E1 E2 E3. destruct (RegisterSystem_names q name w w1 Hw E1) as (R1 & HR1 & H1 & Hin).
  unfold SystemFilter, rt in E2. revert E2. unfold_prog. rewrite HR1. intros E2. injection E2 as <-.
  set (R2 := mkRuntime _ _ _) in *.
  assert (cs_name <$> customSystems R2 = cs_name <$> customSystems R1) as En.
  { simpl. rewrite <- list_fmap_compose. apply list_fmap_ext. by intros ?? []. }
  assert (names_once (set_rt q R2 w1)) as H2 by (apply names_once_set; [done|rewrite En; by eapply H1]).
  rewrite <- En in Hin. assert (NoDup (cs_name <$> customSystems R2)) as Hnd by (rewrite En; by eapply H1).
  unfold SystemOperate, rt in E3. revert E3. unfold_prog. cbn [w_rts set_rt]. rewrite lookup_insert_eq. intros E3.
  assert (∃ R3, w3 = set_rt q R3 (set_rt q R2 w1) ∧ r3 = None ∧ cs_name <$> customSystems R3 = cs_name <$> customSystems R2 ∧
    (is_Some (inner_operate implements name op c (innerSystems R2)) → customSystems R3 = customSystems R2))
    as (R3 & -> & -> & En3 & Hcs).
  { destruct (inner_operate implements name op c (innerSystems R2)) as [f|].
    - injection E3 as <- <-. by eexists.
    - destruct (operate_custom_found name op c (customSystems R2)) as [l El]; [exact Hin|]. rewrite El in E3.
      injection E3 as <- <-. eexists. split; [done|]. split; [done|]. split; [by eapply operate_custom_names|by intros []]. }
  split; [done|]. split; [done|]. split; [apply names_once_set; [done|rewrite En3; exact Hnd]|].
  split; [done|]. split.
  - exists (cs_name <$> customSystems R3). unfold UpdateFrame_customs, rt. unfold_prog. cbn [w_rts set_rt].
    rewrite lookup_insert_eq. split; [done|]. rewrite En3. exact Hin.
  - intros Hname R2' R3' HR2 HR3. cbn [w_rts set_rt] in HR3. rewrite lookup_insert_eq in HR3.
    injection HR2 as <-. injection HR3 as <-. apply Hcs. unfold inner_operate.
    rewrite !elem_of_cons, elem_of_nil in Hname. destruct_or! Hname; subst; try done; by eexists.
Qed.
End customs.

(** ** An object that gets component 9 before it is put below the root of a runtime *)
Definition late_world : World := Example.run_all [OpNewRuntime "u1"; OpNewObject "u2" "late"] World_Init.
Lemma late_component_witness : ∃ w1 w2 R,
  AddComponent Example.implements Example.type_implements Example.type_of Example.IsUnique Example.GetRequire 2 9 late_world =
    (w1, Ret tt) ∧
  AddObject 1 2 w1 = (w2, Ret None) ∧ w_rts w2 !! 1%positive = Some R ∧ rt_root R = 1%positive ∧
  gl_values (q_components (f_awake (innerSystems R))) = [] ∧ Base_Root 9 w2 = (w2, Panic NilDereference).
Proof.
  assert (w_objs late_world !! 2%positive = Some (mkObject "u2" "late" None [] [] None Free)) as Hx by (by vm_compute).
  assert (wf late_world) as Hwf by (apply Example.run_all_wf; [apply wf_Init|repeat split]).
  assert (typed_world Example.type_of late_world) as Ht.
  { intros o x c Ho Hc. apply elem_of_map_to_list in Ho. vm_compute in Ho.
    repeat (apply elem_of_cons in Ho as [Ho|Ho]; [injection Ho as -> ->; by apply elem_of_nil in Hc|]). by apply elem_of_nil in Ho. }
  set (add := AddComponent Example.implements Example.type_implements Example.type_of Example.IsUnique Example.GetRequire 2 9 late_world).
  assert (add = (add.1, Ret tt)) as E1 by (by vm_compute).
  assert (AddObject 1 2 add.1 = ((AddObject 1 2 add.1).1, Ret None)) as E2 by (by vm_compute).
  destruct (late_component Example.implements Example.type_implements Example.type_of Example.IsUnique Example.GetRequire
    Example_concrete late_world 2 _ 9 1 _ _ _ Hwf Ht (Forall_nil_2 _) Hx eq_refl eq_refl E1 E2) as (Hrts & Hroot & _).
  destruct (w_rts late_world !! 1%positive) as [R|] eqn:HR; [|by vm_compute in HR].
  exists add.1, (AddObject 1 2 add.1).1, R. split; [exact E1|]. split; [exact E2|]. split; [by rewrite Hrts|].
  vm_compute in HR. injection HR as <-. split; [reflexivity|]. split; [reflexivity|exact Hroot].
Defined.
