(* ===== verification/EcsFactory.v ===== *)
(** * hECS: templates of objects

    object_factory.go, the templates of template.go, and [Extract] and [Insert] of
    runtime.go: an object with everything below it as a plain value, and back. *)
From stdpp Require Import functions.
From S2P Require Import Prelude GoList Iter EcsSystems EcsObject EcsTree EcsComponents.

(** Data is what [IPersist] turns a component into. *)
Record ComponentTemplate (D : Type) := mkCT { ct_Type : string; ct_Data : option D }.
Arguments mkCT {D} _ _.
Arguments ct_Type {D} _.
Arguments ct_Data {D} _.

Inductive ObjectTemplate (D : Type) :=
| mkOT (Name : string) (Components : list (ComponentTemplate D)) (Objects : list (ObjectTemplate D)).
Arguments mkOT {D} _ _ _.

(** Induction with the hypothesis for every object below. *)
Fixpoint ObjectTemplate_below {D} (P : ObjectTemplate D → Prop)
    (H : ∀ n cs os, Forall P os → P (mkOT n cs os)) (t : ObjectTemplate D) : P t :=
  match t with
  | mkOT n cs os =>
      H n cs os ((fix go os : Forall P os :=
        match os with
        | [] => Forall_nil_2 P
        | o :: os => Forall_cons_2 P o os (ObjectTemplate_below P H o) (go os)
        end) os)
  end.

(** [strings.TrimPrefix] *)
Definition TrimPrefix (s p : string) : string :=
  if String.prefix p s then String.substring (String.length p) (String.length s - String.length p) s else s.

(** [PkgPath] and [Name] of a type, empty for a pointer. *)
Definition pkg_name (t : rtype) : string * string :=
  match t with RNamed pkg name | RInterface pkg name => (pkg, name) | RPtr _ => ("", "") end.

Definition typeName (T : option rtype) : outcome string :=
  match T with
  | None => Panic NilDereference
  | Some T =>
      let '(isPtr, (pkgPath, name)) :=
        match T with RPtr elem => (true, pkg_name elem) | _ => (false, pkg_name T) end in
      let rtn := TrimPrefix pkgPath "vendor/" +:+ "." +:+ name in
      Ret (if isPtr : bool then "*" +:+ rtn else rtn)
  end.

Section factory.
Context (implements : iface → cid → bool) (type_implements : rtype → rtype → bool).
Context (type_of : cid → rtype) (IsUnique : cid → option Z).
Context (GetRequire : cid → option (list (oid * list rtype))).

(** What a component keeps for itself, beside the store of objects; whether it has
    [IPersist], and what its two methods do with that state. *)
Context {D CS : Type}.
Abbreviation FW := (prog (World * (cid → CS))).
Context (persists : cid → bool) (persist_Serialize : cid → CS → result ecs_error D).
Context (persist_Deserialize : cid → option D → CS → CS * option ecs_error).
Context (typ_IPersist : rtype).
(** The providers: the type each answers, and the components they make. *)
Context {provider : Type} (pv_Type : provider → rtype) (pv_New : provider → FW cid).
Context (GetUUID : World → string).

Abbreviation template := (ObjectTemplate D).
Abbreviation ctemplate := (ComponentTemplate D).

Definition on_world {A} (m : W A) : FW A := λ '(w, s), let '(w', r) := m w in ((w', s), r).
Definition state_of (c : cid) : FW CS := λ '(w, s), ((w, s), Ret (s c)).
Definition set_state (c : cid) (st : CS) : FW unit := λ '(w, s), ((w, <[c := st]> s), Ret tt).

Definition ObjectFactory : Type := gmap string provider.
Definition NewObjectFactory : ObjectFactory := ∅.
Definition Factory_Register (p : provider) (f : ObjectFactory) : outcome ObjectFactory :=
  n ← typeName (Some (pv_Type p)); Ret (<[n := p]> f).

Definition serializeComponent (c : cid) : FW (result ecs_error ctemplate) :=
  b ← on_world (comp c);
  n ← on_world (lift (typeName (cb_typ b)));
  if persists c then
    st ← state_of c;
    mret match persist_Serialize c st with Ok data => Ok (mkCT n (Some data)) | Err e => Err e end
  else mret (Ok (mkCT n None)).

(** A loop that stops at the first error. *)
Fixpoint collect_ok {A B} (f : A → FW (result ecs_error B)) (l : list A) : FW (result ecs_error (list B)) :=
  match l with
  | [] => mret (Ok [])
  | x :: l =>
      r ← f x;
      match r with
      | Err e => mret (Err e)
      | Ok y =>
          rs ← collect_ok f l;
          mret match rs with Ok ys => Ok (y :: ys) | Err e => Err e end
      end
  end.

(** [Serialize] recurses on the children; one level of fuel per level of the tree. *)
Fixpoint Serialize_rec (fuel : nat) (object : oid) : FW (result ecs_error template) :=
  match fuel with
  | O => stuck
  | S fuel =>
      x ← on_world (obj object);
      cs ← collect_ok serializeComponent (obj_components x);
      match cs with
      | Err e => mret (Err e)
      | Ok cs =>
          x ← on_world (obj object);
          os ← collect_ok (Serialize_rec fuel) (obj_children x);
          mret match os with Err e => Err e | Ok os => Ok (mkOT (obj_name x) cs os) end
      end
  end.
Definition Serialize (object : oid) : FW (result ecs_error template) :=
  fuel ← on_world objects_fuel; Serialize_rec fuel object.

(** [range factory.handlers] until the name fits; a component that has not been
    initialised has no type yet, and asking nothing for its methods panics. *)
Definition deserializeComponent (f : ObjectFactory) (t : ctemplate) : FW (result ecs_error cid) :=
  match f !! ct_Type t with
  | None => mret (Err ErrUnknownComponent)
  | Some p =>
      c ← pv_New p;
      b ← on_world (comp c);
      match cb_typ b with
      | None => panicking NilDereference
      | Some typ =>
          if type_implements typ typ_IPersist then
            st ← state_of c;
            let '(st, err) := persist_Deserialize c (ct_Data t) st in
            _ ← set_state c st;
            mret match err with Some e => Err e | None => Ok c end
          else mret (Ok c)
      end
  end.

(** The loops over the components and the objects of a template. *)
Fixpoint add_components (f : ObjectFactory) (o : oid) (cs : list ctemplate) : FW (result ecs_error unit) :=
  match cs with
  | [] => mret (Ok tt)
  | t :: cs =>
      r ← deserializeComponent f t;
      match r with
      | Err e => mret (Err e)
      | Ok c =>
          _ ← on_world (AddComponent implements type_implements type_of IsUnique GetRequire o c);
          add_components f o cs
      end
  end.
Definition add_objects (deserialize : template → FW (result ecs_error oid)) (o : oid)
    : list template → FW (result ecs_error oid) :=
  fix go os :=
    match os with
    | [] => mret (Ok o)
    | t :: os =>
        r ← deserialize t;
        match r with
        | Err e => mret (Err e)
        | Ok child => _ ← on_world (AddObject o child); go os
        end
    end.
Fixpoint Deserialize (f : ObjectFactory) (t : template) : FW (result ecs_error oid) :=
  match t with
  | mkOT name cs os =>
      w ← on_world get_state;
      o ← on_world (NewObject (GetUUID w) name);
      r ← add_components f o cs;
      match r with
      | Err e => mret (Err e)
      | Ok _ => add_objects (Deserialize f) o os
      end
  end.

(** runtime.go *)
Definition Extract (object : oid) : FW (result ecs_error template) :=
  r ← Serialize object;
  match r with
  | Err e => mret (Err e)
  | Ok t =>
      p ← on_world (Parent object);
      match p with
      | None => mret (Ok t)
      | Some p =>
          err ← on_world (RemoveObject implements p object);
          mret match err with Some e => Err e | None => Ok t end
      end
  end.
Definition Insert (f : ObjectFactory) (t : template) (parent : oid) : FW (result ecs_error oid) :=
  r ← Deserialize f t;
  match r with
  | Err e => mret (Err e)
  | Ok o => err ← on_world (AddObject parent o); mret match err with Some e => Err e | None => Ok o end
  end.

Lemma on_world_bind {A B} (m : W A) (k : A → FW B) w s w' a :
  m w = (w', Ret a) → (on_world m ≫= k) (w, s) = k a (w', s).
Proof. intros E. unfold mbind, prog_bind, on_world. by rewrite E. Qed.
Lemma on_obj_bind {B} (k : Object → FW B) w s o x :
  w_objs w !! o = Some x → (on_world (obj o) ≫= k) (w, s) = k x (w, s).
Proof. intros Hx. apply on_world_bind. unfold obj. by rewrite Hx. Qed.
Lemma on_comp_bind {B} (k : ComponentBase → FW B) w s c b :
  w_comps w !! c = Some b → (on_world (comp c) ≫= k) (w, s) = k b (w, s).
Proof. intros Hb. apply on_world_bind. unfold comp. by rewrite Hb. Qed.

(** ** An object looks like a template *)
Definition comp_mirrors (w : World) (s : cid → CS) (c : cid) (t : ctemplate) : Prop :=
  ∃ b, w_comps w !! c = Some b ∧ typeName (cb_typ b) = Ret (ct_Type t) ∧
    if persists c then ∃ d, persist_Serialize c (s c) = Ok d ∧ ct_Data t = Some d else ct_Data t = None.

(** All the objects concerned are outside of [N]. *)
Fixpoint mirrors (N : gset oid) (w : World) (s : cid → CS) (t : template) (o : oid) : Prop :=
  match t with
  | mkOT name cs os =>
      o ∉ N ∧ ∃ x, w_objs w !! o = Some x ∧ obj_name x = name ∧
        Forall2 (comp_mirrors w s) (obj_components x) cs ∧
        (fix all (os : list template) (l : list oid) : Prop :=
           match os, l with
           | [], [] => True
           | t :: os, o :: l => mirrors N w s t o ∧ all os l
           | _, _ => False
           end) os (obj_children x)
  end.
Lemma mirrors_unfold N w s name cs os o :
  mirrors N w s (mkOT name cs os) o ↔
  o ∉ N ∧ ∃ x, w_objs w !! o = Some x ∧ obj_name x = name ∧
    Forall2 (comp_mirrors w s) (obj_components x) cs ∧ Forall2 (mirrors N w s) os (obj_children x).
Proof.
  simpl. assert (∀ l, ((fix all (os : list template) (l : list oid) : Prop :=
           match os, l with
           | [], [] => True
           | t :: os, o :: l => mirrors N w s t o ∧ all os l
           | _, _ => False
           end) os l) ↔ Forall2 (mirrors N w s) os l) as Hall.
  { induction os as [|t os IH]; intros [|c l]; try done.
    - split; [done|]. intros Hf. inversion Hf.
    - split; [done|]. intros Hf. inversion Hf.
    - rewrite IH, Forall2_cons. done. }
  split; intros (Hn & x & H1 & H2 & H3 & H4); (split; [done|]); exists x; (split_and!; [done..|by apply Hall]).
Qed.

(** ** Serializing *)
Lemma collect_ok_run {A B} (f : A → FW (result ecs_error B)) l ys ws :
  Forall2 (λ x y, f x ws = (ws, Ret (Ok y))) l ys → collect_ok f l ws = (ws, Ret (Ok ys)).
Proof.
  induction 1 as [|x y l ys Hx _ IH]; [done|]. simpl. rewrite (bind_Ret _ _ _ _ _ Hx).
  by rewrite (bind_Ret _ _ _ _ _ IH).
Qed.

Lemma serializeComponent_run w s c t :
  comp_mirrors w s c t → serializeComponent c (w, s) = ((w, s), Ret (Ok t)).
Proof.
  intros (b & Hb & Ht & Hd). unfold serializeComponent. rewrite (on_comp_bind _ _ _ _ _ Hb), Ht.
  rewrite (on_world_bind (lift _) _ w s w (ct_Type t)) by done. destruct t as [n d]; simpl in *.
  destruct (persists c); [|by rewrite Hd]. destruct Hd as (d' & Ed & ->).
  rewrite (bind_Ret (state_of c) _ (w, s) (w, s) (s c)) by done. by rewrite Ed.
Qed.

Lemma Serialize_rec_run N w s : shape (view w) → ∀ t o fuel,
  mirrors N w s t o → deep fuel (view w) o → Serialize_rec fuel o (w, s) = ((w, s), Ret (Ok t)).
Proof.
  intros Hs. induction t as [name cs os IH] using ObjectTemplate_below. intros o fuel Hm Hd.
  apply mirrors_unfold in Hm as (_ & x & Hx & Hn & Hc & Ho).
  destruct (deep_S _ Hs _ _ Hd) as (fuel' & -> & Hd'). simpl.
  rewrite (on_obj_bind _ _ _ _ _ Hx).
  rewrite (bind_Ret _ _ _ (w, s) (Ok cs)).
  - rewrite (on_obj_bind _ _ _ _ _ Hx). rewrite (bind_Ret _ _ _ (w, s) (Ok os)); [by rewrite Hn|].
    apply collect_ok_run. rewrite <- (children_obj w o x Hx) in Ho |- *.
    assert (∀ c, c ∈ children_of (view w) o → deep fuel' (view w) c) as Hdc by done.
    revert Hdc Ho. generalize (children_of (view w) o). intros l Hdc Ho.
    induction Ho as [|t c os l Hm Ho IHo]; [constructor|]. apply Forall_cons in IH as [IHt IH].
    constructor; [apply IHt; [done|apply Hdc; by left]|]. apply IHo; [done|]. intros c' Hc'. apply Hdc. by right.
  - apply collect_ok_run. eapply Forall2_impl; [exact Hc|]. apply serializeComponent_run.
Qed.

Lemma Serialize_run N w s t o :
  shape (view w) → mirrors N w s t o → Serialize o (w, s) = ((w, s), Ret (Ok t)).
Proof.
  intros Hs Hm. unfold Serialize. rewrite (on_world_bind _ _ w s w (S (size (w_objs w)))) by done.
  apply (Serialize_rec_run N); [done|done|].
  assert (is_Some (view w !! o)) as Ho.
  { destruct t. apply mirrors_unfold in Hm as (_ & x & Hx & _). rewrite (view_obj _ _ _ Hx). by eexists. }
  destruct (deep_size _ Hs _ Ho) as (l & Hl & Hd). exists l. split; [done|]. rewrite view_size in *. lia.
Qed.

(** ** Deserializing *)
Definition core (x : Object) : string * list cid * list oid := (obj_name x, obj_components x, obj_children x).
(** Components that are there stay, with their states. *)
Definition comps_kept (w : World) (s : cid → CS) (w' : World) (s' : cid → CS) : Prop :=
  ∀ c b, w_comps w !! c = Some b → w_comps w' !! c = Some b ∧ s' c = s c.
Lemma comps_kept_refl w s : comps_kept w s w s.
Proof. by intros c b Hb. Qed.
Lemma comps_kept_trans w1 s1 w2 s2 w3 s3 :
  comps_kept w1 s1 w2 s2 → comps_kept w2 s2 w3 s3 → comps_kept w1 s1 w3 s3.
Proof. intros H1 H2 c b Hb. destruct (H1 c b Hb) as [Hb2 E2]. destruct (H2 c b Hb2) as [Hb3 E3]. split; [done|congruence]. Qed.

Lemma comp_mirrors_kept w s w' s' c t : comps_kept w s w' s' → comp_mirrors w s c t → comp_mirrors w' s' c t.
Proof. intros Hk (b & Hb & Ht & Hd). destruct (Hk c b Hb) as [Hb' E]. exists b. by rewrite E. Qed.

Lemma mirrors_frame N N' w s w' s' t : ∀ o,
  N' ⊆ N →
  (∀ p x, p ∉ N → w_objs w !! p = Some x → ∃ x', w_objs w' !! p = Some x' ∧ core x' = core x) →
  comps_kept w s w' s' → mirrors N w s t o → mirrors N' w' s' t o.
Proof.
  intros o HN Hw Hc. revert o. induction t as [name cs os IH] using ObjectTemplate_below. intros o.
  rewrite !mirrors_unfold. intros (Hn & x & Hx & Ename & Hcs & Hos).
  destruct (Hw o x Hn Hx) as (x' & Hx' & [= En Ec Ek]). split; [set_solver|]. exists x'.
  rewrite En, Ec, Ek. split_and!; [done|done| |].
  - eapply Forall2_impl; [exact Hcs|]. intros c t. by apply comp_mirrors_kept.
  - revert Hos. generalize (obj_children x). intros l Hos. induction Hos as [|t c os l Hm Hos IHo]; [constructor|].
    apply Forall_cons in IH as [IHt IH]. constructor; auto.
Qed.

(** *** The providers *)
(** The store with a new component that has been initialised with its type. *)
Definition new_comp (c : cid) (w : World) : World :=
  mkWorld (w_objs w) (<[c := mkComponentBase (Some (type_of c)) None None]> (w_comps w)) (w_rts w) (w_log w) (w_inits w).
(** A provider makes such components for a template: new ones, of the template's type,
    which declare nothing and get their state back from the data that it is written as. *)
Definition provides (p : provider) (t : ctemplate) : Prop := ∀ w s, ∃ c st,
  w_comps w !! c = None ∧ pv_New p (w, s) = ((new_comp c w, <[c := st]> s), Ret c) ∧
  typeName (Some (type_of c)) = Ret (ct_Type t) ∧ undemanding IsUnique GetRequire c ∧
  type_implements (type_of c) typ_IPersist = persists c ∧
  if persists c
  then ∃ d st', ct_Data t = Some d ∧ persist_Deserialize c (Some d) st = (st', None) ∧ persist_Serialize c st' = Ok d
  else ct_Data t = None.
Inductive provided (f : ObjectFactory) : template → Prop :=
| provided_all name cs os :
    Forall (λ t, ∃ p, f !! ct_Type t = Some p ∧ provides p t) cs → Forall (provided f) os →
    provided f (mkOT name cs os).

(** *** A component *)
Hypothesis concrete : ∀ c, is_interface (type_of c) = false.
Abbreviation typed_w := (typed_world type_of).
Abbreviation add_c := (AddComponent implements type_implements type_of IsUnique GetRequire).

Lemma typed_new_comp c w : typed_w w → w_comps w !! c = None → typed_w (new_comp c w).
Proof.
  intros Ht Hc p y d Hy Hd. pose proof (Ht p y d Hy Hd) as Htd. unfold comp_type in *. simpl.
  rewrite lookup_insert_ne; [done|]. intros <-. by rewrite Hc in Htd.
Qed.

(** A registered provider makes the component of a template, with the state that was written. *)
Lemma deserializeComponent_made f t p w s :
  f !! ct_Type t = Some p → provides p t →
  ∃ c s', w_comps w !! c = None ∧ deserializeComponent f t (w, s) = ((new_comp c w, s'), Ret (Ok c)) ∧
    (∀ d, d ≠ c → s' d = s d) ∧ undemanding IsUnique GetRequire c ∧
    ∀ w', cb_typ <$> (w_comps w' !! c) = Some (Some (type_of c)) → comp_mirrors w' s' c t.
Proof.
  intros Hf Hp. destruct (Hp w s) as (c & st & Hc & Enew & Etyp & Hund & Hper & Hdata).
  unfold deserializeComponent. rewrite Hf, (bind_Ret _ _ _ _ _ Enew).
  rewrite (on_comp_bind _ _ _ c (mkComponentBase (Some (type_of c)) None None)) by apply lookup_insert_eq.
  cbn [cb_typ]. rewrite Hper. destruct (persists c) eqn:Epc.
  - destruct Hdata as (d & st' & Ed & Eget & Eput). exists c, (<[c := st']> (<[c := st]> s)).
    split_and!; [done| | |done|].
    + rewrite (bind_Ret (state_of c) _ (new_comp c w, <[c := st]> s) (new_comp c w, <[c := st]> s) st)
        by (unfold state_of; by rewrite fn_lookup_insert).
      rewrite Ed, Eget. by rewrite (bind_Ret (set_state c st') _ (new_comp c w, <[c := st]> s)
        (new_comp c w, <[c := st']> (<[c := st]> s)) tt).
    + intros d' Hd'. by rewrite !fn_lookup_insert_ne.
    + intros w' (b & Hb & Eb)%fmap_Some. exists b. rewrite <- Eb, Epc, fn_lookup_insert. eauto.
  - exists c, (<[c := st]> s). split_and!; [done|done| |done|].
    + intros d' Hd'. by rewrite fn_lookup_insert_ne.
    + intros w' (b & Hb & Eb)%fmap_Some. exists b. by rewrite <- Eb, Epc.
Qed.

(** A new component that declares nothing is added to an object without parent and runtime. *)
Lemma AddComponent_bare w o x c :
  wf w → typed_w w → w_objs w !! o = Some x → obj_parent x = None → obj_runtime x = None →
  undemanding IsUnique GetRequire c →
  ∃ w', add_c o c w = (w', Ret tt) ∧ wf w' ∧ typed_w w' ∧
    w_objs w' = <[o := with_components (obj_components x ++ [c]) x]> (w_objs w) ∧
    w_comps w' = <[c := mkComponentBase (Some (type_of c)) None (Some o)]> (w_comps w).
Proof.
  intros Hw Ht Hx Hp Hr Hund.
  assert (exist w (requirements GetRequire c)) as Hex.
  { destruct (undemanding_free type_of IsUnique GetRequire w o o c Hund) as (-> & _). constructor. }
  destruct (AddComponent_store implements type_implements type_of IsUnique GetRequire concrete w o x c Hw Ht Hex Hx)
    as (w' & l & added & E & Hl & Ho & Hc & _ & Hadd & _).
  assert (l = []) as ->.
  { apply (chain_det (view w) o l []); [done|]. eapply chain_root; [by apply view_obj|done]. }
  destruct (undemanding_free type_of IsUnique GetRequire w o (default o (last [])) c Hund) as (_ & Hn & Hm).
  rewrite (proj2 Hadd (conj Hn Hm)) in Ho. rewrite (first_runtime_cons _ _ _ _ Hx), Hr in Ho, Hc.
  exists w'. split_and!; [done| |by eapply typed_AddComponent| |done].
  - pose proof (ends_AddComponent implements type_implements type_of IsUnique GetRequire o c w Hw) as Hw'.
    unfold ends_wf, wp in Hw'. by rewrite E in Hw'.
  - rewrite Ho. f_equal. destruct x; simpl in *. by subst.
Qed.
(** The components of a template, one after the other. *)
Lemma add_components_made f cs : Forall (λ t, ∃ p, f !! ct_Type t = Some p ∧ provides p t) cs → ∀ w s o x,
  wf w → typed_w w → w_objs w !! o = Some x → obj_parent x = None → obj_runtime x = None →
  ∃ w' s' added, add_components f o cs (w, s) = ((w', s'), Ret (Ok tt)) ∧ wf w' ∧ typed_w w' ∧
    w_objs w' = <[o := with_components (obj_components x ++ added) x]> (w_objs w) ∧
    comps_kept w s w' s' ∧ Forall2 (comp_mirrors w' s') added cs.
Proof.
  induction 1 as [|t cs (p & Hf & Hp) _ IH]; intros w s o x Hw Ht Hx Hpx Hrx.
  - exists w, s, []. rewrite app_nil_r. split; [done|]. split; [done|]. split; [done|].
    split; [|split; [apply comps_kept_refl|constructor]].
    rewrite insert_id; [done|]. rewrite Hx. by destruct x.
  - destruct (deserializeComponent_made f t p w s Hf Hp) as (c & s1 & Hc & E1 & Hold & Hund & Hmir).
    destruct (AddComponent_bare (new_comp c w) o x c) as (w2 & E2 & Hw2 & Ht2 & Ho2 & Hc2);
      [exact Hw|by apply typed_new_comp|done..|].
    assert (comps_kept w s w2 s1) as Hk2.
    { intros d b Hd. assert (d ≠ c) as Hne by congruence. rewrite Hc2. simpl.
      rewrite !lookup_insert_ne by done. split; [done|by apply Hold]. }
    destruct (IH w2 s1 o (with_components (obj_components x ++ [c]) x)) as
      (w' & s' & added & E & Hw' & Ht' & Ho' & Hk' & Hall); [done|done|by rewrite Ho2, lookup_insert_eq|done..|].
    exists w', s', (c :: added). split_and!; [|done|done| |by eapply comps_kept_trans|constructor; [|done]].
    + simpl. rewrite (bind_Ret _ _ _ _ _ E1). by rewrite (on_world_bind _ _ _ _ _ _ E2).
    + rewrite Ho', Ho2, insert_insert_eq. simpl. by rewrite <- app_assoc.
    + apply (comp_mirrors_kept w2 s1); [done|]. apply Hmir. by rewrite Hc2, lookup_insert_eq.
Qed.

(** *** An object *)
(** What making an object from a template leaves behind: a new tree that looks like it,
    and everything else as it was. *)
Record made (w : World) (s : cid → CS) (w' : World) (s' : cid → CS) (t : template) (o : oid) : Prop := {
  mk_wf : wf w';
  mk_typed : typed_w w';
  mk_mirrors : mirrors (dom (w_objs w)) w' s' t o;
  mk_old : ∀ p x, w_objs w !! p = Some x → w_objs w' !! p = Some x;
  mk_comps : comps_kept w s w' s';
  mk_root : ∃ y, w_objs w' !! o = Some y ∧ obj_parent y = None }.

Lemma NewObject_fresh w name :
  wf w → typed_w w → ∃ o, let x := mkObject (GetUUID w) name None [] [] None Free in
    NewObject (GetUUID w) name w = (set_obj o x w, Ret o) ∧ w_objs w !! o = None ∧
    wf (set_obj o x w) ∧ typed_w (set_obj o x w).
Proof.
  intros Hw Ht. set (o := fresh (dom (w_objs w))).
  assert (w_objs w !! o = None) as Ho by (apply not_elem_of_dom, is_fresh).
  exists o. split_and!; [done|done|by apply wf_fresh|].
  intros p z d Hz Hd. apply set_obj_Some in Hz as [[<- <-]|[_ Hz]]; [by apply elem_of_nil in Hd|by apply (Ht p z)].
Qed.

(** A finished child is hung below the object. *)
Lemma AddObject_made w0 w s w1 s1 t o x child :
  wf w → w_objs w !! o = Some x → obj_parent x = None → o ∈ dom (w_objs w0) → made w s w1 s1 t child →
  (∀ p y, w_objs w0 !! p = Some y → p ≠ o → w_objs w !! p = Some y) → dom (w_objs w0) ⊆ dom (w_objs w) →
  ∃ w2, AddObject o child w1 = (w2, Ret None) ∧ wf w2 ∧ typed_w w2 ∧ comps_kept w s w2 s1 ∧
    w_objs w2 !! o = Some (with_children (obj_children x ++ [child]) x) ∧
    (∀ p y, w_objs w0 !! p = Some y → p ≠ o → w_objs w2 !! p = Some y) ∧ dom (w_objs w0) ⊆ dom (w_objs w2) ∧
    mirrors (dom (w_objs w0)) w2 s1 t child ∧
    (∀ t' c, mirrors (dom (w_objs w0)) w s t' c → mirrors (dom (w_objs w0)) w2 s1 t' c).
Proof.
  intros Hw Hx Hpx Ho [Hw1 Ht1 Hm Hold Hc (y & Hy & Hpy)] Hkeep Hdom.
  assert (o ∈ dom (w_objs w)) as Hod by set_solver.
  assert (child ∉ dom (w_objs w)) as Hcd by (destruct t; by apply mirrors_unfold in Hm as [? _]).
  assert (o ≠ child) as Hne by congruence.
  pose proof (Hold o x Hx) as Hx1. exists (attached o child x y w1).
  assert (chain (view w1) o []) as Hch by (by eapply chain_root; [apply view_obj|]).
  assert (∀ p, p ≠ o → p ≠ child → w_objs (attached o child x y w1) !! p = w_objs w1 !! p) as Hother.
  { intros p H1 H2. unfold attached. by rewrite !set_obj_lookup_ne. }
  split_and!.
  - unfold AddObject. rewrite (bind_Ret _ _ _ _ _ (Parent_eq _ _ _ Hy)). rewrite Hpy, decide_False by by intros [].
    apply (AddObject_attach w1 o child x y []); [done| |done|done|done|by apply not_elem_of_nil].
    by eapply wf_free.
  - apply (wf_attached type_implements type_of IsUnique GetRequire w1 o child x y []); try done. by apply not_elem_of_nil.
  - unfold attached. apply (typed_set_obj _ _ o x); [|by rewrite set_obj_lookup_ne|done].
    by apply (typed_set_obj _ _ child y).
  - exact Hc.
  - apply set_obj_lookup.
  - intros p z Hp Hpo. assert (p ∈ dom (w_objs w)) as Hpd by (apply Hdom, elem_of_dom; by eexists).
    rewrite Hother; [|done|by intros ->]. apply Hold. by apply Hkeep.
  - intros p Hp. destruct (decide (p = o)) as [->|]; [apply elem_of_dom; eexists; apply set_obj_lookup|].
    apply Hdom in Hp as Hpw. apply elem_of_dom in Hpw as [z Hz].
    apply elem_of_dom. exists z. rewrite Hother; [by apply Hold|done|].
    intros ->. apply Hcd, elem_of_dom. by eexists.
  - apply (mirrors_frame (dom (w_objs w)) _ w1 s1); [exact Hdom| |exact (comps_kept_refl w1 s1)|exact Hm]. intros p z Hp Hz.
    destruct (decide (p = child)) as [->|Hpc].
    + exists (with_runtime (obj_runtime x) (with_parent (Some o) y)). unfold attached.
      rewrite set_obj_lookup_ne, set_obj_lookup by done. split; [done|]. rewrite Hy in Hz. by injection Hz as <-.
    + exists z. rewrite Hother; [done|by intros ->|done].
  - intros t' c. apply mirrors_frame; [done| |exact Hc]. intros p z Hp Hz.
    exists z. rewrite Hother; [by rewrite (Hold p z Hz)|by intros ->|].
    intros ->. apply Hcd, elem_of_dom. by eexists.
Qed.

(** The objects of a template, one after the other, below the object [o] of [w1]. *)
Lemma add_objects_made f w1 o : o ∈ dom (w_objs w1) → ∀ os,
  Forall (λ t, ∀ w s, wf w → typed_w w →
    ∃ w' s' c, Deserialize f t (w, s) = ((w', s'), Ret (Ok c)) ∧ made w s w' s' t c) os →
  ∀ wk sk xk ts, wf wk → typed_w wk → w_objs wk !! o = Some xk → obj_parent xk = None →
  Forall2 (mirrors (dom (w_objs w1)) wk sk) ts (obj_children xk) →
  (∀ p y, w_objs w1 !! p = Some y → p ≠ o → w_objs wk !! p = Some y) → dom (w_objs w1) ⊆ dom (w_objs wk) →
  ∃ w' s' cs, add_objects (Deserialize f) o os (wk, sk) = ((w', s'), Ret (Ok o)) ∧ wf w' ∧ typed_w w' ∧
    comps_kept wk sk w' s' ∧ w_objs w' !! o = Some (with_children cs xk) ∧
    Forall2 (mirrors (dom (w_objs w1)) w' s') (ts ++ os) cs ∧
    (∀ p y, w_objs w1 !! p = Some y → p ≠ o → w_objs w' !! p = Some y).
Proof.
  intros Ho os Hall. induction Hall as [|t os Ht _ IH]; intros wk sk xk ts Hw Htw Hx Hp Hm Hkeep Hdom.
  - exists wk, sk, (obj_children xk). rewrite app_nil_r. split; [done|]. split; [done|]. split; [done|].
    split; [apply comps_kept_refl|]. split; [|done]. rewrite Hx. by destruct xk.
  - destruct (Ht wk sk Hw Htw) as (w2 & s2 & child & E2 & Hmade).
    destruct (AddObject_made w1 wk sk w2 s2 t o xk child) as
      (w3 & E3 & Hw3 & Ht3 & Hc3 & Hx3 & Hk3 & Hd3 & Hm3 & Hms3); [done..|].
    destruct (IH w3 s2 _ (ts ++ [t]) Hw3 Ht3 Hx3) as (w' & s' & cs & E' & Hw' & Ht' & Hc' & Hx' & Hm' & Hk');
      [done| |done|done|].
    + apply Forall2_app; [|by repeat constructor]. eapply Forall2_impl; [exact Hm|]. auto.
    + exists w', s', cs. rewrite <- app_assoc in Hm'. split_and!; [|done|done|by eapply comps_kept_trans|done|done|done].
      simpl. rewrite (bind_Ret _ _ _ _ _ E2). by rewrite (on_world_bind _ _ _ _ _ _ E3).
Qed.

Lemma Deserialize_made f t : provided f t → ∀ w s, wf w → typed_w w →
  ∃ w' s' o, Deserialize f t (w, s) = ((w', s'), Ret (Ok o)) ∧ made w s w' s' t o.
Proof.
  induction t as [name cs os IH] using ObjectTemplate_below. intros Hpr w s Hw Ht.
  inversion Hpr as [? ? ? Hcs Hos]; subst.
  destruct (NewObject_fresh w name Hw Ht) as (o & E & Ho & Hw1 & Ht1).
  set (x := mkObject (GetUUID w) name None [] [] None Free) in *.
  assert (w_objs (set_obj o x w) !! o = Some x) as Hx by apply set_obj_lookup.
  assert (∀ p y, w_objs w !! p = Some y → p ≠ o ∧ w_objs (set_obj o x w) !! p = Some y) as Hold.
  { intros p y Hy. assert (p ≠ o) as Hne by congruence. by rewrite set_obj_lookup_ne. }
  destruct (add_components_made f cs Hcs (set_obj o x w) s o x) as
    (w2 & s2 & added & E2 & Hw2 & Ht2 & Ho2 & Hk2 & Hm2); [done..|]. simpl in Ho2.
  rewrite insert_insert_eq in Ho2.
  destruct (add_objects_made f (set_obj o x w) o) with (os := os) (wk := w2) (sk := s2)
    (xk := with_components added x) (ts := @nil template) as (w' & s' & ks & E' & Hw' & Ht' & Hk' & Hx' & Hm' & Hkeep).
  - apply elem_of_dom. by eexists.
  - rewrite Forall_forall in IH, Hos. apply Forall_forall. auto.
  - exact Hw2.
  - exact Ht2.
  - by rewrite Ho2, lookup_insert_eq.
  - done.
  - constructor.
  - intros p y Hy Hne. rewrite Ho2, lookup_insert_ne by done. by rewrite set_obj_lookup_ne in Hy.
  - rewrite Ho2. simpl. by rewrite !dom_insert_L.
  - exists w', s', o. split.
    + cbn [Deserialize]. rewrite (on_world_bind get_state _ w s w w) by done.
      rewrite (on_world_bind _ _ _ _ _ _ E). rewrite (bind_Ret _ _ _ _ _ E2). exact E'.
    + split; [done|done| | | |by eexists].
      * apply mirrors_unfold. split; [by apply not_elem_of_dom|]. eexists. split; [exact Hx'|].
        split; [done|]. split; [eapply Forall2_impl; [exact Hm2|]; intros c t; by apply comp_mirrors_kept|].
        eapply Forall2_impl; [exact Hm'|]. intros t c.
        apply mirrors_frame; [simpl; rewrite dom_insert_L; set_solver|by eauto|apply comps_kept_refl].
      * intros p y Hy. destruct (Hold p y Hy). by apply Hkeep.
      * eapply comps_kept_trans; [exact Hk2|exact Hk'].
Qed.

(** C29: a template whose component types are all registered with providers that make
    initialised components, which declare nothing and get their state back from what it is
    written as, makes a new tree below a new object without parent, leaves the objects and
    the components there were as they were, and serializing that object gives the template
    back.  A first component of a registered type whose new components have not been
    initialised makes it panic, and one of an unregistered type is an error. *)
Theorem template_roundtrip f t w s :
  wf w → typed_w w →
  (provided f t →
     ∃ w' s' o, Deserialize f t (w, s) = ((w', s'), Ret (Ok o)) ∧ wf w' ∧ w_objs w !! o = None ∧
       (∀ p x, w_objs w !! p = Some x → w_objs w' !! p = Some x) ∧ comps_kept w s w' s' ∧
       Serialize o (w', s') = ((w', s'), Ret (Ok t))) ∧
  (∀ name c cs os p, t = mkOT name (c :: cs) os → f !! ct_Type c = Some p →
     (∀ w s, ∃ w' s' k b, pv_New p (w, s) = ((w', s'), Ret k) ∧ w_comps w' !! k = Some b ∧ cb_typ b = None) →
     (Deserialize f t (w, s)).2 = Panic NilDereference) ∧
  (∀ name c cs os, t = mkOT name (c :: cs) os → f !! ct_Type c = None →
     (Deserialize f t (w, s)).2 = Ret (Err ErrUnknownComponent)).
Proof.
  intros Hw Ht. split; [|split].
  - intros Hp. destruct (Deserialize_made f t Hp w s Hw Ht) as (w' & s' & o & E & [Hw' _ Hm Hold Hk _]).
    exists w', s', o. split; [done|]. split; [done|]. split.
    + destruct t. apply mirrors_unfold in Hm as [Hn _]. by apply not_elem_of_dom.
    + split; [done|]. split; [done|]. eapply Serialize_run; [|exact Hm]. by destruct Hw' as [[? _] _].
  - intros name c cs os p -> Hf Hnew. destruct (NewObject_fresh w name Hw Ht) as (o & E & _).
    destruct (Hnew (set_obj o (mkObject (GetUUID w) name None [] [] None Free) w) s) as (w2 & s2 & k & b & E2 & Hk & Hb).
    cbn [Deserialize]. rewrite (on_world_bind get_state _ w s w w), (on_world_bind _ _ _ _ _ _ E) by done.
    cbn [add_components]. rewrite bind_assoc. unfold deserializeComponent. rewrite Hf, bind_assoc.
    rewrite (bind_Ret _ _ _ _ _ E2), bind_assoc, (on_comp_bind _ _ _ _ _ Hk). by rewrite Hb.
  - intros name c cs os -> Hf. destruct (NewObject_fresh w name Hw Ht) as (o & E & _).
    cbn [Deserialize]. rewrite (on_world_bind get_state _ w s w w), (on_world_bind _ _ _ _ _ _ E) by done.
    cbn [add_components]. rewrite bind_assoc. unfold deserializeComponent. by rewrite Hf.
Qed.
End factory.

(** ** A game with positions *)
Module Rooms.
(** Every component is a position, which is a number it is saved as. *)
Definition type_of (c : cid) : rtype := RPtr (RNamed "game" "Position").
Definition persist_Deserialize (c : cid) (data : option nat) (st : nat) : nat * option ecs_error :=
  match data with Some n => (n, None) | None => (st, Some ErrUnknownComponent) end.
Definition pv_New (p : unit) : prog (World * (cid → nat)) cid :=
  λ '(w, s), let c := fresh (dom (w_comps w)) in ((new_comp type_of c w, <[c := 0]> s), Ret c).
Definition room : ObjectTemplate nat :=
  mkOT "room" [] [mkOT "table" [mkCT "*game.Position" (Some 3)] [mkOT "cup" [mkCT "*game.Position" (Some 4)] []];
                  mkOT "chair" [mkCT "*game.Position" (Some 5)] []].
Definition factory : ObjectFactory := {["*game.Position" := tt]}.
Definition make (t : ObjectTemplate nat) : prog (World * (cid → nat)) (result ecs_error oid) :=
  Deserialize (λ _ _, false) (λ _ _, true) type_of (λ _, None) (λ _, None)
    persist_Deserialize (RInterface "ecs" "IPersist") pv_New (λ _, "id") factory t.
Definition save (o : oid) : prog (World * (cid → nat)) (result ecs_error (ObjectTemplate nat)) :=
  Serialize (λ _, true) (λ _ st, Ok st) o.

(** Making the room and saving it, evaluated. *)
Example saved :
  ((r ← make room; match r with Ok o => save o | Err e => mret (Err e) end) (World_Init, λ _, 0)).2 = Ret (Ok room).
Proof. vm_compute. reflexivity. Qed.
Example unknown : (make (mkOT "room" [mkCT "*game.Speed" (Some 1)] []) (World_Init, λ _, 0)).2
  = Ret (Err ErrUnknownComponent).
Proof. vm_compute. reflexivity. Qed.

Lemma type_of_concrete c : is_interface (type_of c) = false.
Proof. done. Qed.
Lemma position_provided n :
  provides (λ _ _, true) type_of (λ _, None) (λ _, None) (λ _, true) (λ _ st, Ok st) persist_Deserialize
    (RInterface "ecs" "IPersist") pv_New tt (mkCT "*game.Position" (Some n)).
Proof.
  intros w s. exists (fresh (dom (w_comps w))), 0.
  split; [apply not_elem_of_dom, is_fresh|]. split; [done|]. split; [done|]. split; [done|]. split; [done|].
  exists n, n. done.
Qed.
End Rooms.

Lemma template_roundtrip_witness :
  ∃ w' s' o, Rooms.make Rooms.room (World_Init, λ _, 0) = ((w', s'), Ret (Ok o)) ∧ wf w' ∧
    Rooms.save o (w', s') = ((w', s'), Ret (Ok Rooms.room)).
Proof.
  destruct (template_roundtrip (λ _ _, false) (λ _ _, true) Rooms.type_of (λ _, None) (λ _, None) (λ _, true)
     (λ _ st, Ok st) Rooms.persist_Deserialize (RInterface "ecs" "IPersist") Rooms.pv_New (λ _, "id") Rooms.type_of_concrete
     Rooms.factory Rooms.room World_Init (λ _, 0) wf_Init) as [H _].
  - intros o x c [=].
  - destruct H as (w' & s' & o & E & Hw & _ & _ & _ & Es).
    + assert (∀ n, ∃ p, Rooms.factory !! "*game.Position" = Some p ∧
        provides (λ _ _, true) Rooms.type_of (λ _, None) (λ _, None) (λ _, true) (λ _ st, Ok st)
          Rooms.persist_Deserialize (RInterface "ecs" "IPersist") Rooms.pv_New p (mkCT "*game.Position" (Some n))) as Hp.
      { intros n. exists tt. split; [done|apply Rooms.position_provided]. }
      repeat constructor; apply Hp.
    + exists w', s', o. split; [exact E|]. split; [exact Hw|exact Es].
Defined.
