(* ===== verification/EcsDebug.v ===== *)
(** * hECS: the printer of objects

    [Debug] of object.go: an object, the types of its components and everything below
    it, a line each. Every call prints what is below its object, splits the text into
    lines and indents them all again. Theorem: in a forest it comes to an end and prints
    exactly the lines of the tree, an object at depth [d] behind [d * (d + 2)] spaces. *)
From Stdlib Require Import Ascii.
From stdpp Require Import pretty.
From S2P Require Import Prelude GoString GoList Iter EcsSystems EcsObject EcsTree EcsFactory.

Definition space : ascii := " ".
Definition newline : string := String nl "".

(** [rtn += fmt.Sprintf("! %s\n", typeName(o.components[i].Type()))], for each *)
Fixpoint debug_components (cs : list cid) (rtn : string) : W string :=
  match cs with
  | [] => mret rtn
  | c :: cs =>
      b ← comp c;
      n ← lift (typeName (cb_typ b));
      debug_components cs (rtn +:+ "! " +:+ n +:+ newline)
  end.
(** [rtn += o.children[i].Debug(indent+1) + "\n"], for each *)
Fixpoint debug_children (debug : oid → W string) (cs : list oid) (rtn : string) : W string :=
  match cs with
  | [] => mret rtn
  | c :: cs => s ← debug c; debug_children debug cs (rtn +:+ s +:+ newline)
  end.
(** The last loop: lines of nothing but spaces are left out. *)
Fixpoint output_lines (prefix : string) (lines : list string) : string :=
  match lines with
  | [] => ""
  | l :: rest =>
      (if decide (String.length (Trim space l) = 0) then ""
       else prefix +:+ l +:+ (if decide (length rest = 0) then "" else newline)) +:+ output_lines prefix rest
  end.

Definition shown_name (x : Object) : string :=
  if decide (String.length (obj_name x) = 0) then "Untitled" else obj_name x.
Definition header (x : Object) : string :=
  "object: " +:+ shown_name x +:+ " (" +:+ pretty (N.of_nat (length (obj_children x))) +:+ " / " +:+
    pretty (N.of_nat (length (obj_components x))) +:+ ")".

(** One level of fuel per level of the tree. *)
Fixpoint Debug_rec (fuel : nat) (indent : Z) (o : oid) : W string :=
  match fuel with
  | O => stuck
  | S fuel =>
      x ← obj o;
      rtn ← debug_components (obj_components x) (header x +:+ newline);
      rtn ← debug_children (Debug_rec fuel (indent + 1)) (obj_children x) rtn;
      prefix ← lift (Repeat "  " indent);
      mret (output_lines (if decide (indent = 0)%Z then prefix else prefix +:+ " ") (Split nl rtn))
  end.
Definition Debug (indents : list Z) (o : oid) : W string :=
  fuel ← objects_fuel; Debug_rec fuel (default 0%Z (head indents)) o.

(** ** The lines of an object and of a tree *)
Definition type_line (w : World) (c : cid) : string :=
  match w_comps w !! c with
  | Some b => match typeName (cb_typ b) with Ret n => "! " +:+ n | _ => "" end
  | None => ""
  end.
Definition own_lines (w : World) (o : oid) : list string :=
  match w_objs w !! o with Some x => header x :: (type_line w <$> obj_components x) | None => [] end.
Definition spaces (n : nat) (l : string) : string := copies " " n +:+ l.

(** What [Debug] prints, and what is printed of an object at depth [d]. *)
Definition own_indent (k : nat) : nat := if decide (k = 0) then 0 else 2 * k + 1.
Fixpoint text_lines (w : World) (fuel k : nat) (o : oid) : list string :=
  match fuel with
  | O => []
  | S fuel => spaces (own_indent k) <$>
      (own_lines w o ++ (children_of (view w) o ≫= text_lines w fuel (S k)))
  end.
Fixpoint listing (w : World) (fuel d : nat) (o : oid) : list string :=
  match fuel with
  | O => []
  | S fuel => (spaces (d * (d + 2)) <$> own_lines w o) ++ (children_of (view w) o ≫= listing w fuel (S d))
  end.

Lemma spaces_spaces m n l : spaces m (spaces n l) = spaces (m + n) l.
Proof. unfold spaces. by rewrite copies_add, string_app_assoc. Qed.
Lemma map_spaces m n (ls : list string) : spaces m <$> (spaces n <$> ls) = spaces (m + n) <$> ls.
Proof. rewrite <- list_fmap_compose. apply list_fmap_ext. intros i l _. apply spaces_spaces. Qed.
Lemma map_spaces_0 (ls : list string) : spaces 0 <$> ls = ls.
Proof. rewrite <- (list_fmap_id ls) at 2. by apply list_fmap_ext. Qed.

(** The indentations of all the levels above add up. *)
Definition above (k : nat) : nat := k * (k + 2) - own_indent k.
Lemma above_S k : above (S k) = above k + own_indent k.
Proof. unfold above, own_indent. repeat case_decide; nia. Qed.
Lemma fmap_bind_lines (f : string → string) (g : oid → list string) cs :
  f <$> (cs ≫= g) = cs ≫= λ c, f <$> g c.
Proof. induction cs as [|c cs IH]; [done|]. csimpl. by rewrite fmap_app, IH. Qed.
Lemma text_lines_listing w fuel : ∀ k o, spaces (above k) <$> text_lines w fuel k o = listing w fuel k o.
Proof.
  induction fuel as [|fuel IH]; intros k o; [done|]. cbn [text_lines listing].
  rewrite map_spaces, <- above_S, fmap_app. f_equal.
  - do 2 f_equal. unfold above, own_indent. case_decide; nia.
  - rewrite fmap_bind_lines. apply list_bind_ext; [|done]. intros c. apply IH.
Qed.

(** ** Lines that are kept as they are *)
Definition good_line (l : string) : Prop := has_char nl l = false ∧ only space l = false.
Lemma good_spaces n l : good_line l → good_line (spaces n l).
Proof.
  intros [H1 H2]. unfold spaces, good_line. rewrite has_char_app, only_app, H1, H2.
  by rewrite copies_no_char, andb_false_r.
Qed.
Lemma good_spaces_all n ls : Forall good_line ls → Forall good_line (spaces n <$> ls).
Proof. intros H. apply Forall_fmap. eapply Forall_impl; [exact H|]. intros l. apply good_spaces. Qed.

Lemma output_lines_good p n ls :
  Forall (λ l, l = "" ∨ good_line l) ls → p = copies " " n →
  output_lines p (ls ++ [""]) = unlines (spaces n <$> filter (λ l, l ≠ "") ls).
Proof.
  intros Hls ->. induction Hls as [|l ls Hl _ IH]; [done|]. cbn [app output_lines]. rewrite filter_cons.
  rewrite (decide_False (P := length (ls ++ [""]) = 0)) by (rewrite length_app; simpl; lia).
  destruct Hl as [->|[Hn Hs]].
  - rewrite decide_True by done. rewrite decide_False by (intros []; done). exact IH.
  - assert (Trim space l ≠ "") as Ht by (intros Ht; apply Trim_empty in Ht; congruence).
    rewrite decide_False by (intros Hlen; destruct (Trim space l); done).
    rewrite decide_True by (intros ->; done). simpl. rewrite IH. unfold spaces at 2.
    by rewrite !string_app_assoc.
Qed.

(** ** The text of a tree *)
(** Names without newlines, and components that have a type. *)
Definition printable (w : World) : Prop :=
  (∀ o x, w_objs w !! o = Some x → has_char nl (obj_name x) = false) ∧
  ∀ o x c, w_objs w !! o = Some x → c ∈ obj_components x →
    ∃ b n, w_comps w !! c = Some b ∧ typeName (cb_typ b) = Ret n ∧ has_char nl n = false.

Lemma debug_components_run w cs rtn :
  (∀ c, c ∈ cs → ∃ b n, w_comps w !! c = Some b ∧ typeName (cb_typ b) = Ret n ∧ has_char nl n = false) →
  debug_components cs rtn w = (w, Ret (rtn +:+ unlines (type_line w <$> cs))).
Proof.
  revert rtn. induction cs as [|c cs IH]; intros rtn Hcs; [simpl; by rewrite string_app_nil_r|].
  cbn [debug_components]. destruct (Hcs c ltac:(by left)) as (b & n & Hb & Hn & _).
  assert (comp c w = (w, Ret b)) as E by (unfold comp; by rewrite Hb). rewrite (bind_Ret _ _ _ _ _ E).
  assert (lift (typeName (cb_typ b)) w = (w, Ret n)) as E2 by (unfold lift; by rewrite Hn).
  rewrite (bind_Ret _ _ _ _ _ E2), IH by (intros d Hd; apply Hcs; by right).
  csimpl. unfold type_line at 2. rewrite Hb, Hn. cbn [unlines foldr]. by rewrite !string_app_assoc.
Qed.
Lemma debug_children_run w (debug : oid → W string) (f : oid → list string) cs rtn :
  (∀ c, c ∈ cs → debug c w = (w, Ret (unlines (f c)))) →
  debug_children debug cs rtn w = (w, Ret (rtn +:+ unlines (cs ≫= λ c, f c ++ [""]))).
Proof.
  revert rtn. induction cs as [|c cs IH]; intros rtn Hcs; [simpl; by rewrite string_app_nil_r|].
  cbn [debug_children]. rewrite (bind_Ret _ _ _ _ _ (Hcs c ltac:(by left))), IH by (intros d Hd; apply Hcs; by right).
  csimpl. rewrite !unlines_app. simpl. by rewrite !string_app_assoc.
Qed.

(** Numbers have no newlines. *)
Lemma pretty_N_go_no_nl x : ∀ s, has_char nl s = false → has_char nl (pretty_N_go x s) = false.
Proof.
  induction (N.lt_wf_0 x) as [x _ IH]; intros s Hs. destruct (decide (0 < x)%N) as [Hx|Hx].
  - rewrite pretty_N_go_step by done. apply IH; [by apply N.div_lt|]. simpl. rewrite decide_False; [done|].
    unfold pretty_N_char. by repeat case_match.
  - assert (x = 0)%N as -> by lia. by rewrite pretty_N_go_0.
Qed.
Lemma pretty_no_nl (x : N) : has_char nl (pretty x) = false.
Proof. unfold pretty, pretty_N. case_decide; [done|]. by apply pretty_N_go_no_nl. Qed.

Lemma own_lines_good w o : printable w → Forall good_line (own_lines w o).
Proof.
  intros [Hn Hc]. unfold own_lines. destruct (w_objs w !! o) as [x|] eqn:Hx; [|done]. constructor.
  - unfold good_line, header. split; [|done]. rewrite !has_char_app, !pretty_no_nl. unfold shown_name.
    case_decide; [done|]. by rewrite (Hn o x Hx).
  - apply Forall_fmap, Forall_forall. intros c Hin. destruct (Hc o x c Hx Hin) as (b & n & Hb & En & Hnl).
    unfold good_line, type_line. simpl. by rewrite Hb, En, has_char_app, Hnl.
Qed.
Lemma text_lines_good w fuel : printable w → ∀ k o, Forall good_line (text_lines w fuel k o).
Proof.
  intros Hp. induction fuel as [|fuel IH]; intros k o; [constructor|]. cbn [text_lines].
  apply good_spaces_all, Forall_app. split; [by apply own_lines_good|]. apply Forall_bind, Forall_forall.
  intros c _. apply IH.
Qed.

Lemma filter_good ls : Forall good_line ls → filter (λ l, l ≠ "") ls = ls.
Proof.
  induction 1 as [|l ls [_ Hl] _ IH]; [done|]. rewrite filter_cons, decide_True; [by rewrite IH|]. by intros ->.
Qed.
Lemma filter_children (f : oid → list string) cs :
  (∀ c, Forall good_line (f c)) → filter (λ l, l ≠ "") (cs ≫= λ c, f c ++ [""]) = cs ≫= f.
Proof.
  intros Hf. induction cs as [|c cs IH]; [done|]. csimpl. rewrite !filter_app, filter_good, IH by done.
  rewrite filter_cons, decide_False by (intros Hne; by apply Hne). by rewrite filter_nil, app_nil_r.
Qed.

Lemma Debug_rec_run w : shape (view w) → printable w → ∀ fuel k o,
  deep fuel (view w) o → Debug_rec fuel (Z.of_nat k) o w = (w, Ret (unlines (text_lines w fuel k o))).
Proof.
  intros Hs Hp. induction fuel as [|fuel IH]; intros k o Hd.
  { by destruct (deep_S _ Hs _ _ Hd) as (? & ? & _). }
  destruct (deep_S _ Hs _ _ Hd) as (n' & [= <-] & Hd').
  assert (∃ x, w_objs w !! o = Some x) as [x Hx].
  { destruct Hd as (l & Hl & _). apply chain_lookup in Hl as [n Hn]. apply view_lookup in Hn as (x & Hx & _). eauto. }
  cbn [Debug_rec]. rewrite (obj_bind _ _ _ _ Hx).
  rewrite (bind_Ret _ _ _ _ _ (debug_components_run w _ _ (λ c, proj2 Hp o x c Hx))).
  replace (Z.of_nat k + 1)%Z with (Z.of_nat (S k)) by lia. rewrite <- (children_obj w o x Hx).
  rewrite (bind_Ret _ _ _ _ _ (debug_children_run w _ (text_lines w fuel (S k)) _ _ (λ c Hc, IH (S k) c (Hd' c Hc)))).
  unfold Repeat. rewrite decide_False by lia. rewrite (bind_Ret _ _ _ w (copies "  " (Z.to_nat (Z.of_nat k)))) by done.
  rewrite Nat2Z.id. set (p := if decide (Z.of_nat k = 0)%Z then _ else _). unfold mret, prog_ret. do 2 f_equal.
  assert (p = copies " " (own_indent k)) as Ep.
  { unfold p, own_indent. assert (∀ j, copies "  " j = copies " " (2 * j)) as E2.
    { induction j as [|j IHj]; [done|]. replace (2 * S j) with (S (S (2 * j))) by lia. simpl in *. by rewrite IHj. }
    destruct k as [|k]; [done|]. rewrite !decide_False by lia. rewrite copies_add, E2. done. }
  set (all := own_lines w o ++ (children_of (view w) o ≫= λ c, text_lines w fuel (S k) c ++ [""])).
  match goal with |- output_lines _ (Split _ ?rtn) = _ => replace rtn with (unlines all) end;
    [|unfold all; rewrite unlines_app; unfold own_lines; rewrite Hx; simpl; by rewrite !string_app_assoc].
  assert (∀ c, Forall good_line (text_lines w fuel (S k) c)) as Hgood by (intros c; by apply text_lines_good).
  assert (Forall (λ l, l = "" ∨ good_line l) all) as Hall.
  { apply Forall_app. split; [eapply Forall_impl; [by apply own_lines_good|]; by right|].
    apply Forall_bind, Forall_forall. intros c _. apply Forall_app. split; [|by repeat constructor].
    eapply Forall_impl; [apply Hgood|]. by right. }
  rewrite Split_unlines, (output_lines_good p (own_indent k)) by
    first [done|eapply Forall_impl; [exact Hall|]; by intros l [->|[? _]]].
  unfold all. by rewrite filter_app, filter_good, filter_children by (try done; by apply own_lines_good).
Qed.

(** [Debug] of an object in a forest ends, changes nothing, and prints the tree: the
    lines of every object below it, parents before children and children in their order,
    an object at depth [d] behind [d * (d + 2)] spaces, for its text is indented again by
    every object above it. *)
Theorem Debug_prints w o x :
  forest w → printable w → w_objs w !! o = Some x →
  Debug [] o w = (w, Ret (unlines (listing w (S (size (w_objs w))) 0 o))).
Proof.
  intros [Hs _] Hp Hx. unfold Debug. rewrite objects_fuel_bind.
  rewrite <- text_lines_listing, (Debug_rec_run w Hs Hp _ 0 o).
  - by rewrite map_spaces_0.
  - destruct (deep_size _ Hs o) as (l & Hl & Hn); [by eexists; apply view_obj|].
    exists l. split; [done|]. rewrite view_size in *. lia.
Qed.

Lemma Example_printable : printable Example.tree.
Proof.
  assert (∀ o x, w_objs Example.tree !! o = Some x → x ∈ [Example.b; Example.a; Example.root]) as Hin.
  { intros o x Hx. apply elem_of_map_to_list in Hx. vm_compute in Hx.
    apply list_elem_of_In in Hx as [Hx|[Hx|[Hx|[]]]]; injection Hx as _ <-; set_solver. }
  split.
  - intros o x Hx%Hin. apply list_elem_of_In in Hx as [<-|[<-|[<-|[]]]]; reflexivity.
  - intros o x c Hx%Hin Hc.
    assert (c = 7 ∨ c = 8)%positive as [-> | ->].
    { apply list_elem_of_In in Hx as [<-|[<-|[<-|[]]]]; apply list_elem_of_In in Hc; simpl in Hc;
        repeat (destruct Hc as [<-|Hc]; [first [by left|by right]|]); destruct Hc. }
    all: eexists _, "*game.Player"; split_and!; [vm_compute; reflexivity|reflexivity|reflexivity].
Qed.
Lemma Debug_prints_witness :
  Debug [] 1 Example.tree = (Example.tree, Ret (unlines
    ["object: runtime (1 / 0)"; "   object: a (1 / 2)"; "   ! *game.Player"; "   ! *game.Player";
     "        object: b (0 / 0)"])).
Proof.
  rewrite (Debug_prints Example.tree 1 Example.root (proj1 Example.tree_wf) Example_printable Example.tree_root).
  vm_compute. reflexivity.
Defined.
