(* ===== verification/Persist.v ===== *)
(** * Persist: templates and states as JSON (hECS/template.go)

    encoding/json is a parameter: the text of a value, what a text reads as, and a
    text read into a typed target. Theorem: a state that the documented functions
    take apart and put together again comes back as it was. *)
From S2P Require Import Prelude EcsObject EcsFactory.

(** What [json.Unmarshal] reads into an [interface{}]. *)
Inductive json :=
| JNull
| JBool (b : bool)
| JNumber (text : string)
| JString (s : string)
| JArray (l : list json)
| JObject (m : list (string * json)).
(** An [interface{}] that is given as raw state: nil, such a map, or anything else. *)
Inductive raw := RawNil | RawMap (m : list (string * json)) | RawOther (typ : string).

Section persist.
Context {State : Type}.
Context (Marshal : State → result string string) (Marshal_map : list (string * json) → result string string)
  (Unmarshal_any : string → result string json) (Unmarshal_into : string → State → State * option string).
Context {T : Type} (Marshal_template : T → result string string) (Unmarshal_template : string → result string T).

Definition ObjectTemplateFromJson (text : string) : result ecs_error T :=
  match Unmarshal_template text with Err e => Err (NewError e) | Ok t => Ok t end.
Definition ObjectTemplateAsJson (template : T) : result ecs_error string :=
  match Marshal_template template with Err e => Err (NewError e) | Ok s => Ok s end.

Definition conversion : string := "interface conversion: interface {} is not map[string]interface {}".

(** The assertion at the end panics when the text is no object. *)
Definition SerializeState (state : State) : outcome (result ecs_error (list (string * json))) :=
  match Marshal state with
  | Err _ => Ret (Err ErrBadValue)
  | Ok bytes =>
      match Unmarshal_any bytes with
      | Err _ => Ret (Err ErrBadValue)
      | Ok (JObject m) => Ret (Ok m)
      | Ok _ => Panic (PanicVal conversion)
      end
  end.

(** The target with what was read into it, and the error; panics are recovered. *)
Definition DeserializeState (target : option State) (r : raw) : option State * option ecs_error :=
  match r, target with
  | RawNil, _ | _, None => (target, Some ErrNullValue)
  | RawOther _, _ => (target, Some (Recovered (PanicVal conversion)))
  | RawMap m, Some t =>
      match Marshal_map m with
      | Err _ => (target, Some ErrBadValue)
      | Ok bytes =>
          let '(t, e) := Unmarshal_into bytes t in
          (Some t, if e is Some _ then Some ErrBadValue else None)
      end
  end.

(** What encoding/json documents of a state whose text is an object: the map that is
    read back is written with the same entries, which read into any target give the
    state again. *)
Definition reads_as (s : State) (m : list (string * json)) : Prop := ∃ bytes bytes',
  Marshal s = Ok bytes ∧ Unmarshal_any bytes = Ok (JObject m) ∧ Marshal_map m = Ok bytes' ∧
  ∀ t, Unmarshal_into bytes' t = (s, None).

Theorem state_roundtrip s m : reads_as s m →
  SerializeState s = Ret (Ok m) ∧ ∀ t, DeserializeState (Some t) (RawMap m) = (Some s, None).
Proof.
  intros (b & b' & E1 & E2 & E3 & E4). unfold SerializeState, DeserializeState. rewrite E1, E2, E3.
  split; [done|]. intros t. by rewrite E4.
Qed.
End persist.
