(* ===== verification/Float64.v ===== *)
(** * Go's float64

    IEEE binary64 with round-to-nearest-even (the Standard Library's [SpecFloat] at
    precision 53), and its [<=] as a total preorder on the values that are numbers. *)
From Stdlib Require Import SpecFloat.
From S2P Require Import Prelude.

Abbreviation float64 := spec_float.
#[global] Instance spec_float_eq_dec : EqDecision spec_float.
Proof. solve_decision. Defined.

Definition fmul : float64 → float64 → float64 := SFmul 53 1024.
Definition fadd : float64 → float64 → float64 := SFadd 53 1024.
Definition fdiv : float64 → float64 → float64 := SFdiv 53 1024.
Definition fle (x y : float64) : bool := SFleb x y.
Definition flt (x y : float64) : bool := SFltb x y.
Definition is_number (x : float64) : bool := match x with S754_nan => false | _ => true end.

(** An integer of at most 53 bits, exactly. *)
Definition of_int (z : Z) : float64 := binary_normalize 53 1024 z 0 false.

(** The constants of the code, to the nearest float64. *)
Definition f1 : float64 := S754_finite false 4503599627370496 (-52).
Definition f0_8 : float64 := S754_finite false 7205759403792794 (-53).
Definition f0_2 : float64 := S754_finite false 7205759403792794 (-55).

(** ** The order

    Sign class, exponent and mantissa, compared lexicographically. *)
Definition fkey (x : float64) : Z * Z * Z :=
  match x with
  | S754_zero _ => (0, 0, 0)
  | S754_infinity true => (-2, 0, 0)
  | S754_infinity false => (2, 0, 0)
  | S754_nan => (3, 0, 0)
  | S754_finite true m e => (-1, - e, - Zpos m)
  | S754_finite false m e => (1, e, Zpos m)
  end%Z.

Definition lex_le (a b : Z * Z * Z) : Prop :=
  (a.1.1 < b.1.1 ∨ a.1.1 = b.1.1 ∧
    (a.1.2 < b.1.2 ∨ a.1.2 = b.1.2 ∧ a.2 ≤ b.2))%Z.

Ltac case_compare :=
  repeat match goal with
  | |- context [(?x ?= ?y)%Z] => destruct (Z.compare_spec x y)
  | |- context [Pos.compare_cont Eq ?x ?y] =>
      change (Pos.compare_cont Eq x y) with (Pos.compare x y); destruct (Pos.compare_spec x y)
  end.

Lemma fle_lex x y : fle x y = true ↔ is_number x = true ∧ is_number y = true ∧ lex_le (fkey x) (fkey y).
Proof.
  unfold fle, SFleb, lex_le.
  destruct x as [[]|[]| |[] m e], y as [[]|[]| |[] m' e']; simpl;
    case_compare; simpl; subst;
    (split; [intros Hc; (discriminate Hc || (split_and!; [done|done|lia]))
            |intros (? & ? & Hl); (done || lia)]).
Qed.

Lemma fle_refl x : is_number x = true → fle x x = true.
Proof. intros Hx. apply fle_lex. split_and!; [done|done|]. unfold lex_le. lia. Qed.

Lemma fle_trans x y z : fle x y = true → fle y z = true → fle x z = true.
Proof.
  rewrite !fle_lex. unfold lex_le. intros (? & ? & ?) (? & ? & ?). split_and!; [done|done|lia].
Qed.

Lemma fle_total x y : is_number x = true → is_number y = true → fle x y = true ∨ fle y x = true.
Proof. intros Hx Hy. rewrite !fle_lex. unfold lex_le. rewrite Hx, Hy. lia. Qed.

Lemma fle_number x y : fle x y = true → is_number x = true ∧ is_number y = true.
Proof. rewrite fle_lex. tauto. Qed.
