(* ===== verification/Selector.v ===== *)
(** * hCluster: choosing nodes

    NodeInfo and its reply form (MasterService.go), the selection of one node out
    of a group (Selector.go) and the groups handed to callers (NodeID.go).

    The three load balancers of github.com/lafikl/liblb are third-party code: the
    class [Balancers] has their operations, [BalancerLaws] what the code relies on,
    their documentation's contract that [Balance] answers one of the added hosts,
    and an error when there is none. *)
From Stdlib Require Import SpecFloat.
From S2P Require Import Prelude Float64.

Abbreviation SelectorType := string.

Definition SELECTOR_TYPE_GROUP : SelectorType := "Group".
Definition SELECTOR_TYPE_DEFAULT : SelectorType := "Default".
Definition SELECTOR_TYPE_MIN_LOAD : SelectorType := "MinLoad".
Definition SELECTOR_TYPE_CUSTOM : SelectorType := "Custom".
Definition SELECTOR_TYPE_RANDOM : SelectorType := "Random".
Definition SELECTOR_TYPE_POLLING : SelectorType := "Polling".
Definition SELECTOR_TYPE_P2C : SelectorType := "P2C".
Definition SELECTOR_TYPE_CONST_HASHING_BL : SelectorType := "ConstHashingBoundLoad".
Definition SELECTOR_TYPE_CONST_HASHING_BLW : SelectorType := "ConstHashingBoundLoadWithWeight".
Definition SELECTOR_TYPE_SPECIAL_IP : SelectorType := "SpecialIp".

(** ** Data (MasterService.go)

    A nil map is [None]; custom data are opaque strings. *)
Record NodeInfo := mkNodeInfo {
  ni_Time : Z;
  ni_Address : string;
  ni_Role : list string;
  ni_AppName : string;
  ni_Info : option (gmap string float64);
  ni_CustomData : option (gmap string string) }.

Record InquiryReply := mkReply {
  ir_Node : string;
  ir_Info : option (gmap string float64);
  ir_CustomData : option (gmap string string) }.

Abbreviation NodeInfoDetail := InquiryReply.

#[global] Instance InquiryReply_eq_dec : EqDecision InquiryReply.
Proof. solve_decision. Defined.

(** ** The balancers *)
Inductive which := R2 | P2CB | Bounded.

#[global] Instance which_eq_dec : EqDecision which.
Proof. solve_decision. Defined.

Class Balancers (B : Type) := {
  lb_Add : which → string → B → B;
  lb_Remove : which → string → B → B;
  (** [Balance]; the key is [""] for the balancer that takes none. *)
  lb_Balance : which → string → B → B * option string;
  lb_Done : which → string → B → B;
  lb_hosts : which → B → gset string }.

Class BalancerLaws (B : Type) `{Balancers B} := {
  lb_hosts_Add k a b k' : lb_hosts k' (lb_Add k a b) =
    if decide (k = k') then {[a]} ∪ lb_hosts k' b else lb_hosts k' b;
  lb_hosts_Remove k a b k' : lb_hosts k' (lb_Remove k a b) =
    if decide (k = k') then lb_hosts k' b ∖ {[a]} else lb_hosts k' b;
  lb_hosts_Balance k key b k' : lb_hosts k' (lb_Balance k key b).1 = lb_hosts k' b;
  lb_hosts_Done k a b k' : lb_hosts k' (lb_Done k a b) = lb_hosts k' b;
  lb_Balance_host k key b a : (lb_Balance k key b).2 = Some a → a ∈ lb_hosts k b;
  lb_Balance_none k key b : (lb_Balance k key b).2 = None → lb_hosts k b = ∅ }.

(** ** Random numbers

    [rand n] is what [Intn] answers the [n]-th time it is asked (utils.go). *)
Section GenRandom.
Context (Intn : nat → Z).

(** The loop of [GenRandom]: draw until [count] different numbers are there. *)
Fixpoint GenRandom_loop (fuel draw : nat) (start count : Z) (nums : list Z) : outcome (list Z) :=
  if decide (Z.of_nat (length nums) < count)%Z then
    match fuel with
    | O => Stuck
    | S fuel =>
        let num := (Intn draw + start)%Z in
        GenRandom_loop fuel (S draw) start count (if decide (num ∈ nums) then nums else nums ++ [num])
    end
  else Ret nums.

(** [None] is the nil slice. *)
Definition GenRandom (fuel : nat) (start stop count : Z) : outcome (option (list Z)) :=
  let stop := (stop + 1)%Z in
  if decide (stop < start ∨ stop - start < count)%Z then Ret None
  else l ← GenRandom_loop fuel 0 start count []; Ret (Some l).
End GenRandom.

(** ** SourceGroup (Selector.go) *)
Definition SourceGroup : Type := list InquiryReply.

Definition load_of (info : InquiryReply) (field : string) : float64 :=
  default f1 (ir_Info info ≫= λ m, m !! field).

(** [cpu*0.8 + mem*0.2], each 1 when it is not reported. *)
Definition load (info : InquiryReply) : float64 :=
  fadd (fmul (load_of info "cpu") f0_8) (fmul (load_of info "mem") f0_2).

(** The loop: the position so far, the smallest load and its position. *)
Fixpoint SelectMinLoad_loop (l : SourceGroup) (i : Z) (min : float64) (index : Z) : Z :=
  match l with
  | [] => index
  | info :: l =>
      let sum := load info in
      if fle sum min then SelectMinLoad_loop l (i + 1) sum i
      else SelectMinLoad_loop l (i + 1) min index
  end.
Definition SelectMinLoad (this : SourceGroup) : Z := SelectMinLoad_loop this 0 f1 (-1).

(** [this[index]], for an index that may be anything. *)
Definition at_index (this : SourceGroup) (index : Z) : outcome InquiryReply :=
  if decide (index < 0)%Z then Panic IndexOutOfRange
  else match this !! Z.to_nat index with Some r => Ret r | None => Panic IndexOutOfRange end.

(** The position of the node with that address, -1 if there is none. *)
Fixpoint index_of_loop (addr : string) (l : SourceGroup) (i : Z) : Z :=
  match l with
  | [] => -1
  | info :: l => if decide (addr = ir_Node info) then i else index_of_loop addr l (i + 1)
  end.
Definition index_of (addr : string) (this : SourceGroup) : Z := index_of_loop addr this 0.

(** [SpecialIP]: the test in the loop has an empty body. *)
Definition SpecialIP (this : SourceGroup) (host : string) : Z :=
  match this with [] => -1 | _ => 0 end.

Definition CHashingBLW (this : SourceGroup) (key : string) : Z := 0.

Section select.
Context `{Balancers B}.
Context (Intn : nat → Z) (fuel : nat).
Abbreviation M := (prog B).

Definition lift_outcome {A} (r : outcome A) : M A := λ b, (b, r).

Definition Random (this : SourceGroup) : outcome Z :=
  d ← GenRandom Intn fuel 0 (Z.of_nat (length this)) 1;
  match default [(-1)%Z] d with
  | [] => Panic IndexOutOfRange
  | n :: _ => Ret n
  end.

Definition Balance (k : which) (key : string) : M (option string) := λ b,
  let '(b, r) := lb_Balance k key b in (b, Ret r).

Definition Polling (this : SourceGroup) : M Z :=
  addr ← Balance R2 "";
  mret match addr with None => (-1)%Z | Some a => index_of a this end.

(** The deferred [Done] runs whatever [Balance] answered. *)
Definition P2C (this : SourceGroup) (key : string) : M Z :=
  host ← Balance P2CB key;
  _ ← modify (lb_Done P2CB key);
  mret match host with None => (-1)%Z | Some a => index_of a this end.

Definition CHashingBL (this : SourceGroup) (key : string) : M Z :=
  host ← Balance Bounded key;
  _ ← modify (lb_Done Bounded key);
  mret match host with None => (-1)%Z | Some a => index_of a this end.

(** [SourceGroup.DoQuery] *)
Definition SourceGroup_DoQuery (this : SourceGroup) (selectorType : SelectorType) : outcome Z :=
  if decide (selectorType = SELECTOR_TYPE_DEFAULT ∨ selectorType = SELECTOR_TYPE_RANDOM)
  then Random this
  else if decide (selectorType = SELECTOR_TYPE_MIN_LOAD) then Ret (SelectMinLoad this)
  else if decide (selectorType = SELECTOR_TYPE_CUSTOM)
  then Ret (match this with [] => -1 | _ => 0 end)%Z
  else Ret (-1)%Z.

(** ** Selector.DoQuery *)
Definition ErrNoAvailableNode : string := "query string wrong".
Definition no_available_node : string := "no available node ".

(** [range] visits the map's entries in some order: [nodes] is that list. *)
Definition matches (appName role : string) (info : NodeInfo) : bool :=
  bool_decide (ni_AppName info = appName) && bool_decide (role ∈ ni_Role info).

Definition reply_of (detail : bool) (n : string * NodeInfo) : InquiryReply :=
  mkReply n.1 (if detail then ni_Info n.2 else None) (ni_CustomData n.2).

Fixpoint collect (nodes : list (string * NodeInfo)) (appName role : string) (detail : bool)
    : SourceGroup :=
  match nodes with
  | [] => []
  | n :: nodes =>
      if matches appName role n.2 then reply_of detail n :: collect nodes appName role detail
      else collect nodes appName role detail
  end.

(** [if index == -1 { err = ... } else if index != -1 { reply = {reply[index]} }] *)
Definition pick (reply : SourceGroup) (err : option string) (index : Z) (msg : string)
    : outcome (SourceGroup * option string) :=
  if decide (index = -1)%Z then Ret (reply, Some msg)
  else r ← at_index reply index; Ret ([r], err).

(** [query[3]] *)
Definition key_of (query : list string) : outcome string :=
  match query !! 3 with Some k => Ret k | None => Panic IndexOutOfRange end.

Definition DoQuery (nodes : list (string * NodeInfo)) (query : list string) (detail : bool)
    (selector : list (SourceGroup → Z)) : M (SourceGroup * option string) :=
  match query with
  | appName :: role :: typ :: _ =>
      if decide (typ = "") then mret ([], Some ErrNoAvailableNode) else
      let reply := collect nodes appName role detail in
      let err := match reply with [] => Some no_available_node | _ => None end in
      if decide (typ = SELECTOR_TYPE_MIN_LOAD) then
        let index := SelectMinLoad reply in
        lift_outcome (if decide (index = -1)%Z then Ret (reply, err)
                      else r ← at_index reply index; Ret ([r], err))
      else if decide (typ = SELECTOR_TYPE_GROUP) then mret (reply, err)
      else if decide (typ = SELECTOR_TYPE_CUSTOM) then
        match selector with
        | [] => panicking IndexOutOfRange
        | f :: _ => lift_outcome (r ← at_index reply (f reply); Ret ([r], err))
        end
      else if decide (typ = SELECTOR_TYPE_DEFAULT ∨ typ = SELECTOR_TYPE_RANDOM) then
        lift_outcome (index ← Random reply; pick reply err index "[Select-DoQuery] Random index = -1")
      else if decide (typ = SELECTOR_TYPE_POLLING) then
        index ← Polling reply;
        lift_outcome (pick reply err index "[Select-DoQuery] Polling index = -1")
      else if decide (typ = SELECTOR_TYPE_P2C) then
        key ← lift_outcome (key_of query);
        index ← P2C reply key;
        lift_outcome (pick reply err index "[Select-DoQuery] P2C index = -1")
      else if decide (typ = SELECTOR_TYPE_CONST_HASHING_BL) then
        key ← lift_outcome (key_of query);
        index ← CHashingBL reply key;
        lift_outcome (pick reply err index "[Select-DoQuery] CHashingBL index = -1")
      else if decide (typ = SELECTOR_TYPE_CONST_HASHING_BLW) then
        key ← lift_outcome (key_of query);
        lift_outcome (pick reply err (CHashingBLW reply key) "[Select-DoQuery] CHashingBLW index = -1")
      else if decide (typ = SELECTOR_TYPE_SPECIAL_IP) then
        key ← lift_outcome (key_of query);
        lift_outcome (pick reply err (SpecialIP reply key) "[Select-DoQuery] SpecialIP index = -1")
      else mret (reply, Some "[Select-DoQuery] Select type unknown")
  | _ => mret ([], Some ErrNoAvailableNode)
  end.
End select.

(** ** NodeID.go: a group of nodes, as handed to a caller *)
Section NodeIDGroup.
Context (Intn : nat → Z) (fuel : nat).

Definition NodeIDGroup : Type := list InquiryReply.

(** [make([]string, len)] and then [append]. *)
Definition Nodes (this : NodeIDGroup) : list string :=
  replicate (length this) "" ++ (ir_Node <$> this).
Definition NodesDetail (this : NodeIDGroup) : list InquiryReply := this.

(** [rand.Intn(length)] *)
Definition RandOne (this : NodeIDGroup) : outcome (result string string) :=
  if decide (length this = 0) then Ret (Err "this node id group is empty")
  else r ← at_index this (Intn 0); Ret (Ok (ir_Node r)).

Definition SelectOneNodeInfo (this : NodeIDGroup) (selectType : SelectorType)
    : outcome (result string NodeInfoDetail) :=
  index ← SourceGroup_DoQuery Intn fuel this selectType;
  if decide (index = -1)%Z
  then Ret (Err "[ERROR] node info detial index is not exist")
  else r ← at_index this index; Ret (Ok (mkReply (ir_Node r) (ir_Info r) (ir_CustomData r))).

(** The address whose client [MinLoadClient] asks for. *)
Definition MinLoadNode (this : NodeIDGroup) : outcome (result string string) :=
  if decide (length this = 0) then Ret (Err "this node id group is empty")
  else r ← at_index this (SelectMinLoad this); Ret (Ok (ir_Node r)).
End NodeIDGroup.

(** ** Least load *)

(** Position [n] holds the last of the smallest loads that are at most 1. *)
Definition least (l : SourceGroup) (n : nat) : Prop :=
  ∃ info, l !! n = Some info ∧ fle (load info) f1 = true ∧
    ∀ m info', l !! m = Some info' → fle (load info') f1 = true →
      fle (load info) (load info') = true ∧ (n < m → fle (load info') (load info) = false).

Definition all_over (l : SourceGroup) : Prop := Forall (λ info, fle (load info) f1 = false) l.

Lemma SelectMinLoad_loop_spec l pre min index :
  (index = -1 ∧ min = f1 ∧ all_over pre)%Z ∨
  (∃ n info, index = Z.of_nat n ∧ pre !! n = Some info ∧ min = load info ∧ least pre n) →
  let i := SelectMinLoad_loop l (Z.of_nat (length pre)) min index in
  (i = -1 ∧ all_over (pre ++ l))%Z ∨ (∃ n, i = Z.of_nat n ∧ least (pre ++ l) n).
Proof.
  revert pre min index. induction l as [|info l IH]; intros pre min index Hinv; cbn [SelectMinLoad_loop].
  { rewrite app_nil_r. naive_solver. }
  replace (Z.of_nat (length pre) + 1)%Z with (Z.of_nat (length (pre ++ [info])))
    by (rewrite length_app; simpl; lia).
  replace (pre ++ info :: l) with ((pre ++ [info]) ++ l) by (by rewrite <- app_assoc).
  destruct (fle (load info) min) eqn:Hle; apply IH; clear IH.
  - right. exists (length pre), info.
    assert ((pre ++ [info]) !! length pre = Some info) as Hlast by (by rewrite list_lookup_middle).
    split_and!; [done|done|done|]. exists info. split; [done|].
    assert (fle (load info) f1 = true ∧ ∀ m info', pre !! m = Some info' →
      fle (load info') f1 = true → fle (load info) (load info') = true) as [H1 Hmin].
    { destruct Hinv as [(-> & -> & Hover)|(n & info0 & -> & Hn & -> & i0 & Hn' & Hle0 & Hleast)].
      - split; [done|]. intros m info' Hm Hf. unfold all_over in Hover.
        rewrite Forall_lookup in Hover. specialize (Hover _ _ Hm). simpl in Hover. congruence.
      - simplify_eq. split; [by eapply fle_trans|]. intros m info' Hm Hf.
        eapply fle_trans; [exact Hle|]. by apply (Hleast m info'). }
    split; [done|]. intros m info' Hm Hf.
    apply lookup_app_Some in Hm as [Hm|[Hge Hm]].
    + split; [by eapply Hmin|]. apply lookup_lt_Some in Hm. lia.
    + apply list_lookup_singleton_Some in Hm as [Hm ->]. split; [|lia].
      apply fle_refl. apply (fle_number _ _ Hf).
  - destruct Hinv as [(-> & -> & Hover)|(n & info0 & -> & Hn & -> & i0 & Hn' & Hle0 & Hleast)].
    + left. split_and!; [done|done|]. apply Forall_app. split; [done|by apply Forall_singleton].
    + right. simplify_eq. exists n, info0.
      pose proof (lookup_lt_Some _ _ _ Hn) as Hlt.
      assert ((pre ++ [info]) !! n = Some info0) as Hn2 by (by rewrite lookup_app_l).
      split_and!; [done|done|done|]. exists info0. split_and!; [done|done|].
      intros m info' [Hm|[Hge Hm]]%lookup_app_Some Hf; [by apply (Hleast m info')|].
      apply list_lookup_singleton_Some in Hm as [Hm <-].
      destruct (fle_number _ _ Hf) as [Hnum _]. destruct (fle_number _ _ Hle0) as [Hnum0 _].
      destruct (fle_total _ _ Hnum Hnum0) as [|H]; [congruence|]. by split.
Qed.

(** [SelectMinLoad] answers the position of a node whose load (80% cpu, 20% mem)
    is at most 1 and smallest, the last one among equals, and -1 exactly when every
    node's load is above 1 or not a number. *)
Theorem SelectMinLoad_least (l : SourceGroup) :
  (SelectMinLoad l = -1 ∧ all_over l)%Z ∨ (∃ n, SelectMinLoad l = Z.of_nat n ∧ least l n).
Proof. apply (SelectMinLoad_loop_spec l [] f1 (-1)%Z). left. split_and!; [done|done|constructor]. Qed.

(** ** What a query answers *)
Section query.
Context `{Balancers B}.
Context (Intn : nat → Z) (fuel : nat).

Lemma elem_of_collect nodes appName role detail r :
  r ∈ collect nodes appName role detail ↔
  ∃ n, n ∈ nodes ∧ matches appName role n.2 = true ∧ r = reply_of detail n.
Proof.
  induction nodes as [|n nodes IH]; simpl.
  { split; [by intros ?%elem_of_nil|]. by intros (n & ?%elem_of_nil & _). }
  destruct (matches appName role n.2) eqn:E; rewrite ?elem_of_cons, IH; split.
  - intros [->|(m & ? & ? & ?)]; [exists n|exists m]; split_and!; (done || by constructor).
  - intros (m & [->|?]%elem_of_cons & ? & ->); [by left|right; by exists m].
  - intros (m & ? & ? & ?). exists m. split_and!; (done || by constructor).
  - intros (m & [->|?]%elem_of_cons & ? & ->); [congruence|by exists m].
Qed.

Lemma at_index_Ret l i r : at_index l i = Ret r → r ∈ l.
Proof.
  unfold at_index. destruct (decide _); [done|].
  destruct (l !! _) eqn:E; intros [= ->]. by eapply list_elem_of_lookup_2.
Qed.

(** A selection among [reply]: everything, or one of them; one only when no error
    was there before. *)
Definition selection (reply : SourceGroup) (err : option string)
    (r : SourceGroup * option string) : Prop :=
  (r.1 = reply ∧ r.2 ≠ None) ∨ (∃ x, x ∈ reply ∧ r.1 = [x] ∧ r.2 = err).

Lemma pick_selection reply err index msg r :
  pick reply err index msg = Ret r → selection reply err r.
Proof.
  unfold pick. destruct (decide _); [intros [= <-]; by left|].
  intros (x & Hx & [= <-])%outcome_bind_Ret. right. exists x. split; [by eapply at_index_Ret|done].
Qed.

Lemma lift_bind_Ret {A C} (o : outcome A) (f : A → prog B C) b b' c :
  (lift_outcome o ≫= f) b = (b', Ret c) → ∃ a, o = Ret a ∧ f a b = (b', Ret c).
Proof. unfold lift_outcome, mbind, prog_bind. destruct o; naive_solver. Qed.

Lemma pick_bind_selection {A} (m : prog B A) (f : A → Z) reply err msg b b' r :
  (index ← m; lift_outcome (pick reply err (f index) msg)) b = (b', Ret r) →
  selection reply err r.
Proof.
  unfold lift_outcome, mbind, prog_bind. destruct (m b) as [b1 [a|p|]]; [|done|done].
  intros [= _ E]. by eapply pick_selection.
Qed.

Definition query_result (typ : SelectorType) (reply : SourceGroup)
    (r : SourceGroup * option string) : Prop :=
  (∀ x, x ∈ r.1 → x ∈ reply) ∧
  (r.2 = None → reply ≠ [] ∧ (length r.1 = 1 ∨ r.1 = reply)) ∧
  (typ = SELECTOR_TYPE_GROUP → r.1 = reply ∧ (r.2 = None ↔ reply ≠ [])).

Lemma selection_result typ reply r :
  typ ≠ SELECTOR_TYPE_GROUP →
  selection reply (match reply with [] => Some no_available_node | _ => None end) r →
  query_result typ reply r.
Proof.
  intros Ht [[Hr He]|(x & Hx & Hr & He)]; split_and!; try done; rewrite Hr.
  - done.
  - by intros y ->%list_elem_of_singleton.
  - intros _. split; [by destruct reply; [apply elem_of_nil in Hx|]|by left].
Qed.

(** C21: whatever the selector, every node a query answers is one of the map's nodes
    of the application and role asked for.  A query without error found at least
    one such node and answers one of them, or all of them; [Group] answers all of
    them, in the order of the map's iteration, and errs exactly when there is
    none. *)
Theorem DoQuery_sound nodes appName role typ rest detail selector b b' r :
  DoQuery Intn fuel nodes (appName :: role :: typ :: rest) detail selector b = (b', Ret r) →
  typ ≠ "" →
  query_result typ (collect nodes appName role detail) r ∧
  ∀ x, x ∈ r.1 → ∃ n, n ∈ nodes ∧ ni_AppName n.2 = appName ∧ role ∈ ni_Role n.2 ∧ ir_Node x = n.1.
Proof.
  intros E Ht. set (reply := collect nodes appName role detail).
  assert (query_result typ reply r) as Hq; [|split; [done|]]; cycle 1.
  { intros x Hx. destruct Hq as [Hq _]. apply Hq in Hx.
    apply elem_of_collect in Hx as (n & Hn & Hm & ->). exists n. unfold matches in Hm.
    apply andb_true_iff in Hm as [H1%bool_decide_eq_true H2%bool_decide_eq_true]. done. }
  unfold DoQuery in E. fold reply in E. rewrite (decide_False (P := typ = "")) in E by done.
  repeat match type of E with
  | context [if decide (typ = ?t) then _ else _] => destruct (decide (typ = t)) as [->|?]
  | context [if decide (typ = ?t ∨ typ = ?u) then _ else _] =>
      destruct (decide (typ = t ∨ typ = u)) as [[->| ->]|?]
  end.
  - unfold lift_outcome in E. destruct (decide (SelectMinLoad reply = -1)%Z).
    + injection E as _ <-. split_and!; [done|intros He; split; [by destruct reply|by right]|done].
    + injection E as _ E. apply outcome_bind_Ret in E as (x & Hx & [= <-]).
      apply selection_result; [done|]. right. exists x. split; [by eapply at_index_Ret|done].
  - ret_eq E. split_and!; [done|intros He; split; [by destruct reply|by right]|].
    intros _. split; [done|]. by destruct reply.
  - destruct selector as [|f ?]; [done|]. unfold lift_outcome in E. injection E as _ E.
    apply outcome_bind_Ret in E as (x & Hx & [= <-]).
    apply selection_result; [done|]. right. exists x. split; [by eapply at_index_Ret|done].
  - apply (pick_bind_selection _ id) in E. by apply selection_result.
  - apply lift_bind_Ret in E as (k & _ & E). apply (pick_bind_selection _ id) in E.
    by apply selection_result.
  - apply lift_bind_Ret in E as (k & _ & E). apply (pick_bind_selection _ id) in E.
    by apply selection_result.
  - apply lift_bind_Ret in E as (k & _ & E). unfold lift_outcome in E. injection E as _ E.
    apply selection_result; [done|]. by eapply pick_selection.
  - apply lift_bind_Ret in E as (k & _ & E). unfold lift_outcome in E. injection E as _ E.
    apply selection_result; [done|]. by eapply pick_selection.
  - unfold lift_outcome in E. injection E as _ E. apply outcome_bind_Ret in E as (i & _ & E).
    apply selection_result; [done|]. by eapply pick_selection.
  - unfold lift_outcome in E. injection E as _ E. apply outcome_bind_Ret in E as (i & _ & E).
    apply selection_result; [done|]. by eapply pick_selection.
  - ret_eq E. split_and!; done.
Qed.

(** Which queries panic, in a process that gives no selector of its own: [Custom] always,
    a random draw that hits the number of nodes (which 0 of 0 nodes is), the selectors by
    a key without one, and the weighted ring when nothing matches. *)
Definition query_panics (nodes : list (string * NodeInfo)) (query : list string) (detail : bool) : bool :=
  match query with
  | appName :: role :: typ :: rest =>
      let reply := collect nodes appName role detail in
      if decide (typ = SELECTOR_TYPE_CUSTOM) then true
      else if decide (typ = SELECTOR_TYPE_DEFAULT ∨ typ = SELECTOR_TYPE_RANDOM)
      then bool_decide (Intn 0 = Z.of_nat (length reply))
      else if decide (typ = SELECTOR_TYPE_P2C ∨ typ = SELECTOR_TYPE_CONST_HASHING_BL ∨ typ = SELECTOR_TYPE_SPECIAL_IP)
      then bool_decide (rest = [])
      else if decide (typ = SELECTOR_TYPE_CONST_HASHING_BLW)
      then bool_decide (rest = [] ∨ reply = [])
      else false
  | _ => false
  end.
(** The draw is one of [rand.Intn]'s range, and may be made. *)
Definition query_draws (nodes : list (string * NodeInfo)) (query : list string) (detail : bool) : Prop :=
  match query with
  | appName :: role :: _ => 0 < fuel ∧ (0 ≤ Intn 0 < Z.of_nat (length (collect nodes appName role detail)) + 1)%Z
  | _ => True
  end.

Lemma Random_draws (reply : SourceGroup) :
  0 < fuel → (0 ≤ Intn 0 < Z.of_nat (length reply) + 1)%Z → Random Intn fuel reply = Ret (Intn 0).
Proof.
  intros Hf Hd. unfold Random, GenRandom. rewrite decide_False by lia. destruct fuel as [|f]; [lia|].
  cbn [GenRandom_loop length]. rewrite decide_True by done. rewrite decide_False by set_solver. simpl.
  destruct f; simpl; f_equal; lia.
Qed.
Lemma at_index_lt (l : SourceGroup) i : (0 ≤ i < Z.of_nat (length l))%Z → ∃ r, at_index l i = Ret r.
Proof.
  intros Hi. unfold at_index. rewrite decide_False by lia.
  destruct (l !! _) eqn:E; [by eexists|]. apply lookup_ge_None in E. lia.
Qed.
Lemma at_index_ge (l : SourceGroup) i : (Z.of_nat (length l) ≤ i)%Z → at_index l i = Panic IndexOutOfRange.
Proof.
  intros Hi. unfold at_index. rewrite decide_False by lia.
  destruct (_ !! _) eqn:E; [apply lookup_lt_Some in E; lia|done].
Qed.
Lemma index_of_range a (l : SourceGroup) : index_of a l = (-1)%Z ∨ (0 ≤ index_of a l < Z.of_nat (length l))%Z.
Proof.
  unfold index_of. change (Z.of_nat (length l)) with (0 + Z.of_nat (length l))%Z.
  assert (∀ i, index_of_loop a l i = (-1)%Z ∨ (i ≤ index_of_loop a l i < i + Z.of_nat (length l))%Z) as H';
    [|apply H'].
  induction l as [|x l IH]; intros i; simpl; [by left|].
  case_decide; [right; lia|]. destruct (IH (i + 1)%Z); [by left|right; lia].
Qed.
Lemma pick_ends reply err i msg :
  i = (-1)%Z ∨ (0 ≤ i < Z.of_nat (length reply))%Z → ∃ r, pick reply err i msg = Ret r.
Proof.
  intros Hi. unfold pick. case_decide; [by eexists|]. destruct Hi as [?|Hi]; [done|].
  destruct (at_index_lt reply i Hi) as [r ->]. by eexists.
Qed.

(** Goes into the case of a selector's name. *)
Ltac by_type := repeat match goal with
  | |- context [decide ?P] => first
      [ rewrite (decide_True (P := P)) by (assumption || tauto)
      | rewrite (decide_False (P := P)) by (intros ?; intuition discriminate) ]
  end.

(** A query ends with an answer, or with an index out of range if it is one of those. *)
Lemma DoQuery_ends nodes query detail b : query_draws nodes query detail →
  if query_panics nodes query detail
  then ∃ b', DoQuery Intn fuel nodes query detail [] b = (b', Panic IndexOutOfRange)
  else ∃ b' r, DoQuery Intn fuel nodes query detail [] b = (b', Ret r).
Proof.
  destruct query as [|app [|role [|typ rest]]]; try (by repeat eexists). intros [Hf Hd].
  unfold DoQuery, query_panics. set (reply := collect nodes app role detail) in *.
  destruct (decide (typ = "")) as [->|Hne]; [by repeat eexists|].
  assert (Hkey : ∀ i msg, i = (-1)%Z ∨ (0 ≤ i < Z.of_nat (length reply))%Z →
    ∃ r, pick reply (match reply with [] => Some no_available_node | _ => None end) i msg = Ret r)
    by (intros; by apply pick_ends).
  destruct (decide (typ = SELECTOR_TYPE_MIN_LOAD)) as [->|?]; [by_type|].
  { unfold lift_outcome. destruct (SelectMinLoad_least reply) as [[-> _]|(i & -> & info & Hi & _)]; [by repeat eexists|].
    case_decide; [by repeat eexists|]. apply lookup_lt_Some in Hi.
    destruct (at_index_lt reply (Z.of_nat i)) as [r ->]; [lia|by repeat eexists]. }
  destruct (decide (typ = SELECTOR_TYPE_GROUP)) as [->|?]; [by_type; by repeat eexists|].
  destruct (decide (typ = SELECTOR_TYPE_CUSTOM)) as [->|?]; [by_type; by repeat eexists|].
  destruct (decide (typ = SELECTOR_TYPE_DEFAULT ∨ typ = SELECTOR_TYPE_RANDOM)).
  { by_type. rewrite (Random_draws reply Hf Hd). simpl. unfold lift_outcome. case_bool_decide as Hn.
    - unfold pick. rewrite decide_False by lia. rewrite at_index_ge by lia. by eexists.
    - destruct (Hkey (Intn 0) "[Select-DoQuery] Random index = -1") as [r ->]; [lia|by repeat eexists]. }
  destruct (decide (typ = SELECTOR_TYPE_POLLING)) as [->|?].
  { by_type. unfold Polling, Balance, lift_outcome. unfold_prog. destruct (lb_Balance R2 "" b) as [b1 [a|]];
      [destruct (Hkey _ "[Select-DoQuery] Polling index = -1" (index_of_range a reply)) as [r E]; rewrite E|];
      by repeat eexists. }
  destruct (decide (typ = SELECTOR_TYPE_P2C)) as [->|?].
  { by_type. destruct rest as [|k rest]; [by repeat eexists|]. rewrite bool_decide_false by done.
    unfold P2C, Balance, lift_outcome, modify. unfold_prog. simpl. destruct (lb_Balance P2CB k b) as [b1 [a|]];
      [destruct (Hkey _ "[Select-DoQuery] P2C index = -1" (index_of_range a reply)) as [r E]; rewrite E|];
      by repeat eexists. }
  destruct (decide (typ = SELECTOR_TYPE_CONST_HASHING_BL)) as [->|?].
  { by_type. destruct rest as [|k rest]; [by repeat eexists|]. rewrite bool_decide_false by done.
    unfold CHashingBL, Balance, lift_outcome, modify. unfold_prog. simpl. destruct (lb_Balance Bounded k b) as [b1 [a|]];
      [destruct (Hkey _ "[Select-DoQuery] CHashingBL index = -1" (index_of_range a reply)) as [r E]; rewrite E|];
      by repeat eexists. }
  destruct (decide (typ = SELECTOR_TYPE_CONST_HASHING_BLW)) as [->|?].
  { by_type. destruct rest as [|k rest]; [by repeat eexists|]. unfold CHashingBLW, lift_outcome. unfold_prog. simpl.
    destruct reply as [|x reply]; [by repeat eexists|]. rewrite bool_decide_false by naive_solver. by repeat eexists. }
  destruct (decide (typ = SELECTOR_TYPE_SPECIAL_IP)) as [->|?]; [|by_type; by repeat eexists].
  by_type. destruct rest as [|k rest]; [by repeat eexists|]. rewrite bool_decide_false by done.
  unfold lift_outcome. unfold_prog. simpl. by destruct reply as [|x reply]; repeat eexists.
Qed.

(** A query that draws a node at random (the default selector) panics with an
    index out of range when no node matches, instead of answering its error, and
    also whenever the draw, whose range includes the number of nodes, hits it. *)
Theorem random_query_panics nodes appName role typ rest detail selector b :
  typ = SELECTOR_TYPE_DEFAULT ∨ typ = SELECTOR_TYPE_RANDOM →
  0 < fuel →
  let n := Z.of_nat (length (collect nodes appName role detail)) in
  (0 ≤ Intn 0 < n + 1)%Z → (n = 0 ∨ Intn 0 = n)%Z →
  DoQuery Intn fuel nodes (appName :: role :: typ :: rest) detail selector b =
    (b, Panic IndexOutOfRange).
Proof.
  intros Ht Hfuel n Hdraw Hn. unfold DoQuery.
  assert (Random Intn fuel (collect nodes appName role detail) = Ret n) as Hr.
  { rewrite Random_draws by (fold n; lia). f_equal. lia. }
  pose proof (at_index_ge (collect nodes appName role detail) n (Z.le_refl _)) as Hat.
  destruct Ht as [-> | ->]; simpl; rewrite Hr; simpl; unfold pick; rewrite decide_False by lia;
    by rewrite Hat.
Qed.
End query.

(** ** A balancer that answers the first host of a set *)
Record SetBalancers := mkSets { sb : which → gset string }.

#[global] Instance SetBalancers_Balancers : Balancers SetBalancers := {|
  lb_Add k a b := mkSets (λ k', if decide (k = k') then {[a]} ∪ sb b k' else sb b k');
  lb_Remove k a b := mkSets (λ k', if decide (k = k') then sb b k' ∖ {[a]} else sb b k');
  lb_Balance k _ b := (b, head (elements (sb b k)));
  lb_Done _ _ b := b;
  lb_hosts k b := sb b k |}.

#[global] Instance SetBalancers_laws : BalancerLaws SetBalancers.
Proof.
  split; simpl; try done.
  - intros k _ b a Ha. apply head_Some_elem_of in Ha. by apply elem_of_elements.
  - intros k _ b Hn. apply head_None, elements_empty_inv in Hn. by apply leibniz_equiv.
Qed.

Definition no_hosts : SetBalancers := mkSets (λ _, ∅).

(** ** Witnesses *)
Definition two_gates : list (string * NodeInfo) :=
  [("10.0.0.1", mkNodeInfo 0 "10.0.0.1" ["gate"] "app" (Some {[ "cpu" := f1; "mem" := f1 ]}) None);
   ("10.0.0.2", mkNodeInfo 0 "10.0.0.2" ["gate"; "room"] "app" (Some {[ "cpu" := f0_2; "mem" := f0_2 ]}) None)].

Lemma DoQuery_sound_witness :
  DoQuery (λ _, 0%Z) 1 two_gates ["app"; "gate"; "MinLoad"] true [] no_hosts =
    (no_hosts, Ret ([reply_of true ("10.0.0.2", mkNodeInfo 0 "10.0.0.2" ["gate"; "room"] "app"
       (Some {[ "cpu" := f0_2; "mem" := f0_2 ]}) None)], None)) ∧
  query_result "MinLoad" (collect two_gates "app" "gate" true)
    ([reply_of true ("10.0.0.2", mkNodeInfo 0 "10.0.0.2" ["gate"; "room"] "app"
       (Some {[ "cpu" := f0_2; "mem" := f0_2 ]}) None)], None).
Proof.
  assert (DoQuery (λ _, 0%Z) 1 two_gates ["app"; "gate"; "MinLoad"] true [] no_hosts =
    (no_hosts, Ret ([reply_of true ("10.0.0.2", mkNodeInfo 0 "10.0.0.2" ["gate"; "room"] "app"
       (Some {[ "cpu" := f0_2; "mem" := f0_2 ]}) None)], None))) as E by (by vm_compute).
  split; [exact E|].
  apply (DoQuery_sound (λ _, 0%Z) 1 two_gates "app" "gate" "MinLoad" [] true [] _ _ _ E). done.
Defined.

Lemma random_query_panics_witness :
  collect two_gates "app" "shop" false = [] ∧
  DoQuery (λ _, 0%Z) 1 two_gates ["app"; "shop"; "Default"] false [] no_hosts =
    (no_hosts, Panic IndexOutOfRange).
Proof.
  split; [done|].
  apply (random_query_panics (λ _, 0%Z) 1 two_gates "app" "shop" "Default" [] false [] no_hosts);
    [by left|lia|simpl; lia|by left].
Defined.
