(* ===== verification/Master.v ===== *)
(** * hCluster: the master

    MasterComponent.go with the handlers of MasterService.go: the nodes that report
    to the master, their status, the log of closed nodes, the counters that close
    a silent node, and the hosts of the load balancers.  Every handler runs under
    the component's mutex, so one step is one handler (or one turn of the
    time-out loop); [now] is the clock at that step. A handler that panics ends the
    process, as the RPC server recovers nothing. *)
From S2P Require Import Prelude Float64 Selector.

Definition LOG_TYPE_NODE_CLOSE : Z := 0.
Definition NODE_STAUTE_OFFLINE : string := "Offline".
Definition NODE_STAUTE_ONLINE : string := "Online".
Definition NODE_STAUTE_WEBCLOSE : string := "WebClose".
Definition NODE_STAUTE_WAITPM2CLOSE : string := "WaitPm2Close".

(** ** The log of closed nodes (MasterService.go) *)
Record NodeLog := mkNodeLog { nl_Time : Z; nl_Log : string; nl_Type : Z }.
Record NodeLogs := mkNodeLogs { BufferSize : Z; Logs : list NodeLog }.

Definition NodeLogs_Add (log : NodeLog) (this : NodeLogs) : outcome NodeLogs :=
  if decide (Z.of_nat (length (Logs this)) < BufferSize this)%Z
  then Ret (mkNodeLogs (BufferSize this) (Logs this ++ [log]))
  else match Logs this with
       | [] => Panic SliceBounds
       | _ :: rest => Ret (mkNodeLogs (BufferSize this) (rest ++ [log]))
       end.

(** The logs from the first one later than [time] on. *)
Fixpoint Get_loop (time : Z) (logs : list NodeLog) : list NodeLog :=
  match logs with
  | [] => []
  | value :: rest => if decide (time < nl_Time value)%Z then value :: rest else Get_loop time rest
  end.
Definition NodeLogs_Get (time : Z) (this : NodeLogs) : list NodeLog := Get_loop time (Logs this).

(** ** The component *)
Record MasterComponent (B : Type) := mkMaster {
  mc_Nodes : gmap string NodeInfo;
  mc_NodeStatus : gmap string string;
  mc_NodeLog : NodeLogs;
  mc_timeoutChecking : gmap string Z;
  mc_lb : B }.
Arguments mkMaster {B} _ _ _ _ _.
Arguments mc_Nodes {B} _.
Arguments mc_NodeStatus {B} _.
Arguments mc_NodeLog {B} _.
Arguments mc_timeoutChecking {B} _.
Arguments mc_lb {B} _.

Section master.
Context `{Balancers B}.
Abbreviation Mst := (MasterComponent B).

(** [r2LB.Add; p2cLB.Add; boundedLB.Add], and the same with [Remove]. *)
Definition add_host (addr : string) (b : B) : B :=
  lb_Add Bounded addr (lb_Add P2CB addr (lb_Add R2 addr b)).
Definition remove_host (addr : string) (b : B) : B :=
  lb_Remove Bounded addr (lb_Remove P2CB addr (lb_Remove R2 addr b)).

(** [Awake]; the balancers are the process's globals. *)
Definition Master_Awake (b : B) : Mst := mkMaster ∅ ∅ (mkNodeLogs 20 []) ∅ b.

Definition UpdateNodeInfo (now : Z) (args : NodeInfo) (this : Mst) : Mst :=
  let addr := ni_Address args in
  let b := match mc_Nodes this !! addr with
           | Some _ => mc_lb this
           | None => add_host addr (mc_lb this)
           end in
  let args := mkNodeInfo now addr (ni_Role args) (ni_AppName args) (ni_Info args) (ni_CustomData args) in
  mkMaster (<[addr := args]> (mc_Nodes this)) (<[addr := NODE_STAUTE_ONLINE]> (mc_NodeStatus this))
    (mc_NodeLog this) (<[addr := 0%Z]> (mc_timeoutChecking this)) b.

Definition NodeClose (now : Z) (addr : string) (this : Mst) : outcome Mst :=
  let b := match mc_Nodes this !! addr with
           | Some _ => remove_host addr (mc_lb this)
           | None => mc_lb this
           end in
  log ← NodeLogs_Add (mkNodeLog now addr LOG_TYPE_NODE_CLOSE) (mc_NodeLog this);
  Ret (mkMaster (delete addr (mc_Nodes this)) (delete addr (mc_NodeStatus this)) log
         (delete addr (mc_timeoutChecking this)) b).

(** One turn of [TimeoutCheck] over the counters, in the order [range] visits
    them; the visited counter may be deleted on the way. *)
Fixpoint TimeoutCheck (now : Z) (addrs : list string) (this : Mst) : outcome Mst :=
  match addrs with
  | [] => Ret this
  | addr :: addrs =>
      match mc_timeoutChecking this !! addr with
      | None => TimeoutCheck now addrs this
      | Some count =>
          let this := mkMaster (mc_Nodes this) (mc_NodeStatus this) (mc_NodeLog this)
                        (<[addr := (count + 1)%Z]> (mc_timeoutChecking this)) (mc_lb this) in
          this ← (if decide (3 < count + 1)%Z then NodeClose now addr this else Ret this);
          TimeoutCheck now addrs this
      end
  end.

Definition SetNodeStatus (addr status : string) (this : Mst) : Mst :=
  mkMaster (mc_Nodes this) (<[addr := status]> (mc_NodeStatus this)) (mc_NodeLog this)
    (mc_timeoutChecking this) (mc_lb this).
Definition GetNodeStatus (addr : string) (this : Mst) : string :=
  default NODE_STAUTE_OFFLINE (mc_NodeStatus this !! addr).
Definition GetALLNodeStatus (this : Mst) : gmap string string := mc_NodeStatus this.
Definition NodesCopy (this : Mst) : gmap string NodeInfo := mc_Nodes this.
Definition NodesLogsCopy (this : Mst) : NodeLogs := mc_NodeLog this.

(** ** MasterService: what a caller gets *)
Definition ReportNodeClose (now : Z) (addr : string) (this : Mst) : outcome (Mst * bool) :=
  this ← NodeClose now addr this; Ret (this, true).
Definition ReportNodeInfo (now : Z) (args : NodeInfo) (this : Mst) : Mst * bool :=
  (UpdateNodeInfo now args this, true).

Record NodeInfoSyncReply := mkSyncReply {
  sr_Nodes : gmap string NodeInfo;
  sr_NodeLog : NodeLogs }.

Definition NodeInfoSync (args : string) (this : Mst) : result string NodeInfoSyncReply :=
  if decide (args = "sync") then Ok (mkSyncReply (NodesCopy this) (NodesLogsCopy this))
  else Err "call service [ NodeInfoSynchronous ],has wrong argument".

(** [args[0], args[1]] *)
Definition SetNodeStatus_handler (args : list string) (this : Mst) : outcome Mst :=
  match args with
  | addr :: status :: _ => Ret (SetNodeStatus addr status this)
  | _ => Panic IndexOutOfRange
  end.

(** [NodeInquiry] and [NodeInquiryDetail]; the balancers' state may move on.
    [nodes] is the order in which [range] visits [Nodes]. *)
Definition Master_NodeInquiry (Intn : nat → Z) (fuel : nat) (nodes : list (string * NodeInfo))
    (args : list string) (detail : bool) (this : Mst)
    : Mst * outcome (SourceGroup * option string) :=
  let '(b, r) := DoQuery Intn fuel nodes args detail [] (mc_lb this) in
  (mkMaster (mc_Nodes this) (mc_NodeStatus this) (mc_NodeLog this) (mc_timeoutChecking this) b, r).

(** ** Steps *)
Inductive master_op :=
| MReport (args : NodeInfo)
| MClose (addr : string)
| MTick (addrs : list string)
| MSetStatus (args : list string)
| MInquiry (Intn : nat → Z) (fuel : nat) (nodes : list (string * NodeInfo))
    (args : list string) (detail : bool).

Definition master_run (now : Z) (p : master_op) (this : Mst) : outcome Mst :=
  match p with
  | MReport args => Ret (ReportNodeInfo now args this).1
  | MClose addr => r ← ReportNodeClose now addr this; Ret r.1
  | MTick addrs => TimeoutCheck now addrs this
  | MSetStatus args => SetNodeStatus_handler args this
  | MInquiry Intn fuel nodes args detail =>
      let '(this, r) := Master_NodeInquiry Intn fuel nodes args detail this in _ ← r; Ret this
  end.

(** A tick visits every counter once, an inquiry every node once. *)
Definition allowed (p : master_op) (this : Mst) : Prop :=
  match p with
  | MTick addrs => addrs ≡ₚ (map_to_list (mc_timeoutChecking this)).*1
  | MInquiry _ _ nodes _ _ => nodes ≡ₚ map_to_list (mc_Nodes this)
  | _ => True
  end.
(** The random numbers of an inquiry are of [rand.Intn]'s range. *)
Definition drawn (p : master_op) : Prop :=
  match p with MInquiry Intn fuel nodes args detail => query_draws Intn fuel nodes args detail | _ => True end.

(** The calls whose handler panics, in a goroutine of the RPC server where nothing
    recovers it: the process of the master ends. *)
Definition ends_master (p : master_op) : bool :=
  match p with
  | MSetStatus args => bool_decide (length args < 2)
  | MInquiry Intn _ nodes args detail => query_panics Intn nodes args detail
  | _ => false
  end.

(** One handler that returns. *)
Definition master_step (this this' : Mst) : Prop :=
  ∃ now p, allowed p this ∧ master_run now p this = Ret this'.
End master.

(** ** The invariant *)
Section master_proofs.
Context `{BalancerLaws B}.
Abbreviation Mst := (MasterComponent B).

(** Every known node has a counter that has not run out, a status and a place in
    each balancer, and the log keeps at most its 20 entries. *)
Record master_ok (m : Mst) : Prop := {
  mo_counters : dom (mc_timeoutChecking m) = dom (mc_Nodes m);
  mo_status : dom (mc_Nodes m) ⊆ dom (mc_NodeStatus m);
  mo_hosts k : lb_hosts k (mc_lb m) = dom (mc_Nodes m);
  mo_addr addr n : mc_Nodes m !! addr = Some n → ni_Address n = addr;
  mo_count addr c : mc_timeoutChecking m !! addr = Some c → (0 ≤ c ≤ 3)%Z;
  mo_size : BufferSize (mc_NodeLog m) = 20%Z;
  mo_log : length (Logs (mc_NodeLog m)) ≤ 20 }.

Lemma hosts_add_host addr b k : lb_hosts k (add_host addr b) = {[addr]} ∪ lb_hosts k b.
Proof.
  unfold add_host. rewrite !lb_hosts_Add. destruct k; simpl;
    repeat (rewrite decide_True by done || rewrite decide_False by done); done.
Qed.
Lemma hosts_remove_host addr b k : lb_hosts k (remove_host addr b) = lb_hosts k b ∖ {[addr]}.
Proof.
  unfold remove_host. rewrite !lb_hosts_Remove. destruct k; simpl;
    repeat (rewrite decide_True by done || rewrite decide_False by done); done.
Qed.

Lemma NodeLogs_Add_ok log l :
  BufferSize l = 20%Z → length (Logs l) ≤ 20 →
  ∃ l', NodeLogs_Add log l = Ret l' ∧ BufferSize l' = 20%Z ∧ length (Logs l') ≤ 20.
Proof.
  intros Hs Hl. unfold NodeLogs_Add. rewrite Hs. destruct (decide _).
  - eexists. split_and!; [done|done|]. simpl. rewrite length_app. simpl. lia.
  - destruct (Logs l) as [|x rest] eqn:E; [simpl in *; lia|].
    eexists. split_and!; [done|done|]. simpl in *. rewrite length_app. simpl. lia.
Qed.

Lemma UpdateNodeInfo_ok now args m : master_ok m → master_ok (UpdateNodeInfo now args m).
Proof.
  intros [Hc Hs Hh Ha Hn Hz Hl]. split; simpl; try done.
  - rewrite !dom_insert_L, Hc. done.
  - rewrite !dom_insert_L. set_solver.
  - intros k. rewrite dom_insert_L. destruct (mc_Nodes m !! ni_Address args) eqn:E.
    + apply elem_of_dom_2 in E. rewrite Hh. set_solver.
    + by rewrite hosts_add_host, Hh.
  - intros addr n [[<- <-]|[_ Hlk]]%lookup_insert_Some; [done|by apply Ha].
  - intros addr c [[_ <-]|[_ Hlk]]%lookup_insert_Some; [lia|by eapply Hn].
Qed.

Lemma NodeClose_run now addr m :
  BufferSize (mc_NodeLog m) = 20%Z → length (Logs (mc_NodeLog m)) ≤ 20 →
  ∃ l', BufferSize l' = 20%Z ∧ length (Logs l') ≤ 20 ∧
  NodeClose now addr m = Ret (mkMaster (delete addr (mc_Nodes m)) (delete addr (mc_NodeStatus m)) l'
    (delete addr (mc_timeoutChecking m))
    (match mc_Nodes m !! addr with Some _ => remove_host addr (mc_lb m) | None => mc_lb m end)).
Proof.
  intros Hz Hl. destruct (NodeLogs_Add_ok (mkNodeLog now addr LOG_TYPE_NODE_CLOSE) _ Hz Hl)
    as (l' & E & ? & ?). exists l'. split_and!; [done|done|]. unfold NodeClose. by rewrite E.
Qed.

(** Closing, also from within a tick, where the counter has just run out. *)
Lemma NodeClose_ok now addr m c :
  master_ok m → (c = None ∨ is_Some (mc_timeoutChecking m !! addr)) →
  ∃ m', NodeClose now addr (mkMaster (mc_Nodes m) (mc_NodeStatus m) (mc_NodeLog m)
      (match c with Some c => <[addr := c]> (mc_timeoutChecking m) | None => mc_timeoutChecking m end)
      (mc_lb m)) = Ret m' ∧
    master_ok m' ∧ mc_timeoutChecking m' = delete addr (mc_timeoutChecking m).
Proof.
  intros [Hc Hs Hh Ha Hn Hz Hl] Hcase.
  edestruct (NodeClose_run now addr (mkMaster (mc_Nodes m) (mc_NodeStatus m) (mc_NodeLog m)
    (match c with Some c => <[addr := c]> (mc_timeoutChecking m) | None => mc_timeoutChecking m end)
    (mc_lb m)) Hz Hl) as (l' & Hz' & Hl' & E).
  rewrite E. eexists. split; [done|]. simpl.
  assert (delete addr (match c with Some c => <[addr:=c]> (mc_timeoutChecking m)
    | None => mc_timeoutChecking m end) = delete addr (mc_timeoutChecking m)) as ->
    by (destruct c; [apply delete_insert_eq|done]).
  split; [|done]. split; simpl; try done.
  - by rewrite !dom_delete_L, Hc.
  - rewrite !dom_delete_L. set_solver.
  - intros k. rewrite dom_delete_L. destruct (mc_Nodes m !! addr) eqn:Elk.
    + by rewrite hosts_remove_host, Hh.
    + rewrite Hh. apply not_elem_of_dom in Elk. set_solver.
  - intros addr' n [_ Hlk]%lookup_delete_Some. by apply Ha.
  - intros addr' n [_ Hlk]%lookup_delete_Some. by eapply Hn.
Qed.

(** What a tick does to a counter. *)
Definition tick_count (c : Z) : option Z := if decide (3 < c + 1)%Z then None else Some (c + 1)%Z.

Lemma tick_one now addr c m :
  master_ok m → mc_timeoutChecking m !! addr = Some c →
  ∃ m', (let this := mkMaster (mc_Nodes m) (mc_NodeStatus m) (mc_NodeLog m)
           (<[addr := (c + 1)%Z]> (mc_timeoutChecking m)) (mc_lb m) in
         if decide (3 < c + 1)%Z then NodeClose now addr this else Ret this) = Ret m' ∧
    master_ok m' ∧
    mc_timeoutChecking m' !! addr = tick_count c ∧
    ∀ addr', addr' ≠ addr → mc_timeoutChecking m' !! addr' = mc_timeoutChecking m !! addr'.
Proof.
  intros Hok Hlk. unfold tick_count. simpl. destruct (decide (3 < c + 1)%Z) as [Hlt|Hge].
  - destruct (NodeClose_ok now addr m (Some (c + 1)%Z) Hok) as (m' & E & Hok' & Ht); [right; by eexists|].
    exists m'. split_and!; [done|done| |].
    + rewrite Ht. apply lookup_delete_eq.
    + intros addr' Hne. rewrite Ht. by apply lookup_delete_ne.
  - eexists. split; [done|]. simpl. split_and!.
    + destruct Hok as [Hc Hs Hh Ha Hn Hz Hl]. split; simpl; try done.
      * rewrite dom_insert_L, Hc. apply elem_of_dom_2 in Hlk. set_solver.
      * intros addr' c' [[<- <-]|[_ Hlk']]%lookup_insert_Some; [|by eapply Hn].
        specialize (Hn _ _ Hlk). lia.
    + apply lookup_insert_eq.
    + intros addr' Hne. by apply lookup_insert_ne.
Qed.

Lemma TimeoutCheck_ok now addrs m :
  NoDup addrs → master_ok m →
  ∃ m', TimeoutCheck now addrs m = Ret m' ∧ master_ok m' ∧
    ∀ addr, mc_timeoutChecking m' !! addr =
      if decide (addr ∈ addrs) then mc_timeoutChecking m !! addr ≫= tick_count
      else mc_timeoutChecking m !! addr.
Proof.
  intros Hnd. revert m. induction Hnd as [|addr addrs Hnin Hnd IH]; intros m Hok.
  { exists m. done. }
  cbn [TimeoutCheck]. destruct (mc_timeoutChecking m !! addr) as [c|] eqn:Hlk.
  - destruct (tick_one now addr c m Hok Hlk) as (m1 & E & Hok1 & Haddr & Hrest).
    simpl in E. simpl. rewrite E. simpl.
    destruct (IH m1 Hok1) as (m' & E' & Hok' & Hm'). exists m'. split_and!; [done|done|].
    intros a. rewrite Hm'. destruct (decide (a = addr)) as [->|Hne].
    + rewrite decide_False by done. rewrite decide_True by set_solver. by rewrite Haddr, Hlk.
    + rewrite Hrest by done. by repeat destruct (decide _); set_solver.
  - destruct (IH m Hok) as (m' & E' & Hok' & Hm'). exists m'. split_and!; [done|done|].
    intros a. rewrite Hm'. destruct (decide (a = addr)) as [->|Hne].
    + rewrite decide_False by done. rewrite decide_True by set_solver. by rewrite Hlk.
    + by repeat destruct (decide _); set_solver.
Qed.

Lemma DoQuery_hosts Intn fuel nodes args detail sel (b : B) k :
  lb_hosts k (DoQuery Intn fuel nodes args detail sel b).1 = lb_hosts k b.
Proof.
  unfold DoQuery. destruct args as [|app [|role [|typ rest]]]; try done.
  repeat (destruct (decide _); [try done|]); try done; unfold lift_outcome;
    try (destruct sel; done);
    unfold Polling, P2C, CHashingBL, Balance, modify, mbind, prog_bind, mret, prog_ret;
    try (destruct (key_of _); [|done|done]);
    repeat (match goal with |- context [lb_Balance ?k ?key b] =>
      pose proof (lb_hosts_Balance k key b k) as Hb; let b' := fresh "b" in
      destruct (lb_Balance k key b) as [b' ?] eqn:Hbal end; simpl);
    try done; rewrite ?lb_hosts_Done;
    match goal with Hbal : lb_Balance ?kk ?key b = (?b', _) |- _ =>
      replace b' with (lb_Balance kk key b).1 by (by rewrite Hbal); apply lb_hosts_Balance end.
Qed.

Lemma SetNodeStatus_ok a s m : master_ok m → master_ok (SetNodeStatus a s m).
Proof. intros [Hc Hs Hh Ha Hn Hz Hl]. split; simpl; try done. rewrite dom_insert_L. set_solver. Qed.

Lemma tick_order addrs (m : Mst) :
  addrs ≡ₚ (map_to_list (mc_timeoutChecking m)).*1 →
  NoDup addrs ∧ ∀ addr, addr ∈ addrs ↔ is_Some (mc_timeoutChecking m !! addr).
Proof.
  intros Hp. split; [rewrite Hp; apply NoDup_fst_map_to_list|]. intros addr.
  rewrite Hp, list_elem_of_fmap. split.
  - intros ([a c] & -> & Hin%elem_of_map_to_list). by eexists.
  - intros [c Hc]. exists (addr, c). split; [done|by apply elem_of_map_to_list].
Qed.

Lemma Master_NodeInquiry_ok Intn fuel nodes args detail m :
  master_ok m → master_ok (Master_NodeInquiry Intn fuel nodes args detail m).1.
Proof.
  intros [Hc Hs Hh Ha Hn Hz Hl]. unfold Master_NodeInquiry.
  pose proof (DoQuery_hosts Intn fuel nodes args detail [] (mc_lb m)) as Hh'.
  destruct (DoQuery _ _ _ _ _ _ _) as [b r]; simpl in *. split; simpl; try done. intros k. by rewrite Hh'.
Qed.

(** A handler that returns keeps the tables; one that does not end the process returns. *)
Lemma master_run_ok now p m m' :
  master_ok m → allowed p m → master_run now p m = Ret m' → master_ok m'.
Proof.
  intros Hok Hal E. destruct p as [args|addr|addrs|args|Intn fuel nodes args detail]; simpl in *.
  - simplify_eq. by apply UpdateNodeInfo_ok.
  - destruct (NodeClose_ok now addr m None Hok) as (m1 & E1 & Hok' & _); [by left|].
    unfold ReportNodeClose in E. destruct m as [ns st lg tc lb]; simpl in *. rewrite E1 in E. by simplify_eq/=.
  - destruct (tick_order _ _ Hal) as [Hnd _].
    destruct (TimeoutCheck_ok now addrs m Hnd Hok) as (m1 & E1 & Hok' & _).
    rewrite E in E1. by injection E1 as ->.
  - destruct args as [|a [|s rest]]; simplify_eq/=. by apply SetNodeStatus_ok.
  - pose proof (Master_NodeInquiry_ok Intn fuel nodes args detail m Hok) as Hq.
    destruct (Master_NodeInquiry _ _ _ _ _ _) as [m1 [r|pn|]]; by simplify_eq/=.
Qed.
Lemma master_run_ends now p m :
  master_ok m → allowed p m → drawn p →
  if ends_master p then master_run now p m = Panic IndexOutOfRange else ∃ m', master_run now p m = Ret m'.
Proof.
  intros Hok Hal Hd. destruct p as [args|addr|addrs|args|Intn fuel nodes args detail]; simpl in *.
  - by eexists.
  - destruct (NodeClose_ok now addr m None Hok) as (m1 & E1 & _); [by left|]. exists m1.
    unfold ReportNodeClose. destruct m as [ns st lg tc lb]; simpl in *. by rewrite E1.
  - destruct (tick_order _ _ Hal) as [Hnd _].
    destruct (TimeoutCheck_ok now addrs m Hnd Hok) as (m1 & E1 & _). by exists m1.
  - destruct args as [|a [|s rest]]; [done..|]. rewrite bool_decide_false by (simpl; lia). by eexists.
  - pose proof (DoQuery_ends Intn fuel nodes args detail (mc_lb m) Hd) as Hq. unfold Master_NodeInquiry.
    destruct (query_panics _ _ _ _); [destruct Hq as [b' ->]|destruct Hq as (b' & r & ->)]; simpl; [done|by eexists].
Qed.

Lemma Master_Awake_ok (b : B) : (∀ k, lb_hosts k b = ∅) → master_ok (Master_Awake b).
Proof.
  intros Hb. split; simpl; try done; try lia.
Qed.

(** C8: whatever the master is asked, in whatever order and interleaved with the
    turns of the time-out loop, the tables agree as long as it lives: the nodes,
    their counters and the hosts of each of the three balancers are the same
    addresses, every node has a status, no counter stands above 3 between two
    turns, and the log of closed nodes never holds more than 20 entries. Every handler
    returns, but for a status that comes without its two arguments and for the inquiries
    of [query_panics], among them the default selector for a role without nodes: these
    panic with an index out of range, which ends the process. *)
Theorem master_invariant b m :
  (∀ k, lb_hosts k b = ∅) → rtc master_step (Master_Awake b) m →
  master_ok m ∧ ∀ now p, allowed p m → drawn p →
    if ends_master p then master_run now p m = Panic IndexOutOfRange else ∃ m', master_run now p m = Ret m'.
Proof.
  intros Hb Hr. assert (master_ok m) as Hok.
  { pose proof (Master_Awake_ok b Hb) as H0'. revert Hr.
    generalize (Master_Awake b), H0'. intros m0 Hm0 Hr.
    induction Hr as [|m1 m2 m3 (now & p & Hal & E) _ IH]; [done|].
    apply IH. by eapply master_run_ok. }
  split; [done|]. intros now p Hal. by apply master_run_ends.
Qed.
End master_proofs.

(** ** Silence *)
Section silence.
Context `{BalancerLaws B}.
Abbreviation Mst := (MasterComponent B).

(** Handlers that say nothing about [addr], and the turns among them. *)
Definition not_about (addr : string) (p : master_op) : Prop :=
  match p with MReport args => ni_Address args ≠ addr | MClose a => a ≠ addr | _ => True end.
Definition turns (p : master_op) : nat := match p with MTick _ => 1 | _ => 0 end.

Inductive silent_run (addr : string) : nat → Mst → Mst → Prop :=
| silent_refl m : silent_run addr 0 m m
| silent_step now p m1 m2 m3 t :
    allowed p m1 → not_about addr p → master_run now p m1 = Ret m2 →
    silent_run addr t m2 m3 → silent_run addr (turns p + t) m1 m3.

Lemma silent_step_count addr now p (m m' : Mst) :
  master_ok m → allowed p m → not_about addr p → master_run now p m = Ret m' →
  mc_timeoutChecking m' !! addr =
    if decide (turns p = 1) then mc_timeoutChecking m !! addr ≫= tick_count
    else mc_timeoutChecking m !! addr.
Proof.
  intros Hok Hal Hna E. destruct p as [args|a|addrs|args|Intn fuel nodes args detail]; simpl in *.
  - simplify_eq. simpl. by apply lookup_insert_ne.
  - destruct (NodeClose_ok now a m None Hok) as (m1 & E1 & _ & Ht); [by left|].
    unfold ReportNodeClose in E. destruct m as [ns st lg tc lb]; simpl in *. rewrite E1 in E.
    simplify_eq/=. rewrite Ht. by apply lookup_delete_ne.
  - destruct (tick_order _ _ Hal) as [Hnd Hin].
    destruct (TimeoutCheck_ok now addrs m Hnd Hok) as (m1 & E1 & _ & Ht).
    rewrite E in E1. simplify_eq. rewrite Ht. destruct (decide (addr ∈ addrs)) as [|Hn]; [done|].
    rewrite Hin in Hn. by apply eq_None_not_Some in Hn as ->.
  - destruct args as [|x [|s rest]]; simplify_eq/=. done.
  - unfold Master_NodeInquiry in E. destruct (DoQuery _ _ _ _ _ _ _) as [b' [r|pn|]]; by simplify_eq/=.
Qed.

(** C10: a node the master knows with counter [c], and about which nothing more is
    reported, is closed by the time-out loop in the turn that takes its counter
    past 3, neither earlier nor later: after [t] turns, with any other handlers in
    between, it is still known exactly when [c + t <= 3].  A report resets the
    counter to 0, so a node is closed after four silent turns. *)
Theorem silent_node_closed addr (m m' : Mst) c t :
  master_ok m → mc_timeoutChecking m !! addr = Some c → silent_run addr t m m' →
  (addr ∈ dom (mc_Nodes m') ↔ (c + Z.of_nat t ≤ 3)%Z) ∧
  ∀ now args, mc_timeoutChecking (UpdateNodeInfo now args m') !! ni_Address args = Some 0%Z.
Proof.
  intros Hok Hc Hr. split; [|intros; apply lookup_insert_eq].
  assert (∀ o, mc_timeoutChecking m !! addr = o → master_ok m' ∧
    mc_timeoutChecking m' !! addr =
      o ≫= λ c, if decide (c + Z.of_nat t ≤ 3)%Z then Some (c + Z.of_nat t)%Z else None) as Hgen.
  { clear Hc c. induction Hr as [m|now p m1 m2 m3 t Hal Hna E Hr IH]; intros o Ho.
    - split; [done|]. rewrite Ho. destruct o as [c|]; [|done]. simpl.
      pose proof (mo_count _ Hok _ _ Ho). rewrite decide_True by lia. f_equal. lia.
    - subst o. pose proof (master_run_ok now p m1 m2 Hok Hal E) as Hok2.
      pose proof (silent_step_count addr now p m1 m2 Hok Hal Hna E) as H1.
      destruct (IH Hok2 _ H1) as [Hok3 H3]. split; [done|]. rewrite H3.
      destruct (mc_timeoutChecking m1 !! addr) as [c|] eqn:Hc; simpl;
        [|by destruct (decide (turns p = 1))].
      pose proof (mo_count _ Hok _ _ Hc). unfold tick_count.
      destruct p; simpl; repeat (destruct (decide _); simpl; try lia); try done; f_equal; lia. }
  destruct (Hgen _ Hc) as [Hok' Hm']. simpl in Hm'. rewrite <- (mo_counters _ Hok'), elem_of_dom.
  rewrite Hm'. destruct (decide _); split; intros Hx; (done || by destruct Hx || by eexists).
Qed.

(** ** The log of closed nodes *)
Fixpoint add_all (logs : list NodeLog) (l : NodeLogs) : outcome NodeLogs :=
  match logs with [] => Ret l | log :: logs => l ← NodeLogs_Add log l; add_all logs l end.

Lemma add_all_window logs l all :
  Logs l = drop (length all - Z.to_nat (BufferSize l)) all → (0 < BufferSize l)%Z →
  ∃ l', add_all logs l = Ret l' ∧ BufferSize l' = BufferSize l ∧
    Logs l' = drop (length (all ++ logs) - Z.to_nat (BufferSize l)) (all ++ logs).
Proof.
  revert l all. induction logs as [|log logs IH]; intros l all Hl Hb.
  { exists l. rewrite app_nil_r. done. }
  cbn [add_all]. set (n := Z.to_nat (BufferSize l)).
  assert (Z.of_nat n = BufferSize l) as Hnz by lia.
  assert (length (Logs l) = Nat.min (length all) n) as Hlen by (rewrite Hl, length_drop; lia).
  assert (∃ l1, NodeLogs_Add log l = Ret l1 ∧ BufferSize l1 = BufferSize l ∧
    Logs l1 = drop (length (all ++ [log]) - n) (all ++ [log])) as (l1 & -> & Hb1 & Hl1).
  { unfold NodeLogs_Add. rewrite length_app; simpl. destruct (decide _) as [Hlt|Hge].
    - eexists. split_and!; [done|done|]. simpl.
      rewrite Hl. fold n. replace (length all - n) with 0 by lia.
      replace (length all + 1 - n) with 0 by lia. done.
    - destruct (Logs l) as [|x rest] eqn:E; [simpl in *; lia|].
      eexists. split_and!; [done|done|]. simpl.
      rewrite drop_app_le by lia. f_equal.
      replace (length all + 1 - n) with (length all - n + 1) by (simpl in Hlen, Hge; lia).
      fold n in Hl. by rewrite <- drop_drop, <- Hl. }
  simpl. destruct (IH l1 (all ++ [log])) as (l' & E & Hb' & Hl'); [by rewrite Hb1|lia|].
  exists l'. split_and!; [done|congruence|]. by rewrite Hl', <- app_assoc, Hb1.
Qed.

(** Entries in the order of their times. *)
Definition sorted_logs (l : list NodeLog) : Prop := StronglySorted (λ a b, (nl_Time a ≤ nl_Time b)%Z) l.

Lemma Get_loop_filter time l :
  sorted_logs l → Get_loop time l = filter (λ v, (time < nl_Time v)%Z) l.
Proof.
  induction 1 as [|v l Hs IH Hv]; [done|]. cbn [Get_loop]. rewrite filter_cons.
  destruct (decide (time < nl_Time v)%Z) as [Hlt|Hge]; [|exact IH].
  f_equal. symmetry. clear -Hv Hlt.
  induction Hv as [|u l Hu _ IH]; [done|]. rewrite filter_cons, decide_True by lia. by rewrite IH.
Qed.

Lemma sorted_drop n l : sorted_logs l → sorted_logs (drop n l).
Proof.
  revert l. induction n as [|n IH]; intros l Hl; [done|]. destruct l as [|x l]; [done|].
  apply IH. by inversion Hl.
Qed.

(** A log with room for [n] entries to which any number of entries is added keeps
    exactly the last [n] of them, in order; when their times do not decrease, [Get]
    answers those of them that are later than the time asked for. *)
Theorem node_log_window n logs time :
  (0 < n)%Z →
  ∃ l, add_all logs (mkNodeLogs n []) = Ret l ∧
    Logs l = drop (length logs - Z.to_nat n) logs ∧
    (sorted_logs logs →
     NodeLogs_Get time l = filter (λ v, (time < nl_Time v)%Z) (drop (length logs - Z.to_nat n) logs)).
Proof.
  intros Hn. destruct (add_all_window logs (mkNodeLogs n []) []) as (l & E & _ & Hl); [done|done|].
  exists l. simpl in Hl. split_and!; [done|done|]. intros Hs. unfold NodeLogs_Get. rewrite Hl.
  apply Get_loop_filter. by apply sorted_drop.
Qed.
End silence.

(** ** Witnesses *)
Definition gate_report : NodeInfo := mkNodeInfo 0 "10.0.0.1" ["gate"] "app" None None.
Definition master_with_gate : MasterComponent SetBalancers :=
  UpdateNodeInfo 5 gate_report (Master_Awake no_hosts).

Lemma no_hosts_empty k : lb_hosts k no_hosts = ∅.
Proof. done. Qed.

Lemma master_with_gate_steps : rtc master_step (Master_Awake no_hosts) master_with_gate.
Proof. apply rtc_once. exists 5%Z, (MReport gate_report). by split. Qed.

Lemma master_with_gate_ok : master_ok master_with_gate.
Proof. apply UpdateNodeInfo_ok, Master_Awake_ok. done. Qed.

(** A report, and then a call for a role nobody has. *)
Definition ask_shop : master_op := MInquiry (λ _, 0%Z) 1 [("10.0.0.1", mkNodeInfo 5 "10.0.0.1" ["gate"] "app" None None)]
  ["app"; "shop"; "Default"] false.
Lemma ask_shop_allowed : allowed ask_shop master_with_gate.
Proof.
  unfold allowed, ask_shop. change (mc_Nodes master_with_gate) with
    ({["10.0.0.1" := mkNodeInfo 5 "10.0.0.1" ["gate"] "app" None None]} : gmap string NodeInfo).
  by rewrite map_to_list_singleton.
Qed.
Lemma master_invariant_witness :
  rtc master_step (Master_Awake no_hosts) master_with_gate ∧
  lb_hosts R2 (mc_lb master_with_gate) = dom (mc_Nodes master_with_gate) ∧
  master_run 6 ask_shop master_with_gate = Panic IndexOutOfRange ∧
  ∃ m', master_run 6 (MClose "10.0.0.1") master_with_gate = Ret m'.
Proof.
  split; [apply master_with_gate_steps|].
  destruct (master_invariant no_hosts master_with_gate no_hosts_empty master_with_gate_steps)
    as [Hok Hrun]. split; [apply Hok|]. split.
  - apply (Hrun 6%Z ask_shop ask_shop_allowed). simpl. lia.
  - by apply (Hrun 6%Z (MClose "10.0.0.1")).
Defined.

Lemma gate_is_silent :
  silent_run "10.0.0.1" 1 master_with_gate
    (mkMaster (mc_Nodes master_with_gate) (mc_NodeStatus master_with_gate)
       (mc_NodeLog master_with_gate) (<["10.0.0.1" := 1%Z]> (mc_timeoutChecking master_with_gate))
       (mc_lb master_with_gate)).
Proof.
  eapply (silent_step _ 6 (MTick ["10.0.0.1"]) _ _ _ 0); [|done| |apply silent_refl].
  - change (["10.0.0.1"] ≡ₚ (map_to_list ({["10.0.0.1" := 0%Z]} : gmap string Z)).*1).
    by rewrite map_to_list_singleton.
  - reflexivity.
Qed.

Lemma silent_node_closed_witness :
  silent_run "10.0.0.1" 1 master_with_gate
    (mkMaster (mc_Nodes master_with_gate) (mc_NodeStatus master_with_gate)
       (mc_NodeLog master_with_gate) (<["10.0.0.1" := 1%Z]> (mc_timeoutChecking master_with_gate))
       (mc_lb master_with_gate)) ∧ "10.0.0.1" ∈ dom (mc_Nodes master_with_gate).
Proof.
  split; [apply gate_is_silent|].
  destruct (silent_node_closed "10.0.0.1" master_with_gate _ 0 1 master_with_gate_ok eq_refl
    gate_is_silent) as [Hd _]. apply Hd. lia.
Defined.

Lemma node_log_window_witness :
  (0 < 2)%Z ∧ ∃ l, add_all [mkNodeLog 1 "a" 0; mkNodeLog 2 "b" 0; mkNodeLog 3 "c" 0] (mkNodeLogs 2 []) = Ret l ∧
    Logs l = [mkNodeLog 2 "b" 0; mkNodeLog 3 "c" 0].
Proof.
  split; [done|].
  destruct (node_log_window 2 [mkNodeLog 1 "a" 0; mkNodeLog 2 "b" 0; mkNodeLog 3 "c" 0] 0)
    as (l & E & Hl & _); [done|]. by exists l.
Defined.
