(* ===== verification/Location.v ===== *)
(** * hCluster: the location server

    LocationComponent.go and LocationService.go.  A Go map is a reference: the
    component's [Nodes], and the reply structure that [DoLocationSync] hands to every
    call, share maps through the store [lm_heap].  The RPC client decodes a reply
    with encoding/gob into what the pointer it is given holds: a nil pointer gets
    a new structure with new maps, an existing map receives the entries of the
    message and keeps those the message does not mention (the package's documented
    merge). *)
From S2P Require Import Prelude Float64 Selector Master.

Abbreviation mref := positive.

Record LocationComponent (B : Type) := mkLocation {
  lm_heap : gmap mref (gmap string NodeInfo);
  lm_Nodes : option mref;
  lm_NodeLog : option NodeLogs;
  (** the local variable [reply] of [DoLocationSync] *)
  lm_reply : option (mref * NodeLogs);
  lm_lb : B }.
Arguments mkLocation {B} _ _ _ _ _.
Arguments lm_heap {B} _.
Arguments lm_Nodes {B} _.
Arguments lm_NodeLog {B} _.
Arguments lm_reply {B} _.
Arguments lm_lb {B} _.

Section location.
Context `{Balancers B}.
Abbreviation Loc := (LocationComponent B).

(** A nil map has no entries. *)
Definition deref (r : option mref) (this : Loc) : gmap string NodeInfo :=
  default ∅ (r ≫= λ r, lm_heap this !! r).

(** The map [Nodes] of the location server. *)
Definition Location_Nodes (this : Loc) : gmap string NodeInfo := deref (lm_Nodes this) this.

(** [Awake]: nothing is known before the first synchronisation. *)
Definition Location_Awake (b : B) : Loc := mkLocation ∅ None None None b.

Definition with_lb (b : B) (this : Loc) : Loc :=
  mkLocation (lm_heap this) (lm_Nodes this) (lm_NodeLog this) (lm_reply this) b.

Definition NodeOpen (addr : string) (this : Loc) : Loc := with_lb (add_host addr (lm_lb this)) this.
Definition Location_NodeClose (addr : string) (this : Loc) : Loc :=
  with_lb (remove_host addr (lm_lb this)) this.

(** [for addr := range nodes { if !skip(addr) { f(addr) } }], over the keys in some order. *)
Definition for_keys (keys : list string) (skip : string → bool) (f : string → Loc → Loc) (this : Loc) : Loc :=
  foldl (λ this addr, if skip addr then this else f addr this) this keys.

(** [UpdateBL], the two maps being read where they are; [kcur] and [knext] are the
    orders in which they are visited. *)
Definition UpdateBL (kcur knext : list string) (cur next : option mref) (this : Loc) : Loc :=
  match cur with
  | None => for_keys knext (λ _, false) NodeOpen this
  | Some _ =>
      let this := for_keys kcur (λ a, bool_decide (is_Some (deref next this !! a))) Location_NodeClose this in
      for_keys knext (λ a, bool_decide (is_Some (deref cur this !! a))) NodeOpen this
  end.

(** Fields with a zero value are not sent, and keep what they held. *)
Definition merge_log (sent old : NodeLogs) : NodeLogs :=
  mkNodeLogs (if decide (BufferSize sent = 0%Z) then BufferSize old else BufferSize sent)
    (match Logs sent with [] => Logs old | logs => logs end).

(** What [Call("MasterService.NodeInfoSync", "sync", &reply)] does with the answer. *)
Definition decode_reply (r : NodeInfoSyncReply) (this : Loc) : Loc :=
  match lm_reply this with
  | None =>
      let m := fresh (dom (lm_heap this)) in
      mkLocation (<[m := sr_Nodes r]> (lm_heap this)) (lm_Nodes this) (lm_NodeLog this)
        (Some (m, sr_NodeLog r)) (lm_lb this)
  | Some (m, log) =>
      mkLocation (<[m := sr_Nodes r ∪ deref (Some m) this]> (lm_heap this)) (lm_Nodes this)
        (lm_NodeLog this) (Some (m, merge_log (sr_NodeLog r) log)) (lm_lb this)
  end.

(** What [DoLocationSync] does under the lock once it has an answer. *)
Definition sync_update (kcur knext : list string) (this : Loc) : Loc :=
  match lm_reply this with
  | None => this
  | Some (m, log) =>
      let this := UpdateBL kcur knext (lm_Nodes this) (Some m) this in
      mkLocation (lm_heap this) (Some m) (Some log) (lm_reply this) (lm_lb this)
  end.
(** One turn of [DoLocationSync] in which the master answered. *)
Definition DoLocationSync (kcur knext : list string) (r : NodeInfoSyncReply) (this : Loc) : Loc :=
  sync_update kcur knext (decode_reply r this).

(** The keys are visited once each, in any order. *)
Definition update_orders (kcur knext : list string) (this : Loc) : Prop :=
  kcur ≡ₚ (map_to_list (Location_Nodes this)).*1 ∧
  knext ≡ₚ (map_to_list (deref (fst <$> lm_reply this) this)).*1.
Definition sync_orders (kcur knext : list string) (r : NodeInfoSyncReply) (this : Loc) : Prop :=
  update_orders kcur knext (decode_reply r this).

Definition Location_NodeInquiry (Intn : nat → Z) (fuel : nat) (nodes : list (string * NodeInfo))
    (args : list string) (detail : bool) (this : Loc) : Loc * outcome (SourceGroup * option string) :=
  match lm_Nodes this with
  | None => (this, Ret ([], Some "this location node is waiting to sync"))
  | Some _ =>
      let '(b, r) := DoQuery Intn fuel nodes args detail [] (lm_lb this) in (with_lb b this, r)
  end.

Definition NodeLogInquiry (args : Z) (this : Loc) : result string (list NodeLog) :=
  match lm_NodeLog this with
  | None => Err "this location node is waiting to sync"
  | Some log => Ok (NodeLogs_Get args log)
  end.

Definition LocationService_NodeInquiry := Location_NodeInquiry.
Definition LocationService_NodeLogInquiry := NodeLogInquiry.
End location.

(** ** What [UpdateBL] does *)
Section location_proofs.
Context `{BalancerLaws B}.
Abbreviation Loc := (LocationComponent B).

Lemma for_keys_heap keys skip f (this : Loc) :
  (∀ a t, lm_heap (f a t) = lm_heap t) → lm_heap (for_keys keys skip f this) = lm_heap this.
Proof.
  intros Hf. unfold for_keys. revert this. induction keys as [|a keys IH]; intros this; [done|].
  simpl. rewrite IH. by destruct (skip a).
Qed.

Lemma for_keys_reply keys skip f (this : Loc) :
  (∀ a t, lm_reply (f a t) = lm_reply t) → lm_reply (for_keys keys skip f this) = lm_reply this.
Proof.
  intros Hf. unfold for_keys. revert this. induction keys as [|a keys IH]; intros this; [done|].
  simpl. rewrite IH. by destruct (skip a).
Qed.

Lemma for_keys_open keys skip (this : Loc) k :
  lb_hosts k (lm_lb (for_keys keys skip NodeOpen this)) =
    list_to_set (filter (λ a, skip a = false) keys) ∪ lb_hosts k (lm_lb this).
Proof.
  unfold for_keys. revert this. induction keys as [|a keys IH]; intros this; [set_solver|].
  simpl. rewrite IH, filter_cons. destruct (skip a) eqn:E.
  - by rewrite decide_False.
  - rewrite decide_True by done. simpl. rewrite hosts_add_host. set_solver.
Qed.

Lemma for_keys_close keys skip (this : Loc) k :
  lb_hosts k (lm_lb (for_keys keys skip Location_NodeClose this)) =
    lb_hosts k (lm_lb this) ∖ list_to_set (filter (λ a, skip a = false) keys).
Proof.
  unfold for_keys. revert this. induction keys as [|a keys IH]; intros this; [set_solver|].
  simpl. rewrite IH, filter_cons. destruct (skip a) eqn:E.
  - by rewrite decide_False.
  - rewrite decide_True by done. simpl. rewrite hosts_remove_host. set_solver.
Qed.

Lemma keys_dom (m : gmap string NodeInfo) keys :
  keys ≡ₚ (map_to_list m).*1 → ∀ a, a ∈ keys ↔ is_Some (m !! a).
Proof.
  intros Hp a. rewrite Hp, list_elem_of_fmap. split.
  - intros ([a' n] & -> & Hin%elem_of_map_to_list). by eexists.
  - intros [n Hn]. exists (a, n). split; [done|by apply elem_of_map_to_list].
Qed.

(** Shared by the theorem below and the first synchronisation. *)
Lemma UpdateBL_hosts kcur knext cur next (this : Loc) k :
  kcur ≡ₚ (map_to_list (deref cur this)).*1 → knext ≡ₚ (map_to_list (deref next this)).*1 →
  lb_hosts k (lm_lb this) = dom (deref cur this) →
  lb_hosts k (lm_lb (UpdateBL kcur knext cur next this)) = dom (deref next this).
Proof.
  intros Hcur Hnext Hh. pose proof (keys_dom _ _ Hcur) as Kc. pose proof (keys_dom _ _ Hnext) as Kn.
  unfold UpdateBL. destruct cur as [m|].
  - set (t1 := for_keys kcur _ Location_NodeClose this).
    assert (∀ r, deref r t1 = deref r this) as Hd
      by (intros r; unfold deref, t1; by rewrite for_keys_heap).
    assert (lb_hosts k (lm_lb t1) = dom (deref (Some m) this) ∖ list_to_set
      (filter (λ a, bool_decide (is_Some (deref next this !! a)) = false) kcur)) as Hc
      by (unfold t1; by rewrite for_keys_close, Hh).
    rewrite for_keys_open, Hc.
    apply set_eq. intros a. rewrite elem_of_union, elem_of_difference, !elem_of_list_to_set,
      !list_elem_of_filter, !bool_decide_eq_false, Kc, Kn, Hd, !elem_of_dom.
    destruct (deref (Some m) this !! a), (deref next this !! a); naive_solver.
  - rewrite for_keys_open, Hh. apply set_eq. intros a.
    rewrite elem_of_union, elem_of_list_to_set, list_elem_of_filter, Kn, !elem_of_dom.
    unfold deref at 2. simpl. rewrite lookup_empty. naive_solver.
Qed.

(** [UpdateBL], given the map the balancers were filled from and the next one in
    a map of its own, leaves in each balancer exactly the addresses of the next
    one. *)
Theorem UpdateBL_syncs kcur knext cur next (this : Loc) k :
  kcur ≡ₚ (map_to_list (deref cur this)).*1 → knext ≡ₚ (map_to_list (deref next this)).*1 →
  lb_hosts k (lm_lb this) = dom (deref cur this) →
  lb_hosts k (lm_lb (UpdateBL kcur knext cur next this)) = dom (deref next this).
Proof. apply UpdateBL_hosts. Qed.

(** A component that has been synchronised. *)
Definition synced (this : Loc) : Prop :=
  ∃ m log n, lm_Nodes this = Some m ∧ lm_reply this = Some (m, log) ∧ lm_heap this !! m = Some n.

Lemma DoLocationSync_next kcur knext r (this : Loc) :
  synced this → sync_orders kcur knext r this →
  let this' := DoLocationSync kcur knext r this in
  synced this' ∧ Location_Nodes this' = sr_Nodes r ∪ Location_Nodes this ∧
  ∀ k, lb_hosts k (lm_lb this') = lb_hosts k (lm_lb this).
Proof.
  intros (m & log & n & HN & Hr & Hm) [Hcur Hnext] this'.
  assert (deref (Some m) this = n) as Hdm by (unfold deref; simpl; by rewrite Hm).
  set (log' := merge_log (sr_NodeLog r) log).
  set (t1 := mkLocation (<[m := sr_Nodes r ∪ n]> (lm_heap this)) (Some m) (lm_NodeLog this)
    (Some (m, log')) (lm_lb this)).
  assert (decode_reply r this = t1) as Ht1 by (unfold decode_reply; by rewrite Hr, HN, Hdm).
  rewrite Ht1 in Hcur, Hnext.
  assert (deref (Some m) t1 = sr_Nodes r ∪ n) as Hd1
    by (unfold deref; simpl; by rewrite lookup_insert_eq).
  pose proof (keys_dom _ _ Hcur) as Kc. pose proof (keys_dom _ _ Hnext) as Kn.
  unfold Location_Nodes in Kc. simpl in Kc, Kn. rewrite Hd1 in Kc, Kn.
  assert (this' = mkLocation (lm_heap (UpdateBL kcur knext (Some m) (Some m) t1)) (Some m)
    (Some log') (lm_reply (UpdateBL kcur knext (Some m) (Some m) t1))
    (lm_lb (UpdateBL kcur knext (Some m) (Some m) t1))) as E
    by (unfold this', DoLocationSync, sync_update; by rewrite Ht1).
  assert (UpdateBL kcur knext (Some m) (Some m) t1 = t1) as Hsame.
  { unfold UpdateBL.
    assert (∀ f keys, (∀ a, a ∈ keys → is_Some ((sr_Nodes r ∪ n) !! a)) →
      for_keys keys (λ a, bool_decide (is_Some (deref (Some m) t1 !! a))) f t1 = t1) as Hid.
    { intros f keys. rewrite Hd1. unfold for_keys. induction keys as [|a keys IH]; intros Hk; [done|].
      simpl. rewrite bool_decide_true by (apply Hk; set_solver). apply IH. set_solver. }
    rewrite (Hid Location_NodeClose kcur) by (intros a; apply Kc).
    apply Hid. intros a. apply Kn. }
  rewrite E, Hsame. split; [|split]; simpl; [|unfold Location_Nodes|done].
  - exists m, log', (sr_Nodes r ∪ n). split_and!; [done|done|]. simpl. apply lookup_insert_eq.
  - rewrite HN, Hdm. exact Hd1.
Qed.

Inductive sync_run : Loc → list NodeInfoSyncReply → Loc → Prop :=
| sync_refl t : sync_run t [] t
| sync_more t kcur knext r rs t' :
    sync_orders kcur knext r t → sync_run (DoLocationSync kcur knext r t) rs t' →
    sync_run t (r :: rs) t'.

Lemma sync_run_later t rs t' :
  sync_run t rs t' → synced t →
  (∀ a, is_Some (Location_Nodes t' !! a) ↔
        is_Some (Location_Nodes t !! a) ∨ Exists (λ r, is_Some (sr_Nodes r !! a)) rs) ∧
  ∀ k, lb_hosts k (lm_lb t') = lb_hosts k (lm_lb t).
Proof.
  induction 1 as [t|t kcur knext r rs t' Ho _ IH]; intros Hs.
  - split; [|done]. intros a. rewrite Exists_nil. tauto.
  - destruct (DoLocationSync_next kcur knext r t Hs Ho) as (Hs1 & HN & Hh).
    destruct (IH Hs1) as [Ha Hk]. split; [|intros k; by rewrite Hk].
    intros a. rewrite Ha, HN, lookup_union_is_Some, Exists_cons. tauto.
Qed.

(** The first synchronisation fills the balancers from a map of its own. *)
Lemma first_sync kcur knext r b :
  (∀ k, lb_hosts k b = ∅) → sync_orders kcur knext r (Location_Awake b) →
  let t := DoLocationSync kcur knext r (Location_Awake b) in
  synced t ∧ Location_Nodes t = sr_Nodes r ∧ ∀ k, lb_hosts k (lm_lb t) = dom (sr_Nodes r).
Proof.
  intros Hb [_ Hnext] t.
  set (m := fresh (dom (∅ : gmap mref (gmap string NodeInfo)))) in *.
  set (t1 := mkLocation (<[m := sr_Nodes r]> ∅) None None (Some (m, sr_NodeLog r)) b).
  assert (decode_reply r (Location_Awake b) = t1) as Ht1 by done.
  assert (deref (Some m) t1 = sr_Nodes r) as Hd by (unfold deref; simpl; by rewrite lookup_insert_eq).
  rewrite Ht1 in Hnext. simpl in Hnext.
  assert (lm_heap (UpdateBL kcur knext None (Some m) t1) = lm_heap t1) as Hheap
    by (unfold UpdateBL; by rewrite for_keys_heap).
  assert (t = mkLocation (lm_heap t1) (Some m) (Some (sr_NodeLog r))
    (lm_reply (UpdateBL kcur knext None (Some m) t1))
    (lm_lb (UpdateBL kcur knext None (Some m) t1))) as E
    by (unfold t, DoLocationSync, sync_update; rewrite Ht1;
        change (lm_reply t1) with (Some (m, sr_NodeLog r)); change (lm_Nodes t1) with (None : option mref);
        cbv beta iota zeta; by rewrite Hheap).
  assert (lm_reply (UpdateBL kcur knext None (Some m) t1) = lm_reply t1) as Hrep
    by (unfold UpdateBL; by rewrite for_keys_reply).
  rewrite E, Hrep. split; [|split]; simpl.
  - exists m, (sr_NodeLog r), (sr_Nodes r). split_and!; [done|done|]. simpl. apply lookup_insert_eq.
  - unfold Location_Nodes. simpl. unfold deref. simpl. by rewrite lookup_insert_eq.
  - intros k. rewrite <- Hd.
    apply (UpdateBL_hosts [] knext None (Some m) t1 k); [done|done|]. simpl. by rewrite Hb.
Qed.

(** From the first answer on, the location server only merges: after any later
    answers [rs] it lists exactly the addresses that some answer has named, however
    long ago the master dropped them, and each balancer still holds the addresses
    of the first answer, with none of the nodes that joined later. *)
Theorem sync_never_forgets kcur knext r rs b t :
  (∀ k, lb_hosts k b = ∅) → sync_orders kcur knext r (Location_Awake b) →
  sync_run (DoLocationSync kcur knext r (Location_Awake b)) rs t →
  (∀ addr, is_Some (Location_Nodes t !! addr) ↔ Exists (λ r, is_Some (sr_Nodes r !! addr)) (r :: rs)) ∧
  ∀ k, lb_hosts k (lm_lb t) = dom (sr_Nodes r).
Proof.
  intros Hb Ho Hrun. destruct (first_sync kcur knext r b Hb Ho) as (Hs & HN & Hk).
  destruct (sync_run_later _ _ _ Hrun Hs) as [Ha Hk']. split.
  - intros addr. by rewrite Ha, HN, Exists_cons.
  - intros k. by rewrite Hk', Hk.
Qed.
End location_proofs.

(** ** Witnesses *)
Definition sync_gate : NodeInfoSyncReply :=
  mkSyncReply {["10.0.0.1" := gate_report]} (mkNodeLogs 20 []).
Definition sync_nobody : NodeInfoSyncReply := mkSyncReply ∅ (mkNodeLogs 20 []).
Definition fresh_location : LocationComponent SetBalancers := Location_Awake no_hosts.
Definition location_gate : LocationComponent SetBalancers :=
  DoLocationSync [] ["10.0.0.1"] sync_gate fresh_location.

Lemma sync_gate_orders : sync_orders [] ["10.0.0.1"] sync_gate fresh_location.
Proof. split; vm_compute; reflexivity. Qed.
Lemma sync_nobody_orders : sync_orders ["10.0.0.1"] ["10.0.0.1"] sync_nobody location_gate.
Proof. split; vm_compute; reflexivity. Qed.

Lemma sync_never_forgets_witness :
  sync_run location_gate [sync_nobody] (DoLocationSync ["10.0.0.1"] ["10.0.0.1"] sync_nobody location_gate) ∧
  is_Some (Location_Nodes (DoLocationSync ["10.0.0.1"] ["10.0.0.1"] sync_nobody location_gate) !! "10.0.0.1").
Proof.
  assert (sync_run location_gate [sync_nobody]
    (DoLocationSync ["10.0.0.1"] ["10.0.0.1"] sync_nobody location_gate)) as Hrun
    by (eapply sync_more; [exact sync_nobody_orders|apply sync_refl]).
  split; [exact Hrun|].
  destruct (sync_never_forgets [] ["10.0.0.1"] sync_gate [sync_nobody] no_hosts _ no_hosts_empty
    sync_gate_orders Hrun) as [Ha _].
  apply Ha, Exists_cons_hd. by eexists.
Defined.

Lemma UpdateBL_syncs_witness :
  lb_hosts R2 (lm_lb (UpdateBL [] ["10.0.0.1"] None (Some 1%positive)
    (mkLocation {[1%positive := {["10.0.0.1" := gate_report]}]} None None None no_hosts))) = {["10.0.0.1"]}.
Proof.
  rewrite (UpdateBL_syncs [] ["10.0.0.1"] None (Some 1%positive)
    (mkLocation {[1%positive := {["10.0.0.1" := gate_report]}]} None None None no_hosts) R2);
    [vm_compute; reflexivity|vm_compute; reflexivity|vm_compute; reflexivity|vm_compute; reflexivity].
Defined.
