(* ===== verification/Node.v ===== *)
(** * hCluster: a node's clients, and looking nodes up

    NodeComponent.go and the methods of NodeID.go that ask it for a client.

    [GetNodeClient] runs in many goroutines at once: it is given step by step, a
    step being what happens between two points where another goroutine can come
    in (a lock taken and released, a map of its own lock, a dial, a sleep).  The
    network decides what a dial answers, when a client closes and when its close
    callback runs.  [GetNode], [GetNodeGroup] and what they call are one goroutine's
    sequential code; what an RPC answers is a parameter. *)
From S2P Require Import Prelude Float64 Selector Master.

(** A *rpc.TcpClient *)
Abbreviation client := positive.

(** ** GetNodeClient *)
Section clients.
(** The address a client was dialled with. *)
Context (client_addr : client → string).

(** The part of [NodeComponent] that [GetNodeClient] works on, with the clients
    that have been closed ([IsClosed]). *)
Record Clients := mkClients {
  rpcClient : gmap string client;
  clientGetting : gmap string Z;
  closed : gset client }.

(** Where a goroutine stands in [GetNodeClient(addr)]. *)
Inductive get_pc :=
| GLoad                                 (* at the label [a] *)
| GLock                                 (* found no usable client *)
| GSleep                                (* waits for the goroutine that connects *)
| GConnect                              (* has set clientGetting, about to dial *)
| GConnected (c : client)               (* in ConnectToNode, the dial succeeded *)
| GStore (c : client)                   (* ConnectToNode has returned *)
| GDefer (r : result string client)     (* the deferred delete is left *)
| GReturned (r : result string client).

(** [IsClosed] of what [rpcClient.Load] finds. *)
Definition load_client (addr : string) (s : Clients) : option client :=
  c ← rpcClient s !! addr; if decide (c ∈ closed s) then None else Some c.

Definition store_client (addr : string) (c : client) (s : Clients) : Clients :=
  mkClients (<[addr := c]> (rpcClient s)) (clientGetting s) (closed s).

(** One step of [GetNodeClient]; [dial] is what the network answers in it. *)
Definition GetNodeClient (dial : result string client) (addr : string) (pc : get_pc) (s : Clients)
    : get_pc * Clients :=
  match pc with
  | GLoad => (match load_client addr s with Some c => GReturned (Ok c) | None => GLock end, s)
  | GLock =>
      match clientGetting s !! addr with
      | Some count =>
          if decide (100 < count)%Z then (GReturned (Err "init not complete"), s)
          else (GSleep, mkClients (rpcClient s) (<[addr := (count + 1)%Z]> (clientGetting s)) (closed s))
      | None => (GConnect, mkClients (rpcClient s) (<[addr := 0%Z]> (clientGetting s)) (closed s))
      end
  | GSleep => (GLoad, s)
  | GConnect => (match dial with Ok c => GConnected c | Err e => GDefer (Err e) end, s)
  | GConnected c => (GStore c, store_client addr c s)
  | GStore c => (GDefer (Ok c), store_client addr c s)
  | GDefer r => (GReturned r, mkClients (rpcClient s) (delete addr (clientGetting s)) (closed s))
  | GReturned r => (GReturned r, s)
  end.

(** [clientCallback("close", addr)]: the address is the remote one of the connection, which
    is another than the dialled one when that was a host name. *)
Definition clientCallback (addr : string) (s : Clients) : Clients :=
  mkClients (delete addr (rpcClient s)) (clientGetting s) (closed s).

(** The goroutines inside [GetNodeClient], each with its address. *)
Record Calls := mkCalls {
  threads : gmap positive (string * get_pc);
  shared : Clients }.

Inductive get_step : Calls → Calls → Prop :=
| step_call t addr s :
    threads s !! t = None →
    get_step s (mkCalls (<[t := (addr, GLoad)]> (threads s)) (shared s))
| step_run t addr pc dial s pc' sh' :
    threads s !! t = Some (addr, pc) →
    (∀ c, dial = Ok c → client_addr c = addr) →
    GetNodeClient dial addr pc (shared s) = (pc', sh') →
    get_step s (mkCalls (<[t := (addr, pc')]> (threads s)) sh')
| step_close c s :
    get_step s (mkCalls (threads s)
      (mkClients (rpcClient (shared s)) (clientGetting (shared s)) ({[c]} ∪ closed (shared s))))
| step_callback c remote s :
    c ∈ closed (shared s) →
    get_step s (mkCalls (threads s) (clientCallback remote (shared s))).

(** [Initialize] has made the maps. *)
Definition no_calls : Calls := mkCalls ∅ (mkClients ∅ ∅ ∅).

(** Between setting [clientGetting] and deleting it. *)
Definition in_flight (pc : get_pc) : bool :=
  match pc with GConnect | GConnected _ | GStore _ | GDefer _ => true | _ => false end.
Definition holds (c : client) (pc : get_pc) : Prop :=
  pc = GConnected c ∨ pc = GStore c ∨ pc = GDefer (Ok c) ∨ pc = GReturned (Ok c).

Record get_ok (s : Calls) : Prop := {
  go_one t1 t2 addr p1 p2 :
    threads s !! t1 = Some (addr, p1) → threads s !! t2 = Some (addr, p2) →
    in_flight p1 → in_flight p2 → t1 = t2;
  go_entry addr : is_Some (clientGetting (shared s) !! addr) ↔
    ∃ t p, threads s !! t = Some (addr, p) ∧ in_flight p;
  go_count addr n : clientGetting (shared s) !! addr = Some n → (0 ≤ n ≤ 101)%Z;
  go_addr addr c : rpcClient (shared s) !! addr = Some c → client_addr c = addr;
  go_holds t addr p c : threads s !! t = Some (addr, p) → holds c p → client_addr c = addr }.

(** What one step does to the flight of an address: nothing, or it starts one where
    there was none, or it ends the one of its own goroutine. *)
Definition flight_change (addr : string) (pc pc' : get_pc) (s s' : Clients) : Prop :=
  (in_flight pc' = in_flight pc ∧ ∀ a, is_Some (clientGetting s' !! a) ↔ is_Some (clientGetting s !! a)) ∨
  (in_flight pc = false ∧ in_flight pc' = true ∧ clientGetting s !! addr = None ∧
   ∀ a, is_Some (clientGetting s' !! a) ↔ a = addr ∨ is_Some (clientGetting s !! a)) ∨
  (in_flight pc = true ∧ in_flight pc' = false ∧
   ∀ a, is_Some (clientGetting s' !! a) ↔ a ≠ addr ∧ is_Some (clientGetting s !! a)).

Lemma insert_is_Some {V} (m : gmap string V) k v a :
  is_Some (<[k := v]> m !! a) ↔ a = k ∨ is_Some (m !! a).
Proof.
  destruct (decide (a = k)) as [->|Hne]; [rewrite lookup_insert_eq|rewrite lookup_insert_ne by done].
  - split; [by left|by eexists].
  - split; [by right|by intros [?|?]].
Qed.
Lemma delete_is_Some {V} (m : gmap string V) k a :
  is_Some (delete k m !! a) ↔ a ≠ k ∧ is_Some (m !! a).
Proof. unfold is_Some. setoid_rewrite lookup_delete_Some. naive_solver. Qed.

Lemma GetNodeClient_flight dial addr pc s pc' s' :
  GetNodeClient dial addr pc s = (pc', s') → flight_change addr pc pc' s s'.
Proof.
  unfold flight_change. destruct pc as [| | | |c|c|r|r]; simpl; intros E.
  2:{ destruct (clientGetting s !! addr) as [n|] eqn:En; [destruct (decide _)|]; simplify_eq/=.
      - left. done.
      - left. split; [done|]. intros a. rewrite insert_is_Some. naive_solver.
      - right. left. split_and!; [done..|]. intros a. apply insert_is_Some. }
  6:{ simplify_eq/=. right. right. split_and!; [done..|]. intros a. apply delete_is_Some. }
  all: left; repeat case_match; simplify_eq/=; done.
Qed.

Lemma GetNodeClient_count dial addr pc s pc' s' :
  (∀ a n, clientGetting s !! a = Some n → (0 ≤ n ≤ 101)%Z) →
  GetNodeClient dial addr pc s = (pc', s') →
  ∀ a n, clientGetting s' !! a = Some n → (0 ≤ n ≤ 101)%Z.
Proof.
  intros Hc E a n. destruct pc as [| | | |c|c|r|r]; simpl in E; simplify_eq/=;
    try (repeat case_match; simplify_eq/=; by eauto).
  - repeat case_match; simplify_eq/=; try by eauto.
    + intros [[<- <-]|[_ Hn]]%lookup_insert_Some; [|by eauto].
      match goal with H : _ !! _ = Some ?z |- _ => specialize (Hc _ _ H) end. lia.
    + intros [[<- <-]|[_ Hn]]%lookup_insert_Some; [lia|by eauto].
  - intros [_ Hn]%lookup_delete_Some. by eauto.
Qed.

(** Clients are stored and handed out under their own address. *)
Lemma GetNodeClient_addr dial addr pc s pc' s' :
  (∀ a c, rpcClient s !! a = Some c → client_addr c = a) →
  (∀ c, holds c pc → client_addr c = addr) → (∀ c, dial = Ok c → client_addr c = addr) →
  GetNodeClient dial addr pc s = (pc', s') →
  (∀ a c, rpcClient s' !! a = Some c → client_addr c = a) ∧ (∀ c, holds c pc' → client_addr c = addr).
Proof.
  intros Hm Hh Hd E.
  assert (∀ c0, client_addr c0 = addr →
    ∀ a c, rpcClient (store_client addr c0 s) !! a = Some c → client_addr c = a) as Hst
    by (intros c0 Hc0 a c; simpl; intros [[<- <-]|[_ ?]]%lookup_insert_Some; eauto).
  assert (∀ c, load_client addr s = Some c → client_addr c = addr) as Hl.
  { unfold load_client. intros c Hc. destruct (rpcClient s !! addr) eqn:El; simpl in Hc; [|done].
    case_decide; simplify_eq. by apply Hm. }
  unfold holds in *. destruct pc as [| | | |c0|c0|r|r]; simpl in E;
    repeat case_match; simplify_eq/=; (split; [by eauto|]); naive_solver.
Qed.

Lemma get_step_ok s s' : get_ok s → get_step s s' → get_ok s'.
Proof.
  intros [Hone Hent Hcnt Haddr Hhold]. destruct 1 as [t addr s Ht|t addr pc dial s pc' sh' Ht Hd E|c s|c s Hc].
  - split; [intros t1 t2 a p1 p2; simpl|intros a; simpl|exact Hcnt|exact Haddr|intros t' a p c; simpl].
    + intros [[<- ?]|[_ H1]]%lookup_insert_Some [[<- ?]|[_ H2]]%lookup_insert_Some; simplify_eq;
        try done. by eauto.
    + rewrite Hent. split; intros (t' & p & Hp & Hf); exists t', p; split; try done.
      * apply lookup_insert_Some. right. split; [|done]. intros <-. congruence.
      * apply lookup_insert_Some in Hp as [[<- [= <- <-]]|[_ ?]]; done.
    + intros [[<- [= <- <-]]|[_ H1]]%lookup_insert_Some; [|by eauto].
      unfold holds. naive_solver.
  - pose proof (GetNodeClient_flight _ _ _ _ _ _ E) as Hfl.
    destruct (GetNodeClient_addr _ _ _ _ _ _ Haddr (λ c, Hhold _ _ _ _ Ht) Hd E) as [Haddr' Hhold'].
    split; simpl; [| |by eapply GetNodeClient_count|done|].
    + assert (∀ t2 p2, threads s !! t2 = Some (addr, p2) → t ≠ t2 → in_flight p2 → in_flight pc' → False) as Hx.
      { intros t2 p2 H2 Hne Hf2 Hf'. destruct Hfl as [[Heq _]|[(_ & _ & Hn & _)|(_ & Hf & _)]].
        - rewrite Heq in Hf'. by eapply Hne, Hone.
        - destruct (proj2 (Hent addr)) as [z Hz]; [by eauto|congruence].
        - by rewrite Hf in Hf'. }
      intros t1 t2 a p1 p2 [[<- ?]|[N1 H1]]%lookup_insert_Some
        [[<- ?]|[N2 H2]]%lookup_insert_Some Hf1 Hf2; simplify_eq; try done; try by eauto.
      * exfalso. by eapply Hx.
      * exfalso. by eapply Hx.
    + intros a. destruct Hfl as [[Heq Hd']|[(Hf & Hf' & Hn & Hd')|(Hf & Hf' & Hd')]].
      * rewrite Hd', Hent. split; intros (t' & p & Hp & Hpf).
        -- destruct (decide (t' = t)) as [->|Hne]; [|exists t', p; by rewrite lookup_insert_ne].
           simplify_eq. exists t, pc'. rewrite lookup_insert_eq. by rewrite Heq.
        -- apply lookup_insert_Some in Hp as [[<- [= <- <-]]|[_ ?]]; [|by eauto].
           exists t, pc. by rewrite <- Heq.
      * rewrite Hd', Hent. split.
        -- intros [->|(t' & p & Hp & Hpf)]; [exists t, pc'; by rewrite lookup_insert_eq, Hf'|].
           exists t', p. rewrite lookup_insert_ne; [done|]. intros <-. simplify_eq. by rewrite Hf in Hpf.
        -- intros (t' & p & Hp & Hpf). apply lookup_insert_Some in Hp as [[<- [= <- <-]]|[_ ?]]; eauto.
      * rewrite Hd', Hent. split.
        -- intros (Hne & t' & p & Hp & Hpf). exists t', p. rewrite lookup_insert_ne; [done|]. congruence.
        -- intros (t' & p & Hp & Hpf). apply lookup_insert_Some in Hp as [[<- [= <- <-]]|[Hne ?]].
           { by rewrite Hf' in Hpf. }
           split; [|by eauto]. intros ->. apply Hne. eapply Hone; eauto.
    + intros t' a p c [[<- [= <- <-]]|[_ H1]]%lookup_insert_Some; by eauto.
  - by split.
  - split; simpl; try done. intros a c' [_ ?]%lookup_delete_Some. by eauto.
Qed.

Lemma get_reachable_ok s : rtc get_step no_calls s → get_ok s.
Proof.
  apply rtc_preserves; [exact get_step_ok|]. split; simpl; try done.
  intros a. rewrite lookup_empty. split; [by intros []|]. intros (t & p & Hp & _). done.
Qed.

(** C32: however many goroutines ask for clients while clients close and their close
    callbacks run: at most one goroutine at a time connects to an address, the
    entry of [clientGetting] stands exactly while one does, its counter stays below
    102, and a client is stored and returned only under the address it was dialled
    with. *)
Theorem GetNodeClient_single_flight s : rtc get_step no_calls s → get_ok s.
Proof. apply get_reachable_ok. Qed.

(** *** How long the others wait *)

(** [n] waits for [addr] while one flight to it lasts. *)
Inductive waiting (addr : string) : nat → Calls → Calls → Prop :=
| wait_none s : waiting addr 0 s s
| wait_more n s1 s2 s3 :
    get_step s1 s2 → is_Some (clientGetting (shared s2) !! addr) →
    clientGetting (shared s2) !! addr = clientGetting (shared s1) !! addr →
    waiting addr n s2 s3 → waiting addr n s1 s3
| wait_sleep t dial n s1 s2 s3 sh' :
    threads s1 !! t = Some (addr, GLock) →
    GetNodeClient dial addr GLock (shared s1) = (GSleep, sh') →
    s2 = mkCalls (<[t := (addr, GSleep)]> (threads s1)) sh' →
    waiting addr n s2 s3 → waiting addr (S n) s1 s3.

Lemma waiting_count addr n s s' c :
  waiting addr n s s' → clientGetting (shared s) !! addr = Some c →
  clientGetting (shared s') !! addr = Some (c + Z.of_nat n)%Z.
Proof.
  intros Hw. revert c. induction Hw as [s|n s1 s2 s3 _ _ E _ IH|t dial n s1 s2 s3 sh' _ E -> _ IH]; intros c Hc.
  - rewrite Hc. f_equal. lia.
  - apply IH. congruence.
  - simpl in E. rewrite Hc in E. case_decide; simplify_eq/=.
    rewrite (IH (c + 1)%Z) by apply lookup_insert_eq. f_equal. lia.
Qed.

Lemma waiting_entry addr n s s' :
  waiting addr n s s' → 0 < n → is_Some (clientGetting (shared s) !! addr).
Proof.
  induction 1 as [s|n s1 s2 s3 _ _ E _ IH|t dial n s1 s2 s3 sh' _ E -> _ IH]; intros Hn; [lia| |].
  - rewrite <- E. by apply IH.
  - simpl in E. destruct (clientGetting (shared s1) !! addr); [by eexists|done].
Qed.

Lemma waiting_steps addr n s s' : waiting addr n s s' → rtc get_step s s'.
Proof.
  induction 1 as [s|n s1 s2 s3 Hs _ _ _ IH|t dial n s1 s2 s3 sh' Ht E -> _ IH]; [done|by eapply rtc_l|].
  eapply rtc_l; [|exact IH]. by eapply (step_run t addr GLock (Err "")).
Qed.

(** While one goroutine is connecting to an address, the others wait at most 101
    times in all, not each: with the counter at 101 every further one fails with
    "init not complete". *)
Theorem flight_waits_bounded addr n s s' :
  rtc get_step no_calls s → waiting addr n s s' → n ≤ 101 ∧
  (n = 101 → ∀ dial, (GetNodeClient dial addr GLock (shared s')).1 = GReturned (Err "init not complete")).
Proof.
  intros Hr Hw. pose proof (get_reachable_ok s Hr) as Hok.
  assert (get_ok s') as Hok' by (apply get_reachable_ok; etrans; [exact Hr|by eapply waiting_steps]).
  destruct n as [|n]; [split; [lia|done]|].
  destruct (waiting_entry addr (S n) s s' Hw) as [c Hc]; [lia|].
  pose proof (waiting_count _ _ _ _ _ Hw Hc) as Hc'. pose proof (go_count _ Hok _ _ Hc).
  pose proof (go_count _ Hok' _ _ Hc'). split; [lia|]. intros E dial. simpl. rewrite Hc'.
  by rewrite decide_True by lia.
Qed.
End clients.

(** ** Looking nodes up *)
Definition ErrNodeOffline : string := "this node is offline".

(** The rest of [NodeComponent] as its methods see it; [nc_getters] counts the
    goroutines [locationGetter] has started. *)
Record NodeComponent := mkNode {
  nc_AppName : string;
  nc_isOnline : bool;
  nc_islocationMode : bool;
  nc_locationClients : option (list client);
  nc_locationGetter : bool;
  nc_getters : nat }.

Definition with_locations (cs : option (list client)) (n : NodeComponent) : NodeComponent :=
  mkNode (nc_AppName n) (nc_isOnline n) (nc_islocationMode n) cs (nc_locationGetter n) (nc_getters n).

Section lookups.
(** hConfig: the application's name and the master's address. *)
Context (AppName MasterAddress : string).
(** What [GetNodeClient] answers, what a call answers, what [rand.Intn] draws. *)
Context (get_client : string → result string client).
Context (call : client → string → list string → result string (list InquiryReply)).
Context (Intn : Z → Z).
Abbreviation N := (prog NodeComponent).

(** [this.locationGetter()]: a nil function panics. *)
Definition locationGetter : N unit :=
  n ← get_state;
  if nc_locationGetter n
  then modify (λ n, mkNode (nc_AppName n) (nc_isOnline n) (nc_islocationMode n)
                      (nc_locationClients n) true (S (nc_getters n)))
  else panicking NilDereference.

Definition locationBroken : N unit := _ ← modify (with_locations None); locationGetter.

Definition InitLocationServerGetter (IsLocationMode : bool) : N unit :=
  if IsLocationMode
  then modify (λ n, mkNode (nc_AppName n) (nc_isOnline n) (nc_islocationMode n)
                      (nc_locationClients n) true (nc_getters n))
  else mret tt.

(** [Initialize]; [rpc] is what [StartRpcServer] answers. *)
Definition Initialize (IsLocationMode : bool) (rpc : option string) : N (option string) :=
  _ ← modify (λ n, mkNode AppName (nc_isOnline n) IsLocationMode (nc_locationClients n)
                     (nc_locationGetter n) (nc_getters n));
  match rpc with
  | Some err => mret (Some err)
  | None => _ ← InitLocationServerGetter IsLocationMode; _ ← locationGetter; mret None
  end.

(** [for i ... { args[2+i] = selectorType[i] }] *)
Fixpoint set_selectors (i : nat) (sel : list string) (args : list string) : N (list string) :=
  match sel with
  | [] => mret args
  | s :: sel =>
      if decide (2 + i < length args) then set_selectors (S i) sel (<[2 + i := s]> args)
      else panicking IndexOutOfRange
  end.

Definition first_node (role : string) (reply : list InquiryReply) : result string string :=
  match reply with
  | [] => Err ("no node of this role:" +:+ role)
  | r :: _ => Ok (ir_Node r)
  end.

(** A random client of the location servers. *)
Definition location_client : N (result string client) :=
  n ← get_state;
  match nc_locationClients n with
  | None => mret (Err "location server not found")
  | Some cs =>
      if decide (length cs = 0) then panicking (PanicVal "invalid argument to Intn")
      else match cs !! Z.to_nat (Intn (Z.of_nat (length cs))) with
           | Some c => mret (Ok c)
           | None => panicking IndexOutOfRange
           end
  end.

Definition GetNodeFromLocation (role : string) (sel : list string) : N (result string string) :=
  c ← location_client;
  match c with
  | Err e => mret (Err e)
  | Ok c =>
      args ← set_selectors 0 sel [AppName; role; SELECTOR_TYPE_DEFAULT; ""];
      match call c "LocationService.NodeInquiry" args with
      | Err e => _ ← locationBroken; mret (Err e)
      | Ok reply => mret (first_node role reply)
      end
  end.

Definition GetNodeGroupFromLocation (role : string) : N (result string NodeIDGroup) :=
  c ← location_client;
  match c with
  | Err e => mret (Err e)
  | Ok c =>
      match call c "LocationService.NodeInquiry" [AppName; role; SELECTOR_TYPE_GROUP] with
      | Err e => _ ← locationBroken; mret (Err e)
      | Ok reply => mret (Ok reply)
      end
  end.

Definition GetNodeFromMaster (role : string) (sel : list string) : N (result string string) :=
  n ← get_state;
  if negb (nc_isOnline n) then mret (Err ErrNodeOffline) else
  match get_client MasterAddress with
  | Err e => mret (Err e)
  | Ok c =>
      args ← set_selectors 0 sel [AppName; role; SELECTOR_TYPE_DEFAULT; ""];
      mret (match call c "MasterService.NodeInquiry" args with
            | Err e => Err e
            | Ok reply => first_node role reply
            end)
  end.

Definition GetNodeGroupFromMaster (role : string) : N (result string NodeIDGroup) :=
  n ← get_state;
  if negb (nc_isOnline n) then mret (Err ErrNodeOffline) else
  match get_client MasterAddress with
  | Err e => mret (Err e)
  | Ok c => mret (call c "MasterService.NodeInquiry" [AppName; role; SELECTOR_TYPE_GROUP])
  end.

Definition GetNode (role : string) (sel : list string) : N (result string string) :=
  n ← get_state;
  r ← (if nc_islocationMode n then GetNodeFromLocation role sel else mret (Err ""));
  match r with
  | Ok a => mret (Ok a)
  | Err _ => GetNodeFromMaster role sel
  end.

Definition GetNodeGroup (role : string) : N (result string NodeIDGroup) :=
  n ← get_state;
  r ← (if nc_islocationMode n then GetNodeGroupFromLocation role else mret (Err ""));
  match r with
  | Ok g => mret (Ok g)
  | Err _ => GetNodeGroupFromMaster role
  end.

(** NodeID.go *)
Definition NodeID_GetClient (addr : string) : result string client :=
  if decide (addr = "") then Err "this node id is empty" else get_client addr.

Definition GetNodeClientByRole (role : string) (sel : list string) : N (result string client) :=
  r ← GetNode role sel;
  mret (match r with Err e => Err e | Ok a => NodeID_GetClient a end).

Definition node_client (r : outcome (result string string)) : outcome (result string client) :=
  r ← r; Ret (match r with Err e => Err e | Ok a => get_client a end).
Definition RandClient (this : NodeIDGroup) : outcome (result string client) :=
  node_client (RandOne (λ _, Intn (Z.of_nat (length this))) this).
Definition MinLoadClient (this : NodeIDGroup) : outcome (result string client) :=
  node_client (MinLoadNode this).

Definition Clients_of (this : NodeIDGroup) : result string (list client) :=
  match omap (λ r, match get_client (ir_Node r) with Ok c => Some c | Err _ => None end) this with
  | [] => Err "this node id group is empty"
  | cs => Ok cs
  end.

(** One turn of the loop in the location getter: [None] is another turn after a
    second, [Some] ends it. *)
Definition getter_turn : N (option (list client)) :=
  n ← get_state;
  if negb (nc_isOnline n) then mret None else
  g ← GetNodeGroupFromMaster "location";
  match g with
  | Err _ => mret None
  | Ok g =>
      if decide (length (Nodes g) = 0) then mret None else
      match Clients_of g with
      | Err _ => mret None
      | Ok cs => _ ← modify (with_locations (Some cs)); mret (Some cs)
      end
  end.
End lookups.

(** ** A lookup against the master *)
Section against_master.
Context `{BalancerLaws B}.
Abbreviation Mst := (MasterComponent B).
Context (AppName MasterAddress : string).
Context (get_client : string → result string client).
Context (call : client → string → list string → result string (list InquiryReply)).
Context (Intn : Z → Z).

(** What a call answers: the handler's reply, or its error, or a broken connection
    when the handler brings the process down. *)
Definition service_answer (r : outcome (SourceGroup * option string)) : result string (list InquiryReply) :=
  match r with
  | Ret (reply, None) => Ok reply
  | Ret (_, Some e) => Err e
  | _ => Err "connection is shut down"
  end.
(** What the master's node answers to [MasterService.NodeInquiry]. *)
Definition master_answer (draw : nat → Z) (fuel : nat) (nodes : list (string * NodeInfo))
    (m : Mst) (args : list string) : result string (list InquiryReply) :=
  service_answer (Master_NodeInquiry draw fuel nodes args false m).2.

(** Whether the location servers leave the question to the master, and what the node
    is then: one that answers an error is forgotten, and looked for again. *)
Definition location_unavailable (role : string) (n n' : NodeComponent) : Prop :=
  (nc_islocationMode n = false ∨ nc_locationClients n = None) ∧ n' = n ∨
  ∃ cs c e, nc_islocationMode n = true ∧ nc_locationClients n = Some cs ∧
    nc_locationGetter n = true ∧
    cs !! Z.to_nat (Intn (Z.of_nat (length cs))) = Some c ∧
    call c "LocationService.NodeInquiry" [AppName; role; SELECTOR_TYPE_GROUP] = Err e ∧
    n' = mkNode (nc_AppName n) (nc_isOnline n) (nc_islocationMode n) None true (S (nc_getters n)).

Lemma GetNodeGroup_to_master role n n' :
  location_unavailable role n n' →
  GetNodeGroup AppName MasterAddress get_client call Intn role n =
    GetNodeGroupFromMaster AppName MasterAddress get_client call role n'.
Proof.
  unfold GetNodeGroup. rewrite (bind_Ret _ _ n n n) by done. intros [[Hno ->]|Hloc].
  - destruct (nc_islocationMode n) eqn:E; [|by rewrite (bind_Ret _ _ n n (Err ""))].
    destruct Hno as [?|Hno]; [done|].
    rewrite (bind_Ret _ _ n n (Err "location server not found")); [done|].
    unfold GetNodeGroupFromLocation.
    rewrite (bind_Ret _ _ n n (Err "location server not found")); [done|].
    unfold location_client. rewrite (bind_Ret _ _ n n n) by done. by rewrite Hno.
  - destruct Hloc as (cs & c & e & E & Hcs & Hg & Hc & He & ->). rewrite E.
    set (n1 := mkNode _ _ _ _ _ _). rewrite (bind_Ret _ _ n n1 (Err e)); [done|].
    unfold GetNodeGroupFromLocation. rewrite (bind_Ret _ _ n n (Ok c)).
    + rewrite He. unfold locationBroken, locationGetter, modify, get_state, with_locations,
        mbind, prog_bind, mret, prog_ret. simpl. by rewrite Hg, E.
    + unfold location_client. rewrite (bind_Ret _ _ n n n) by done. rewrite Hcs.
      destruct (decide (length cs = 0)) as [Hz|_]; [|by rewrite Hc].
      apply length_zero_iff_nil in Hz as ->. done.
Qed.

Lemma collect_nodes nodes role : ir_Node <$> collect nodes AppName role false =
  (filter (λ n, matches AppName role n.2 = true) nodes).*1.
Proof.
  induction nodes as [|n nodes IH]; [done|]. simpl. rewrite filter_cons.
  destruct (matches AppName role n.2) eqn:E.
  - rewrite decide_True by done. simpl. f_equal. exact IH.
  - by rewrite decide_False by done.
Qed.

Lemma matches_spec role info :
  matches AppName role info = true ↔ ni_AppName info = AppName ∧ role ∈ ni_Role info.
Proof. unfold matches. rewrite andb_true_iff, !bool_decide_eq_true. done. Qed.

(** The answer for a group, of whoever knows [table]: its nodes of the role, or an error. *)
Definition lists_group (table : gmap string NodeInfo) (role : string) (r : result string (list InquiryReply)) : Prop :=
  match r with
  | Ok g => g ≠ [] ∧ NoDup (ir_Node <$> g) ∧
      ∀ addr, addr ∈ ir_Node <$> g ↔
        ∃ info, table !! addr = Some info ∧ ni_AppName info = AppName ∧ role ∈ ni_Role info
  | Err e => e = no_available_node ∧
      ∀ addr info, table !! addr = Some info → ni_AppName info = AppName → role ∉ ni_Role info
  end.

Lemma group_answered draw fuel nodes table role (b : B) :
  nodes ≡ₚ map_to_list table →
  lists_group table role (service_answer
    (DoQuery draw fuel nodes [AppName; role; SELECTOR_TYPE_GROUP] false [] b).2).
Proof.
  intros Hn.
  assert (∀ addr, addr ∈ ir_Node <$> collect nodes AppName role false ↔
    ∃ info, table !! addr = Some info ∧ ni_AppName info = AppName ∧ role ∈ ni_Role info) as Hin.
  { intros addr. rewrite collect_nodes, list_elem_of_fmap. split.
    - intros ([a info] & -> & [Hm Hi]%list_elem_of_filter). rewrite Hn, elem_of_map_to_list in Hi.
      exists info. simpl in *. split; [done|by apply matches_spec].
    - intros (info & Hi & Hm%matches_spec). exists (addr, info). split; [done|].
      apply list_elem_of_filter. split; [done|]. by rewrite Hn, elem_of_map_to_list. }
  assert (service_answer (DoQuery draw fuel nodes [AppName; role; SELECTOR_TYPE_GROUP] false [] b).2 =
    match collect nodes AppName role false with
    | [] => Err no_available_node | l => Ok l end) as ->.
  { unfold DoQuery. simpl. by destruct (collect nodes AppName role false). }
  destruct (collect nodes AppName role false) as [|x l] eqn:E.
  - split; [done|]. intros addr info Hi Ha Hr. assert (addr ∈ []) as Hx; [|by apply elem_of_nil in Hx].
    apply Hin. eauto.
  - split_and!; [done| |exact Hin]. rewrite <- E, collect_nodes.
    apply sublist_NoDup with nodes.*1.
    + rewrite Hn. apply NoDup_fst_map_to_list.
    + apply fmap_sublist, sublist_filter.
Qed.
Lemma master_answer_group draw fuel nodes (m : Mst) role :
  nodes ≡ₚ map_to_list (mc_Nodes m) →
  lists_group (mc_Nodes m) role (master_answer draw fuel nodes m [AppName; role; SELECTOR_TYPE_GROUP]).
Proof.
  intros Hn. unfold master_answer, Master_NodeInquiry.
  pose proof (group_answered draw fuel nodes _ role (mc_lb m) Hn) as Hg.
  by destruct (DoQuery _ _ _ _ _ _ _).
Qed.

(** A node that is connected and can reach the master, and whose location servers
    leave the question to it, gets for a role exactly the addresses the master has
    registered for this application and role, each once, and an error exactly when
    there is none; a location server that answered an error has been dropped and is
    looked for again. *)
Theorem GetNodeGroup_lists_role draw fuel nodes (m : Mst) role n n' c :
  nodes ≡ₚ map_to_list (mc_Nodes m) →
  (∀ args, call c "MasterService.NodeInquiry" args = master_answer draw fuel nodes m args) →
  get_client MasterAddress = Ok c → nc_isOnline n' = true →
  location_unavailable role n n' →
  ∃ r, GetNodeGroup AppName MasterAddress get_client call Intn role n = (n', Ret r) ∧
    lists_group (mc_Nodes m) role r.
Proof.
  intros Hn Hcall Hcl Hon Hloc. rewrite (GetNodeGroup_to_master _ _ _ Hloc).
  unfold GetNodeGroupFromMaster. rewrite (bind_Ret _ _ n' n' n') by done. rewrite Hon, Hcl. simpl.
  rewrite Hcall. pose proof (master_answer_group draw fuel nodes m role Hn) as Ha.
  destruct (master_answer _ _ _ _ _) as [g|e]; eexists; (split; [done|]); [|destruct Ha as [-> ?]]; done.
Qed.
End against_master.

(** ** Witnesses *)
Definition two_callers : Calls :=
  mkCalls {[1%positive := ("10.0.0.1", GConnect); 2%positive := ("10.0.0.1", GLock)]}
    (mkClients ∅ {["10.0.0.1" := 0%Z]} ∅).

Lemma two_callers_reached (ca : client → string) : rtc (get_step ca) no_calls two_callers.
Proof.
  eapply rtc_l; [apply (step_call _ 1); reflexivity|].
  eapply rtc_l; [apply (step_run _ 1 "10.0.0.1" GLoad (Err "")); [reflexivity|done|reflexivity]|].
  eapply rtc_l; [apply (step_call _ 2 "10.0.0.1"); reflexivity|].
  eapply rtc_l; [apply (step_run _ 2 "10.0.0.1" GLoad (Err "")); [reflexivity|done|reflexivity]|].
  eapply rtc_l; [apply (step_run _ 1 "10.0.0.1" GLock (Err "")); [reflexivity|done|reflexivity]|].
  assert (mkCalls (<[1%positive := ("10.0.0.1", GConnect)]> (<[2%positive := ("10.0.0.1", GLock)]>
    (<[2%positive := ("10.0.0.1", GLoad)]> (<[1%positive := ("10.0.0.1", GLock)]>
    (<[1%positive := ("10.0.0.1", GLoad)]> ∅))))) (mkClients ∅ {["10.0.0.1" := 0%Z]} ∅) = two_callers)
    as <- by (vm_compute; reflexivity).
  apply rtc_refl.
Qed.

Lemma GetNodeClient_single_flight_witness :
  rtc (get_step (λ _, "10.0.0.1")) no_calls two_callers ∧ get_ok (λ _, "10.0.0.1") two_callers.
Proof.
  split; [apply two_callers_reached|].
  apply (GetNodeClient_single_flight (λ _, "10.0.0.1")), two_callers_reached.
Defined.

Lemma flight_waits_bounded_witness :
  rtc (get_step (λ _, "10.0.0.1")) no_calls two_callers ∧ 0 ≤ 101.
Proof.
  split; [apply two_callers_reached|].
  apply (flight_waits_bounded (λ _, "10.0.0.1") "10.0.0.1" 0 two_callers two_callers);
    [apply two_callers_reached|apply wait_none].
Defined.

Definition UpdateNodeInfo_time (now : Z) : NodeInfo :=
  mkNodeInfo now "10.0.0.1" ["gate"] "app" None None.

Definition online_node : NodeComponent := mkNode "app" true false None false 0.

Lemma GetNodeGroup_lists_role_witness :
  GetNodeGroup "app" "master" (λ _, Ok 1%positive)
    (λ _ _ args, master_answer (λ _, 0%Z) 1 [("10.0.0.1", UpdateNodeInfo_time 5)] master_with_gate args)
    (λ _, 0%Z) "gate" online_node = (online_node, Ret (Ok [mkReply "10.0.0.1" None None])) ∧
  "10.0.0.1" ∈ ir_Node <$> [mkReply "10.0.0.1" None None].
Proof.
  destruct (GetNodeGroup_lists_role "app" "master" (λ _, Ok 1%positive)
    (λ _ _ args, master_answer (λ _, 0%Z) 1 [("10.0.0.1", UpdateNodeInfo_time 5)] master_with_gate args)
    (λ _, 0%Z) (λ _, 0%Z) 1 [("10.0.0.1", UpdateNodeInfo_time 5)] master_with_gate "gate"
    online_node online_node 1) as (r & E & Hr).
  - vm_compute. reflexivity.
  - done.
  - done.
  - done.
  - left. split; [by left|done].
  - split; [vm_compute; reflexivity|].
    destruct r as [g|e]; [|by vm_compute in E].
    assert (g = [mkReply "10.0.0.1" None None]) as ->.
    { vm_compute in E. congruence. }
    apply Hr. exists (UpdateNodeInfo_time 5). split_and!; [reflexivity|reflexivity|by left].
Defined.
