(* ===== verification/Getters.v ===== *)
(** * hCluster: the goroutines that look for location servers

    NodeComponent.go, [InitLocationServerGetter].  A getter is started every thirty
    seconds, and whenever a location server fails; it gives up when [isGetting] is set,
    and otherwise sets it, asks the master until it has an answer, stores the clients and
    clears it.  The flag is tested under a read lock and set under a write lock later.
    What one turn of the asking gives ([getter_turn] of Node) comes with the event. *)
From S2P Require Import Prelude Node.

Section getters.
Context {C : Type}.

(** Where a getter stands. *)
Inductive getter_pc := GTest | GSetFlag | GAsking | GClear | GGone.
#[global] Instance getter_pc_eq_dec : EqDecision getter_pc.
Proof. solve_decision. Defined.

Record location_getters := mkGetters {
  isGetting : bool;
  getters : gmap positive getter_pc;
  locationClients : option (list C) }.
Definition no_getter : location_getters := mkGetters false ∅ None.

Definition at_getter (id : positive) (pc : getter_pc) (g : location_getters) : location_getters :=
  mkGetters (isGetting g) (<[id := pc]> (getters g)) (locationClients g).

Inductive getter_event :=
| GStart (id : positive)                          (* [go getter()] *)
| GBroken (id : positive)                         (* [locationBroken], which starts one *)
| GLook (id : positive)                           (* the test under the read lock *)
| GRaise (id : positive)                          (* the flag under the write lock *)
| GTurn (id : positive) (r : option (list C))     (* one turn of the loop *)
| GLower (id : positive).

Definition getter_run (e : getter_event) (g : location_getters) : option location_getters :=
  match e with
  | GStart id => match getters g !! id with None => Some (at_getter id GTest g) | Some _ => None end
  | GBroken id =>
      match getters g !! id with
      | None => Some (at_getter id GTest (mkGetters (isGetting g) (getters g) None))
      | Some _ => None
      end
  | GLook id =>
      match getters g !! id with
      | Some GTest => Some (at_getter id (if isGetting g then GGone else GSetFlag) g)
      | _ => None
      end
  | GRaise id =>
      match getters g !! id with
      | Some GSetFlag => Some (at_getter id GAsking (mkGetters true (getters g) (locationClients g)))
      | _ => None
      end
  | GTurn id r =>
      match getters g !! id with
      | Some GAsking =>
          Some match r with
               | None => g
               | Some cs => at_getter id GClear (mkGetters (isGetting g) (getters g) (Some cs))
               end
      | _ => None
      end
  | GLower id =>
      match getters g !! id with
      | Some GClear => Some (at_getter id GGone (mkGetters false (getters g) (locationClients g)))
      | _ => None
      end
  end.
Definition getter_step : relation location_getters := step_of getter_run.

(** The flag is never left behind: somebody is at work when it is set. *)
Definition working (pc : getter_pc) : Prop := pc = GAsking ∨ pc = GClear.
Definition getters_ok (g : location_getters) : Prop :=
  isGetting g = true → ∃ id pc, getters g !! id = Some pc ∧ working pc.

Lemma working_moves g id pc (lc : option (list C)) :
  getters_ok g → (∀ old, getters g !! id = Some old → working old → working pc) →
  getters_ok (mkGetters (isGetting g) (<[id := pc]> (getters g)) lc).
Proof.
  intros Hok Hpc Hf. destruct (Hok Hf) as (i & old & Hi & Hw). destruct (decide (i = id)) as [->|Hne].
  - exists id, pc. cbn [getters]. rewrite lookup_insert_eq. eauto.
  - exists i, old. cbn [getters]. by rewrite lookup_insert_ne.
Qed.
Lemma getter_step_ok g g' : getters_ok g → getter_step g g' → getters_ok g'.
Proof.
  intros Hok [e E]. destruct e as [id|id|id|id|id r|id]; simpl in E;
    destruct (getters g !! id) as [pc|] eqn:Eid; try done.
  - injection E as <-. apply (working_moves g); [done|]. intros ?. congruence.
  - injection E as <-. apply (working_moves g); [done|]. intros ?. congruence.
  - destruct pc; try done. injection E as <-. apply (working_moves g); [done|].
    intros old Ho [->| ->]; congruence.
  - destruct pc; try done. injection E as <-. intros _. exists id, GAsking. simpl. rewrite lookup_insert_eq.
    split; [done|by left].
  - destruct pc; try done. injection E as <-. destruct r as [cs|]; [|done]. apply (working_moves g); [done|].
    intros _ _ _. by right.
  - destruct pc; try done. by injection E as <-.
Qed.

(** Whatever the getters do, they do not lock each other out: when none of them is at
    work any more the flag is clear, so that the next one started looks for location
    servers, and its first answer is stored.  But there is no such thing as one getter at
    a time: two that test the flag before either sets it are both at work, with the flag
    clear as soon as the first of them ends. *)
Theorem getters_recover :
  (∀ g id g1 cs, rtc getter_step no_getter g →
     (∀ i pc, getters g !! i = Some pc → pc = GGone) → getter_run (GStart id) g = Some g1 →
     ∃ g2, runs getter_run [GLook id; GRaise id; GTurn id (Some cs)] g1 = Some g2 ∧ locationClients g2 = Some cs) ∧
  (∃ g, rtc getter_step no_getter g ∧ isGetting g = true ∧
     getters g !! 1%positive = Some GAsking ∧ getters g !! 2%positive = Some GAsking) ∧
  (∀ cs, ∃ g, rtc getter_step no_getter g ∧ isGetting g = false ∧ getters g !! 2%positive = Some GAsking ∧
     locationClients g = Some cs).
Proof.
  split_and!.
  - intros g id g1 cs Hr Hgone E. assert (getters_ok no_getter) as H0 by done.
    pose proof (rtc_preserves _ _ _ _ getter_step_ok H0 Hr) as Hok.
    assert (isGetting g = false) as Hf.
    { destruct (isGetting g) eqn:Ef; [|done]. destruct (Hok Ef) as (i & pc & Hi & Hw).
      rewrite (Hgone _ _ Hi) in Hw. by destruct Hw. }
    simpl in E. destruct (getters g !! id); [done|]. injection E as <-. simpl.
    rewrite Hf. repeat (rewrite lookup_insert_eq; simpl). by eexists.
  - exists (mkGetters true (<[2%positive := GAsking]> (<[1%positive := GAsking]> (<[2%positive := GSetFlag]>
      (<[1%positive := GSetFlag]> (<[2%positive := GTest]> {[1%positive := GTest]}))))) None).
    split; [|done]. by apply (runs_steps getter_run [GStart 1; GStart 2; GLook 1; GLook 2; GRaise 1; GRaise 2]).
  - intros cs. destruct (runs getter_run [GStart 1; GStart 2; GLook 1; GLook 2; GRaise 1; GRaise 2;
      GTurn 1 (Some cs); GLower 1] no_getter) as [g|] eqn:E; [|vm_compute in E; discriminate E].
    exists g. split; [by eapply (runs_steps getter_run)|]. vm_compute in E. injection E as <-. done.
Qed.
End getters.
Arguments location_getters C : clear implicits.
Arguments getter_event C : clear implicits.

(** A getter that stores its clients just before a location server fails: the getter that
    the failure starts finds the flag still set and gives up, and nobody looks for
    location servers until the next half minute. *)
Lemma failure_overlooked :
  ∃ g : location_getters nat, rtc getter_step no_getter g ∧ locationClients g = None ∧
    ∀ i pc, getters g !! i = Some pc → pc = GGone.
Proof.
  exists (mkGetters false {[1%positive := GGone; 2%positive := GGone]} None).
  split; [|split; [done|]].
  - apply (runs_steps getter_run [GStart 1; GLook 1; GRaise 1; GTurn 1 (Some [7]); GBroken 2; GLook 2; GLower 1]).
    vm_compute. reflexivity.
  - intros i pc Hi. cbn [getters] in Hi. apply lookup_insert_Some in Hi as [[_ <-]|[_ Hi]]; [done|].
    by apply lookup_singleton_Some in Hi as [_ <-].
Qed.
