(* ===== verification/Groups.v ===== *)
(** * hCluster: which component groups a node carries

    ComponentGroup.go: the roles of a node's configuration are completed (a node with
    a role of its own is a child of the master, a lone master is not) and each role's
    group becomes an object below the target, on top of the object tree. *)
From S2P Require Import Prelude GoList Iter EcsSystems EcsObject.

Record ComponentGroup := mkGroup { cg_Name : string; cg_content : list cid }.
(** [ComponentGroups.group]; a nil map reads like an empty one. *)
Abbreviation ComponentGroups := (gmap string ComponentGroup).

Definition AddGroup (groupName : string) (group : list cid) (this : ComponentGroups) : ComponentGroups :=
  <[groupName := mkGroup groupName group]> this.
Definition AllGroupsName (this : ComponentGroups) : gset string := dom this.

(** ** Completing the roles *)
Definition is_other (name : string) : Prop := name ≠ "master" ∧ name ≠ "child".
#[global] Instance is_other_dec name : Decision (is_other name).
Proof. unfold is_other. apply _. Defined.

(** The three flags the first loop leaves. *)
Definition role_flags (groupName : list string) : bool * bool * bool :=
  foldl (λ '(child, master, other) name,
    if decide (name = "master") then (child, true, other)
    else if decide (name = "child") then (true, master, other)
    else (child, master, true)) (false, false, false) groupName.

(** [for i, v := range groupName { if v == "child" { cut it out; break } }] *)
Fixpoint drop_child (groupName : list string) : list string :=
  match groupName with
  | [] => []
  | v :: rest => if decide (v = "child") then rest else v :: drop_child rest
  end.

Definition group_names (groupName : list string) : list string :=
  let '(child, master, other) := role_flags groupName in
  let groupName := if negb other && negb master && negb child then groupName ++ ["master"] else groupName in
  let groupName := if other && negb child then groupName ++ ["child"] else groupName in
  if negb other && master && child then drop_child groupName else groupName.

(** What the slice the caller passed holds afterwards: [append] on a prefix writes
    into the same array. *)
Definition callers_slice (groupName : list string) : list string :=
  let '(child, master, other) := role_flags groupName in
  if negb other && master && child
  then drop_child groupName ++ option_list (last groupName) else groupName.

Lemma role_flags_gen l c m o :
  foldl (λ '(child, master, other) name,
    if decide (name = "master") then (child, true, other)
    else if decide (name = "child") then (true, master, other)
    else (child, master, true)) (c, m, o) l =
  (c || bool_decide ("child" ∈ l), m || bool_decide ("master" ∈ l), o || bool_decide (Exists is_other l)).
Proof.
  revert c m o. induction l as [|n l IH]; intros c m o; simpl.
  { by rewrite !orb_false_r. }
  assert (∀ x : string, bool_decide (x ∈ n :: l) = bool_decide (x = n) || bool_decide (x ∈ l)) as Hm.
  { intros x. rewrite <- bool_decide_or. apply bool_decide_ext, elem_of_cons. }
  assert (bool_decide (Exists is_other (n :: l)) =
    bool_decide (is_other n) || bool_decide (Exists is_other l)) as Ho.
  { rewrite <- bool_decide_or. apply bool_decide_ext, Exists_cons. }
  rewrite !Hm, Ho. unfold is_other at 2.
  destruct (decide (n = "master")) as [->|Hn]; [|destruct (decide (n = "child")) as [->|Hc]];
    rewrite IH; simpl.
  - f_equal. by rewrite orb_true_r.
  - f_equal. f_equal. by rewrite orb_true_r.
  - rewrite (bool_decide_false ("child" = n)), (bool_decide_false ("master" = n)) by congruence.
    rewrite (bool_decide_true (is_other n)) by done. f_equal. by rewrite orb_true_r.
Qed.

Lemma role_flags_spec l : role_flags l =
  (bool_decide ("child" ∈ l), bool_decide ("master" ∈ l), bool_decide (Exists is_other l)).
Proof. apply role_flags_gen. Qed.

Lemma drop_child_elem l a : a ∈ l → a ≠ "child" → a ∈ drop_child l.
Proof.
  induction l as [|v l IH]; [done|]. simpl. intros [->|Ha]%elem_of_cons Hne; case_decide; try done.
  - by left.
  - right. by apply IH.
Qed.

Lemma drop_child_count l :
  "child" ∈ l → ∃ l1 l2, l = l1 ++ "child" :: l2 ∧ drop_child l = l1 ++ l2 ∧ "child" ∉ l1.
Proof.
  induction l as [|v l IH]; [by intros ?%elem_of_nil|]. simpl. intros Hin. case_decide as Hv.
  - exists [], l. subst. split_and!; [done|done|]. apply not_elem_of_nil.
  - apply elem_of_cons in Hin as [?|Hin]; [congruence|].
    destruct (IH Hin) as (l1 & l2 & -> & -> & H1). exists (v :: l1), l2. split_and!; [done|done|].
    rewrite not_elem_of_cons. by split.
Qed.

(** The completed roles hold every role that was asked for other than [child]; a
    role of one's own brings [child] with it and keeps it; no role at all makes a
    master; and roles that are only [master] and one [child] make a lone master. *)
Theorem group_names_complete l :
  (∀ r, r ∈ l → r ≠ "child" → r ∈ group_names l) ∧
  (Exists is_other l → "child" ∈ group_names l ∧ ∀ r, r ∈ group_names l → r ∈ l ∨ r = "child") ∧
  (l = [] → group_names l = ["master"]) ∧
  (¬ Exists is_other l → "master" ∈ l → "child" ∈ l →
    ∃ l1 l2, l = l1 ++ "child" :: l2 ∧ group_names l = l1 ++ l2 ∧ "child" ∉ l1).
Proof.
  unfold group_names. rewrite role_flags_spec.
  destruct (decide (Exists is_other l)) as [Ho|Ho];
    [rewrite (bool_decide_true (Exists _ _)) by done|rewrite (bool_decide_false (Exists _ _)) by done];
    destruct (decide ("child" ∈ l)) as [Hc|Hc];
    [rewrite (bool_decide_true ("child" ∈ l)) by done|rewrite (bool_decide_false ("child" ∈ l)) by done
    |rewrite (bool_decide_true ("child" ∈ l)) by done|rewrite (bool_decide_false ("child" ∈ l)) by done];
    destruct (bool_decide ("master" ∈ l)) eqn:Hm; simpl;
    try (apply bool_decide_eq_true in Hm); try (apply bool_decide_eq_false in Hm);
    split_and!; intros; try done; subst; try (by left); try (by apply Exists_nil in Ho); try set_solver.
  - by apply drop_child_elem.
  - by apply drop_child_count.
Qed.

Example callers_slice_overwritten :
  callers_slice ["child"; "master"] = ["master"; "master"] ∧ group_names ["child"; "master"] = ["master"].
Proof. done. Qed.

(** ** Attaching *)
Section attach.
Context (implements : iface → cid → bool).
Context (type_implements : rtype → rtype → bool).
Context (type_of : cid → rtype).
Context (IsUnique : cid → option Z).
Context (GetRequire : cid → option (list (oid * list rtype))).
(** What [hCommon.GetUUID] answers for the new object of a name. *)
Context (uuid : string → string).

(** [component.Type().String()] in the message that is logged. *)
Definition log_attached (o : oid) (c : cid) : W unit :=
  b ← comp c;
  match cb_typ b with
  | None => panicking NilDereference
  | Some _ => _ ← Name o; mret tt
  end.

Definition attachGroupTo (this : ComponentGroup) (target : oid) : W unit :=
  o ← NewObject (uuid (cg_Name this)) (cg_Name this);
  err ← AddObject target o;
  _ ← log_err err;
  for_each (cg_content this) (λ c,
    _ ← AddComponent implements type_implements type_of IsUnique GetRequire o c;
    log_attached o c).

Definition the_group_is_not_exist (name : string) : ecs_error :=
  NewError ("the group < " +:+ name +:+ " > is not exist").

Definition AttachGroupsTo (this : ComponentGroups) (groupName : list string) (target : oid) : W unit :=
  for_each (group_names groupName) (λ name,
    match this !! name with
    | Some g => attachGroupTo g target
    | None => hLog_Error (Some (the_group_is_not_exist name))
    end).
End attach.
