(* ===== verification/GroupsTree.v ===== *)
(** * hCluster: the tree that attaching the component groups leaves

    [AttachGroupsTo] of ComponentGroup.go on a well-formed object tree: one new child of
    the target per completed role that has a group, with the group's name and with those
    of its components that AddComponent accepts. The definitions are those of Groups; the
    lemmas on the tree those of EcsTree and EcsComponents. *)
From S2P Require Import Prelude GoList Iter EcsSystems EcsObject EcsTree EcsComponents Groups.

(** Reading under the read lock leaves nothing behind. *)
Lemma reading_pure {A} w o x (m : W A) r :
  w_objs w !! o = Some x → obj_locker x = Free →
  m (set_obj o (with_locker (Reading 1) x) w) = (set_obj o (with_locker (Reading 1) x) w, Ret r) →
  reading o m w = (w, Ret r).
Proof.
  intros Hx Hfree Hm. set (w1 := set_obj o (with_locker (Reading 1) x) w) in *.
  assert (RLock o w = (w1, Ret tt)) as HL.
  { unfold RLock. rewrite (obj_bind _ _ _ _ Hx), Hfree. apply (upd_run _ _ _ _ Hx). }
  assert (RUnlock o w1 = (w, Ret tt)) as HU.
  { unfold RUnlock, w1. rewrite (obj_bind _ _ _ _ (set_obj_lookup _ _ _)). cbn [obj_locker with_locker].
    rewrite decide_True by done. rewrite (upd_run _ _ _ _ (set_obj_lookup _ _ _)).
    rewrite set_obj_set_obj, with_locker_idem, <- Hfree, with_locker_id. by rewrite set_obj_id. }
  unfold reading. rewrite (bind_Ret _ _ _ _ _ HL). unfold recovering, mbind at 1, prog_bind. rewrite Hm.
  by rewrite (bind_Ret _ _ _ _ _ HU).
Qed.
Lemma Name_run w o x : w_objs w !! o = Some x → obj_locker x = Free → Name o w = (w, Ret (obj_name x)).
Proof.
  intros Hx Hfree. apply (reading_pure w o x); [done|done|].
  by rewrite (obj_bind _ _ _ _ (set_obj_lookup _ _ _)).
Qed.

Section attach_proofs.
Context (implements : iface → cid → bool) (type_implements : rtype → rtype → bool).
Context (type_of : cid → rtype) (IsUnique : cid → option Z).
Context (GetRequire : cid → option (list (oid * list rtype))) (uuid : string → string).
Hypothesis concrete : ∀ c, is_interface (type_of c) = false.

Abbreviation add := (AddComponent implements type_implements type_of IsUnique GetRequire).
Abbreviation typed_w := (typed_world type_of).

(** AddComponent does not accept the component. *)
Definition refuses (w : World) (o : oid) (c : cid) : Prop :=
  ∃ l, chain (view w) o l ∧ ¬ (¬ taken type_of IsUnique w o (default o (last l)) c ∧
    met type_of w (requirements GetRequire c)).
(** One that asks for nothing is always accepted. *)
Abbreviation undemanding := (undemanding IsUnique GetRequire).
Lemma undemanding_accepted w o c : undemanding c → ¬ refuses w o c.
Proof.
  intros Hc (l & _ & Hn). apply Hn.
  apply (undemanding_free type_of IsUnique GetRequire w o (default o (last l)) c Hc).
Qed.
Definition requirements_exist (w : World) (cs : list cid) : Prop :=
  Forall (λ c, exist w (requirements GetRequire c)) cs.
Lemma requirements_exist_grow w w' cs :
  dom (w_objs w) ⊆ dom (w_objs w') → requirements_exist w cs → requirements_exist w' cs.
Proof.
  intros Hd H. eapply Forall_impl; [exact H|]. intros c Hc. eapply Forall_impl; [exact Hc|].
  intros r Hr. by apply elem_of_dom, Hd, elem_of_dom.
Qed.

(** The components of [y] grow by [added]; nothing else of it that the tree knows changes. *)
Definition filled (y y' : Object) (added : list cid) : Prop :=
  obj_components y' = obj_components y ++ added ∧ obj_name y' = obj_name y ∧
  obj_parent y' = obj_parent y ∧ obj_children y' = obj_children y ∧
  ∀ r, obj_runtime y = Some r → obj_runtime y' = Some r.

(** Some component of [cs] is refused by [o], which by then holds those before it. *)
Definition refused_one (objs : gmap oid Object) (o : oid) (y : Object) (cs : list cid) : Prop :=
  ∃ pre c post w1 y1, cs = pre ++ c :: post ∧ w_objs w1 = <[o := y1]> objs ∧ filled y y1 pre ∧ refuses w1 o c.

Lemma attach_components o cs : ∀ w y,
  wf w → typed_w w → requirements_exist w cs → w_objs w !! o = Some y →
  ∃ w' y' added,
    for_each cs (λ c, _ ← add o c; log_attached o c) w = (w', Ret tt) ∧ wf w' ∧ typed_w w' ∧
    w_objs w' = <[o := y']> (w_objs w) ∧ filled y y' added ∧ added `sublist_of` cs ∧
    (added = cs ∧ w_log w' = w_log w ∨ refused_one (w_objs w) o y cs) ∧
    (∀ q, obj_runtime y = Some q → w_rts w' = shown implements (Some q) added (w_rts w)).
Proof.
  induction cs as [|c cs IH]; intros w y Hw Ht Hex Hy.
  - exists w, y, []. unfold filled. rewrite app_nil_r. rewrite insert_id by done.
    split_and!; try done; [by left|]. intros q _. by rewrite shown_nil.
  - apply Forall_cons in Hex as [Hc Hex].
    destruct (AddComponent_store implements type_implements type_of IsUnique GetRequire concrete w o y c Hw Ht Hc Hy)
      as (w1 & l & a1 & E1 & Hl & Ho1 & Hc1 & Ha1 & Hb1 & Hlog & Hrts).
    pose proof (typed_AddComponent implements type_implements type_of IsUnique GetRequire concrete w o y c w1
      Hw Ht Hc Hy E1) as Ht1.
    pose proof (ends_AddComponent implements type_implements type_of IsUnique GetRequire o c w Hw) as Hw1.
    unfold ends_wf, wp in Hw1. rewrite E1 in Hw1.
    set (y1 := with_components _ _) in Ho1.
    assert (w_objs w1 !! o = Some y1) as Hy1 by (by rewrite Ho1, lookup_insert_eq).
    assert (∀ r, obj_runtime y = Some r → obj_runtime y1 = Some r) as Hrt
      by (intros r Hr; simpl; by rewrite (first_runtime_cons _ _ _ _ Hy), Hr).
    assert (log_attached o c w1 = (w1, Ret tt)) as El.
    { unfold log_attached.
      assert (∀ b, w_comps w1 !! c = Some b → comp c w1 = (w1, Ret b)) as Hcomp by (intros b Hb; unfold comp; by rewrite Hb).
      rewrite Hc1 in Hcomp. specialize (Hcomp _ (lookup_insert_eq _ _ _)). rewrite (bind_Ret _ _ _ _ _ Hcomp). simpl.
      by rewrite (bind_Ret _ _ _ _ _ (Name_run w1 o y1 Hy1 (wf_free _ _ _ Hw1 Hy1))). }
    assert (requirements_exist w1 cs) as Hex1.
    { eapply requirements_exist_grow; [|exact Hex]. rewrite Ho1, dom_insert_L. set_solver. }
    destruct (IH w1 y1 Hw1 Ht1 Hex1 Hy1) as (w' & y' & added & E & Hw' & Ht' & Ho' & (F1 & F2 & F3 & F4 & F5) & Hsub & Hall & Hshown).
    exists w', y', (a1 ++ added). split_and!; [|done|done|by rewrite Ho', Ho1, insert_insert_eq| | | |].
    + simpl. rewrite bind_assoc. rewrite (bind_Ret _ _ _ _ _ E1). by rewrite (bind_Ret _ _ _ _ _ El).
    + unfold filled. rewrite F1, F2, F3, F4. simpl. rewrite <- app_assoc. split_and!; try done. auto.
    + destruct Ha1 as [->| ->]; [by apply sublist_cons|by apply sublist_skip].
    + destruct Ha1 as [->|Ea1].
      * right. exists [], c, cs, w, y. split_and!; [done|by rewrite insert_id|by unfold filled; rewrite app_nil_r|].
        exists l. split; [done|]. intros Hn. discriminate (proj2 Hb1 Hn).
      * destruct Hall as [[-> Hlog']|(pre & d & post & w2 & y2 & -> & Hw2 & (G1 & G2 & G3 & G4 & G5) & Hd)].
        -- left. by rewrite Ea1, Hlog', (Hlog Ea1).
        -- right. exists (c :: pre), d, post, w2, y2. split_and!; [done| | |done].
           ++ by rewrite Hw2, Ho1, insert_insert_eq.
           ++ split_and!; [by rewrite G1; unfold y1; simpl; rewrite Ea1, <- app_assoc|done..|auto].
    + intros q Hq. rewrite (Hshown q (Hrt q Hq)), Hrts, shown_app. by rewrite (first_runtime_cons _ _ _ _ Hy), Hq.
Qed.

(** A new object that stands for a group; it has all of the group's components, or one of
    them was refused. *)
Definition stands_for (w : World) (target : oid) (o : oid) (g : ComponentGroup) : Prop :=
  ∃ y, w_objs w !! o = Some y ∧ obj_name y = cg_Name g ∧ obj_parent y = Some target ∧ obj_children y = [] ∧
    obj_components y `sublist_of` cg_content g ∧
    (Forall undemanding (cg_content g) → obj_components y = cg_content g).

Lemma chain_fresh w o y z l :
  w_objs w !! o = None → chain (view w) z l → chain (view (set_obj o y w)) z l ∧ o ∉ l.
Proof.
  intros Ho Hl. assert (view w !! o = None) as Hv by (unfold view; by rewrite lookup_fmap, Ho). split.
  - revert Hl. apply chain_parents. intros p m Hp. rewrite view_set_obj, lookup_insert_ne by congruence. eauto.
  - intros Hin. assert (is_Some (view w !! o)) as [? ?]; [|congruence].
    eapply chain_elem_lookup; [exact Hl|]. by right.
Qed.

(** [NewObject] and [AddObject] together. *)
Lemma attach_new u name target w x :
  wf w → typed_w w → w_objs w !! target = Some x →
  ∃ w1 w2 o y, NewObject u name w = (w1, Ret o) ∧ AddObject target o w1 = (w2, Ret None) ∧ wf w2 ∧ typed_w w2 ∧
    w_objs w !! o = None ∧ w_objs w2 = <[o := y]> (<[target := with_children (obj_children x ++ [o]) x]> (w_objs w)) ∧
    w_log w2 = w_log w ∧ obj_name y = name ∧ obj_parent y = Some target ∧ obj_children y = [] ∧ obj_components y = [] ∧
    obj_runtime y = obj_runtime x ∧ w_rts w2 = w_rts w.
Proof.
  intros Hw Ht Hx. set (o := fresh (dom (w_objs w))). set (y0 := mkObject u name None [] [] None Free).
  assert (w_objs w !! o = None) as Ho by (apply not_elem_of_dom, is_fresh).
  assert (target ≠ o) as Hne by congruence.
  set (w1 := set_obj o y0 w). assert (wf w1) as Hw1 by by apply wf_fresh.
  assert (w_objs w1 !! o = Some y0) as Hy by apply set_obj_lookup.
  assert (w_objs w1 !! target = Some x) as Hx1 by (unfold w1; by rewrite set_obj_lookup_ne).
  pose proof Hw as [[Hs _] _]. destruct (sh_chain _ Hs target _ (view_obj _ _ _ Hx)) as [lt Hlt0].
  destruct (chain_fresh w o y0 target lt Ho Hlt0) as [Hlt Hnin].
  set (y := with_runtime (obj_runtime x) (with_parent (Some target) y0)).
  exists w1, (attached target o x y0 w1), o, y. split_and!; [done| | | |done| |done..].
  - unfold AddObject. rewrite (bind_Ret _ _ _ _ _ (Parent_eq _ _ _ Hy)). rewrite decide_False by by intros [].
    by apply (AddObject_attach w1 target o x y0 lt Hx1 (wf_free _ _ _ Hw1 Hx1) Hy Hlt).
  - by apply (wf_attached type_implements type_of IsUnique GetRequire w1 target o x y0 lt).
  - unfold attached. apply (typed_set_obj _ _ target x); [|by rewrite set_obj_lookup_ne|done].
    apply (typed_set_obj _ _ o y0); [|done..].
    intros p z d Hz Hd. apply set_obj_Some in Hz as [[<- <-]|[_ Hz]]; [by apply elem_of_nil in Hd|by apply (Ht p z)].
  - unfold attached, w1. simpl. rewrite insert_insert_eq. by rewrite insert_insert_ne.
Qed.

Lemma attach_group g target w x :
  wf w → typed_w w → requirements_exist w (cg_content g) → w_objs w !! target = Some x →
  ∃ w' o y, attachGroupTo implements type_implements type_of IsUnique GetRequire uuid g target w = (w', Ret tt) ∧
    wf w' ∧ typed_w w' ∧ w_objs w !! o = None ∧
    let objs := <[target := with_children (obj_children x ++ [o]) x]> (w_objs w) in
    w_objs w' = <[o := y]> objs ∧
    obj_name y = cg_Name g ∧ obj_parent y = Some target ∧ obj_children y = [] ∧
    obj_components y `sublist_of` cg_content g ∧ (∀ r, obj_runtime x = Some r → obj_runtime y = Some r) ∧
    (obj_components y = cg_content g ∧ w_log w' = w_log w ∨
     ∃ y0, obj_components y0 = [] ∧ obj_parent y0 = Some target ∧ refused_one (<[o := y0]> objs) o y0 (cg_content g)) ∧
    (∀ q, obj_runtime x = Some q → w_rts w' = shown implements (Some q) (obj_components y) (w_rts w)).
Proof.
  intros Hw Ht Hex Hx.
  destruct (attach_new (uuid (cg_Name g)) (cg_Name g) target w x Hw Ht Hx)
    as (w1 & w2 & o & y & E1 & E2 & Hw2 & Ht2 & Ho & Ew2 & El2 & G1 & G2 & G3 & G4 & G6 & G7).
  assert (w_objs w2 !! o = Some y) as Hy2 by (by rewrite Ew2, lookup_insert_eq).
  assert (requirements_exist w2 (cg_content g)) as Hex2.
  { eapply requirements_exist_grow; [|exact Hex]. rewrite Ew2, !dom_insert_L. set_solver. }
  destruct (attach_components o (cg_content g) w2 y Hw2 Ht2 Hex2 Hy2)
    as (w' & y' & added & E & Hw' & Ht' & Ho' & (F1 & F2 & F3 & F4 & F5) & Hsub & Hall & Hshown).
  exists w', o, y'. rewrite F1, F2, F3, F4, G4. simpl.
  split_and!; [|done|done|done|by rewrite Ho', Ew2, insert_insert_eq|done..|by rewrite <- G6| |].
  - unfold attachGroupTo. rewrite (bind_Ret _ _ _ _ _ E1), (bind_Ret _ _ _ _ _ E2).
    by rewrite (bind_Ret _ _ w2 w2 tt).
  - destruct Hall as [[-> Hlog]|Href]; [left; by rewrite Hlog, El2|right].
    exists y. split; [done|]. split; [done|]. by rewrite <- Ew2.
  - intros q Hq. rewrite <- G7. apply Hshown. by rewrite G6.
Qed.

Lemma refused_demanding objs o y cs : Forall undemanding cs → ¬ refused_one objs o y cs.
Proof.
  intros Hund (pre & c & post & w1 & y1 & -> & _ & _ & Href).
  apply Forall_app in Hund as [_ [Hc _]%Forall_cons]. by eapply undemanding_accepted.
Qed.

(** The objects of the groups that exist, in the order of the roles. *)
Lemma attach_each (groups : ComponentGroups) target names : ∀ w x,
  wf w → typed_w w → (∀ n g, groups !! n = Some g → requirements_exist w (cg_content g)) →
  w_objs w !! target = Some x →
  ∃ w' os,
    for_each names (λ name, match groups !! name with
      | Some g => attachGroupTo implements type_implements type_of IsUnique GetRequire uuid g target
      | None => hLog_Error (Some (the_group_is_not_exist name)) end) w = (w', Ret tt) ∧ wf w' ∧
    w_objs w' !! target = Some (with_children (obj_children x ++ os) x) ∧
    (∀ p, p ≠ target → p ∉ os → w_objs w' !! p = w_objs w !! p) ∧
    Forall (λ o, w_objs w !! o = None) os ∧ Forall2 (stands_for w' target) os (omap (groups !!.) names).
Proof.
  induction names as [|n names IH]; intros w x Hw Ht Hex Hx.
  - exists w, []. rewrite app_nil_r. split_and!; [done|done| |done|done|constructor]. rewrite Hx. by destruct x.
  - cbn [for_each omap list_omap]. destruct (groups !! n) as [g|] eqn:Eg.
    + destruct (attach_group g target w x Hw Ht (Hex n g Eg) Hx) as (w1 & o & y & E1 & Hw1 & Ht1 & Ho & Ew1 & G1 & G2 & G3 & G4 & _ & G5 & _).
      assert (target ≠ o) as Hne by congruence.
      assert (w_objs w1 !! target = Some (with_children (obj_children x ++ [o]) x)) as Hx1
        by (by rewrite Ew1, lookup_insert_ne, lookup_insert_eq).
      assert (dom (w_objs w) ⊆ dom (w_objs w1)) as Hd by (rewrite Ew1, !dom_insert_L; set_solver).
      destruct (IH w1 _ Hw1 Ht1 (λ n g Hn, requirements_exist_grow _ _ _ Hd (Hex n g Hn)) Hx1)
        as (w' & os & E & Hw' & Hx' & Hold & Hnew & Hall).
      assert (o ∉ os) as Hnin.
      { intros Hin. rewrite Forall_forall in Hnew. specialize (Hnew o Hin). by rewrite Ew1, lookup_insert_eq in Hnew. }
      exists w', (o :: os). split_and!; [by rewrite (bind_Ret _ _ _ _ _ E1)|done| | | |].
      * rewrite Hx'. simpl. by rewrite <- app_assoc.
      * intros p Hp Hpo. rewrite Hold by set_solver. rewrite Ew1, !lookup_insert_ne by set_solver. done.
      * constructor; [done|]. eapply Forall_impl; [exact Hnew|]. intros p Hp. apply not_elem_of_dom.
        intros Hin%Hd%elem_of_dom. rewrite Hp in Hin. by destruct Hin.
      * constructor; [|done]. exists y. rewrite (Hold o (not_eq_sym Hne) Hnin), Ew1, lookup_insert_eq.
        split_and!; try done. intros Hund. destruct G5 as [[? _]|(y0 & _ & _ & Href)]; [done|].
        by destruct (refused_demanding _ _ _ _ Hund Href).
    + rewrite (bind_Ret _ _ w (logged (the_group_is_not_exist n) w) tt) by done.
      apply (IH (logged (the_group_is_not_exist n) w) x); try done.
Qed.

(** [AttachGroupsTo] comes to an end and leaves a well-formed tree in which only the
    target has changed: it has one more child for every completed role that has a group,
    in that order, new objects with the group's name, without children, and with the
    components of the group that AddComponent accepted, which are all of them when they
    ask for nothing. *)
Theorem AttachGroupsTo_tree (groups : ComponentGroups) names target w x :
  wf w → typed_w w → (∀ n g, groups !! n = Some g → requirements_exist w (cg_content g)) →
  w_objs w !! target = Some x →
  ∃ w' os, AttachGroupsTo implements type_implements type_of IsUnique GetRequire uuid groups names target w =
      (w', Ret tt) ∧ wf w' ∧
    w_objs w' !! target = Some (with_children (obj_children x ++ os) x) ∧
    (∀ p, p ≠ target → p ∉ os → w_objs w' !! p = w_objs w !! p) ∧
    Forall (λ o, w_objs w !! o = None) os ∧
    Forall2 (stands_for w' target) os (omap (groups !!.) (group_names names)).
Proof. apply attach_each. Qed.
End attach_proofs.

(** ** Two groups below the root *)
Definition server_groups : ComponentGroups :=
  AddGroup "gate" [7%positive; 8%positive] (AddGroup "child" [9%positive] ∅).

Lemma AttachGroupsTo_tree_witness :
  ∃ w' os, AttachGroupsTo Example.implements Example.type_implements Example.type_of Example.IsUnique
      Example.GetRequire (λ n, n) server_groups ["gate"; "lobby"] 1%positive Example.tree = (w', Ret tt) ∧
    obj_children <$> (w_objs w' !! 1%positive) = Some ([2%positive] ++ os) ∧
    (λ o, obj_components <$> (w_objs w' !! o)) <$> os = [Some [7%positive; 8%positive]; Some [9%positive]].
Proof.
  destruct (AttachGroupsTo_tree Example.implements Example.type_implements Example.type_of Example.IsUnique
    Example.GetRequire (λ n, n) Example_concrete server_groups ["gate"; "lobby"] 1%positive Example.tree Example.root
    Example.tree_wf Example_typed) as (w' & os & E & _ & Hx & _ & _ & Hos).
  - intros n g Hg. apply Forall_forall. intros c _. constructor.
  - exact Example.tree_root.
  - exists w', os. split; [exact E|]. rewrite Hx. split; [done|].
    change (omap _ _) with [mkGroup "gate" [7%positive; 8%positive]; mkGroup "child" [9%positive]] in Hos.
    assert (∀ o g, stands_for Example.IsUnique Example.GetRequire w' 1%positive o g →
      obj_components <$> (w_objs w' !! o) = Some (cg_content g)) as Hall.
    { intros o g (y & Hy & _ & _ & _ & _ & Hc). rewrite Hy. simpl. f_equal. apply Hc, Forall_forall. by split. }
    inversion Hos as [|o1 g1 os1 gs1 H1 Hos1]; subst. inversion Hos1 as [|o2 g2 os2 gs2 H2 Hos2]; subst.
    inversion Hos2; subst. simpl. by rewrite (Hall _ _ H1), (Hall _ _ H2).
Defined.
