(* ===== verification/Launcher.v ===== *)
(** * hBaseComponent: the launcher

    LauncherComponent.go up to the point where the node serves: overriding the
    configuration of the node, the component groups and the roles that [Serve] hands to
    [AttachGroupsTo], and the connection to the master. *)
From Stdlib Require Import Ascii.
From S2P Require Import Prelude GoString GoList Iter EcsSystems EcsObject Master Groups Config.

Definition ErrServerNotInit : panic := PanicVal "server is not initialize".

(** hCommon [Contains] on a slice of strings. *)
Definition Contains (arr : list string) (ele : string) : bool := bool_decide (ele ∈ arr).

Section launcher.
(** A connection to a node. *)
Context {K : Type}.

(** [ln_groups] is nil until [Initialize] has run. *)
Record LauncherComponent := mkLauncher {
  ln_Config : option ClusterConfig;
  ln_groups : option ComponentGroups;
  ln_master : option K }.

Definition set_Config c (l : LauncherComponent) := mkLauncher c (ln_groups l) (ln_master l).

(** The configuration behind the pointer, or the panic of a launcher that has none. *)
Definition the_config : prog LauncherComponent ClusterConfig :=
  l ← get_state; match ln_Config l with Some c => mret c | None => panicking ErrServerNotInit end.

Definition OverrideNodeDefine (nodeConfName : string) : prog LauncherComponent unit :=
  c ← the_config;
  match NodeDefine c !! nodeConfName with
  | None => panicking (PanicVal ("this config name [ " +:+ nodeConfName +:+ " ] not defined"))
  | Some s =>
      let '(listen, alias) :=
        (if decide (na_Alias (nd_NetAddr s) ≠ "") then (na_Addr (nd_NetAddr s), na_Alias (nd_NetAddr s))
         else if decide (na_Addr (nd_NetAddr s) ≠ "")
         then (na_Addr (nd_NetAddr s), "ws://" +:+ na_Addr (nd_NetAddr s) +:+ "/ws")
         else (NetListenAddress c, NetListenAddressAlias c)) in
      modify (set_Config (Some (mkCluster (nd_WorkId s) (MasterAddress c) (nd_LocalAddress s) (AppName c) nodeConfName
        (nd_Role s) (NodeDefine c) (ReportInterval c) (RpcTimeout c) (RpcCallTimeout c) (RpcHeartBeatInterval c)
        (IsLocationMode c) (LocationSyncInterval c) (NetConnTimeout c) listen alias (SelectNetListenAddress c))))
  end.

Definition with_local_address a c :=
  mkCluster (WorkId c) (MasterAddress c) a (AppName c) (WorkName c) (Role c) (NodeDefine c) (ReportInterval c)
    (RpcTimeout c) (RpcCallTimeout c) (RpcHeartBeatInterval c) (IsLocationMode c) (LocationSyncInterval c)
    (NetConnTimeout c) (NetListenAddress c) (NetListenAddressAlias c) (SelectNetListenAddress c).
Definition with_role r c :=
  mkCluster (WorkId c) (MasterAddress c) (LocalAddress c) (AppName c) (WorkName c) r (NodeDefine c) (ReportInterval c)
    (RpcTimeout c) (RpcCallTimeout c) (RpcHeartBeatInterval c) (IsLocationMode c) (LocationSyncInterval c)
    (NetConnTimeout c) (NetListenAddress c) (NetListenAddressAlias c) (SelectNetListenAddress c).

(** [strings.Split(LocalAddress, ":")[0]] *)
Definition OverrideNodePort (port : string) : prog LauncherComponent unit :=
  c ← the_config;
  match Split ":" (LocalAddress c) with
  | [] => panicking IndexOutOfRange
  | ip :: _ => modify (set_Config (Some (with_local_address (ip +:+ ":" +:+ port) c)))
  end.
Definition OverrideNodeRoles (roles : list string) : prog LauncherComponent unit :=
  c ← the_config; modify (set_Config (Some (with_role roles c))).

Definition AddComponentGroup (groupName : string) (group : list cid) : prog LauncherComponent unit :=
  _ ← the_config;
  l ← get_state;
  match ln_groups l with
  | None => panicking NilDereference
  | Some g => modify (λ l, mkLauncher (ln_Config l) (Some (AddGroup groupName group g)) (ln_master l))
  end.
(** In the order in which [range] gives the groups. *)
Definition AddComponentGroups (groups : list (string * list cid)) : prog LauncherComponent unit :=
  _ ← the_config; for_each groups (λ '(n, g), AddComponentGroup n g).

(** The part of [Initialize] that concerns the launcher itself. *)
Definition Launcher_Initialize (c : ClusterConfig) : prog LauncherComponent unit :=
  modify (λ l, mkLauncher (Some c) (Some ∅) (ln_master l)).

(** [GetMasterClient]: the connection is kept once there is one. *)
Definition GetMasterClient (connect : string → result string K) (masterAddress : string)
    : prog LauncherComponent (result string K) :=
  l ← get_state;
  match ln_master l with
  | Some k => mret (Ok k)
  | None =>
      match connect masterAddress with
      | Err e => mret (Err e)
      | Ok k => _ ← modify (λ l, mkLauncher (ln_Config l) (ln_groups l) (Some k)); mret (Ok k)
      end
  end.

(** [CheckNodeStatus]: a node that waits to be closed by the process manager stays
    here until somebody sends on [Close]. *)
Definition CheckNodeStatus (connect : string → result string K) (masterAddress : string)
    (call : K → string) (closed : bool) : prog LauncherComponent unit :=
  r ← GetMasterClient connect masterAddress;
  match r with
  | Err _ => mret tt
  | Ok client =>
      if decide (call client = NODE_STAUTE_WAITPM2CLOSE)
      then (if closed then mret tt else stuck) else mret tt
  end.
End launcher.
Arguments LauncherComponent K : clear implicits.

(** ** The groups and roles of [Serve] *)
Section serve.
Context (master child location modle : cid).

Definition is_single (c : ClusterConfig) : bool :=
  match Role c with [] => true | r :: _ => bool_decide (r = "single") end.

(** The groups before the roles are known. *)
Definition base_groups (c : ClusterConfig) (g : ComponentGroups) : ComponentGroups :=
  let g := AddGroup "child" [child] (AddGroup "master" [master] g) in
  if IsLocationMode c && bool_decide (0 < length (Role c)) && negb (is_single c)
  then AddGroup "location" [location] g else g.

(** The roles, and the groups they are attached from; [order] is the order in which
    [AllGroupsName] lists the groups. *)
Definition serve_roles (order : list string) (c : ClusterConfig) (g : ComponentGroups)
    : list string * ComponentGroups :=
  let g := base_groups c g in
  let roles := if is_single c then order ++ ["modle"] else Role c in
  (roles, if Contains roles "modle" then AddGroup "modle" [modle] g else g).

Lemma AddGroup_is_Some n l g r : is_Some (AddGroup n l g !! r) ↔ r = n ∨ is_Some (g !! r).
Proof. unfold AddGroup. rewrite lookup_insert_is_Some'. naive_solver. Qed.

Lemma group_names_single roles :
  "modle" ∈ roles → "child" ∈ roles → group_names roles = roles.
Proof.
  intros Hm Hc. unfold group_names. rewrite role_flags_spec.
  rewrite (bool_decide_true (Exists is_other roles)) by (apply Exists_exists; by exists "modle").
  rewrite (bool_decide_true ("child" ∈ roles)) by done. done.
Qed.

(** A node in single mode carries every group: each role it attaches has its group,
    and each group, the application's, master, child and the database's, is attached.
    Otherwise a role has its group when it is the application's, or one of master,
    child, modle, or location in location mode, and only then. *)
Theorem roles_have_groups order c g :
  (∀ n, n ∈ order ↔ n ∈ AllGroupsName (base_groups c g)) →
  let '(roles, groups) := serve_roles order c g in
  (is_single c = true →
     (∀ r, r ∈ group_names roles ↔ is_Some (groups !! r)) ∧
     (∀ r, is_Some (g !! r) ∨ r = "master" ∨ r = "child" ∨ r = "modle" → r ∈ group_names roles)) ∧
  (is_single c = false →
     ∀ r, r ∈ Role c → is_Some (groups !! r) ↔
       (is_Some (g !! r) ∨ r = "master" ∨ r = "child" ∨ r = "modle" ∨ (r = "location" ∧ IsLocationMode c = true))).
Proof.
  intros Ho. unfold serve_roles. destruct (is_single c) eqn:Es.
  - assert (base_groups c g = AddGroup "child" [child] (AddGroup "master" [master] g)) as Eb.
    { unfold base_groups. rewrite Es. by rewrite andb_false_r. }
    assert (∀ n, n ∈ order ↔ is_Some (g !! n) ∨ n = "master" ∨ n = "child") as Hin.
    { intros n. rewrite Ho, Eb. unfold AllGroupsName. rewrite elem_of_dom, !AddGroup_is_Some. tauto. }
    assert (group_names (order ++ ["modle"]) = order ++ ["modle"]) as Eg.
    { apply group_names_single; apply elem_of_app; [right; by left|]. left. apply Hin. tauto. }
    unfold Contains. rewrite bool_decide_true by (apply elem_of_app; right; by left). rewrite Eg.
    assert (∀ r, r ∈ order ++ ["modle"] ↔ is_Some (g !! r) ∨ r = "master" ∨ r = "child" ∨ r = "modle") as Hr.
    { intros r. rewrite elem_of_app, list_elem_of_singleton, Hin. tauto. }
    split; [|done]. intros _. split; [|intros r Hor; apply Hr; tauto].
    intros r. rewrite Hr, Eb, !AddGroup_is_Some. tauto.
  - split; [done|]. intros _ r Hin.
    assert (bool_decide (0 < length (Role c)) = true) as Hl.
    { apply bool_decide_eq_true. destruct (Role c); [by apply elem_of_nil in Hin|simpl; lia]. }
    assert (∀ n, is_Some (base_groups c g !! n) ↔
      is_Some (g !! n) ∨ n = "master" ∨ n = "child" ∨ (n = "location" ∧ IsLocationMode c = true)) as Hb.
    { intros n. unfold base_groups. rewrite Es, Hl. destruct (IsLocationMode c); simpl; rewrite !AddGroup_is_Some; naive_solver. }
    unfold Contains. destruct (decide ("modle" ∈ Role c)) as [Hm|Hm].
    + rewrite bool_decide_true by done. rewrite AddGroup_is_Some, Hb. tauto.
    + rewrite bool_decide_false by done. rewrite Hb. split; [tauto|]. intros [?|[?|[?|[->|?]]]]; tauto.
Qed.
End serve.

(** ** Overriding *)

(** The address the gate listens on and the one it is known by. *)
Lemma OverrideNodeDefine_run {K} name c l (s : CfgNode) :
  ln_Config (K:=K) l = Some c → NodeDefine c !! name = Some s →
  ∃ c', OverrideNodeDefine name l = (set_Config (Some c') l, Ret tt) ∧
    WorkName c' = name ∧ LocalAddress c' = nd_LocalAddress s ∧ Role c' = nd_Role s ∧ WorkId c' = nd_WorkId s ∧
    NodeDefine c' = NodeDefine c ∧ MasterAddress c' = MasterAddress c ∧
    (na_Addr (nd_NetAddr s) ≠ "" → NetListenAddress c' = na_Addr (nd_NetAddr s)) ∧
    (na_Alias (nd_NetAddr s) ≠ "" → NetListenAddressAlias c' = na_Alias (nd_NetAddr s)) ∧
    RpcTimeout c' = RpcTimeout c ∧ RpcCallTimeout c' = RpcCallTimeout c ∧ RpcHeartBeatInterval c' = RpcHeartBeatInterval c.
Proof.
  intros Hl Hs. unfold OverrideNodeDefine, the_config. unfold_prog. cbn. rewrite Hl. cbn. rewrite Hs.
  destruct (decide (na_Alias (nd_NetAddr s) ≠ "")); [|destruct (decide (na_Addr (nd_NetAddr s) ≠ ""))];
    (eexists; split; [reflexivity|]; split_and!; done).
Qed.

(** ** Witness *)
Lemma roles_have_groups_witness :
  let groups : ComponentGroups := {["game" := mkGroup "game" [7%positive]]} in
  "game" ∈ group_names (serve_roles 1 2 3 4 ["game"; "child"; "master"] default_cluster groups).1.
Proof.
  intros groups.
  destruct (roles_have_groups 1 2 3 4 ["game"; "child"; "master"] default_cluster groups) as [H _].
  - intros n. subst groups. unfold AllGroupsName. rewrite elem_of_dom. unfold base_groups. simpl.
    rewrite !AddGroup_is_Some, lookup_singleton_is_Some. rewrite !elem_of_cons, elem_of_nil. naive_solver.
  - destruct (H eq_refl) as [_ Hin]. apply Hin. left. by eexists.
Defined.
