(* ===== verification/Setup.v ===== *)
(** * happy: how a process is set up

    NewServerNode of happy.go without its object tree (which is Boot's): the configuration
    is loaded, overridden by the node's definition, and handed by Initialize of
    LauncherComponent.go to the runtime's pool, the variables of hRpc/config.go, the mailer
    and the logger, over Config, Launcher, Mail and Logging. *)
From S2P Require Import Prelude Config Mail Launcher Logging.

Section setup.
Context {K B M : Type} `{hLog.GoLogging B, Gomail M}.
Context `{Json CommonConfig, Json ClusterConfig, Json CustomConfig}.

(** Nanoseconds of [time.Duration]. *)
Definition Millisecond : Z := 1000000.

(** The variables of hRpc/config.go. *)
Record RpcConfig := mkRpc { HeartInterval : Z; CallTimeout : Z; Timeout : Z; DebugMode : bool }.
Definition rpc_default : RpcConfig :=
  mkRpc (int64 (Millisecond * 3000)) (int64 (Millisecond * 5000)) (int64 (Millisecond * 9000)) true.

(** The process: the configuration with the files of the machine, the launcher, the number
    of threads of the runtime's pool ([workers]; none before there is a runtime), the
    mailer, the logger's backend (none before [InitLogger]) and the variables of hRpc. *)
Record Process := mkProc {
  ps_cfg : cfg_world;
  ps_launcher : LauncherComponent K;
  ps_MaxThreads : option Z;
  ps_mail : Mailer (M := M);
  ps_log : option B;
  ps_rpc : RpcConfig }.
Definition process_start (cfg : cfg_world) : Process :=
  mkProc cfg (mkLauncher None None None) None (mkMail ∅ None []) None rpc_default.

Definition set_ps_launcher l p := mkProc (ps_cfg p) l (ps_MaxThreads p) (ps_mail p) (ps_log p) (ps_rpc p).
Definition set_MaxThreads n p := mkProc (ps_cfg p) (ps_launcher p) n (ps_mail p) (ps_log p) (ps_rpc p).
Definition set_ps_log b p := mkProc (ps_cfg p) (ps_launcher p) (ps_MaxThreads p) (ps_mail p) b (ps_rpc p).
Definition set_rpc r p := mkProc (ps_cfg p) (ps_launcher p) (ps_MaxThreads p) (ps_mail p) (ps_log p) r.
Definition on_cfg {A} (m : prog cfg_world A) : prog Process A := λ p,
  let '(w, r) := m (ps_cfg p) in (mkProc w (ps_launcher p) (ps_MaxThreads p) (ps_mail p) (ps_log p) (ps_rpc p), r).
Definition on_mail {A} (m : prog (Mailer (M := M)) A) : prog Process A := λ p,
  let '(w, r) := m (ps_mail p) in (mkProc (ps_cfg p) (ps_launcher p) (ps_MaxThreads p) w (ps_log p) (ps_rpc p), r).

(** [hConfig.Config] and what its pointers point to. *)
Definition the_Config : prog Process ConfigComponent :=
  p ← get_state; match cw_Config (ps_cfg p) with Some c => mret c | None => panicking NilDereference end.
Definition deref {A} (x : option A) : prog Process A := match x with Some x => mret x | None => panicking NilDereference end.

(** [launcher.Config] and [hConfig.Config] are one pointer: what an override does to the
    launcher's configuration of the cluster is done to the other as well. *)
Definition set_cluster (c : option ClusterConfig) (w : cfg_world) : cfg_world :=
  let put cfg := mkConfig (commonConfigPath cfg) (clusterConfigPath cfg) (customConfigPath cfg) (cc_Common cfg) c (cc_Custom cfg) in
  mkCfgWorld (put (cw_this w)) (cw_fs w) (put <$> cw_Config w).
Definition on_launcher (m : prog (LauncherComponent K) unit) : prog Process unit := λ p,
  let '(l, r) := m (ps_launcher p) in
  (mkProc (set_cluster (ln_Config l) (ps_cfg p)) l (ps_MaxThreads p) (ps_mail p) (ps_log p) (ps_rpc p), r).

(** ** runtime.go *)
Definition validateConfig (ThreadPoolSize : Z) : Z := if decide (ThreadPoolSize ≤ 0)%Z then 10 else ThreadPoolSize.
(** [NewRuntime], for the pool. *)
Definition NewRuntime_workers (ThreadPoolSize : Z) : prog Process unit :=
  modify (set_MaxThreads (Some (validateConfig ThreadPoolSize))).
(** A bound that is not positive is only logged. *)
Definition SetMaxThread (maxThread : Z) : prog Process unit := modify (λ p,
  match ps_MaxThreads p with
  | Some _ => if decide (0 < maxThread)%Z then set_MaxThreads (Some maxThread) p else p
  | None => p
  end).

(** ** [LauncherComponent.Initialize]

    [&hConfig.Config.CustomConfig.Email] points into the configuration. *)
Definition email_ptr : positive := 1.
Definition share_email (e : EmailParam) : prog Process unit :=
  on_mail (modify (λ w, mkMail (<[email_ptr := e]> (ml_params w)) (gAutoEmail w) (ml_sent w))).
Definition Initialize : prog Process unit :=
  cfg ← the_Config;
  cluster ← deref (cc_Cluster cfg);
  _ ← on_launcher (Launcher_Initialize cluster);
  common ← deref (cc_Common cfg);
  _ ← SetMaxThread (RuntimeMaxWorker common);
  custom ← deref (cc_Custom cfg);
  _ ← share_email (Email custom);
  _ ← on_mail (NewAutoEmail email_ptr);
  _ ← modify (λ p, set_rpc (mkRpc (HeartInterval (ps_rpc p)) (int64 (Millisecond * RpcCallTimeout cluster))
                                (Timeout (ps_rpc p)) (DebugMode (ps_rpc p))) p);
  _ ← modify (λ p, set_rpc (mkRpc (HeartInterval (ps_rpc p)) (CallTimeout (ps_rpc p))
                                (int64 (Millisecond * RpcTimeout cluster)) (DebugMode (ps_rpc p))) p);
  _ ← modify (λ p, set_rpc (mkRpc (int64 (Millisecond * RpcHeartBeatInterval cluster)) (CallTimeout (ps_rpc p))
                                (Timeout (ps_rpc p)) (DebugMode (ps_rpc p))) p);
  _ ← modify (λ p, set_rpc (mkRpc (HeartInterval (ps_rpc p)) (CallTimeout (ps_rpc p)) (Timeout (ps_rpc p)) (Debug common)) p);
  modify (set_ps_log (Some (hLog.InitLogger (WorkName cluster) (LogFileSizeMax common) (LogFileMax common)
                              (LogLevel common) (LogConsolePrint common)))).

(** [NewServerNode]; the frames that [UpdateFrameByInterval] starts are those of Tasks. *)
Definition NewServerNode (NumCPU : Z) (nodeConfigName : string) : prog Process unit :=
  _ ← NewRuntime_workers NumCPU;
  _ ← on_cfg (Config_Initialize NumCPU);
  _ ← (if decide (nodeConfigName ≠ "") then
         cfg ← the_Config;
         _ ← modify (λ p, set_ps_launcher (set_Config (cc_Cluster cfg) (ps_launcher p)) p);
         on_launcher (OverrideNodeDefine nodeConfigName)
       else mret tt);
  Initialize.

(** ** Every part is told what the configuration says *)
Lemma Config_Initialize_shared n w w' :
  Config_Initialize n w = (w', Ret tt) → cw_Config w' = Some (cw_this w').
Proof.
  unfold Config_Initialize, ReloadConfig. unfold_prog. unfold get_state, modify. cbn. intros E.
  repeat (case_match; simplify_eq/=; try done).
Qed.

(** A process that is configured by [common], [cluster] and [custom]. One setting is not
    among them: [LogPath], the root directory of the logs in the comment of
    ConfigComponent.go, is read nowhere, and the files are in ./logs ([cb_directory]). *)
Record configured_by (common : CommonConfig) (cluster : ClusterConfig) (custom : CustomConfig) (n : Z) (p : Process) : Prop := {
  cb_launcher : ln_Config (ps_launcher p) = Some cluster ∧ ln_groups (ps_launcher p) = Some ∅;
  cb_shared : cc_Cluster <$> cw_Config (ps_cfg p) = Some (Some cluster);
  cb_threads : ps_MaxThreads p = Some (if decide (0 < RuntimeMaxWorker common)%Z then RuntimeMaxWorker common else n);
  cb_mail : ∃ m, gAutoEmail (ps_mail p) = Some (mkMailer email_ptr m) ∧ addressed (Email custom) m;
  cb_rpc : ps_rpc p = mkRpc (int64 (Millisecond * RpcHeartBeatInterval cluster)) (int64 (Millisecond * RpcCallTimeout cluster))
                        (int64 (Millisecond * RpcTimeout cluster)) (Debug common);
  cb_log : ∃ b, ps_log p = Some b ∧ ∀ e, let l := hLog.method_level (hLog.entry_method e) in
    (hLog.hlog b e).1 =
      (if decide (l ≤ LogLevel common)%Z then [hLog.log_file (WorkName cluster) (LogFileSizeMax common) (LogFileMax common)] else []) ++
      (if decide (l ≤ hLog.ERROR)%Z then [hLog.error_file (WorkName cluster) (LogFileSizeMax common) (LogFileMax common)] else []) ++
      (if LogConsolePrint common then [hLog.Stdout] else []);
  cb_directory : ∀ b e s, ps_log p = Some b → s ∈ (hLog.hlog b e).1 → s = hLog.Stdout ∨
    ∃ file size compress age backups local, s = hLog.Lumberjack ("./logs/" +:+ file) size compress age backups local }.

Lemma Initialize_run p cfg cluster common custom n :
  cw_Config (ps_cfg p) = Some cfg → cc_Cluster cfg = Some cluster → cc_Common cfg = Some common → cc_Custom cfg = Some custom →
  ps_MaxThreads p = Some n → gAutoEmail (ps_mail p) = None →
  ∃ p', Initialize p = (p', Ret tt) ∧ configured_by common cluster custom n p'.
Proof.
  intros Hcfg Hcl Hco Hcu Hn Hm. destruct p as [w l th ml lg r]. simpl in *. subst th.
  set (ml1 := mkMail (<[email_ptr := Email custom]> (ml_params ml)) (gAutoEmail ml) (ml_sent ml)).
  set (ml2 := set_gAutoEmail (Some (mkMailer email_ptr NewMessage)) ml1).
  destruct (AutoEmail_Init_run ml2 email_ptr (Email custom)) as (m & Em & Ha).
  { simpl. by rewrite lookup_insert_eq. }
  assert (NewAutoEmail email_ptr ml1 = (set_gAutoEmail (Some (mkMailer email_ptr m)) ml2, Ret tt)) as Enew.
  { unfold NewAutoEmail. unfold_prog. cbn. rewrite Hm. cbn. fold ml1. unfold modify. cbn. fold ml2. by rewrite Em. }
  assert (∀ r' w' l' th, ps_mail r' = set_gAutoEmail (Some (mkMailer email_ptr m)) ml2 →
    ps_cfg r' = set_cluster (Some cluster) w' → cw_Config w' = Some cfg → ps_launcher r' = mkLauncher (Some cluster) (Some ∅) l' →
    ps_MaxThreads r' = th → th = Some (if decide (0 < RuntimeMaxWorker common)%Z then RuntimeMaxWorker common else n) →
    ps_rpc r' = mkRpc (int64 (Millisecond * RpcHeartBeatInterval cluster)) (int64 (Millisecond * RpcCallTimeout cluster))
                        (int64 (Millisecond * RpcTimeout cluster)) (Debug common) →
    ps_log r' = Some (hLog.InitLogger (WorkName cluster) (LogFileSizeMax common) (LogFileMax common)
                              (LogLevel common) (LogConsolePrint common)) →
    configured_by common cluster custom n r') as Hall.
  { intros r' w' l' th E1 E2 E3 E4 E5 -> E6 E7. split; rewrite ?E1, ?E2, ?E4, ?E5, ?E6, ?E7; try done.
    - simpl. by rewrite E3.
    - exists m. by split.
    - eexists. split; [done|]. intros e. by rewrite hLog.hlog_written.
    - intros b e s [= <-]. rewrite hLog.hlog_written. cbn [fst]. rewrite !elem_of_app.
      intros [Hs|[Hs|Hs]]; [right|right|left].
      + case_decide; [|by apply elem_of_nil in Hs]. apply list_elem_of_singleton in Hs as ->. do 6 eexists. reflexivity.
      + case_decide; [|by apply elem_of_nil in Hs]. apply list_elem_of_singleton in Hs as ->. do 6 eexists. reflexivity.
      + destruct (LogConsolePrint common); [by apply list_elem_of_singleton in Hs|by apply elem_of_nil in Hs]. }
  destruct (decide (0 < RuntimeMaxWorker common)%Z) as [Hpos|Hpos]; eexists; (split;
    [unfold Initialize, the_Config, deref, SetMaxThread, share_email, on_launcher, on_mail, Launcher_Initialize;
     unfold_prog; unfold get_state, modify; cbn; rewrite Hcfg; cbn; rewrite Hcl; cbn; rewrite Hco; cbn; rewrite Hcu; cbn;
     first [rewrite (decide_True (P := (0 < RuntimeMaxWorker common)%Z)) by done
           |rewrite (decide_False (P := (0 < RuntimeMaxWorker common)%Z)) by done];
     cbn; fold ml1; rewrite Enew; reflexivity
    |eapply Hall; first [reflexivity|exact Hcfg|by rewrite decide_True|by rewrite decide_False]]).
Qed.

(** C33: a node is set up by its configuration: when the files load, a node that is started
    without a name has what they say, in the runtime's pool (unless the number of workers is
    not positive), in the variables of hRpc in milliseconds, in the mailer's recipients and,
    but for [LogPath], in the logger: its level, the size and number of its files, and
    whether it prints; the files are in ./logs whatever [LogPath] says. One that is started under a name of the configuration has its own
    address, roles and work name instead, and logs to a file of that name, which is why the
    override comes before Initialize. A name that is not defined panics before anything is
    set up. *)
Theorem node_configured NumCPU name w w' common cluster custom :
  Config_Initialize NumCPU w = (w', Ret tt) →
  cc_Common (cw_this w') = Some common → cc_Cluster (cw_this w') = Some cluster → cc_Custom (cw_this w') = Some custom →
  let start := NewServerNode NumCPU name (process_start w) in
  (name = "" → ∃ p, start = (p, Ret tt) ∧ configured_by common cluster custom (validateConfig NumCPU) p) ∧
  (∀ s, name ≠ "" → NodeDefine cluster !! name = Some s → ∃ p c, start = (p, Ret tt) ∧
     configured_by common c custom (validateConfig NumCPU) p ∧
     WorkName c = name ∧ LocalAddress c = nd_LocalAddress s ∧ Role c = nd_Role s ∧ RpcTimeout c = RpcTimeout cluster ∧
     RpcCallTimeout c = RpcCallTimeout cluster ∧ RpcHeartBeatInterval c = RpcHeartBeatInterval cluster) ∧
  (name ≠ "" → NodeDefine cluster !! name = None → ∃ p, start = (p, Panic (PanicVal ("this config name [ " +:+ name +:+ " ] not defined"))) ∧
     ps_log p = None ∧ ps_rpc p = rpc_default ∧ gAutoEmail (ps_mail p) = None).
Proof.
  intros E Hco Hcl Hcu. pose proof (Config_Initialize_shared _ _ _ E) as Hsh. cbn zeta.
  set (p0 := mkProc w' (mkLauncher None None None) (Some (validateConfig NumCPU)) (mkMail ∅ None []) None rpc_default).
  assert (∀ m, (_ ← NewRuntime_workers NumCPU; _ ← on_cfg (Config_Initialize NumCPU); m) (process_start w) = (m : prog Process unit) p0) as E0.
  { intros m. unfold NewRuntime_workers, on_cfg. unfold_prog. unfold modify. cbn. by rewrite E. }
  unfold NewServerNode. split; [|split].
  - intros ->. destruct (Initialize_run p0 (cw_this w') cluster common custom (validateConfig NumCPU)) as (p & Ep & Hp); [done..|].
    exists p. split; [|done]. rewrite E0. exact Ep.
  - intros s Hn Hs. set (l0 := set_Config (K := K) (Some cluster) (mkLauncher None None None)).
    destruct (OverrideNodeDefine_run name cluster l0 s eq_refl Hs) as (c & Eo & W & A & R & _ & _ & _ & _ & _ & T1 & T2 & T3).
    set (p1 := mkProc (set_cluster (Some c) w') (set_Config (Some c) l0) (Some (validateConfig NumCPU)) (mkMail ∅ None []) None rpc_default).
    destruct (Initialize_run p1 (mkConfig (commonConfigPath (cw_this w')) (clusterConfigPath (cw_this w')) (customConfigPath (cw_this w'))
      (Some common) (Some c) (Some custom)) c common custom (validateConfig NumCPU)) as (p & Ep & Hp); [|done..|].
    { simpl. rewrite Hsh. simpl. by rewrite Hco, Hcu. }
    exists p, c. split; [|done]. rewrite E0. rewrite decide_True by done.
    erewrite bind_Ret; [exact Ep|]. unfold the_Config, on_launcher. unfold_prog. unfold get_state, modify. cbn.
    rewrite Hsh. cbn. rewrite Hcl. fold l0. cbn. fold l0. by rewrite Eo.
  - intros Hn Hs. eexists. rewrite E0, decide_True by done. split; [|split].
    + unfold the_Config, on_launcher, OverrideNodeDefine, Launcher.the_config. unfold_prog. unfold get_state, modify. cbn.
      rewrite Hsh. cbn. rewrite Hcl. cbn. rewrite Hs. reflexivity.
    + done.
    + done.
Qed.
End setup.

(** ** A machine without files, and the node that the defaults define *)
#[local] Existing Instances hLog.levels_logging map_gomail.
Lemma node_configured_witness :
  let start := @NewServerNode unit (Z → list hLog.sink) _ _ map_gomail common_json cluster_json custom_json 8 "node_master"
                 (process_start empty_world) in
  ∃ p c, start = (p, Ret tt) ∧ configured_by (default_common 8) c default_custom 8 p ∧
    WorkName c = "node_master" ∧ LocalAddress c = "0.0.0.0:6666" ∧ RpcTimeout c = 9000%Z ∧
    LogPath (default_common 8) = "./log".
Proof.
  destruct (@config_reloads common_json cluster_json custom_json 8 (mkFs ∅ ∅ false None)) as [Hfresh _].
  - apply text_json_reads. by intros [].
  - apply text_json_reads. by intros [].
  - apply text_json_reads. by intros [[] [] []].
  - split_and!; reflexivity.
  - destruct (Hfresh eq_refl empty_world eq_refl) as (d' & E & _).
    destruct (@node_configured unit (Z → list hLog.sink) _ _ map_gomail common_json cluster_json custom_json 8 "node_master"
      empty_world _ _ _ _ E eq_refl eq_refl eq_refl) as (_ & Hnode & _).
    destruct (Hnode (mkCfgNode 1 "0.0.0.0:6666" ["single"] (mkAddr "127.0.0.1:5555" "")) ltac:(done) eq_refl)
      as (p & c & Ep & Hc & H1 & H2 & _ & H3 & _).
    exists p, c. split; [exact Ep|]. split; [exact Hc|]. split; [exact H1|]. split; [exact H2|]. split; [exact H3|reflexivity].
Defined.
