(* ===== verification/Boot.v ===== *)
(** * happy: the tree of a running node

    The framework's own components with what each requires and how far it is unique, the
    objects and components that NewServerNode (happy.go) and Serve (LauncherComponent.go)
    put together, on the object tree of EcsObject with the groups of Groups and Launcher,
    and what the shutdown does to the child. The application's components are
    parameters. *)
From S2P Require Import Prelude GoList Iter EcsSystems EcsObject EcsTree EcsComponents Config Groups GroupsTree Launcher.

(** ** The framework's components *)
Inductive part :=
| PConfig | PLauncher | PNode | PProxy | PMaster | PChild | PLocation | PModle | PGate | PSelectGate | PActor.

(** [reflect.TypeOf(&X{})] *)
Definition part_type (p : part) : rtype :=
  let pkg n := "custom/happy/" +:+ n in
  RPtr match p with
       | PConfig => RNamed (pkg "hConfig") "ConfigComponent"
       | PLauncher => RNamed (pkg "hBaseComponent") "LauncherComponent"
       | PNode => RNamed (pkg "hCluster") "NodeComponent"
       | PProxy => RNamed (pkg "hActor") "ActorProxyComponent"
       | PMaster => RNamed (pkg "hCluster") "MasterComponent"
       | PChild => RNamed (pkg "hCluster") "ChildComponent"
       | PLocation => RNamed (pkg "hCluster") "LocationComponent"
       | PModle => RNamed (pkg "hBaseComponent") "ModleComponent"
       | PGate => RNamed (pkg "hBaseComponent") "DefaultGateComponent"
       | PSelectGate => RNamed (pkg "hBaseComponent") "SelectGateComponent"
       | PActor => RNamed (pkg "hActor") "ActorComponent"
       end.

(** [GetRequire] of each: [this.Parent().Root()] and [this.Runtime().Root()] are both the
    root of the runtime's tree, in which the component is. *)
Definition Requires : Type := list (oid * list rtype).
Definition Node_GetRequire (root : oid) : Requires := [(root, [part_type PConfig])].
Definition Proxy_GetRequire (root : oid) : Requires := [(root, [part_type PConfig])].
Definition Master_GetRequire (root : oid) : Requires := [(root, [part_type PConfig; part_type PNode])].
Definition Child_GetRequire (root : oid) : Requires := [(root, [part_type PConfig; part_type PNode])].
Definition Location_GetRequire (root : oid) : Requires := [(root, [part_type PConfig; part_type PNode])].
Definition Modle_GetRequire (root : oid) : Requires := [(root, [part_type PConfig])].
Definition Gate_GetRequire (root : oid) : Requires := [(root, [part_type PConfig])].
Definition SelectGate_GetRequire (root : oid) : Requires := [(root, [part_type PConfig])].
Definition Actor_GetRequire (root : oid) : Requires := [(root, [part_type PConfig; part_type PProxy])].
Definition part_require (root : oid) (p : part) : option Requires :=
  match p with
  | PConfig | PLauncher => None
  | PNode => Some (Node_GetRequire root)
  | PProxy => Some (Proxy_GetRequire root)
  | PMaster => Some (Master_GetRequire root)
  | PChild => Some (Child_GetRequire root)
  | PLocation => Some (Location_GetRequire root)
  | PModle => Some (Modle_GetRequire root)
  | PGate => Some (Gate_GetRequire root)
  | PSelectGate => Some (SelectGate_GetRequire root)
  | PActor => Some (Actor_GetRequire root)
  end.

(** [IsUnique] of those that have it. *)
Definition Config_IsUnique : Z := UNIQUE_TYPE_GLOBAL.
Definition Launcher_IsUnique : Z := UNIQUE_TYPE_GLOBAL.
Definition Proxy_IsUnique : Z := UNIQUE_TYPE_GLOBAL.
Definition Modle_IsUnique : Z := UNIQUE_TYPE_GLOBAL.
Definition Gate_IsUnique : Z := UNIQUE_TYPE_GLOBAL.
Definition SelectGate_IsUnique : Z := UNIQUE_TYPE_GLOBAL.
Definition Actor_IsUnique : Z := UNIQUE_TYPE_LOCAL.
Definition part_unique (p : part) : option Z :=
  match p with
  | PConfig => Some Config_IsUnique
  | PLauncher => Some Launcher_IsUnique
  | PProxy => Some Proxy_IsUnique
  | PModle => Some Modle_IsUnique
  | PGate => Some Gate_IsUnique
  | PSelectGate => Some SelectGate_IsUnique
  | PActor => Some Actor_IsUnique
  | PNode | PMaster | PChild | PLocation => None
  end.

Section boot.
(** Which components are the framework's, and what the application's declare. *)
Context (part_of : cid → option part) (user_type : cid → rtype).
Context (user_unique : cid → option Z) (user_require : cid → option Requires).
Context (implements : iface → cid → bool) (type_implements : rtype → rtype → bool) (uuid : string → string).
Hypothesis user_concrete : ∀ c, is_interface (user_type c) = false.

Definition type_of (c : cid) : rtype := match part_of c with Some p => part_type p | None => user_type c end.
Definition IsUnique (c : cid) : option Z := match part_of c with Some p => part_unique p | None => user_unique c end.
Definition GetRequire (root : oid) (c : cid) : option Requires :=
  match part_of c with Some p => part_require root p | None => user_require c end.
Lemma concrete c : is_interface (type_of c) = false.
Proof. unfold type_of. destruct (part_of c); [done|apply user_concrete]. Qed.

Abbreviation typed_w := (typed_world type_of).
Abbreviation add root := (AddComponent implements type_implements type_of IsUnique (GetRequire root)).

(** ** The node is put together *)
Context (config launcher node proxy master child location modle : cid).

(** [NewServerNode]: a runtime with the configuration and the launcher in its root. The
    override of the configuration in between leaves the tree alone; it is
    [OverrideNodeDefine] of Launcher. *)
Definition NewServerNode_tree : W oid :=
  r ← NewRuntime (uuid "runtime");
  R ← rt r;
  let root := rt_root R in
  _ ← add root root config;
  _ ← add root root launcher;
  mret root.
(** What [Serve] does to the tree before it waits; in between it registers the launcher's
    service and decides on the roles ([serve_roles] of Launcher). *)
Definition Serve_tree (root : oid) (groups : ComponentGroups) (roles : list string) : W unit :=
  _ ← add root root node;
  _ ← add root root proxy;
  AttachGroupsTo implements type_implements type_of IsUnique (GetRequire root) uuid groups roles root.
Definition launch (order : list string) (c : ClusterConfig) (g : ComponentGroups) : W oid :=
  let '(roles, groups) := serve_roles master child location modle order c g in
  root ← NewServerNode_tree;
  _ ← Serve_tree root groups roles;
  mret root.

(** *** The root's components *)
(** A root without children takes a component whose requirements are in it already. *)
Lemma add_root root w x c rs :
  wf w → typed_w w → w_objs w = {[root := x]} → obj_parent x = None →
  IsUnique c ≠ Some UNIQUE_TYPE_LOCAL → requirements (GetRequire root) c = rs →
  Forall (λ r, r.1 = root ∧ Forall (λ t, ∃ d, d ∈ obj_components x ∧ type_of d = t) r.2) rs →
  ∃ w' r, add root root c w = (w', Ret tt) ∧ wf w' ∧ typed_w w' ∧ w_log w' = w_log w ∧
    (∀ q, obj_runtime x = Some q → r = Some q) ∧ w_rts w' = shown implements r [c] (w_rts w) ∧
    w_objs w' = {[root := with_components (obj_components x ++ [c]) (with_runtime r x)]}.
Proof.
  intros Hw Ht Ho Hp Hu <- Hreq.
  assert (w_objs w !! root = Some x) as Hx by (by rewrite Ho, lookup_singleton_eq).
  assert (exist w (requirements (GetRequire root) c)) as Hex.
  { eapply Forall_impl; [exact Hreq|]. intros r [-> _]. by rewrite Hx. }
  destruct (AddComponent_store implements type_implements type_of IsUnique (GetRequire root) concrete w root x c Hw Ht Hex Hx)
    as (w' & l & added & E & Hl & Ew & _ & _ & Hb & Hlog & Hrts).
  assert (l = []) as ->.
  { eapply chain_det; [exact Hl|]. eapply chain_root; [by apply view_obj|done]. }
  assert (added = [c]) as ->.
  { apply Hb. split.
    - intros Htk. unfold taken in Htk. destruct (IsUnique c) as [u|]; [|done].
      case_decide; [|case_decide; [congruence|done]].
      destruct Htk as (y & Hne & _ & d & Hd & _). unfold comps_of in Hd.
      simpl in Hne. rewrite Ho, lookup_singleton_ne in Hd by done. by apply elem_of_nil in Hd.
    - eapply Forall_impl; [exact Hreq|]. intros r [-> Hr]. eapply Forall_impl; [exact Hr|].
      intros t (d & Hd & Et). exists d. split; [|done]. unfold comps_of. by rewrite Hx. }
  exists w', (first_runtime w [root]). split; [done|].
  pose proof (ends_AddComponent implements type_implements type_of IsUnique (GetRequire root) root c w Hw) as Hw'.
  unfold ends_wf, wp in Hw'. rewrite E in Hw'. split; [done|].
  split; [by eapply (typed_AddComponent implements type_implements type_of IsUnique (GetRequire root) concrete w root x c)|].
  split; [by apply Hlog|]. split; [|split; [exact Hrts|by rewrite Ew, Ho, insert_singleton_eq]].
  intros q Hq. by rewrite (first_runtime_cons _ _ _ _ Hx), Hq.
Qed.

Context (config_part : part_of config = Some PConfig) (launcher_part : part_of launcher = Some PLauncher)
  (node_part : part_of node = Some PNode) (proxy_part : part_of proxy = Some PProxy).
Lemma type_of_part c p : part_of c = Some p → type_of c = part_type p.
Proof. unfold type_of. by intros ->. Qed.
Lemma unique_part c p : part_of c = Some p → IsUnique c = part_unique p.
Proof. unfold IsUnique. by intros ->. Qed.
Lemma require_part root c p : part_of c = Some p → requirements (GetRequire root) c = default [] (part_require root p).
Proof. unfold requirements, GetRequire. by intros ->. Qed.

(** The systems of the runtime [q] have been shown these components, and no others. *)
Definition systems_of (w : World) (q : rid) (root : oid) (cs : list cid) : Prop :=
  w_rts w !! q = Some (mkRuntime root (shown_frame implements cs Frame_Init) []).
Lemma systems_grow w w' q root cs ds :
  systems_of w q root cs → w_rts w' = shown implements (Some q) ds (w_rts w) → systems_of w' q root (cs ++ ds).
Proof.
  unfold systems_of. intros Hs ->. rewrite (shown_lookup implements q ds _ _ Hs), filtered_all by done.
  by rewrite shown_frame_app.
Qed.

(** A tree that is only its root, with these components, and nothing logged. *)
Definition bare_root (root : oid) (cs : list cid) (w : World) : Prop :=
  wf w ∧ typed_w w ∧ w_log w = [] ∧
  ∃ r, w_objs w = {[root := mkObject (uuid "runtime") "runtime" (Some r) cs [] None Free]} ∧ systems_of w r root cs.
Lemma bare_root_add root w cs c p rs :
  bare_root root cs w → part_of c = Some p → part_unique p ≠ Some UNIQUE_TYPE_LOCAL →
  default [] (part_require root p) = rs →
  Forall (λ r, r.1 = root ∧ Forall (λ t, ∃ d, d ∈ cs ∧ type_of d = t) r.2) rs →
  ∃ w', add root root c w = (w', Ret tt) ∧ bare_root root (cs ++ [c]) w'.
Proof.
  intros (Hw & Ht & Hl & r & Ho & Hs) Hc Hu <- Hreq.
  destruct (add_root root w _ c (default [] (part_require root p)) Hw Ht Ho eq_refl) as (w' & r' & E & Hw' & Ht' & Hl' & Hr' & Hrts & Ho');
    [by rewrite (unique_part c p Hc)|by apply require_part|exact Hreq|].
  exists w'. split; [done|]. split_and!; [done|done|by rewrite Hl'|]. exists r.
  rewrite (Hr' r eq_refl) in *. split; [by rewrite Ho'|by eapply systems_grow].
Qed.

Lemma NewServerNode_tree_run : ∃ w root, NewServerNode_tree World_Init = (w, Ret root) ∧ bare_root root [config; launcher] w.
Proof.
  set (root := fresh (dom (w_objs World_Init))). set (r := fresh (dom (w_rts World_Init))).
  set (R := mkRuntime root Frame_Init []).
  set (w0 := set_obj root (mkObject (uuid "runtime") "runtime" (Some r) [] [] None Free) (set_rt r R World_Init)).
  assert (NewRuntime (uuid "runtime") World_Init = (w0, Ret r)) as E0 by apply NewRuntime_run.
  assert (bare_root root [] w0) as H0.
  { split_and!; [|intros o y c [[_ <-]|[_ Hy]]%set_obj_Some Hc; [by apply elem_of_nil in Hc|done]|done|].
    2: { exists r. split; [done|]. unfold systems_of, w0. simpl. by rewrite lookup_insert_eq. }
    pose proof (ends_NewRuntime (uuid "runtime") World_Init wf_Init) as He. unfold ends_wf, wp in He.
    by rewrite E0 in He. }
  destruct (bare_root_add root w0 [] config PConfig [] H0 config_part) as (w1 & E1 & H1); [done|done|constructor|].
  destruct (bare_root_add root w1 _ launcher PLauncher [] H1 launcher_part) as (w2 & E2 & H2); [done|done|constructor|].
  exists w2, root. split; [|exact H2].
  unfold NewServerNode_tree. rewrite (bind_Ret _ _ _ _ _ E0).
  assert (rt r w0 = (w0, Ret R)) as ER by (unfold rt, w0; simpl; by rewrite lookup_insert_eq).
  rewrite (bind_Ret _ _ _ _ _ ER). simpl. by rewrite (bind_Ret _ _ _ _ _ E1), (bind_Ret _ _ _ _ _ E2).
Qed.

Definition root_parts : list cid := [config; launcher; node; proxy].
Lemma root_parts_put root w : bare_root root [config; launcher] w →
  ∃ w1 w2, add root root node w = (w1, Ret tt) ∧ add root root proxy w1 = (w2, Ret tt) ∧ bare_root root root_parts w2.
Proof.
  intros H0.
  assert (∀ cs : list cid, config ∈ cs → ∃ d, d ∈ cs ∧ type_of d = part_type PConfig) as Hconf
    by (intros cs Hin; exists config; split; [done|by apply type_of_part]).
  destruct (bare_root_add root w _ node PNode (Node_GetRequire root) H0 node_part) as (w1 & E1 & H1); [done|done| |].
  { constructor; [|constructor]. split; [done|]. constructor; [apply Hconf; by left|constructor]. }
  destruct (bare_root_add root w1 _ proxy PProxy (Proxy_GetRequire root) H1 proxy_part) as (w2 & E2 & H2); [done|done| |].
  { constructor; [|constructor]. split; [done|]. constructor; [apply Hconf; by left|constructor]. }
  by exists w1, w2.
Qed.

(** *** The groups *)
(** No two of these components have a type that one of them declares unique. *)
Definition no_clash (all : list cid) : Prop := ∀ i j c d,
  all !! i = Some c → all !! j = Some d → is_Some (IsUnique c) → type_of c = type_of d → i = j.
Lemma NoDup_no_clash all : NoDup (type_of <$> all) → no_clash all.
Proof.
  intros Hn i j c d Hi Hj _ Et. apply (NoDup_lookup _ i j (type_of c) Hn); rewrite list_lookup_fmap; [by rewrite Hi|].
  by rewrite Hj, Et.
Qed.
(** The application's components require nothing. *)
Definition content_ok (cs : list cid) : Prop := Forall (λ c, part_of c = None → user_require c = None) cs.

(** While the groups are attached: the root has its components, and what is below it
    are the components of [done]. *)
Record attaching (root : oid) (done : list cid) (w : World) (x : Object) : Prop := {
  at_wf : wf w;
  at_typed : typed_w w;
  at_root : w_objs w !! root = Some x;
  at_parts : obj_components x = root_parts;
  at_parent : obj_parent x = None;
  at_done p y d : p ≠ root → w_objs w !! p = Some y → d ∈ obj_components y → d ∈ done }.

(** The root meets what any of the components requires. *)
Lemma root_meets root w x c :
  w_objs w !! root = Some x → obj_components x = root_parts → (part_of c = None → user_require c = None) →
  met type_of w (requirements (GetRequire root) c).
Proof.
  intros Hx Hparts Hc. unfold requirements, GetRequire. destruct (part_of c) as [p|]; [|rewrite Hc by done; constructor].
  assert (∀ d q, d ∈ root_parts → part_of d = Some q → has_type type_of w root (part_type q)) as Hhas.
  { intros d q Hd Hq. exists d. split; [|by apply type_of_part]. unfold comps_of. by rewrite Hx, Hparts. }
  assert (has_type type_of w root (part_type PConfig)) by (apply (Hhas config); [by left|done]).
  assert (has_type type_of w root (part_type PNode)) by (apply (Hhas node); [by right; right; left|done]).
  assert (has_type type_of w root (part_type PProxy)) by (apply (Hhas proxy); [by right; right; right; left|done]).
  by destruct p; repeat constructor.
Qed.

Lemma group_accepted root attached w x o y0 cs rest :
  attaching root attached w x → content_ok cs → no_clash (attached ++ cs ++ rest) →
  w_objs w !! o = None → obj_components y0 = [] → obj_parent y0 = Some root →
  ¬ refused_one type_of IsUnique (GetRequire root)
      (<[o := y0]> (<[root := with_children (obj_children x ++ [o]) x]> (w_objs w))) o y0 cs.
Proof.
  intros [Hw Ht Hx Hparts Hpx Hdone] Hcs Hclash Ho Hy0 Hpy0 (pre & c & post & w1 & y1 & -> & Ew1 & (F1 & _ & F3 & _ & _) & l & Hl & Hno).
  assert (root ≠ o) as Hne by congruence. rewrite insert_insert_eq in Ew1.
  assert (w_objs w1 !! o = Some y1) as Hy1 by (by rewrite Ew1, lookup_insert_eq).
  assert (w_objs w1 !! root = Some (with_children (obj_children x ++ [o]) x)) as Hx1
    by (by rewrite Ew1, lookup_insert_ne, lookup_insert_eq).
  apply Hno. split.
  - assert (l = [root]) as ->.
    { eapply chain_det; [exact Hl|]. eapply chain_parent; [by apply view_obj|simpl; by rewrite F3|].
      eapply chain_root; [by apply view_obj|done]. }
    assert (∀ p, p ≠ root → ¬ has_type type_of w1 p (type_of c) ∨ IsUnique c = None) as Hfree.
    { intros p Hp. destruct (IsUnique c) as [u|] eqn:Eu; [left|by right]. intros (d & Hd & Etd).
      assert (∃ i, (attached ++ pre) !! i = Some d) as [i Hi].
      { apply list_elem_of_lookup. unfold comps_of in Hd. rewrite Ew1 in Hd. destruct (decide (p = o)) as [->|].
        - rewrite lookup_insert_eq, F1, Hy0 in Hd. apply elem_of_app. by right.
        - rewrite !lookup_insert_ne in Hd by done. destruct (w_objs w !! p) as [y|] eqn:Hpo; [|by apply elem_of_nil in Hd].
          apply elem_of_app. left. by eapply Hdone. }
      assert (i < length (attached ++ pre)) as Hlt by by eapply lookup_lt_Some.
      assert (length (attached ++ pre) = i) as <-; [|lia].
      apply (Hclash _ _ c d); [| |by rewrite Eu|done].
      - rewrite app_assoc, (app_assoc attached). rewrite lookup_app_l by (rewrite !length_app; simpl; lia).
        rewrite lookup_app_r by lia. by rewrite Nat.sub_diag.
      - rewrite app_assoc, (app_assoc attached). rewrite lookup_app_l by (rewrite !length_app in *; simpl; lia).
        by rewrite lookup_app_l. }
    simpl. unfold taken. destruct (IsUnique c) as [u|] eqn:Eu; [|tauto].
    case_decide; [|case_decide; [|tauto]].
    + intros (p & Hp & _ & Hh). by destruct (Hfree p Hp).
    + intros Hh. by destruct (Hfree o (not_eq_sym Hne)).
  - apply (root_meets root w1 (with_children (obj_children x ++ [o]) x)); [done|done|].
    apply Forall_app in Hcs as [_ [Hc _]%Forall_cons]. done.
Qed.

(** An object below the root that carries a group's components. *)
Definition carries (w : World) (root o : oid) (g : ComponentGroup) : Prop :=
  ∃ y, w_objs w !! o = Some y ∧ obj_name y = cg_Name g ∧ obj_parent y = Some root ∧ obj_children y = [] ∧
    obj_components y = cg_content g ∧
    ∀ x r, w_objs w !! root = Some x → obj_runtime x = Some r → obj_runtime y = Some r.
Definition log_missing (groups : ComponentGroups) (names : list string) : list (option ecs_error) :=
  (λ n, Some (the_group_is_not_exist n)) <$> filter (λ n, groups !! n = None) names.

Lemma content_requirements root w x cs :
  w_objs w !! root = Some x → content_ok cs → requirements_exist (GetRequire root) w cs.
Proof.
  intros Hx Hcs. eapply Forall_impl; [exact Hcs|]. intros c Hc. unfold exist, requirements, GetRequire.
  destruct (part_of c) as [p|] eqn:Ep; [|rewrite (Hc Ep); constructor].
  assert (is_Some (w_objs w !! root)) by by eexists. destruct p; first [apply Forall_nil_2|apply Forall_singleton; done].
Qed.

Lemma attach_one root attached w x g rest :
  attaching root attached w x → content_ok (cg_content g) → no_clash (attached ++ cg_content g ++ rest) →
  ∃ w' o, attachGroupTo implements type_implements type_of IsUnique (GetRequire root) uuid g root w = (w', Ret tt) ∧
    attaching root (attached ++ cg_content g) w' (with_children (obj_children x ++ [o]) x) ∧
    w_objs w !! o = None ∧ (∀ p, p ≠ root → p ≠ o → w_objs w' !! p = w_objs w !! p) ∧
    carries w' root o g ∧ w_log w' = w_log w ∧
    (∀ q, obj_runtime x = Some q → w_rts w' = shown implements (Some q) (cg_content g) (w_rts w)).
Proof.
  intros Hat Hcs Hclash. pose proof Hat as [Hw Ht Hx Hparts Hpx Hdone].
  destruct (attach_group implements type_implements type_of IsUnique (GetRequire root) uuid concrete g root w x Hw Ht
    (content_requirements root w x _ Hx Hcs) Hx) as (w' & o & y & E & Hw' & Ht' & Ho & Ew' & G1 & G2 & G3 & _ & G6 & G5 & Hrts).
  destruct G5 as [[G5 Hlog]|(y0 & H1 & H2 & Href)];
    [|by destruct (group_accepted root attached w x o y0 _ rest Hat Hcs Hclash Ho H1 H2 Href)].
  assert (root ≠ o) as Hne by congruence.
  assert (∀ p, p ≠ root → p ≠ o → w_objs w' !! p = w_objs w !! p) as Hold
    by (intros p H1 H2; by rewrite Ew', !lookup_insert_ne).
  exists w', o. split_and!; [done| |done|done| |done|intros q Hq; rewrite <- G5; by apply Hrts].
  - split; [done|done|by rewrite Ew', lookup_insert_ne, lookup_insert_eq|done|done|].
    intros p z d Hp Hz Hd. apply elem_of_app. destruct (decide (p = o)) as [->|Hpo].
    + right. rewrite Ew', lookup_insert_eq in Hz. injection Hz as <-. by rewrite <- G5.
    + left. rewrite Hold in Hz by done. by eapply Hdone.
  - exists y. rewrite Ew', lookup_insert_eq. split_and!; try done.
    intros z r. rewrite lookup_insert_ne, lookup_insert_eq by done. intros [= <-]. apply G6.
Qed.

Lemma attach_all root (groups : ComponentGroups) names : ∀ w x attached,
  attaching root attached w x → Forall (λ g, content_ok (cg_content g)) (omap (groups !!.) names) →
  no_clash (attached ++ (omap (groups !!.) names ≫= cg_content)) →
  ∃ w' os,
    for_each names (λ name, match groups !! name with
      | Some g => attachGroupTo implements type_implements type_of IsUnique (GetRequire root) uuid g root
      | None => hLog_Error (Some (the_group_is_not_exist name)) end) w = (w', Ret tt) ∧ (wf w' ∧ typed_w w') ∧
    w_objs w' !! root = Some (with_children (obj_children x ++ os) x) ∧
    (∀ p, p ≠ root → p ∉ os → w_objs w' !! p = w_objs w !! p) ∧
    Forall (λ o, w_objs w !! o = None) os ∧
    Forall2 (carries w' root) os (omap (groups !!.) names) ∧ w_log w' = w_log w ++ log_missing groups names ∧
    (∀ q, obj_runtime x = Some q → w_rts w' = shown implements (Some q) (omap (groups !!.) names ≫= cg_content) (w_rts w)).
Proof.
  induction names as [|n names IH]; intros w x attached Hat Hok Hclash.
  - exists w, []. pose proof (at_root _ _ _ _ Hat) as Hx. split; [done|]. split; [split; apply Hat|]. split_and!; [|done|done|constructor|by rewrite app_nil_r|intros q _; by rewrite shown_nil].
    rewrite app_nil_r, Hx. by destruct x.
  - cbn [for_each omap list_omap] in *. unfold log_missing. rewrite filter_cons.
    destruct (groups !! n) as [g|] eqn:Eg.
    + rewrite decide_False by done. apply Forall_cons in Hok as [Hg Hok]. csimpl in Hclash.
      destruct (attach_one root attached w x g _ Hat Hg Hclash) as (w1 & o & E1 & Hat1 & Ho & Hold1 & Hc1 & Hl1 & Hs1).
      rewrite app_assoc in Hclash.
      destruct (IH w1 _ _ Hat1 Hok Hclash) as (w' & os & E & Hw' & Hx' & Hold & Hnew & Hall & Hlog & Hs).
      assert (root ≠ o) as Hne by (intros <-; rewrite (at_root _ _ _ _ Hat) in Ho; done).
      destruct Hc1 as (y & Hy & Hcar).
      assert (o ∉ os) as Hnin.
      { intros Hin. rewrite Forall_forall in Hnew. specialize (Hnew o Hin). congruence. }
      exists w', (o :: os). split; [by rewrite (bind_Ret _ _ _ _ _ E1)|]. split; [exact Hw'|]. split_and!.
      * rewrite Hx'. simpl. by rewrite <- app_assoc.
      * intros p Hp [Hpo Hpos]%not_elem_of_cons. rewrite Hold by done. by apply Hold1.
      * constructor; [done|]. rewrite Forall_forall in Hnew |- *. intros p Hin. specialize (Hnew p Hin).
        destruct (decide (p = root)) as [->|Hpr]; [by rewrite (at_root _ _ _ _ Hat1) in Hnew|].
        destruct (decide (p = o)) as [->|Hpo]; [congruence|by rewrite <- Hold1].
      * constructor; [|done]. exists y. rewrite (Hold o (not_eq_sym Hne) Hnin), Hx'.
        destruct Hcar as (C1 & C2 & C3 & C4 & C5). split_and!; try done. intros z r [= <-].
        apply (C5 _ r (at_root _ _ _ _ Hat1)).
      * by rewrite Hlog, Hl1.
      * intros q Hq. by rewrite bind_cons, shown_app, <- (Hs1 q Hq), (Hs q Hq).
    + rewrite decide_True by done.
      rewrite (bind_Ret _ _ w (logged (the_group_is_not_exist n) w) tt) by done.
      assert (attaching root attached (logged (the_group_is_not_exist n) w) x) as Hat' by (by destruct Hat).
      destruct (IH _ x attached Hat' Hok Hclash) as (w' & os & E & H1 & H2 & H3 & H4 & H5 & Hlog & Hs).
      exists w', os. split; [done|]. split; [exact H1|]. split_and!; try done. rewrite Hlog. simpl. by rewrite <- app_assoc.
Qed.

(** What a launched node is: the root, its components and the objects of the groups. *)
Definition launched_node (w : World) (root : oid) (gs : list ComponentGroup) : Prop :=
  wf w ∧ typed_w w ∧ ∃ x, w_objs w !! root = Some x ∧ obj_parent x = None ∧ is_Some (obj_runtime x) ∧
    obj_components x = root_parts ∧ Forall2 (carries w root) (obj_children x) gs.

Lemma launch_run order c g roles groups :
  serve_roles master child location modle order c g = (roles, groups) →
  Forall (λ g, content_ok (cg_content g)) (omap (groups !!.) (group_names roles)) →
  no_clash (omap (groups !!.) (group_names roles) ≫= cg_content) →
  ∃ w root, launch order c g World_Init = (w, Ret root) ∧
    launched_node w root (omap (groups !!.) (group_names roles)) ∧ w_log w = log_missing groups (group_names roles) ∧
    ∃ x q, w_objs w !! root = Some x ∧ obj_runtime x = Some q ∧
      systems_of w q root (root_parts ++ (omap (groups !!.) (group_names roles) ≫= cg_content)).
Proof.
  intros Es Hok Hclash. unfold launch. rewrite Es.
  destruct NewServerNode_tree_run as (w0 & root & E0 & H0).
  destruct (root_parts_put root w0 H0) as (w1 & w2 & E1 & E2 & Hw2 & Ht2 & Hl2 & r & Ho2 & Hs2).
  set (x := mkObject (uuid "runtime") "runtime" (Some r) root_parts [] None Free) in *.
  assert (attaching root [] w2 x) as Hat.
  { split; [done|done|by rewrite Ho2, lookup_singleton_eq|done|done|].
    intros p y d Hp Hy _. by rewrite Ho2, lookup_singleton_ne in Hy. }
  destruct (attach_all root groups (group_names roles) w2 x [] Hat Hok Hclash)
    as (w' & os & E & Hw' & Hx' & _ & _ & Hall & Hlog & Hs).
  assert (launched_node w' root (omap (groups !!.) (group_names roles))) as Hn.
  { split; [apply Hw'|]. split; [apply Hw'|]. exists (with_children os x). split_and!; done. }
  exists w', root. split_and!; [|exact Hn|by rewrite Hlog, Hl2|].
  2: { exists (with_children os x), r. split; [exact Hx'|]. split; [done|]. eapply systems_grow; [exact Hs2|by apply Hs]. }
  rewrite (bind_Ret _ _ _ _ _ E0). rewrite (bind_Ret _ _ _ w' tt); [done|].
  unfold Serve_tree. rewrite (bind_Ret _ _ _ _ _ E1), (bind_Ret _ _ _ _ _ E2). exact E.
Qed.

(** C12: A node that is launched with a configuration and the application's groups ends
    with a well-formed tree: its root holds the configuration, the launcher, the node and
    the proxy of actors, in this order, and one child for every role that has a group, in
    the order of the completed roles, each with its group's name and all of its
    components, and in the runtime of the root, whose systems have been shown all of these
    components, in this order, and no others. Nothing is refused, so that nothing is
    logged but the roles without a group; this when the application's components require
    nothing and no two components of the groups have a type that is declared unique. *)
Theorem node_tree order c g roles groups :
  serve_roles master child location modle order c g = (roles, groups) →
  let gs := omap (groups !!.) (group_names roles) in
  Forall (λ g, content_ok (cg_content g)) gs → no_clash (gs ≫= cg_content) →
  ∃ w root, launch order c g World_Init = (w, Ret root) ∧ launched_node w root gs ∧
    w_log w = log_missing groups (group_names roles) ∧
    ∃ x q, w_objs w !! root = Some x ∧ obj_runtime x = Some q ∧ systems_of w q root (root_parts ++ (gs ≫= cg_content)).
Proof. apply launch_run. Qed.

(** *** What the components look for *)
(** [this.Parent().Root().Find(&...)], from the object that a component is in. *)
Definition find_part (p : part) (o : oid) : W (result ecs_error cid) :=
  r ← Root o; Find type_implements r (part_type p) [].

(** The root's components are found from the root and from every object of a group. *)
Lemma launched_find w root gs o c p :
  launched_node w root gs → o = root ∨ (∃ y, w_objs w !! o = Some y ∧ obj_parent y = Some root) →
  (c, p) ∈ [(config, PConfig); (launcher, PLauncher); (node, PNode); (proxy, PProxy)] →
  find_part p o w = (w, Ret (Ok c)).
Proof.
  intros (Hw & Ht & x & Hx & Hpx & _ & Hparts & _) Ho Hc.
  assert (Root o w = (w, Ret root)) as Er.
  { assert (chain (view w) root []) as Hroot by (eapply chain_root; [by apply view_obj|done]).
    destruct Ho as [->|(y & Hy & Hp)]; [exact (Root_eq _ _ _ Hroot)|].
    refine (Root_eq w o [root] _). eapply chain_parent; [by apply view_obj|done|exact Hroot]. }
  unfold find_part. rewrite (bind_Ret _ _ _ _ _ Er).
  rewrite (Find_run type_implements type_of concrete w root x (part_type p) Ht Hx), Hparts.
  do 2 f_equal. unfold root_parts. rewrite !filter_cons.
  rewrite (type_of_part _ _ config_part), (type_of_part _ _ launcher_part), (type_of_part _ _ node_part), (type_of_part _ _ proxy_part).
  rewrite !elem_of_cons, elem_of_nil in Hc. destruct_or! Hc; try done; by injection Hc as -> ->.
Qed.

(** *** The shutdown *)
(** Outside of the debug mode, [Serve] first takes the child's component out of the root. *)
Definition Serve_shutdown (root : oid) (debug : bool) : W unit :=
  if debug then mret tt else RemoveComponent implements root child.

(** The root does not have it: the tree stays as it is, the child in its object included,
    and only the systems of the runtime are told. *)
Lemma shutdown_keeps_child order c g roles groups :
  serve_roles master child location modle order c g = (roles, groups) →
  let gs := omap (groups !!.) (group_names roles) in
  Forall (λ g, content_ok (cg_content g)) gs → no_clash (gs ≫= cg_content) → child ∉ root_parts →
  ∃ w root w', launch order c g World_Init = (w, Ret root) ∧ Serve_shutdown root false w = (w', Ret tt) ∧
    w_objs w' = w_objs w ∧ launched_node w root gs.
Proof.
  intros Es gs Hok Hclash Hch. destruct (launch_run order c g roles groups Es Hok Hclash) as (w & root & E & Hn & _).
  pose proof Hn as (Hw & _ & x & Hx & Hp & _ & Hparts & _).
  pose proof (RemoveComponent_run implements w root x child Hw Hx) as Er. simpl in Er.
  assert (remove_first (child =.) (obj_components x) = None) as Enone.
  { apply remove_first_None. rewrite Hparts. apply Forall_forall. by intros d Hd <-. }
  rewrite Enone in Er. simpl in Er.
  assert (set_obj root (with_components (obj_components x) x) w = w) as Eid.
  { rewrite <- (set_obj_id w root x Hx) at 2. by destruct x. }
  rewrite Eid in Er. exists w, root. eexists. split; [exact E|]. split; [exact Er|]. split; [|exact Hn].
  destruct (obj_runtime x) as [q|]; [|done]. simpl. by destruct (w_rts w !! q).
Qed.
End boot.

(** ** A node in single mode *)
Definition example_parts (c : cid) : option part :=
  [PConfig; PLauncher; PNode; PProxy; PMaster; PChild; PLocation; PModle; PGate] !! pred (Pos.to_nat c).
Definition room : rtype := RPtr (RNamed "game" "Room").
Definition game_groups : ComponentGroups := AddGroup "gate" [9%positive; 10%positive] ∅.

Lemma node_tree_witness :
  ∃ w root x, launch example_parts (λ _, room) (λ _, None) (λ _, None) Example.implements Example.type_implements
      (λ n, n) 1 2 3 4 5 6 7 8 ["gate"; "child"; "master"] default_cluster game_groups World_Init = (w, Ret root) ∧
    w_objs w !! root = Some x ∧ obj_components x = [1; 2; 3; 4]%positive ∧ length (obj_children x) = 4 ∧ w_log w = [].
Proof.
  set (S := serve_roles 5 6 7 8 ["gate"; "child"; "master"] default_cluster game_groups).
  set (gs := [mkGroup "gate" [9; 10]; mkGroup "child" [6]; mkGroup "master" [5]; mkGroup "modle" [8]]%positive).
  assert (omap (S.2 !!.) (group_names S.1) = gs) as Egs by by vm_compute.
  assert (log_missing S.2 (group_names S.1) = []) as Elog by by vm_compute.
  destruct (node_tree example_parts (λ _, room) (λ _, None) (λ _, None) Example.implements Example.type_implements
    (λ n, n) (λ _, eq_refl) 1 2 3 4 5 6 7 8 eq_refl eq_refl eq_refl eq_refl _ default_cluster game_groups S.1 S.2
    (surjective_pairing S)) as (w & root & E & (_ & _ & x & Hx & _ & _ & Hp & Hc) & Hlog & _); [rewrite Egs..|].
  - repeat constructor.
  - apply NoDup_no_clash. apply (bool_decide_unpack _). by vm_compute.
  - exists w, root, x. split; [exact E|]. split; [exact Hx|]. split; [exact Hp|].
    rewrite Egs in Hc. split; [by rewrite (Forall2_length _ _ _ Hc)|]. by rewrite Hlog, Elog.
Defined.
