(* ===== verification/FirstFrame.v ===== *)
(** * happy: the first frame of a launched node

    The frame of runtime.go (EcsSystems) on the systems that NewServerNode and Serve leave
    (Boot): which components it wakes up, starts and updates, and that it ends. *)
From S2P Require Import Prelude GoList Iter EcsSystems EcsObject EcsTree EcsComponents Config Groups GroupsTree Launcher Boot.

Section first_frame.
Context (part_of : cid → option part) (user_type : cid → rtype).
Context (user_unique : cid → option Z) (user_require : cid → option Requires).
Context (implements : iface → cid → bool) (type_implements : rtype → rtype → bool) (uuid : string → string).
Hypothesis user_concrete : ∀ c, is_interface (user_type c) = false.
Context (config launcher node proxy master child location modle : cid).
Context (config_part : part_of config = Some PConfig) (launcher_part : part_of launcher = Some PLauncher)
  (node_part : part_of node = Some PNode) (proxy_part : part_of proxy = Some PProxy).
Abbreviation the_launch := (launch part_of user_type user_unique user_require implements type_implements uuid
  config launcher node proxy master child location modle).
Abbreviation launched := (launched_node part_of user_type config launcher node proxy).

(** The components with an interface, of those of the root and of the groups. *)
Definition node_components (gs : list ComponentGroup) : list cid :=
  root_parts config launcher node proxy ++ (gs ≫= cg_content).
Definition with_iface (i : iface) (gs : list ComponentGroup) : list cid :=
  filter (λ c, implements i c) (node_components gs).

(** C15: when a node's tree is complete before the timer ticks, its first frame calls Awake of
    every component that has it, those of the root first and then those of the groups in
    the order of the roles, then Start of every component that has it, then Update, each
    once and in the same order, and destroys nothing; it comes to an end, and is never
    stuck on the way, in whatever order the workers of the pool finish the calls. *)
Theorem first_frame order c g roles groups :
  serve_roles master child location modle order c g = (roles, groups) →
  let gs := omap (groups !!.) (group_names roles) in
  Forall (λ g, content_ok part_of user_require (cg_content g)) gs →
  no_clash part_of user_type user_unique (gs ≫= cg_content) →
  let calls := stage_calls StAwake (with_iface IAwake gs) ++ stage_calls StStart (with_iface IStart gs) ++
    stage_calls StUpdate (with_iface IUpdate gs) in
  ∃ w root x q R f1, the_launch order c g World_Init = (w, Ret root) ∧ launched w root gs ∧
    w_objs w !! root = Some x ∧ obj_runtime x = Some q ∧ w_rts w !! q = Some R ∧ rt_root R = root ∧
    frame_begin (innerSystems R) = Some f1 ∧
    ∀ k f2, nsteps inner_step k f1 f2 →
      k ≤ 2 * length calls + 4 ∧ (f_phase f2 ≠ Idle → ∃ f3, inner_step f2 f3) ∧ (f_phase f2 = Idle → f_frame f2 = calls).
Proof.
  intros Es gs Hok Hclash calls.
  destruct (launch_run part_of user_type user_unique user_require implements type_implements uuid user_concrete config launcher
    node proxy master child location modle config_part launcher_part node_part proxy_part order c g roles groups Es Hok Hclash)
    as (w & root & E & Hn & _ & x & q & Hx & Hq & Hs).
  set (f0 := shown_frame implements (node_components gs) Frame_Init).
  assert (is_Some (frame_begin f0)) as [f1 Hb] by (unfold frame_begin, f0; rewrite shown_frame_idle; by eexists).
  exists w, root, x, q. eexists _, f1. split; [exact E|]. split; [exact Hn|]. split; [exact Hx|]. split; [exact Hq|].
  split; [exact Hs|]. split; [done|]. split; [exact Hb|]. intros k f2 Hk.
  pose proof (frame_runs implements f0 f1 k f2 (shown_frame_reachable implements _ Frame_Init) Hb Hk) as H.
  unfold f0 in H. rewrite shown_frame_plan in H. exact H.
Qed.
End first_frame.

(** ** A node in single mode whose components all wake up *)
Lemma first_frame_witness :
  let awakes (i : iface) (_ : cid) := match i with IAwake => true | _ => false end in
  ∃ w root x q R f1, launch example_parts (λ _, room) (λ _, None) (λ _, None) awakes Example.type_implements
      (λ n, n) 1 2 3 4 5 6 7 8 ["gate"; "child"; "master"] default_cluster game_groups World_Init = (w, Ret root) ∧
    w_objs w !! root = Some x ∧ obj_runtime x = Some q ∧ w_rts w !! q = Some R ∧ frame_begin (innerSystems R) = Some f1 ∧
    ∀ k f2, nsteps inner_step k f1 f2 → k ≤ 22 ∧
      (f_phase f2 = Idle → f_frame f2 = stage_calls StAwake [1; 2; 3; 4; 9; 10; 6; 5; 8]%positive).
Proof.
  intros awakes. set (S := serve_roles 5 6 7 8 ["gate"; "child"; "master"] default_cluster game_groups).
  set (gs := [mkGroup "gate" [9; 10]; mkGroup "child" [6]; mkGroup "master" [5]; mkGroup "modle" [8]]%positive).
  assert (omap (S.2 !!.) (group_names S.1) = gs) as Egs by by vm_compute.
  destruct (first_frame example_parts (λ _, room) (λ _, None) (λ _, None) awakes Example.type_implements
    (λ n, n) (λ _, eq_refl) 1 2 3 4 5 6 7 8 eq_refl eq_refl eq_refl eq_refl _ default_cluster game_groups S.1 S.2
    (surjective_pairing S)) as (w & root & x & q & R & f1 & E & _ & Hx & Hq & HR & _ & Hb & Hall); [rewrite Egs..|].
  - repeat constructor.
  - apply NoDup_no_clash. apply (bool_decide_unpack _). by vm_compute.
  - exists w, root, x, q, R, f1. split; [exact E|]. split; [exact Hx|]. split; [exact Hq|]. split; [exact HR|]. split; [exact Hb|].
    intros k f2 Hk. destruct (Hall k f2 Hk) as (H1 & _ & H3). rewrite Egs in H1, H3. split; [exact H1|exact H3].
Defined.
