(* ===== verification/Serve.v ===== *)
(** * Serve: a node from its start to its end (hBaseComponent/LauncherComponent.go)

    The sequence of Serve over what it calls: the tree of objects, the master, the
    wait group and the signals are an interface. Theorem: before the node is
    taken down every component that can be asked whether it may close has been
    asked, one that panics does not keep the others from it, and the wait group
    has been waited for. *)
From S2P Require Import Prelude Master Utils.

(** What Serve uses of the rest of the program, over its state [W]; components and
    connections to the master are known by a value of [C] and of [K]. *)
Class NodeOps (W C K : Type) := {
  add_NodeComponent : prog W unit;
  CheckNodeStatus : prog W unit;
  registerService : prog W (option string);
  add_ActorProxy : prog W unit;
  add_groups : prog W unit;                  (* master, child, location, and modle *)
  AttachGroupsTo_root : prog W (option string);
  roles : W → list string;
  wait_signal : prog W unit;                 (* a signal or [Close] *)
  remove_child : prog W unit;
  object_components : string → W → option (list C);  (* of the root's child of that name *)
  root_components : W → list C;
  CheckClose : C → option (prog W unit);     (* of an IBDestroy *)
  wait_group : prog W unit;
  wait_close : prog W unit;
  GetMasterClient : prog W (result string K);
  call_GetNodeStatus : K → prog W string;
  send_SetNodeStatus : K → string → prog W unit;
  Root_Destroy : prog W (option string);
}.

Section serve.
Context `{NodeOps W C K}.

(** Before the node waits: errors are panics. *)
Definition Serve_start : prog W unit :=
  add_NodeComponent ≫= λ _,
  CheckNodeStatus ≫= λ _,
  registerService ≫= λ err,
  (if err is Some e then panicking (PanicVal e) else mret tt) ≫= λ _,
  add_ActorProxy ≫= λ _,
  add_groups ≫= λ _,
  AttachGroupsTo_root ≫= λ err,
  (if err is Some e then panicking (PanicVal e) else mret tt).

Definition check (c : C) : prog W unit := Try (match CheckClose c with Some m => m | None => mret tt end) [].
Definition check_role (role : string) : prog W unit :=
  get_state ≫= λ w,
  match object_components role w with None => mret tt | Some l => for_each l check end.
Definition check_all : prog W unit :=
  get_state ≫= λ w,
  for_each (roles w) check_role ≫= λ _,
  get_state ≫= λ w, for_each (root_components w) check.

(** After the signal. *)
Definition drain_node (Debug : bool) : prog W unit :=
  if Debug then mret tt
  else remove_child ≫= λ _, check_all ≫= λ _, wait_group ≫= λ _, wait_close.
Definition say_goodbye : prog W unit :=
  GetMasterClient ≫= λ r,
  match r with
  | Err _ => mret tt
  | Ok client =>
      call_GetNodeStatus client ≫= λ status,
      if decide (status = NODE_STAUTE_WEBCLOSE) then send_SetNodeStatus client NODE_STAUTE_WAITPM2CLOSE else mret tt
  end.
Definition Serve (Debug : bool) : prog W unit :=
  Serve_start ≫= λ _,
  wait_signal ≫= λ _,
  drain_node Debug ≫= λ _,
  say_goodbye ≫= λ _,
  Root_Destroy ≫= λ _, mret tt.

(** *** What is asked of the components *)
Context `{EqDecision C} (asked : C → W → nat).

Definition same_tree (w w' : W) : Prop :=
  roles w' = roles w ∧ (∀ r, object_components r w' = object_components r w) ∧
  root_components w' = root_components w.

(** A question comes back, possibly by a panic though not by a fatal error, leaves the tree
    as it is and is counted. *)
Definition asks : Prop := ∀ c m w, CheckClose c = Some m →
  goes_on (m w).2 = true ∧ same_tree w (m w).1 ∧
  ∀ d, asked d (m w).1 = asked d w + (if decide (d = c) then 1 else 0).
Context (Hasks : asks).

(** How often a component that may be asked occurs. *)
Definition occurs (d : C) (l : list C) : nat :=
  if CheckClose d is Some _ then length (filter (d =.) l) else 0.
(** The components of the roles' objects and of the root. *)
Definition served (w : W) : list C :=
  concat ((λ r, default [] (object_components r w)) <$> roles w) ++ root_components w.

Lemma same_tree_trans w1 w2 w3 : same_tree w1 w2 → same_tree w2 w3 → same_tree w1 w3.
Proof. intros (A1 & A2 & A3) (B1 & B2 & B3). split; [congruence|]. split; [intros r; by rewrite B2|congruence]. Qed.
Lemma occurs_app d l k : occurs d (l ++ k) = occurs d l + occurs d k.
Proof. unfold occurs. destruct (CheckClose d); [|done]. by rewrite filter_app, length_app. Qed.

Definition asks_of (m : prog W unit) (w : W) (l : list C) : Prop :=
  ∃ w', m w = (w', Ret tt) ∧ same_tree w w' ∧ ∀ d, asked d w' = asked d w + occurs d l.
Lemma asks_nothing w : asks_of (mret tt) w [].
Proof. exists w. split; [done|]. split; [done|]. intros d. unfold occurs. destruct (CheckClose d); simpl; lia. Qed.
Lemma asks_bind (m k : prog W unit) w l1 l2 :
  asks_of m w l1 → (∀ w', same_tree w w' → asks_of k w' l2) → asks_of (m ≫= λ _, k) w (l1 ++ l2).
Proof.
  intros (w1 & E1 & T1 & A1) Hk. destruct (Hk w1 T1) as (w2 & E2 & T2 & A2).
  exists w2. rewrite (bind_Ret _ _ _ _ _ E1). split; [done|]. split; [by eapply same_tree_trans|].
  intros d. rewrite A2, A1, occurs_app. lia.
Qed.

Lemma check_asks c w : asks_of (check c) w [c].
Proof.
  unfold check, Try, recovering. destruct (CheckClose c) as [m|] eqn:Ec.
  - destruct (Hasks c m w Ec) as (Hs & Ht & Ha). destruct (m w) as [w' [[]|p|]] eqn:Em; [| |done].
    all: exists w'; (split; [rewrite Em; simpl in Hs; try destruct (fatal p); done|]); split; [done|]; intros d; rewrite Ha; unfold occurs; simpl.
    all: rewrite filter_cons; destruct (decide (d = c)) as [->|]; [by rewrite Ec|by destruct (CheckClose d)].
  - exists w. split; [done|]. split; [done|]. intros d. unfold occurs. destruct (CheckClose d) eqn:Ed; [|lia].
    rewrite filter_cons. destruct (decide (d = c)) as [->|]; [congruence|simpl; lia].
Qed.
Lemma for_each_asks {A} (f : A → prog W unit) (g : A → list C) (l : list A) w :
  (∀ a w', same_tree w w' → asks_of (f a) w' (g a)) → asks_of (for_each l f) w (concat (g <$> l)).
Proof.
  revert w. induction l as [|a l IH]; intros w Hf; simpl; [apply asks_nothing|].
  apply asks_bind; [by apply Hf|]. intros w' Ht. apply IH. intros b w'' Ht'. apply Hf. by eapply same_tree_trans.
Qed.
Lemma checks_asks l w : asks_of (for_each l check) w l.
Proof.
  assert (concat ((λ c, [c]) <$> l) = l) as El by (induction l as [|c l IH]; [done|csimpl; f_equal; exact IH]).
  rewrite <- El at 2. apply for_each_asks. intros c w' _. apply check_asks.
Qed.
Lemma check_all_asks w : asks_of check_all w (served w).
Proof.
  unfold check_all, served. change (asks_of (for_each (roles w) check_role ≫= λ _, get_state ≫= λ w0, for_each (root_components w0) check) w
    (concat ((λ r, default [] (object_components r w)) <$> roles w) ++ root_components w)).
  apply asks_bind.
  - apply for_each_asks. intros r w' (_ & Hr & _). unfold check_role.
    destruct (object_components r w') as [l|] eqn:El.
    + destruct (checks_asks l w') as (w2 & E & T & A). exists w2. unfold mbind, prog_bind, get_state.
      rewrite El. split; [done|]. split; [done|]. intros d. rewrite A. by rewrite <- Hr, El.
    + rewrite <- Hr, El. destruct (asks_nothing w') as (w2 & E & TA). exists w2.
      unfold mbind, prog_bind, get_state. rewrite El. split; [exact E|exact TA].
  - intros w' (_ & _ & Hrc). unfold mbind, prog_bind, get_state. rewrite <- Hrc. apply checks_asks.
Qed.

(** C39: Outside debug mode, from the signal on, Serve first takes the child off the
    root and then asks every component that may be asked, of the roles' objects and
    of the root, as often as it occurs there, also when others panic; only then it
    waits for the group, and goes on if that comes back. In debug mode nobody is
    asked. *)
Theorem drain_asks_everyone w w1 : remove_child w = (w1, Ret tt) →
  (∃ w2, drain_node false w = (wait_group ≫= λ _, wait_close) w2 ∧ same_tree w1 w2 ∧
     (∀ d, asked d w2 = asked d w1 + occurs d (served w1)) ∧
     (∀ d m, CheckClose d = Some m → d ∈ served w1 → asked d w1 < asked d w2)) ∧
  drain_node true w = (w, Ret tt).
Proof.
  intros Hrm. split; [|done]. destruct (check_all_asks w1) as (w2 & E & T & A).
  exists w2. unfold drain_node. rewrite (bind_Ret _ _ _ _ _ Hrm), (bind_Ret _ _ _ _ _ E).
  split; [done|]. split; [done|]. split; [done|]. intros d m Hd Hin. rewrite A. unfold occurs. rewrite Hd.
  assert (d ∈ filter (d =.) (served w1)) as Hf by by apply list_elem_of_filter.
  destruct (filter (d =.) (served w1)); [by apply elem_of_nil in Hf|simpl; lia].
Qed.
End serve.

(** ** A node with two components

    The gate's question panics, the room's adds to what the group waits for. *)
Inductive part := Gate | Room.
#[global] Instance part_eq_dec : EqDecision part.
Proof. solve_decision. Defined.
Record counts := mkCounts { gate_asked : nat; room_asked : nat; waiting : nat }.
#[local] Instance two_parts : NodeOps counts part unit := {|
  add_NodeComponent := mret tt; CheckNodeStatus := mret tt; registerService := mret None;
  add_ActorProxy := mret tt; add_groups := mret tt; AttachGroupsTo_root := mret None;
  roles := λ _, ["gate"; "unknown"]; wait_signal := mret tt; remove_child := mret tt;
  object_components := λ r _, if decide (r = "gate") then Some [Gate] else None;
  root_components := λ _, [Room];
  CheckClose := λ c, Some (match c with
    | Gate => λ w, (mkCounts (S (gate_asked w)) (room_asked w) (waiting w), Panic NilDereference)
    | Room => λ w, (mkCounts (gate_asked w) (S (room_asked w)) (S (waiting w)), Ret tt)
    end);
  wait_group := λ w, if decide (waiting w = 0) then (w, Ret tt) else (w, Stuck);
  wait_close := mret tt; GetMasterClient := mret (Err "refused");
  call_GetNodeStatus := λ _, mret ""; send_SetNodeStatus := λ _ _, mret tt; Root_Destroy := mret None |}.
Definition asked_of (c : part) (w : counts) : nat := match c with Gate => gate_asked w | Room => room_asked w end.

Lemma drain_asks_everyone_witness :
  ∃ w2, drain_node false (mkCounts 0 0 0) = (wait_group ≫= λ _, wait_close) w2 ∧
    asked_of Gate w2 = 1 ∧ asked_of Room w2 = 1 ∧ (drain_node false (mkCounts 0 0 0)).2 = Stuck.
Proof.
  destruct (drain_asks_everyone asked_of) with (w := mkCounts 0 0 0) (w1 := mkCounts 0 0 0) as [(w2 & E & _ & Ha & _) _].
  - intros [] m w [= <-]; (split; [done|]); (split; [done|]); intros []; simpl; lia.
  - reflexivity.
  - exists w2. rewrite (Ha Gate), (Ha Room). by split.
Defined.
