(* ===== verification/Child.v ===== *)
(** * Child: a node and its master (hCluster/ChildComponent.go)

    The goroutine that reports, those that connect, the callbacks of dropped
    connections and Destroy, interleaved over the component's fields and its
    lock, against the master's component of [Master]. A section under the lock
    is one step, but for Destroy's, which calls the master while it holds it, and never
    returns when the connection has just been dropped. *)
From Stdlib Require Import Ascii.
From S2P Require Import Prelude GoString Config Float64 Selector Master Launcher.

(** What pidusage says of the process: its cpu and memory, or an error. *)
Abbreviation stat := (option (float64 * float64)).
(** The function Awake gives to AddReportInfo. *)
Definition custom_collecter (s : stat) : gmap string float64 :=
  match s with
  | None => ∅
  | Some (cpu, mem) => <["cpu" := cpu]> (<["mem" := mem]> ∅)
  end.

(** Where the goroutines are. DoReport: waiting for each of its two conditions,
    making its arguments, at the top of the loop, before the test of rpcMaster,
    before the call, in the call, asleep, returned. *)
Inductive reporter :=
| RWait1 | RWait2 | RArgs
| RTop (args : NodeInfo) | RTest (args : NodeInfo) | RCall (args : NodeInfo)
| RFlight (args : NodeInfo) | RSleep (args : NodeInfo)
| RDone.
(** OnDropped before its look at [close] and before it takes the node offline;
    ConnectToMaster before an attempt and before it puts the node online. *)
Inductive connector := CDropped | COffline | CTry | COnline.
(** Destroy: not called, holding the lock, in its call, returned. *)
Inductive destroyer := DNone | DLocked | DFlight (addr : string) | DDone.
#[global] Instance connector_eq_dec : EqDecision connector.
Proof. solve_decision. Defined.

Inductive message := Report (args : NodeInfo) | Close (addr : string).
Definition is_report (m : message) : bool := if m is Report _ then true else false.

Section child.
Context `{Balancers B} (cfg : ClusterConfig).

Record ChildComponent := mkChild {
  locked : bool;                    (* the lock is held for writing, by Destroy *)
  localAddr : string;
  netAddr : string;
  rpcMaster : option nat;           (* the client, by the number of its connection *)
  reportCollecter : option (stat → gmap string float64);
  close : bool;
  isOnline : bool;                  (* the node component's *)
  alive : gset nat;                 (* connections whose drop has not been called back *)
  next : nat;                       (* the number of the next connection *)
  report : reporter;
  connectors : list connector;
  destroy : destroyer;
  panicked : bool;                  (* a goroutine has panicked: the process is gone *)
  master : MasterComponent B;
  inbox : list message;             (* what reached the master from this node *)
}.
Implicit Types s : ChildComponent.

Definition set_report (r : reporter) s : ChildComponent :=
  mkChild (locked s) (localAddr s) (netAddr s) (rpcMaster s) (reportCollecter s) (close s) (isOnline s)
    (alive s) (next s) r (connectors s) (destroy s) (panicked s) (master s) (inbox s).
Definition set_connectors (l : list connector) s : ChildComponent :=
  mkChild (locked s) (localAddr s) (netAddr s) (rpcMaster s) (reportCollecter s) (close s) (isOnline s)
    (alive s) (next s) (report s) l (destroy s) (panicked s) (master s) (inbox s).
Definition set_online (b : bool) s : ChildComponent :=
  mkChild (locked s) (localAddr s) (netAddr s) (rpcMaster s) (reportCollecter s) (close s) b
    (alive s) (next s) (report s) (connectors s) (destroy s) (panicked s) (master s) (inbox s).
Definition set_destroy (l c : bool) (d : destroyer) s : ChildComponent :=
  mkChild l (localAddr s) (netAddr s) (rpcMaster s) (reportCollecter s) c (isOnline s)
    (alive s) (next s) (report s) (connectors s) d (panicked s) (master s) (inbox s).
Definition set_alive (a : gset nat) s : ChildComponent :=
  mkChild (locked s) (localAddr s) (netAddr s) (rpcMaster s) (reportCollecter s) (close s) (isOnline s)
    a (next s) (report s) (connectors s) (destroy s) (panicked s) (master s) (inbox s).
Definition set_client (c : option nat) s : ChildComponent :=
  mkChild (locked s) (localAddr s) (netAddr s) c (reportCollecter s) (close s) (isOnline s)
    (alive s) (next s) (report s) (connectors s) (destroy s) (panicked s) (master s) (inbox s).
Definition set_panicked s : ChildComponent :=
  mkChild (locked s) (localAddr s) (netAddr s) (rpcMaster s) (reportCollecter s) (close s) (isOnline s)
    (alive s) (next s) (report s) (connectors s) (destroy s) true (master s) (inbox s).
Definition set_master (m : MasterComponent B) (box : list message) s : ChildComponent :=
  mkChild (locked s) (localAddr s) (netAddr s) (rpcMaster s) (reportCollecter s) (close s) (isOnline s)
    (alive s) (next s) (report s) (connectors s) (destroy s) (panicked s) m box.

(** [AddReportInfo]: the field is not looked at. *)
Definition AddReportInfo (field : string) (f : stat → gmap string float64) s : ChildComponent :=
  mkChild (locked s) (localAddr s) (netAddr s) (rpcMaster s) (Some f) (close s) (isOnline s)
    (alive s) (next s) (report s) (connectors s) (destroy s) (panicked s) (master s) (inbox s).

(** [Awake]: the collecter, and the two goroutines. *)
Definition Awake (m : MasterComponent B) : ChildComponent :=
  AddReportInfo "custom" custom_collecter
    (mkChild false "" "" None None false false ∅ 0 RWait1 [CTry] DNone false m []).

(** The callback of a dropped connection runs with the mutexes of its client held: until
    it has connected again, a call through that client does not return. *)
Definition in_callback s : bool := bool_decide (Exists (λ c, c ≠ COnline) (connectors s)).

(** The arguments DoReport makes once. *)
Definition report_args s : NodeInfo :=
  mkNodeInfo 0 (localAddr s) (Role cfg) (AppName cfg) None
    (Some (<["netAddr" := netAddr s]> (<["workName" := WorkName cfg]> ∅))).

(** The next step of DoReport; [st] is what the collecter is told. *)
Definition DoReport (st : stat) s : option ChildComponent :=
  match report s with
  | RWait1 =>
      if locked s then None
      else Some (set_report (if rpcMaster s is Some _ then RWait2 else RWait1) s)
  | RWait2 =>
      if locked s then None
      else Some (set_report (if decide (localAddr s = "") then RWait1 else RArgs) s)
  | RArgs => Some (set_report (RTop (report_args s)) s)
  | RTop args =>
      if locked s then None
      else if close s then Some (set_report RDone s)
      else
        let m := match reportCollecter s with Some f => f st | None => ∅ end in
        Some (set_report (RTest (mkNodeInfo (ni_Time args) (ni_Address args) (ni_Role args) (ni_AppName args)
                                   (Some m) (ni_CustomData args))) s)
  | RTest args => Some (set_report (if rpcMaster s is Some _ then RCall args else RSleep args) s)
  | RCall args =>
      match rpcMaster s with
      | None => Some (set_panicked s)
      | Some c =>
          if decide (c ∈ alive s) then Some (set_report (RFlight args) s)
          else if in_callback s then None else Some (set_report (RSleep args) s)
      end
  | RFlight args => None
  | RSleep args => Some (set_report (RTop args) s)
  | RDone => None
  end.

(** A call in flight reaches the master, whether or not its answer comes back, or
    is lost with the connection. *)
Definition deliver_report (now : Z) s : option ChildComponent :=
  match report s with
  | RFlight args =>
      let (m, _) := ReportNodeInfo now args (master s) in
      Some (set_report (RSleep args) (set_master m (inbox s ++ [Report args]) s))
  | _ => None
  end.
Definition lose_report s : option ChildComponent :=
  match report s with RFlight args => Some (set_report (RSleep args) s) | _ => None end.

(** One turn of ConnectToMaster's loop, under the lock: [conn] is the local
    address of the connection, if one is made. *)
Definition connected_addr (conn : string) : outcome string :=
  match Split ":"%char conn with
  | [] => Panic IndexOutOfRange
  | ip :: _ =>
      match Split ":"%char (LocalAddress cfg) with
      | _ :: port :: _ => Ret (ip +:+ ":" +:+ port)
      | _ => Panic IndexOutOfRange
      end
  end.
Definition attempt (conn : option string) s : ChildComponent * bool :=
  match conn with
  | None => (set_client None s, false)
  | Some conn =>
      match connected_addr conn with
      | Ret addr =>
          (mkChild (locked s) addr (if Contains (Role cfg) "gate" then NetListenAddressAlias cfg else netAddr s)
             (Some (next s)) (reportCollecter s) (close s) (isOnline s) ({[next s]} ∪ alive s) (S (next s))
             (report s) (connectors s) (destroy s) (panicked s) (master s) (inbox s), true)
      | _ => (set_panicked s, false)
      end
  end.

(** The next step of the [i]-th goroutine that connects, or that comes from a
    dropped connection. *)
Definition Connect (i : nat) (conn : option string) s : option ChildComponent :=
  match connectors s !! i with
  | None => None
  | Some CDropped =>
      if locked s then None
      else if close s then Some (set_connectors (delete i (connectors s)) s)
      else Some (set_connectors (<[i := COffline]> (connectors s)) s)
  | Some COffline => Some (set_connectors (<[i := CTry]> (connectors s)) (set_online false s))
  | Some CTry =>
      if locked s then None
      else
        let (s', ok) := attempt conn s in
        Some (if (ok : bool) then set_connectors (<[i := COnline]> (connectors s')) s' else s')
  | Some COnline => Some (set_connectors (delete i (connectors s)) (set_online true s))
  end.

(** A connection breaks: its client calls OnDropped back, in a goroutine of its own. *)
Definition OnDropped (c : nat) s : option ChildComponent :=
  if decide (c ∈ alive s)
  then Some (set_connectors (connectors s ++ [CDropped]) (set_alive (alive s ∖ {[c]}) s))
  else None.

(** The next step of Destroy with ReportClose in it, and what becomes of its call. *)
Definition Destroy s : option ChildComponent :=
  match destroy s with
  | DNone => if locked s then None else Some (set_destroy true true DLocked s)
  | DLocked =>
      match rpcMaster s with
      | Some c =>
          if decide (c ∈ alive s) then Some (set_destroy true true (DFlight (localAddr s)) s)
          else if in_callback s then None else Some (set_destroy false true DDone s)
      | None => Some (set_destroy false true DDone s)
      end
  | _ => None
  end.
Definition deliver_close (now : Z) s : option ChildComponent :=
  match destroy s with
  | DFlight addr =>
      match ReportNodeClose now addr (master s) with
      | Ret (m, _) => Some (set_destroy false true DDone (set_master m (inbox s ++ [Close addr]) s))
      | _ => None
      end
  | _ => None
  end.
Definition lose_close s : option ChildComponent :=
  match destroy s with DFlight _ => Some (set_destroy false true DDone s) | _ => None end.

(** ** Interleavings *)
Inductive event :=
| EReport (st : stat)
| EReportDelivered (now : Z)
| EReportLost
| EConnect (i : nat) (conn : option string)
| EDropped (c : nat)
| EDestroy
| ECloseDelivered (now : Z)
| ECloseLost
| EAddReportInfo (field : string) (f : stat → gmap string float64)
| EMaster (now : Z) (p : master_op).

Definition child_run (e : event) s : option ChildComponent :=
  if panicked s then None
  else match e with
       | EReport st => DoReport st s
       | EReportDelivered now => deliver_report now s
       | EReportLost => lose_report s
       | EConnect i conn => Connect i conn s
       | EDropped c => OnDropped c s
       | EDestroy => Destroy s
       | ECloseDelivered now => deliver_close now s
       | ECloseLost => lose_close s
       | EAddReportInfo field f => if locked s then None else Some (AddReportInfo field f s)
       | EMaster now p =>
           (* a panic ends the master: its tables stay as they are *)
           match master_run now p (master s) with
           | Ret m => Some (set_master m (inbox s) s)
           | Panic _ => Some s
           | Stuck => None
           end
       end.
Definition child_step s s' : Prop := ∃ e, child_run e s = Some s'.


(** ** The invariant *)

(** Goroutines that are on their way to a connection. *)
Definition trying (l : list connector) : nat := length (filter (λ c, c ≠ COnline) l).
Lemma trying_app l k : trying (l ++ k) = trying l + trying k.
Proof. unfold trying. by rewrite filter_app, length_app. Qed.
Definition tries (c : connector) : nat := if decide (c = COnline) then 0 else 1.
Lemma trying_cons c l : trying (c :: l) = tries c + trying l.
Proof. unfold trying, tries. rewrite filter_cons. repeat case_decide; naive_solver. Qed.
Lemma trying_insert l i c c' : l !! i = Some c → trying (<[i:=c']> l) + tries c = trying l + tries c'.
Proof.
  intros (l1 & l2 & -> & ->)%list_elem_of_split_length.
  rewrite insert_app_r_alt by lia. rewrite Nat.sub_diag. simpl.
  rewrite !trying_app, !trying_cons. lia.
Qed.
Lemma trying_delete l i c : l !! i = Some c → trying (delete i l) + tries c = trying l.
Proof.
  intros (l1 & l2 & -> & ->)%list_elem_of_split_length.
  rewrite delete_middle, !trying_app, trying_cons. lia.
Qed.

Definition good_args (a : NodeInfo) : Prop :=
  ni_Address a ≠ "" ∧ ni_Role a = Role cfg ∧ ni_AppName a = AppName cfg.
Definition good_report (r : reporter) (addr : string) : Prop :=
  match r with
  | RWait1 | RWait2 | RDone => True
  | RArgs => addr ≠ ""
  | RTop a | RTest a | RCall a | RFlight a | RSleep a => good_args a
  end.

Record child_ok (s : ChildComponent) : Prop := {
  co_one : size (alive s) + trying (connectors s) ≤ 1;
  co_open : close s = false → size (alive s) + trying (connectors s) = 1;
  co_client : ∀ c, c ∈ alive s → rpcMaster s = Some c;
  co_close : close s = true ↔ destroy s ≠ DNone;
  co_lock : locked s = true ↔ (destroy s = DLocked ∨ ∃ a, destroy s = DFlight a);
  co_report : good_report (report s) (localAddr s);
  co_inbox : ∀ a, Report a ∈ inbox s → good_args a;
}.

Lemma Child_Awake_ok m : child_ok (Awake m).
Proof.
  split; try done.
  - split; [done|]. by intros [|[a ?]].
  - intros a. by rewrite elem_of_nil.
Qed.

(** The fields the invariant looks at. *)
Lemma child_ok_same s s' :
  alive s' = alive s → connectors s' = connectors s → close s' = close s → rpcMaster s' = rpcMaster s →
  destroy s' = destroy s → locked s' = locked s →
  good_report (report s') (localAddr s') → (∀ a, Report a ∈ inbox s' → Report a ∈ inbox s ∨ good_args a) →
  child_ok s → child_ok s'.
Proof.
  intros E1 E2 E3 E4 E5 E6 Hr Hi [H1 H2 H3 H4 H5 H6 H7].
  split; rewrite ?E1, ?E2, ?E3, ?E4, ?E5, ?E6; try done.
  intros a Ha. destruct (Hi a Ha); auto.
Qed.
Lemma set_report_ok r s : good_report r (localAddr s) → child_ok s → child_ok (set_report r s).
Proof. intros Hg. apply child_ok_same; try done; auto. Qed.

Lemma DoReport_ok st s s' : child_ok s → DoReport st s = Some s' → child_ok s'.
Proof.
  intros Hok E. pose proof (co_report s Hok) as Hr. unfold DoReport in E.
  destruct (report s) eqn:Er; simpl in Hr; repeat case_match; simplify_eq;
    try (by apply set_report_ok); try done.
  - by eapply child_ok_same; [..|exact Hok]; simpl; rewrite ?Er; auto.
Qed.

Lemma deliver_report_ok now s s' : child_ok s → deliver_report now s = Some s' → child_ok s'.
Proof.
  intros Hok E. pose proof (co_report s Hok) as Hr. unfold deliver_report in E.
  destruct (report s) eqn:Er; simplify_eq/=.
  eapply child_ok_same; [..|exact Hok]; simpl; try done.
  intros a [|Ha%list_elem_of_singleton]%elem_of_app; [by left|]. simplify_eq. by right.
Qed.

Lemma connected_addr_ne conn addr : connected_addr conn = Ret addr → addr ≠ "".
Proof.
  unfold connected_addr. intros E. repeat case_match; simplify_eq. by destruct s.
Qed.

Lemma Connect_ok i conn s s' : child_ok s → Connect i conn s = Some s' → child_ok s'.
Proof.
  intros Hok E. destruct Hok as [H1 H2 H3 H4 H5 H6 H7]. unfold Connect in E.
  destruct (connectors s !! i) as [[]|] eqn:Ei; [| | | |done].
  - pose proof (trying_delete _ _ _ Ei) as Hd. pose proof (trying_insert _ _ _ COffline Ei) as Hi.
    change (tries CDropped) with 1 in *; change (tries COffline) with 1 in *. destruct (locked s) eqn:El, (close s) eqn:Ec; simplify_eq.
    all: split; cbn -[size trying delete insert]; rewrite ?El, ?Ec; try done; try lia.
  - pose proof (trying_insert _ _ _ CTry Ei) as Hi.
    change (tries CTry) with 1 in Hi; change (tries COffline) with 1 in Hi. simplify_eq.
    split; cbn -[size trying delete insert]; try done; try lia. intros Hc. specialize (H2 Hc). lia.
  - destruct (locked s) eqn:El; [done|].
    pose proof (trying_insert _ _ _ COnline Ei) as Hi.
    change (tries CTry) with 1 in Hi; change (tries COnline) with 0 in Hi. unfold attempt in E.
    assert (alive s = ∅) as Ea.
    { apply leibniz_equiv, size_empty_iff. lia. }
    destruct conn as [conn|]; simpl in E.
    + destruct (connected_addr conn) as [addr|p|] eqn:Ead; simpl in E; simplify_eq.
      * assert (size ({[next s]} ∪ alive s) = 1) as Hs by by rewrite Ea, union_empty_r_L, size_singleton.
        apply connected_addr_ne in Ead.
        split; cbn -[size trying delete insert union]; rewrite ?El; try done; try lia.
        -- intros c. rewrite Ea. set_solver.
        -- unfold good_report in *. by destruct (report s).
      * split; cbn -[size trying delete insert]; try done; by rewrite El.
      * split; cbn -[size trying delete insert]; try done; by rewrite El.
    + simplify_eq. split; cbn -[size trying delete insert]; rewrite ?El; try done. rewrite Ea. set_solver.
  - pose proof (trying_delete _ _ _ Ei) as Hd. change (tries COnline) with 0 in Hd. simplify_eq.
    split; cbn -[size trying delete insert]; try done; try lia; intros Hc; specialize (H2 Hc); lia.
Qed.

Lemma OnDropped_ok c s s' : child_ok s → OnDropped c s = Some s' → child_ok s'.
Proof.
  intros [H1 H2 H3 H4 H5 H6 H7] E. unfold OnDropped in E. case_decide as Hc; [|done]. simplify_eq.
  assert (size (alive s ∖ {[c]}) + 1 = size (alive s)) as Es.
  { rewrite size_difference by set_solver. rewrite size_singleton.
    assert (size (alive s) ≠ 0); [|lia]. rewrite size_non_empty_iff. set_solver. }
  assert (trying (connectors s ++ [CDropped]) = trying (connectors s) + 1) as Et by by rewrite trying_app.
  split; cbn -[size trying]; try done.
  - lia.
  - intros Hcl. specialize (H2 Hcl). lia.
  - intros c' Hc'. apply H3. set_solver.
Qed.

Lemma set_destroy_ok (l : bool) d s :
  (l = true ↔ (d = DLocked ∨ ∃ a, d = DFlight a)) → d ≠ DNone → child_ok s → child_ok (set_destroy l true d s).
Proof. intros Hl Hd [H1 H2 H3 H4 H5 H6 H7]. split; cbn -[size trying]; try done. Qed.

Lemma Destroy_ok s s' : child_ok s → Destroy s = Some s' → child_ok s'.
Proof.
  intros Hok E. unfold Destroy in E. repeat case_match; simplify_eq; apply set_destroy_ok; try done;
    (split; [by eauto|by intros [|[]]]).
Qed.
Lemma set_master_ok m s : child_ok s → child_ok (set_master m (inbox s) s).
Proof. intros Hok. by eapply child_ok_same; [..|exact Hok]; simpl; try done; [by destruct Hok|auto]. Qed.
Lemma deliver_close_ok now s s' : child_ok s → deliver_close now s = Some s' → child_ok s'.
Proof.
  intros Hok E. unfold deliver_close in E. repeat case_match; simplify_eq.
  apply set_destroy_ok; [split; [done|by intros [|[]]]|done|].
  eapply child_ok_same; [..|exact Hok]; simpl; try done; [by destruct Hok|].
  intros a [|Ha%list_elem_of_singleton]%elem_of_app; [by left|done].
Qed.

Lemma child_run_ok e s s' : child_ok s → child_run e s = Some s' → child_ok s'.
Proof.
  intros Hok E. unfold child_run in E. destruct (panicked s); [done|]. destruct e; simpl in E.
  - by eapply DoReport_ok.
  - by eapply deliver_report_ok.
  - unfold lose_report in E. pose proof (co_report s Hok). destruct (report s); simplify_eq. by apply set_report_ok.
  - by eapply Connect_ok.
  - by eapply OnDropped_ok.
  - by eapply Destroy_ok.
  - by eapply deliver_close_ok.
  - unfold lose_close in E. destruct (destroy s); simplify_eq.
    apply set_destroy_ok; [split; [done|by intros [|[]]]|done|done].
  - destruct (locked s) eqn:El; simplify_eq.
    by eapply child_ok_same; [..|exact Hok]; simpl; try done; [by destruct Hok|auto].
  - destruct (master_run now p (master s)); simplify_eq; [by apply set_master_ok|done].
Qed.
Lemma child_reachable_ok m s : rtc child_step (Awake m) s → child_ok s.
Proof.
  apply rtc_preserves; [|apply Child_Awake_ok]. intros s1 s2 Hok [e E]. by eapply child_run_ok.
Qed.

(** C9: However the goroutines of a node, its connections and the master's other
    callers interleave: the node holds at most one connection to its master, and
    that is the one it uses; until it is destroyed it always has one or exactly
    one goroutine on its way to one; and every report that reaches the master
    names a non-empty address and the role and application configured. *)
Theorem child_invariant m s : rtc child_step (Awake m) s →
  size (alive s) + trying (connectors s) ≤ 1 ∧
  (∀ c, c ∈ alive s → rpcMaster s = Some c) ∧
  (close s = false → size (alive s) + trying (connectors s) = 1) ∧
  (locked s = true → destroy s ≠ DNone ∧ close s = true) ∧
  (∀ a, Report a ∈ inbox s → good_args a).
Proof.
  intros [H1 H2 H3 H4 H5 H6 H7]%child_reachable_ok.
  split; [done|]. split; [done|]. split; [done|]. split; [|done].
  intros Hl%H5. assert (destroy s ≠ DNone) as Hd by (by destruct Hl as [->|[a ->]]). tauto.
Qed.

(** *** After Destroy *)
Definition reports (l : list message) : nat := length (filter (λ m, is_report m = true) l).
(** Whether a report is past the look at [close]. *)
Definition under_way (r : reporter) : nat :=
  match r with RTest _ | RCall _ | RFlight _ => 1 | _ => 0 end.

Lemma reports_app l k : reports (l ++ k) = reports l + reports k.
Proof. unfold reports. by rewrite filter_app, length_app. Qed.

Lemma attempt_rest conn s : let s' := (attempt conn s).1 in
  close s' = close s ∧ inbox s' = inbox s ∧ report s' = report s.
Proof. destruct conn as [conn|]; simpl; [|done]. by destruct (connected_addr conn). Qed.

Lemma closed_step e s s' : close s = true → child_run e s = Some s' →
  close s' = true ∧ reports (inbox s') + under_way (report s') ≤ reports (inbox s) + under_way (report s).
Proof.
  intros Hc E. unfold child_run in E. destruct (panicked s); [done|].
  destruct e as [st|now| |i conn|c| |now| |f g|now p]; simpl in E.
  - unfold DoReport in E. destruct (report s) eqn:Er; repeat case_match; simplify_eq; simpl; rewrite ?Er; simpl; split; (done || lia).
  - unfold deliver_report in E. destruct (report s); simplify_eq/=. split; [done|]. rewrite reports_app.
    unfold reports at 2. simpl. lia.
  - unfold lose_report in E. destruct (report s); simplify_eq/=. split; [done|lia].
  - unfold Connect in E. destruct (connectors s !! i) as [[]|]; simplify_eq; try (split; [done|simpl; lia]).
    + destruct (locked s); [done|]. rewrite Hc in E. simplify_eq. by split.
    + destruct (locked s); [done|]. destruct (attempt_rest conn s) as (E1 & E2 & E3).
      destruct (attempt conn s) as [s1 [|]]; simplify_eq/=; rewrite E1, E2, E3; by split.
  - unfold OnDropped in E. case_decide; simplify_eq. by split.
  - unfold Destroy in E. repeat case_match; simplify_eq; by split.
  - unfold deliver_close in E. repeat case_match; simplify_eq; simpl. split; [done|].
    rewrite reports_app. unfold reports at 2. simpl. lia.
  - unfold lose_close in E. repeat case_match; simplify_eq; by split.
  - destruct (locked s); simplify_eq. by split.
  - repeat case_match; simplify_eq; by split.
Qed.

(** Once Destroy has taken the lock, at most the report that is under way still
    reaches the master, and none when none is; the loop of DoReport then stops at
    its next turn. *)
Theorem reports_after_close s s' : close s = true → rtc child_step s s' →
  reports (inbox s') ≤ reports (inbox s) + under_way (report s) ∧
  ∀ st a s2, report s' = RTop a → DoReport st s' = Some s2 → report s2 = RDone.
Proof.
  intros Hc Hr.
  assert (close s' = true ∧ reports (inbox s') + under_way (report s') ≤ reports (inbox s) + under_way (report s))
    as [Hc' Hle].
  { induction Hr as [|s1 s2 s3 [e E] Hr IH]; [by split|].
    destruct (closed_step e s1 s2 Hc E) as [Hc2 Hle]. destruct (IH Hc2). split; [done|lia]. }
  split; [lia|]. intros st a s2 Er E. unfold DoReport in E. rewrite Er, Hc' in E.
  destruct (locked s'); by simplify_eq.
Qed.
(** *** Destroy and a dropped connection *)

(** Destroy holds the lock and is about to call through a client whose callback is on its
    way to the lock. *)
Record deadlocked (s : ChildComponent) : Prop := {
  dl_lock : locked s = true;
  dl_destroy : destroy s = DLocked;
  dl_client : is_Some (rpcMaster s);
  dl_dropped : alive s = ∅;
  dl_callback : in_callback s = true }.

Lemma deadlocked_step e s s' : deadlocked s → child_run e s = Some s' → deadlocked s'.
Proof.
  intros [Hl Hd [c Hc] Ha Hb] E. unfold child_run in E. destruct (panicked s); [done|].
  destruct e as [st|now| |i conn|d| |now| |f g|now p]; simpl in E.
  - unfold DoReport in E. rewrite Hl, Hc, Ha, Hb in E. destruct (report s); simplify_eq; by split; simpl; try by eexists.
  - unfold deliver_report in E. destruct (report s); simplify_eq/=. by split; simpl; try by eexists.
  - unfold lose_report in E. destruct (report s); simplify_eq. by split; simpl; try by eexists.
  - unfold Connect in E. rewrite Hl in E. unfold in_callback in Hb. apply bool_decide_eq_true, Exists_exists in Hb as (k & Hk & Hne).
    destruct (connectors s !! i) as [[]|] eqn:Ei; simplify_eq.
    + split; simpl; try done. unfold in_callback. simpl. apply bool_decide_eq_true, Exists_exists.
      exists CTry. split; [|done]. apply list_elem_of_insert. by eapply lookup_lt_Some.
    + split; simpl; try done. unfold in_callback. simpl. apply bool_decide_eq_true, Exists_exists.
      exists k. split; [|done]. rewrite <- (take_drop_middle _ _ _ Ei) in Hk. rewrite delete_take_drop.
      rewrite !elem_of_app, elem_of_cons in Hk. rewrite elem_of_app. naive_solver.
  - unfold OnDropped in E. rewrite Ha in E. case_decide; set_solver.
  - unfold Destroy in E. rewrite Hd, Hc, Ha, Hb in E. case_decide; [set_solver|done].
  - unfold deliver_close in E. by rewrite Hd in E.
  - unfold lose_close in E. by rewrite Hd in E.
  - by rewrite Hl in E.
  - destruct (master_run now p (master s)); simplify_eq; by split; simpl; try by eexists.
Qed.
Lemma deadlocked_forever s s' : deadlocked s → rtc child_step s s' → destroy s' = DLocked ∧ locked s' = true.
Proof.
  intros Hs Hr. assert (deadlocked s') as []; [|done].
  eapply (rtc_preserves child_step deadlocked); [|exact Hs|exact Hr]. intros s1 s2 H1 [e E]. by eapply deadlocked_step.
Qed.
End child.

(** ** Concrete runs *)
Definition node_cfg : ClusterConfig :=
  mkCluster 1 "10.0.0.1:6666" "0.0.0.0:7001" "app" "work" ["gate"] ∅ 3000 9000 5000 3000 true 500 9000
    "0.0.0.0:5555" "gate.example:5555" "".
Definition the_master : MasterComponent SetBalancers := Master_Awake no_hosts.
Definition from_awake (l : list event) : option ChildComponent := runs (child_run node_cfg) l (Awake the_master).

Definition connecting : list event := [EConnect 0 (Some "10.0.0.5:40000"); EConnect 0 None].
Definition to_call : list event := connecting ++ replicate 5 (EReport None).
Definition reporting : list event := to_call ++ [EReport None].
Definition dropping : list event := [EDropped 0; EConnect 0 None; EConnect 0 None; EConnect 0 None].
(** The connection fails between the test of rpcMaster and the call. *)
Definition nil_call : list event := to_call ++ dropping ++ [EReport None].
(** The goroutine that connected puts the node online after the drop. *)
Definition late_online : list event :=
  [EConnect 0 (Some "10.0.0.5:40000"); EDropped 0; EConnect 1 None; EConnect 1 None; EConnect 1 None; EConnect 0 None].
(** Destroy closes the node while a report is in flight. *)
Definition destroying : list event := reporting ++ [EDestroy].
Definition late_report : list event :=
  destroying ++ [EDestroy; ECloseDelivered 8; EReportDelivered 9].
(** Destroy while a goroutine reconnects. *)
Definition still_connecting : list event :=
  connecting ++ dropping ++ [EDestroy; EDestroy; EConnect 0 (Some "10.0.0.5:40001"); EConnect 0 None].

(** The connection fails, and Destroy is faster than its callback. *)
Definition drop_and_destroy : list event := connecting ++ [EDropped 0; EDestroy].

Lemma from_awake_reached l s : from_awake l = Some s → rtc (child_step node_cfg) (Awake the_master) s.
Proof. apply (runs_steps (child_run node_cfg)). Qed.

(** What can be seen of the state a run reaches. *)
Lemma observe {T} (f : ChildComponent → T) l v :
  f <$> from_awake l = Some v → ∃ s, from_awake l = Some s ∧ rtc (child_step node_cfg) (Awake the_master) s ∧ f s = v.
Proof. intros (s & E0 & E)%fmap_Some. exists s. split; [done|]. split; [by apply (from_awake_reached l)|done]. Qed.

Lemma continue l k s s' :
  from_awake l = Some s → from_awake (l ++ k) = Some s' → rtc (child_step node_cfg) s s'.
Proof.
  unfold from_awake. rewrite runs_app. intros -> E. exact (runs_steps (child_run node_cfg) k s s' E).
Qed.
Definition listed (s : @ChildComponent SetBalancers) : gset string := dom (mc_Nodes (master s)).

Lemma child_invariant_witness : ∃ s,
  from_awake (reporting ++ [EReportDelivered 7]) = Some s ∧ listed s = {["10.0.0.5:7001"]} ∧
  (size (alive s) + trying (connectors s) ≤ 1 ∧
   (∀ c, c ∈ alive s → rpcMaster s = Some c) ∧
   (close s = false → size (alive s) + trying (connectors s) = 1) ∧
   (locked s = true → destroy s ≠ DNone ∧ close s = true) ∧
   (∀ a, Report a ∈ inbox s → good_args node_cfg a)).
Proof.
  destruct (observe listed (reporting ++ [EReportDelivered 7]) {["10.0.0.5:7001"]}) as (s & E & Hr & Hl);
    [vm_compute; reflexivity|].
  exists s. split; [done|]. split; [done|]. exact (child_invariant node_cfg the_master s Hr).
Defined.

Lemma reports_after_close_witness : ∃ s s' : @ChildComponent SetBalancers,
  close s = true ∧ reports (inbox s) = 0 ∧ reports (inbox s') = 1 ∧
  (reports (inbox s') ≤ reports (inbox s) + under_way (report s) ∧
   ∀ st a s2, report s' = RTop a → DoReport node_cfg st s' = Some s2 → report s2 = RDone).
Proof.
  destruct (observe (λ s, (close s, reports (inbox s))) destroying (true, 0)) as (s & E & _ & Hs);
    [vm_compute; reflexivity|].
  destruct (observe (λ s, reports (inbox s)) late_report 1) as (s' & E' & _ & Hs'); [vm_compute; reflexivity|].
  injection Hs as Hc Hn. exists s, s'. split; [done|]. split; [done|]. split; [done|].
  exact (reports_after_close node_cfg s s' Hc (continue destroying _ s s' E E')).
Defined.

(** What the interleavings reach that the code does not mean: DoReport calls
    through a nil client, which is a panic of the process, when the connection
    fails between its test and its call; a node is online without a connection
    when the goroutine that connected is slower than the drop; a report in flight
    lists a node again after its close; and Destroy does not stop a goroutine
    that connects, which puts the node online again. *)
Theorem child_races :
  (∃ s, rtc (child_step node_cfg) (Awake the_master) s ∧ close s = false ∧ panicked s = true) ∧
  (∃ s, rtc (child_step node_cfg) (Awake the_master) s ∧ isOnline s = true ∧ alive s = ∅ ∧ rpcMaster s = None) ∧
  (∃ s, rtc (child_step node_cfg) (Awake the_master) s ∧ destroy s = DDone ∧ listed s = {["10.0.0.5:7001"]} ∧
     is_report <$> inbox s = [false; true]) ∧
  (∃ s, rtc (child_step node_cfg) (Awake the_master) s ∧ destroy s = DDone ∧ isOnline s = true ∧ alive s = {[1]}).
Proof.
  split; [|split; [|split]].
  - destruct (observe (λ s, (close s, panicked s)) nil_call (false, true)) as (s & _ & Hr & Hs);
      [vm_compute; reflexivity|]. exists s. by simplify_eq.
  - destruct (observe (λ s, (isOnline s, alive s, rpcMaster s)) late_online (true, ∅, None)) as (s & _ & Hr & Hs);
      [vm_compute; reflexivity|]. exists s. by simplify_eq.
  - destruct (observe (λ s, (destroy s, listed s, is_report <$> inbox s)) late_report
      (DDone, {["10.0.0.5:7001"]}, [false; true])) as (s & _ & Hr & Hs); [vm_compute; reflexivity|].
    exists s. by simplify_eq.
  - destruct (observe (λ s, (destroy s, isOnline s, alive s)) still_connecting (DDone, true, {[1]})) as (s & _ & Hr & Hs);
      [vm_compute; reflexivity|]. exists s. by simplify_eq.
Qed.

(** When the connection to the master fails just before Destroy, whose lock the callback
    then waits for while Destroy waits for the callback's client, Destroy never returns. *)
Theorem Destroy_deadlocks : ∃ s, rtc (child_step node_cfg) (Awake the_master) s ∧
  ∀ s', rtc (child_step node_cfg) s s' → destroy s' = DLocked ∧ locked s' = true.
Proof.
  destruct (observe (λ s, (locked s, destroy s, rpcMaster s, alive s, in_callback s)) drop_and_destroy
    (true, DLocked, Some 0, ∅, true)) as (s & _ & Hr & Hs); [vm_compute; reflexivity|].
  exists s. split; [done|]. intros s'. injection Hs as Hl Hd Hc Ha Hb.
  apply (deadlocked_forever node_cfg). by split; [..|exists 0| |].
Qed.
