(* ===== verification/Cluster.v ===== *)
(** * Cluster: any number of nodes and their master

    The composition of [Child] and [Master]: every node runs its component's
    goroutines against one master, whose own handlers and time-out loop run in
    between, and whose process ends when one of its handlers panics. Theorems: what the
    master lists are nodes that have reported, under their own address, role and
    application, and whoever is heard of often enough is listed and found by a look-up
    for its role, as long as no call has ended the master. *)
From S2P Require Import Prelude Config Selector Master Node Child.

Section cluster.
Context `{BalancerLaws B} (cfg : nat → ClusterConfig).

(** The component of a node is a [ChildComponent]; its field for the master is
    filled in with the one master when it takes a step. *)
Record cluster := mkCluster' {
  the_master : MasterComponent B;
  nodes : gmap nat (@ChildComponent B);
  ended : bool }.                          (* the master's process *)
Definition sees (m : MasterComponent B) (s : ChildComponent) : ChildComponent := set_master m (inbox s) s.

Inductive cluster_event :=
| CJoin (i : nat)                          (* a node's component awakes *)
| CNode (i : nat) (e : Child.event)        (* a step of a node *)
| CMaster (now : Z) (p : master_op).       (* anybody's query, the time-out loop *)

(** Nodes report and close themselves through their component only. *)
Definition of_master (p : master_op) : bool :=
  match p with MReport _ | MClose _ => false | _ => true end.

(** What a node's call needs the master for. *)
Definition arrives (e : Child.event) : bool :=
  match e with EReportDelivered _ | ECloseDelivered _ => true | _ => false end.

Definition cluster_run (e : cluster_event) (c : cluster) : option cluster :=
  match e with
  | CJoin i =>
      if nodes c !! i is Some _ then None
      else Some (mkCluster' (the_master c) (<[i := Awake (the_master c)]> (nodes c)) (ended c))
  | CNode i e =>
      match e, nodes c !! i with
      | EMaster _ _, _ | _, None => None
      | e, Some s =>
          if arrives e && ended c then None
          else
            s' ← child_run (cfg i) e (sees (the_master c) s);
            Some (mkCluster' (Child.master s') (<[i := s']> (nodes c)) (ended c))
      end
  | CMaster now p =>
      if of_master p && negb (ended c)
      then match master_run now p (the_master c) with
           | Ret m => Some (mkCluster' m (nodes c) false)
           | Panic _ => Some (mkCluster' (the_master c) (nodes c) true)
           | Stuck => None
           end
      else None
  end.
(** The loops of the master visit what there is. *)
Definition permitted (e : cluster_event) (c : cluster) : Prop :=
  match e with CMaster _ p => allowed p (the_master c) | _ => True end.
Definition cluster_step (c c' : cluster) : Prop := ∃ e, permitted e c ∧ cluster_run e c = Some c'.
Definition no_nodes (b : B) : cluster := mkCluster' (Master_Awake b) ∅ false.

(** ** What a step of a node does to the master *)
Definition reports_now (i : nat) (now : Z) (a : NodeInfo) (c : cluster) : Prop :=
  ∃ s, nodes c !! i = Some s ∧ report s = RFlight a.
Definition closes_now (i : nat) (addr : string) (c : cluster) : Prop :=
  ∃ s, nodes c !! i = Some s ∧ destroy s = DFlight addr.

Lemma child_run_master i e m s s' :
  (∀ now p, e ≠ EMaster now p) → child_run (cfg i) e (sees m s) = Some s' →
  (Child.master s' = m ∧ inbox s' = inbox s) ∨
  (∃ now a, e = EReportDelivered now ∧ report s = RFlight a ∧
     Child.master s' = UpdateNodeInfo now a m ∧ inbox s' = inbox s ++ [Report a]) ∨
  (∃ now addr, e = ECloseDelivered now ∧ destroy s = DFlight addr ∧
     NodeClose now addr m = Ret (Child.master s') ∧ inbox s' = inbox s ++ [Child.Close addr]).
Proof.
  intros Hne E. unfold child_run in E. destruct (panicked (sees m s)); [done|].
  destruct e as [st|now| |j conn|k| |now| |f g|now p]; simpl in E.
  - left. unfold DoReport in E. repeat case_match; by simplify_eq.
  - right; left. unfold deliver_report in E. destruct (report (sees m s)) as [| | | | | |a| |] eqn:Er; simplify_eq/=.
    by exists now, a.
  - left. unfold lose_report in E. repeat case_match; by simplify_eq.
  - left. unfold Connect in E. destruct (connectors (sees m s) !! j) as [[]|]; repeat case_match; simplify_eq/=; try done;
      unfold attempt in *; repeat case_match; by simplify_eq.
  - left. unfold OnDropped in E. repeat case_match; by simplify_eq.
  - left. unfold Destroy in E. repeat case_match; by simplify_eq.
  - right; right. unfold deliver_close in E. destruct (destroy (sees m s)) as [| |addr|] eqn:Ed; try done.
    unfold ReportNodeClose in E. simpl in E. destruct (NodeClose now addr m) as [m'|p|] eqn:Ec; simpl in E; simplify_eq.
    exists now, addr. by rewrite Ec.
  - left. unfold lose_close in E. repeat case_match; by simplify_eq.
  - left. repeat case_match; by simplify_eq.
  - by destruct (Hne now p).
Qed.

(** *** What the master's own steps leave *)
Lemma NodeClose_leaves now addr (m m' : MasterComponent B) : NodeClose now addr m = Ret m' →
  mc_Nodes m' = delete addr (mc_Nodes m) ∧ mc_timeoutChecking m' = delete addr (mc_timeoutChecking m).
Proof. unfold NodeClose. intros (log & _ & E)%outcome_bind_Ret. by simplify_eq/=. Qed.
Lemma TimeoutCheck_leaves now addrs (m m' : MasterComponent B) :
  TimeoutCheck now addrs m = Ret m' → mc_Nodes m' ⊆ mc_Nodes m.
Proof.
  revert m. induction addrs as [|addr addrs IH]; intros m E; simpl in E; [by simplify_eq|].
  destruct (mc_timeoutChecking m !! addr) as [n|]; [|by apply IH].
  apply outcome_bind_Ret in E as (m1 & E1 & E2). apply IH in E2. case_decide.
  - apply NodeClose_leaves in E1 as [E1 _]. simpl in E1. rewrite E1 in E2. etrans; [done|apply delete_subseteq].
  - by simplify_eq/=.
Qed.
Lemma of_master_leaves now p (m m' : MasterComponent B) :
  of_master p = true → master_run now p m = Ret m' → mc_Nodes m' ⊆ mc_Nodes m.
Proof.
  intros Hp E. destruct p as [|addr|addrs|args|Intn fuel ns args detail]; try done; simpl in E.
  - by apply TimeoutCheck_leaves in E.
  - unfold SetNodeStatus_handler in E. repeat case_match; by simplify_eq/=.
  - unfold Master_NodeInquiry in E. destruct (DoQuery _ _ _ _ _ _ _) as [b' [r|pn|]]; by simplify_eq/=.
Qed.

(** ** The invariant *)

(** Some node has reported what the master lists. *)
Definition reported (c : cluster) (addr : string) (info : NodeInfo) : Prop :=
  ∃ i s a, nodes c !! i = Some s ∧ Report a ∈ inbox s ∧
    ni_Address a = addr ∧ ni_Role a = ni_Role info ∧ ni_AppName a = ni_AppName info.
Record cluster_ok (c : cluster) : Prop := {
  cl_master : master_ok (the_master c);
  cl_child : ∀ i s, nodes c !! i = Some s → child_ok (cfg i) s;
  cl_listed : ∀ addr info, mc_Nodes (the_master c) !! addr = Some info → reported c addr info;
}.

Lemma no_nodes_ok b : (∀ k, lb_hosts k b = ∅) → cluster_ok (no_nodes b).
Proof. intros Hb. split; simpl; [by apply Master_Awake_ok|done..]. Qed.

Lemma reported_grows c c' addr info :
  (∀ i s, nodes c !! i = Some s → ∃ s', nodes c' !! i = Some s' ∧ ∀ x, x ∈ inbox s → x ∈ inbox s') →
  reported c addr info → reported c' addr info.
Proof.
  intros Hg (i & s & a & Hi & Ha & H1 & H2 & H3). destruct (Hg i s Hi) as (s' & Hi' & Hin).
  exists i, s', a. auto.
Qed.
Lemma node_event_run i e c c' s :
  nodes c !! i = Some s → cluster_run (CNode i e) c = Some c' →
  (∀ now p, e ≠ EMaster now p) ∧ ∃ s', child_run (cfg i) e (sees (the_master c) s) = Some s' ∧
    c' = mkCluster' (Child.master s') (<[i := s']> (nodes c)) (ended c).
Proof.
  intros Ei E. split; [intros now p ->; done|]. simpl in E. rewrite Ei in E.
  destruct e; try done; destruct (_ && ended c); try done;
    apply bind_Some in E as (s' & Es & E); simplify_eq; by exists s'.
Qed.
(** A step of the master: a handler that returns, or one that ends it. *)
Lemma master_event_run now p c c' : cluster_run (CMaster now p) c = Some c' →
  of_master p = true ∧ ended c = false ∧
  ((∃ m', master_run now p (the_master c) = Ret m' ∧ c' = mkCluster' m' (nodes c) false) ∨
   (∃ pn, master_run now p (the_master c) = Panic pn ∧ c' = mkCluster' (the_master c) (nodes c) true)).
Proof.
  simpl. intros E. destruct (of_master p), (ended c); try done. split; [done|]. split; [done|].
  destruct (master_run _ _ _) as [m'|pn|]; simplify_eq/=; [left|right]; by eexists.
Qed.

(** Nothing that has arrived is taken back. *)
Lemma reported_step c c' addr info : cluster_step c c' → reported c addr info → reported c' addr info.
Proof.
  intros (e & _ & E). apply reported_grows. intros j t Hj. destruct e as [i|i e|now p].
  - simpl in E. destruct (nodes c !! i) eqn:Ei; simplify_eq. exists t. simpl.
    rewrite lookup_insert_ne; [done|congruence].
  - destruct (nodes c !! i) as [s|] eqn:Ei; [|simpl in E; rewrite Ei in E; by destruct e].
    destruct (node_event_run i e c c' s Ei E) as (Hne & s' & Es & ->). simpl.
    destruct (decide (j = i)) as [->|]; [|rewrite lookup_insert_ne by done; by exists t].
    rewrite lookup_insert_eq. exists s'. split; [done|]. assert (t = s) as -> by congruence. intros x Hx.
    destruct (child_run_master i e (the_master c) s s' Hne Es)
      as [[_ ->]|[(? & ? & _ & _ & _ & ->)|(? & ? & _ & _ & _ & ->)]]; [done|apply elem_of_app; by left..].
  - apply master_event_run in E as (_ & _ & [(m' & _ & ->)|(pn & _ & ->)]); by exists t.
Qed.

Lemma cluster_step_ok c c' : cluster_ok c → cluster_step c c' → cluster_ok c'.
Proof.
  intros Hok Hstep. pose proof (λ ad info, reported_step c c' ad info Hstep) as Hkeep.
  destruct Hstep as (e & Hal & E). pose proof Hok as [Hm Hc Hl]. destruct e as [i|i e|now p].
  - simpl in E. destruct (nodes c !! i) eqn:Ei; simplify_eq. split; simpl; [done| |].
    + intros j s [[<- <-]|[? Hj]]%lookup_insert_Some; [apply Child_Awake_ok|by apply Hc].
    + intros addr info Hi. by apply Hkeep, Hl.
  - destruct (nodes c !! i) as [s|] eqn:Ei; [|simpl in E; rewrite Ei in E; by destruct e].
    destruct (node_event_run i e c c' s Ei E) as (Hne & s' & Es & ->).
    assert (child_ok (cfg i) s') as Hs'.
    { eapply child_run_ok; [|exact Es]. by apply set_master_ok, Hc. }
    destruct (child_run_master i e (the_master c) s s' Hne Es)
      as [[Em Ei']|[(now & a & -> & Er & Em & Ei')|(now & addr & -> & Ed & Em & Ei')]];
      (split; simpl;
        [|intros j t [[<- <-]|[? Hj]]%lookup_insert_Some; [exact Hs'|by apply Hc]|intros ad info Hi]).
    + by rewrite Em.
    + rewrite Em in Hi. by apply Hkeep, Hl.
    + rewrite Em. by apply UpdateNodeInfo_ok.
    + rewrite Em in Hi. unfold UpdateNodeInfo in Hi. simpl in Hi.
      apply lookup_insert_Some in Hi as [[<- <-]|[_ Hi]]; [|by apply Hkeep, Hl].
      exists i, s', a. simpl. rewrite lookup_insert_eq, Ei'. split; [done|]. split; [|done].
      apply elem_of_app. right. by left.
    + destruct (NodeClose_ok now addr (the_master c) None Hm) as (m' & E' & Hok' & _); [by left|].
      destruct (the_master c) as [ns st lg tc lb]; simpl in *. rewrite Em in E'. by simplify_eq.
    + apply NodeClose_leaves in Em as [Em _]. rewrite Em in Hi.
      apply lookup_delete_Some in Hi as [_ Hi]. by apply Hkeep, Hl.
  - apply master_event_run in E as (Hp & _ & [(m' & E' & ->)|(pn & _ & ->)]);
      (split; simpl; [|done|]); try done.
    + by eapply master_run_ok.
    + intros addr info Hi. pose proof (of_master_leaves _ _ _ _ Hp E') as Hsub.
      apply Hkeep, Hl. by eapply lookup_weaken.
Qed.
Lemma cluster_reachable_ok b c : (∀ k, lb_hosts k b = ∅) → rtc cluster_step (no_nodes b) c → cluster_ok c.
Proof.
  intros Hb. exact (rtc_preserves _ _ _ _ cluster_step_ok (no_nodes_ok b Hb)).
Qed.

(** ** Who is heard of *)
Definition closes (addr : string) (e : cluster_event) (c : cluster) : Prop :=
  match e with CNode i (ECloseDelivered _) => closes_now i addr c | _ => False end.
Definition ticks (e : cluster_event) : nat := match e with CMaster _ p => turns p | _ => 0 end.
(** Steps in which nobody closes [addr], with the turns of the time-out loop. *)
Inductive unclosed (addr : string) : nat → cluster → cluster → Prop :=
| unclosed_refl c : unclosed addr 0 c c
| unclosed_step e c1 c2 c3 t :
    permitted e c1 → cluster_run e c1 = Some c2 → ¬ closes addr e c1 →
    unclosed addr t c2 c3 → unclosed addr (ticks e + t) c1 c3.

Definition recent (addr : string) (t : nat) (m : MasterComponent B) : Prop :=
  ∃ n, mc_timeoutChecking m !! addr = Some n ∧ (n ≤ Z.of_nat t)%Z.

Lemma recent_step addr t e c c' :
  cluster_ok c → permitted e c → cluster_run e c = Some c' → ¬ closes addr e c →
  t + ticks e ≤ 3 → recent addr t (the_master c) → recent addr (t + ticks e) (the_master c').
Proof.
  intros [Hm Hc Hl] Hal E Hcl Ht (n & Hn & Hle). destruct e as [i|i e|now p]; simpl in E, Ht |- *.
  - destruct (nodes c !! i); simplify_eq. exists n. simpl. rewrite Nat.add_0_r. done.
  - rewrite Nat.add_0_r. destruct (nodes c !! i) as [s|] eqn:Ei; [|by destruct e].
    assert (cluster_run (CNode i e) c = Some c') as E' by (simpl; by rewrite Ei).
    destruct (node_event_run i e c c' s Ei E') as (Hne & s' & Es & ->). simpl. destruct (child_run_master i e (the_master c) s s' Hne Es)
      as [[Em _]|[(now & a & -> & Er & Em & _)|(now & ad & -> & Ed & Em & _)]].
    + rewrite Em. by exists n.
    + rewrite Em. unfold UpdateNodeInfo, recent. simpl.
      destruct (decide (ni_Address a = addr)) as [->|Hna].
      * exists 0%Z. rewrite lookup_insert_eq. split; [done|lia].
      * exists n. by rewrite lookup_insert_ne.
    + apply NodeClose_leaves in Em as [_ Em]. exists n. rewrite Em. split; [|done].
      rewrite lookup_delete_ne; [done|]. intros ->. apply Hcl. by exists s.
  - apply master_event_run in E as (Hp & _ & [(m' & Em & ->)|(pn & _ & ->)]); [|exists n; simpl; split; [done|lia]].
    assert (not_about addr p) as Hna by by destruct p.
    pose proof (silent_step_count addr now p (the_master c) m' Hm Hal Hna Em) as Hcount. simpl.
    rewrite Hn in Hcount. unfold recent. rewrite Hcount. destruct (decide (turns p = 1)) as [E1|E1].
    + rewrite E1 in Ht |- *. simpl. unfold tick_count. rewrite decide_False by lia. eexists. split; [done|lia].
    + assert (turns p = 0) as -> by (by destruct p). exists n. split; [done|lia].
Qed.
Lemma unclosed_recent addr t k c c' :
  cluster_ok c → unclosed addr t c c' → k + t ≤ 3 → recent addr k (the_master c) →
  recent addr (k + t) (the_master c') ∧ cluster_ok c'.
Proof.
  intros Hok Hu. revert k Hok. induction Hu as [c|e c1 c2 c3 t Hal E Hcl Hu IH]; intros k Hok Hk Hr.
  - by rewrite Nat.add_0_r.
  - rewrite Nat.add_assoc. apply IH; [|lia|].
    + eapply cluster_step_ok; [done|by exists e].
    + eapply recent_step; eauto. lia.
Qed.

(** The answer to a look-up of a group at the master; a call to a process that is gone
    fails. *)
Definition look_up (draw : nat → Z) (fuel : nat) (c : cluster) (order : list (string * NodeInfo)) (app role : string) :=
  if ended c then Err "connection is shut down"
  else master_answer draw fuel order (the_master c) [app; role; SELECTOR_TYPE_GROUP].

Definition numbers_drawn (e : cluster_event) : Prop := match e with CMaster _ p => drawn p | _ => True end.
(** The calls that end the master. *)
Definition ends_process (e : cluster_event) : bool := match e with CMaster _ p => ends_master p | _ => false end.

Lemma ending_ends e c c' :
  cluster_ok c → ended c = false → permitted e c → numbers_drawn e → cluster_run e c = Some c' → ended c' = ends_process e.
Proof.
  intros [Hm _ _] Hc Hal Hd E. destruct e as [i|i e|now p].
  - simpl in E. destruct (nodes c !! i); by simplify_eq/=.
  - destruct (nodes c !! i) as [s|] eqn:Ei; [|simpl in E; rewrite Ei in E; by destruct e].
    by destruct (node_event_run i e c c' s Ei E) as (_ & s' & _ & ->).
  - pose proof (master_run_ends now p (the_master c) Hm Hal Hd) as Hends.
    apply master_event_run in E as (_ & _ & [(m' & Em & ->)|(pn & Em & ->)]); simpl; rewrite Em in Hends;
      destruct (ends_master p); try done. by destruct Hends.
Qed.

(** C2: A look-up answers only addresses that nodes of the role and application asked
    for, by their own configuration, have reported as theirs. And a node that
    reported is in every look-up for its application and any of its roles from then
    on, whatever the other nodes, connections and queries do, provided that meanwhile
    nobody closes its address, the time-out loop makes at most three turns, no other
    configuration has reported the same address, and the master lives. The master
    is ended by exactly those calls whose handler panics: an inquiry of [query_panics], or a
    status without its two arguments. *)
Theorem look_up_finds_reporters b c : (∀ k, lb_hosts k b = ∅) → rtc cluster_step (no_nodes b) c →
  (∀ draw fuel order app role g addr, order ≡ₚ map_to_list (mc_Nodes (the_master c)) →
     look_up draw fuel c order app role = Ok g → addr ∈ ir_Node <$> g →
     ∃ i s a, nodes c !! i = Some s ∧ AppName (cfg i) = app ∧ role ∈ Role (cfg i) ∧
       Report a ∈ inbox s ∧ ni_Address a = addr ∧ addr ≠ "") ∧
  (∀ i now a c1 t c2, reports_now i now a c → cluster_run (CNode i (EReportDelivered now)) c = Some c1 →
     unclosed (ni_Address a) t c1 c2 → t ≤ 3 → ended c2 = false →
     (∀ j s a', nodes c2 !! j = Some s → Report a' ∈ inbox s → ni_Address a' = ni_Address a →
        Role (cfg j) = Role (cfg i) ∧ AppName (cfg j) = AppName (cfg i)) →
     ∀ draw fuel order role, order ≡ₚ map_to_list (mc_Nodes (the_master c2)) → role ∈ Role (cfg i) →
     ∃ g, look_up draw fuel c2 order (AppName (cfg i)) role = Ok g ∧ ni_Address a ∈ ir_Node <$> g) ∧
  (∀ e c', ended c = false → permitted e c → numbers_drawn e → cluster_run e c = Some c' → ended c' = ends_process e).
Proof.
  intros Hb Hr. pose proof (cluster_reachable_ok b c Hb Hr) as Hok. split_and!.
  - intros draw fuel order app role g addr Ho Eg Hin.
    pose proof (master_answer_group app draw fuel order (the_master c) role Ho) as Ha.
    unfold look_up in Eg. destruct (ended c); [done|]. rewrite Eg in Ha. destruct Ha as (_ & _ & Ha).
    apply Ha in Hin as (info & Hi & <- & Hrole).
    destruct (cl_listed c Hok addr info Hi) as (i & s & a & Hs & Hrep & <- & Er & Ea).
    destruct (co_inbox (cfg i) s (cl_child c Hok i s Hs) a Hrep) as (Hne & Er' & Ea').
    exists i, s, a. split; [done|]. rewrite <- Ea', <- Er', Er. done.
  - intros i now a c1 t c2 (s & Hs & Hfl) E1 Hu Ht Hlive Huniq draw fuel order role Ho Hrole.
    assert (cluster_ok c1) as Hok1 by (eapply cluster_step_ok; [exact Hok|by exists (CNode i (EReportDelivered now))]).
    assert (recent (ni_Address a) 0 (the_master c1)) as Hrec.
    { simpl in E1. rewrite Hs in E1. destruct (ended c); [done|]. apply bind_Some in E1 as (s' & Es & E1). simplify_eq. simpl.
      unfold child_run, deliver_report in Es. destruct (panicked _); [done|]. simpl in Es. rewrite Hfl in Es.
      simplify_eq. unfold recent. simpl. exists 0%Z. by rewrite lookup_insert_eq. }
    destruct (unclosed_recent (ni_Address a) t 0 c1 c2 Hok1 Hu Ht Hrec) as [(n & Hn & _) Hok2].
    assert (∃ info, mc_Nodes (the_master c2) !! ni_Address a = Some info) as (info & Hi).
    { apply elem_of_dom. rewrite <- (mo_counters _ (cl_master c2 Hok2)). apply elem_of_dom. by eexists. }
    destruct (cl_listed c2 Hok2 _ info Hi) as (j & s' & a' & Hj & Hrep & Ea & Er & Eap).
    destruct (co_inbox (cfg j) s' (cl_child c2 Hok2 j s' Hj) a' Hrep) as (_ & Er' & Ea').
    destruct (Huniq j s' a' Hj Hrep Ea) as [Hr1 Hr2].
    pose proof (master_answer_group (AppName (cfg i)) draw fuel order (the_master c2) role Ho) as Ha.
    unfold look_up. rewrite Hlive. destruct (master_answer _ _ _ _ _) as [g|e].
    + exists g. split; [done|]. apply Ha. exists info. split; [done|]. split; [congruence|].
      rewrite <- Er, Er', Hr1. done.
    + destruct Ha as [_ Ha]. exfalso. eapply Ha; [exact Hi|congruence|]. rewrite <- Er, Er', Hr1. done.
  - intros e c'. by apply ending_ends.
Qed.
End cluster.

(** ** A node that reports *)
(** The steps the nodes and their connections can take. *)
Definition node_event (cfg : nat → ClusterConfig) (e : cluster_event) (c : @cluster SetBalancers) : option cluster :=
  match e with CMaster _ _ => None | _ => cluster_run cfg e c end.
Lemma node_events_steps cfg l c c' : runs (node_event cfg) l c = Some c' → rtc (cluster_step cfg) c c'.
Proof.
  intros Hr%runs_steps. revert Hr. apply rtc_subrel. intros c1 c2 [e E]. exists e. by destruct e.
Qed.
Definition same_cfg (i : nat) : ClusterConfig := node_cfg.
Definition in_flight : list cluster_event := [CJoin 0; CJoin 1] ++ (CNode 0 <$> reporting).
Definition address_in_flight (c : @cluster SetBalancers) : option string :=
  s ← nodes c !! 0; match report s with RFlight a => Some (ni_Address a) | _ => None end.

Lemma look_up_finds_reporters_witness : ∃ c c1 c2,
  rtc (cluster_step same_cfg) (no_nodes no_hosts) c ∧
  cluster_run same_cfg (CNode 0 (EReportDelivered 7)) c = Some c1 ∧
  (∃ g, look_up (λ _, 0%Z) 1 c1 (map_to_list (mc_Nodes (the_master c1))) "app" "gate" = Ok g ∧
    "10.0.0.5:7001" ∈ ir_Node <$> g) ∧
  cluster_run same_cfg (CMaster 7 (MSetStatus ["10.0.0.5:7001"])) c = Some c2 ∧ ended c2 = true.
Proof.
  assert (∃ c, runs (node_event same_cfg) in_flight (no_nodes no_hosts) = Some c ∧
    address_in_flight c = Some "10.0.0.5:7001" ∧ ended c = false ∧
    ∃ c1, cluster_run same_cfg (CNode 0 (EReportDelivered 7)) c = Some c1 ∧ ended c1 = false)
    as (c & E & Ha & Hl & c1 & E1 & Hl1).
  { assert ((λ c, (address_in_flight c, ended c, ended <$> cluster_run same_cfg (CNode 0 (EReportDelivered 7)) c))
      <$> runs (node_event same_cfg) in_flight (no_nodes no_hosts) = Some (Some "10.0.0.5:7001", false, Some false)) as H
      by (vm_compute; reflexivity).
    apply fmap_Some in H as (c & E & H). exists c. destruct (cluster_run same_cfg (CNode 0 _) c) as [c1|]; [|discriminate H].
    injection H as Ha Hl Hb. split; [exact E|]. split; [by symmetry|]. split; [by symmetry|].
    exists c1. split; [reflexivity|by symmetry]. }
  assert (rtc (cluster_step same_cfg) (no_nodes no_hosts) c) as Hr by exact (node_events_steps same_cfg in_flight _ c E).
  assert (∃ c2, cluster_run same_cfg (CMaster 7 (MSetStatus ["10.0.0.5:7001"])) c = Some c2) as [c2 E2].
  { simpl. rewrite Hl. by eexists. }
  destruct (look_up_finds_reporters same_cfg no_hosts c no_hosts_empty Hr) as (_ & Hfind & Hends).
  exists c, c1, c2. split; [exact Hr|]. split; [exact E1|]. split; [|split; [exact E2|exact (Hends (CMaster 7 (MSetStatus ["10.0.0.5:7001"])) c2 Hl I I E2)]].
  apply bind_Some in Ha as (s & Hs & Ha). destruct (report s) as [| | | | | |a| |] eqn:Er; try discriminate Ha.
  injection Ha as Ha. rewrite <- Ha.
  assert (reports_now 0 7 a c) as Hnow by exact (ex_intro _ s (conj Hs Er)).
  specialize (Hfind 0 7%Z a c1 0 c1 Hnow E1 (unclosed_refl same_cfg (ni_Address a) c1) (le_S _ _ (le_S _ _ (le_S _ _ (le_n 0)))) Hl1).
  specialize (Hfind (λ j s' a' _ _ _, conj eq_refl eq_refl)).
  exact (Hfind (λ _, 0%Z) 1 (map_to_list (mc_Nodes (the_master c1))) "gate" (reflexivity _) ltac:(by left)).
Defined.
