(* ===== verification/Located.v ===== *)
(** * Cluster: a location server beside the master

    The composition of [Cluster] and [Location]: the goroutine of [DoLocationSync] asks
    the master, the RPC client decodes the answer into the reply structure, and the
    component's lock is only taken afterwards, while nodes and master go on and while
    inquiries range over [Nodes]. Theorems: the location server answers only what nodes
    have reported, finds whatever the master listed when it was asked, for ever, and the
    decoding meets inquiries in the same map. *)
From S2P Require Import Prelude Config Selector Master Location Node Child Cluster.

(** Where the goroutine of [DoLocationSync] stands: asleep or connecting, with the
    master's answer on its way, or with the answer decoded and before the lock. *)
Inductive sync_pc := SIdle | SAnswer (r : NodeInfoSyncReply) | SDecoded (r : NodeInfoSyncReply).
Definition pending_reply (pc : sync_pc) : option NodeInfoSyncReply :=
  match pc with SIdle => None | SAnswer r | SDecoded r => Some r end.

Section located.
Context `{BalancerLaws B} (cfg : nat → ClusterConfig).
Abbreviation Loc := (LocationComponent B).

(** The location server is a process of its own, with balancers of its own. [readers]
    are the maps that inquiries are ranging over, under the read lock. *)
Record located := mkLocated {
  clu : @cluster B;
  loc : Loc;
  sync : sync_pc;
  readers : list mref;
  down : bool }.
Definition not_yet_located (b b' : B) : located := mkLocated (no_nodes b) (Location_Awake b') SIdle [] false.

Inductive located_event :=
| LCluster (e : cluster_event)
| LAsk                                (* the master's handler *)
| LLost                               (* the call fails; the reply structure stays *)
| LDecode (noticed : bool)            (* the client's reading goroutine, without the lock *)
| LUpdate (kcur knext : list string)  (* from Lock to Unlock *)
| LInquiry                            (* [range this] begins *)
| LAnswered (i : nat).                (* and ends *)

Definition located_run (e : located_event) (l : located) : option located :=
  match e with
  | LCluster e => c ← cluster_run cfg e (clu l); Some (mkLocated c (loc l) (sync l) (readers l) (down l))
  | e =>
      if down l then None else
      match e, sync l with
      | LAsk, SIdle =>
          if ended (clu l) then None else
          match NodeInfoSync "sync" (the_master (clu l)) with
          | Ok r => Some (mkLocated (clu l) (loc l) (SAnswer r) (readers l) false)
          | Err _ => None
          end
      | LLost, SAnswer _ => Some (mkLocated (clu l) (loc l) SIdle (readers l) false)
      | LDecode false, SAnswer r =>
          Some (mkLocated (clu l) (decode_reply r (loc l)) (SDecoded r) (readers l) false)
      | LDecode true, SAnswer r =>
          (* the runtime ends a process in which it sees a map written during a range *)
          match lm_reply (loc l) with
          | Some (m, _) =>
              if decide (m ∈ readers l) then Some (mkLocated (clu l) (loc l) SIdle [] true) else None
          | None => None
          end
      | LUpdate kcur knext, SDecoded _ =>
          if decide (readers l = [])
          then Some (mkLocated (clu l) (sync_update kcur knext (loc l)) SIdle [] false) else None
      | LInquiry, _ =>
          m ← lm_Nodes (loc l); Some (mkLocated (clu l) (loc l) (sync l) (m :: readers l) false)
      | LAnswered i, _ =>
          _ ← readers l !! i; Some (mkLocated (clu l) (loc l) (sync l) (delete i (readers l)) false)
      | _, _ => None
      end
  end.
Definition located_permitted (e : located_event) (l : located) : Prop :=
  match e with
  | LCluster e => permitted e (clu l)
  | LUpdate kcur knext => update_orders kcur knext (loc l)
  | _ => True
  end.
Definition located_step (l l' : located) : Prop := ∃ e, located_permitted e l ∧ located_run e l = Some l'.

(** What a call of [LocationService.NodeInquiry] answers. *)
Definition location_answer (draw : nat → Z) (fuel : nat) (order : list (string * NodeInfo))
    (l : located) (args : list string) : result string (list InquiryReply) :=
  service_answer (LocationService_NodeInquiry draw fuel order args false (loc l)).2.

(** One whole turn of the loop, with anything else going on in between. *)
Definition of_sync (e : located_event) : bool :=
  match e with LCluster _ | LInquiry | LAnswered _ => false | _ => true end.
Definition elsewhere (l l' : located) : Prop :=
  ∃ e, of_sync e = false ∧ located_permitted e l ∧ located_run e l = Some l'.
Definition synchronises (l l' : located) : Prop :=
  ∃ l1 l2 l3 l4 kcur knext, located_run LAsk l = Some l1 ∧ rtc elsewhere l1 l2 ∧
    located_run (LDecode false) l2 = Some l3 ∧ rtc elsewhere l3 l4 ∧
    update_orders kcur knext (loc l4) ∧ located_run (LUpdate kcur knext) l4 = Some l'.

(** ** The invariant *)

(** The reply structure is the only one that is ever made, and [Nodes] its map. *)
Definition one_table (this : Loc) : Prop :=
  match lm_reply this with
  | None => lm_Nodes this = None ∧ lm_heap this = ∅
  | Some (m, _) => (∃ n, lm_heap this = {[m := n]}) ∧ (lm_Nodes this = None ∨ lm_Nodes this = Some m)
  end.
(** The entries of the reply structure. *)
Definition received (this : Loc) : gmap string NodeInfo := deref (fst <$> lm_reply this) this.

Lemma decode_reply_one r (this : Loc) :
  one_table this → one_table (decode_reply r this) ∧
    received (decode_reply r this) = sr_Nodes r ∪ received this ∧
    is_Some (lm_reply (decode_reply r this)) ∧ lm_Nodes (decode_reply r this) = lm_Nodes this.
Proof.
  unfold one_table, received, decode_reply. destruct (lm_reply this) as [[m log]|] eqn:Er; simpl.
  - intros [[n Hn] HN]. unfold deref. simpl. rewrite Hn, lookup_insert_eq, lookup_singleton_eq. simpl.
    split_and!; [|done|done|by eexists|done]. by exists (sr_Nodes r ∪ n); rewrite insert_singleton_eq.
  - intros [HN Hh]. unfold deref. simpl. rewrite Hh, lookup_insert_eq. simpl. rewrite map_union_empty.
    split_and!; [|by left|done|by eexists|done]. by eexists.
Qed.

Lemma UpdateBL_keeps kcur knext cur next (this : Loc) :
  let this' := UpdateBL kcur knext cur next this in
  lm_heap this' = lm_heap this ∧ lm_reply this' = lm_reply this.
Proof.
  unfold UpdateBL. destruct cur; split; rewrite ?for_keys_heap, ?for_keys_reply; done.
Qed.
Lemma sync_update_one kcur knext (this : Loc) :
  one_table this → is_Some (lm_reply this) →
  let this' := sync_update kcur knext this in
  one_table this' ∧ received this' = received this ∧ Location_Nodes this' = received this ∧ is_Some (lm_Nodes this').
Proof.
  intros Hone [[m log] Er]. unfold sync_update, one_table, received, Location_Nodes, deref in *. rewrite Er in *.
  destruct (UpdateBL_keeps kcur knext (lm_Nodes this) (Some m) this) as [Eh Er']. simpl. rewrite Eh, Er', Er.
  destruct Hone as [Hn _]. split_and!; [done|by right|done|done|by eexists].
Qed.

(** What [Nodes] lists is what has been received, once there is a first answer. *)
Lemma Nodes_received (this : Loc) addr info :
  one_table this → Location_Nodes this !! addr = Some info → received this !! addr = Some info.
Proof.
  unfold one_table, Location_Nodes, received. destruct (lm_reply this) as [[m log]|].
  - intros [_ [->| ->]]; [|done]. unfold deref at 1. simpl. by rewrite lookup_empty.
  - intros [-> _]. unfold deref at 1. simpl. by rewrite lookup_empty.
Qed.

Record located_ok (l : located) : Prop := {
  lo_cluster : cluster_ok cfg (clu l);
  lo_one : one_table (loc l);
  lo_asked r addr info : pending_reply (sync l) = Some r → sr_Nodes r !! addr = Some info → reported (clu l) addr info;
  lo_known addr info : received (loc l) !! addr = Some info → reported (clu l) addr info;
  lo_decoded r : sync l = SDecoded r → is_Some (lm_reply (loc l)) ∧ dom (sr_Nodes r) ⊆ dom (received (loc l)) }.

Lemma not_yet_located_ok b b' : (∀ k, lb_hosts k b = ∅) → located_ok (not_yet_located b b').
Proof. intros Hb. split; simpl; [by apply no_nodes_ok|done..]. Qed.

Lemma located_step_ok l l' : located_ok l → located_step l l' → located_ok l'.
Proof.
  intros [Hc Ho Ha Hk Hd] (e & Hp & E).
  assert (∀ c' : @cluster B, cluster_step cfg (clu l) c' →
    located_ok (mkLocated c' (loc l) (sync l) (readers l) (down l))) as Hcluster.
  { intros c' Hstep. split; simpl; [by eapply cluster_step_ok|done|..|done].
    - intros r addr info Er Hi. eapply reported_step; [done|by eapply Ha].
    - intros addr info Hi. eapply reported_step; [done|by apply Hk]. }
  destruct l as [c this pc rd dn]. cbn [clu loc sync readers down] in *.
  destruct e as [e| | |[]|kcur knext| |i]; simpl in E;
    [|destruct dn; [done|]; destruct pc as [|r|r]; simpl in E; try done..].
  all: try (apply bind_Some in E as (m & _ & E); simplify_eq; by (split; simpl)).
  - apply bind_Some in E as (c' & Ec & E). simplify_eq. apply Hcluster. by exists e.
  - destruct (ended c); simplify_eq/=. split; simpl; try done. intros r addr info [= <-] Hi. by apply (cl_listed cfg c Hc).
  - simplify_eq. by (split; simpl).
  - destruct (lm_reply this) as [[m log]|] eqn:Er; [|done]. case_decide; simplify_eq. by (split; simpl).
  - simplify_eq. destruct (decode_reply_one r this Ho) as (H1 & H2 & H3 & _).
    split; simpl; [done|done|done| |].
    + intros addr info. rewrite H2. intros [Hi|[_ Hi]]%lookup_union_Some_raw; [by eapply Ha|by apply Hk].
    + intros r' [= <-]. split; [done|]. rewrite H2, dom_union_L. set_solver.
  - case_decide; simplify_eq.
    destruct (Hd r eq_refl) as [Hsome _]. destruct (sync_update_one kcur knext this Ho Hsome) as (H1 & H2 & _).
    split; simpl; [done|done|done| |done]. by rewrite H2.
Qed.
Lemma located_reachable_ok b b' l :
  (∀ k, lb_hosts k b = ∅) → rtc (located_step) (not_yet_located b b') l → located_ok l.
Proof. intros Hb. exact (rtc_preserves _ _ _ _ located_step_ok (not_yet_located_ok b b' Hb)). Qed.

(** *** Nothing is forgotten *)
Definition loc_grows (this this' : Loc) : Prop :=
  dom (received this) ⊆ dom (received this') ∧ dom (Location_Nodes this) ⊆ dom (Location_Nodes this').
#[local] Instance loc_grows_preorder : PreOrder loc_grows.
Proof. split; [by intros this|]. intros t1 t2 t3 [H1 H2] [H3 H4]. split; by etrans. Qed.

Lemma Nodes_cases (this : Loc) : one_table this →
  (lm_Nodes this = None ∧ Location_Nodes this = ∅) ∨ (is_Some (lm_Nodes this) ∧ Location_Nodes this = received this).
Proof.
  unfold one_table, Location_Nodes, received. destruct (lm_reply this) as [[m log]|].
  - intros [_ [->| ->]]; [by left|right]. by split; [eexists|].
  - intros [-> _]. by left.
Qed.

Lemma located_step_loc l l' : located_step l l' →
  loc l' = loc l ∨ (∃ r, loc l' = decode_reply r (loc l)) ∨
  (∃ kcur knext r, sync l = SDecoded r ∧ loc l' = sync_update kcur knext (loc l)).
Proof.
  intros (e & _ & E). destruct l as [c this pc rd dn]. cbn [clu loc sync readers down] in *.
  destruct e as [e| | |[]|kcur knext| |i]; simpl in E;
    [|destruct dn; [done|]; destruct pc as [|r|r]; simpl in E; try done..].
  all: try (destruct (ended c); [done|]).
  all: try (simplify_eq; by left).
  all: try (apply bind_Some in E as (m & _ & E); simplify_eq; by left).
  - destruct (lm_reply this) as [[m log]|]; [|done]. case_decide; simplify_eq. by left.
  - simplify_eq. right; left. by exists r.
  - case_decide; simplify_eq. right; right. by exists kcur, knext, r.
Qed.
Lemma located_step_grows l l' : located_ok l → located_step l l' → loc_grows (loc l) (loc l').
Proof.
  intros [_ Ho _ _ Hd] Hstep. destruct (Nodes_cases _ Ho) as [[HN EN]|[HN EN]];
    destruct (located_step_loc l l' Hstep) as [->|[[r ->]|(kcur & knext & r & Er & ->)]]; try done.
  - destruct (decode_reply_one r _ Ho) as (_ & H1 & _). split; [rewrite H1; set_solver|by rewrite EN, dom_empty_L].
  - destruct (sync_update_one kcur knext _ Ho (proj1 (Hd r Er))) as (_ & H1 & _).
    split; [by rewrite H1|by rewrite EN, dom_empty_L].
  - destruct (decode_reply_one r _ Ho) as (H1 & H2 & _ & H3). split; [rewrite H2; set_solver|].
    destruct (Nodes_cases _ H1) as [[H4 _]|[_ H4]]; [rewrite H3 in H4; by destruct HN; simplify_eq|].
    rewrite EN, H4, H2. set_solver.
  - destruct (sync_update_one kcur knext _ Ho (proj1 (Hd r Er))) as (_ & H1 & H2 & _).
    split; [by rewrite H1|by rewrite EN, H2].
Qed.
Lemma located_steps_grow l l' :
  located_ok l → rtc located_step l l' → loc_grows (loc l) (loc l') ∧ located_ok l'.
Proof.
  intros Hok Hr. induction Hr as [l|l1 l2 l3 Hs _ IH]; [done|].
  destruct (IH (located_step_ok _ _ Hok Hs)) as [Hg Hok']. split; [|done].
  etrans; [by apply located_step_grows|done].
Qed.

(** Elsewhere nothing happens to the goroutine of [DoLocationSync]. *)
Lemma elsewhere_keeps l l' : rtc elsewhere l l' → rtc located_step l l' ∧ sync l' = sync l.
Proof.
  induction 1 as [l|l1 l2 l3 (e & Hof & Hp & E) _ [IH1 IH2]]; [by split|]. split.
  - eapply rtc_l; [by exists e|done].
  - rewrite IH2. destruct e as [e| | | | | |i]; try done; simpl in E; [|destruct (down l1); [done|]; destruct (sync l1)..];
      apply bind_Some in E as (? & _ & E); by simplify_eq.
Qed.

Lemma synchronises_lists l l' addr info :
  located_ok l → mc_Nodes (the_master (clu l)) !! addr = Some info → synchronises l l' →
  located_ok l' ∧ is_Some (lm_Nodes (loc l')) ∧ is_Some (Location_Nodes (loc l') !! addr).
Proof.
  intros Hok Hi (l1 & l2 & l3 & l4 & kcur & knext & E1 & Hr1 & E3 & Hr2 & Hord & E4).
  assert (located_step l l1) as S1 by by exists LAsk.
  assert (located_step l2 l3) as S3 by by exists (LDecode false).
  assert (located_step l4 l') as S4 by by exists (LUpdate kcur knext).
  pose proof (located_step_ok _ _ Hok S1) as Hok1.
  apply elsewhere_keeps in Hr1 as [Hr1 Es2], Hr2 as [Hr2 Es4].
  destruct (located_steps_grow _ _ Hok1 Hr1) as [_ Hok2].
  pose proof (located_step_ok _ _ Hok2 S3) as Hok3.
  destruct (located_steps_grow _ _ Hok3 Hr2) as [_ Hok4].
  assert (∃ r, sync l1 = SAnswer r ∧ sr_Nodes r = mc_Nodes (the_master (clu l))) as (r & Er & Hr).
  { simpl in E1. destruct (down l), (sync l), (ended (clu l)); simplify_eq. by eexists. }
  assert (sync l3 = SDecoded r) as Er3.
  { simpl in E3. rewrite Es2, Er in E3. by destruct (down l2); simplify_eq. }
  rewrite Er3 in Es4. destruct (lo_decoded l4 Hok4 r Es4) as [Hsome Hdom].
  assert (loc l' = sync_update kcur knext (loc l4)) as El.
  { simpl in E4. rewrite Es4 in E4. destruct (down l4); [done|]. case_decide; by simplify_eq. }
  destruct (sync_update_one kcur knext (loc l4) (lo_one l4 Hok4) Hsome) as (_ & _ & HN & HS).
  split; [by eapply located_step_ok|]. rewrite El, HN. split; [done|].
  apply elem_of_dom, Hdom, elem_of_dom. rewrite Hr. by eexists.
Qed.

Lemma lm_Nodes_kept l l' :
  located_ok l → rtc located_step l l' → is_Some (lm_Nodes (loc l)) → is_Some (lm_Nodes (loc l')).
Proof.
  intros Hok Hr. induction Hr as [l|l1 l2 l3 Hs _ IH]; [done|]. intros HN. apply IH; [by eapply located_step_ok|].
  destruct (located_step_loc _ _ Hs) as [->|[[r ->]|(kcur & knext & r & Er & ->)]]; [done| |].
  - by destruct (decode_reply_one r _ (lo_one _ Hok)) as (_ & _ & _ & ->).
  - apply sync_update_one; [apply Hok|]. eapply lo_decoded; [apply Hok|done].
Qed.

Lemma location_answer_group draw fuel order l app role :
  is_Some (lm_Nodes (loc l)) → order ≡ₚ map_to_list (Location_Nodes (loc l)) →
  lists_group app (Location_Nodes (loc l)) role
    (location_answer draw fuel order l [app; role; SELECTOR_TYPE_GROUP]).
Proof.
  intros [m Hm] Hord. unfold location_answer, LocationService_NodeInquiry, Location_NodeInquiry. rewrite Hm.
  pose proof (group_answered app draw fuel order _ role (lm_lb (loc l)) Hord) as Hg.
  by destruct (DoQuery _ _ _ _ _ _ _).
Qed.

(** What an entry that nodes have reported says of them. *)
Lemma reported_by l addr info : located_ok l → reported (clu l) addr info →
  ∃ i s a, nodes (clu l) !! i = Some s ∧ AppName (cfg i) = ni_AppName info ∧ Role (cfg i) = ni_Role info ∧
    Report a ∈ inbox s ∧ ni_Address a = addr ∧ addr ≠ "".
Proof.
  intros Hok (i & s & a & Hs & Hrep & <- & Er & Ea).
  destruct (co_inbox (cfg i) s (cl_child _ _ (lo_cluster l Hok) i s Hs) a Hrep) as (Hne & Er' & Ea').
  exists i, s, a. rewrite <- Ea', <- Er', Er. done.
Qed.

(** C23: the location server answers for a group only addresses that nodes of the
    application and role asked for, by their own configuration, have reported to the
    master as theirs.  And an address that the master lists when the location server
    asks it is, once that turn of the synchronisation is over, in every answer for its
    application and any of its roles for ever: whatever the nodes, the master and later
    turns do, also when the master has long closed the node; this unless another
    configuration reports the same address. *)
Theorem location_finds_reporters b b' l :
  (∀ k, lb_hosts k b = ∅) → rtc located_step (not_yet_located b b') l →
  (∀ draw fuel order app role g addr, order ≡ₚ map_to_list (Location_Nodes (loc l)) →
     location_answer draw fuel order l [app; role; SELECTOR_TYPE_GROUP] = Ok g → addr ∈ ir_Node <$> g →
     ∃ i s a, nodes (clu l) !! i = Some s ∧ AppName (cfg i) = app ∧ role ∈ Role (cfg i) ∧
       Report a ∈ inbox s ∧ ni_Address a = addr ∧ addr ≠ "") ∧
  (∀ addr info i l1 l2, mc_Nodes (the_master (clu l)) !! addr = Some info →
     synchronises l l1 → rtc located_step l1 l2 →
     (∀ j s a, nodes (clu l2) !! j = Some s → Report a ∈ inbox s → ni_Address a = addr →
        Role (cfg j) = Role (cfg i) ∧ AppName (cfg j) = AppName (cfg i)) →
     ∀ draw fuel order role, order ≡ₚ map_to_list (Location_Nodes (loc l2)) → role ∈ Role (cfg i) →
     ∃ g, location_answer draw fuel order l2 [AppName (cfg i); role; SELECTOR_TYPE_GROUP] = Ok g ∧
       addr ∈ ir_Node <$> g).
Proof.
  intros Hb Hr. pose proof (located_reachable_ok b b' l Hb Hr) as Hok. split.
  - intros draw fuel order app role g addr Ho Eg Hin.
    assert (is_Some (lm_Nodes (loc l))) as HN.
    { destruct (lm_Nodes (loc l)) eqn:E; [done|]. unfold location_answer, LocationService_NodeInquiry,
        Location_NodeInquiry in Eg. by rewrite E in Eg. }
    pose proof (location_answer_group draw fuel order l app role HN Ho) as Ha.
    rewrite Eg in Ha. destruct Ha as (_ & _ & Ha). apply Ha in Hin as (info & Hi & <- & Hrole).
    apply Nodes_received in Hi; [|by apply Hok].
    destruct (reported_by l addr info Hok (lo_known l Hok addr info Hi)) as (i & s & a & ? & ? & Er & ?).
    exists i, s, a. by rewrite Er.
  - intros addr info i l1 l2 Hi Hsync Hr2 Huniq draw fuel order role Ho Hrole.
    destruct (synchronises_lists l l1 addr info Hok Hi Hsync) as (Hok1 & HN1 & Hl1).
    destruct (located_steps_grow l1 l2 Hok1 Hr2) as [[_ Hg] Hok2].
    assert (is_Some (Location_Nodes (loc l2) !! addr)) as [info2 Hi2]
      by (by apply elem_of_dom, Hg, elem_of_dom).
    pose proof (location_answer_group draw fuel order l2 (AppName (cfg i)) role
      (lm_Nodes_kept l1 l2 Hok1 Hr2 HN1) Ho) as Ha.
    pose proof (Nodes_received _ _ _ (lo_one _ Hok2) Hi2) as Hk.
    destruct (reported_by l2 addr info2 Hok2 (lo_known l2 Hok2 addr info2 Hk)) as (j & s & a & Hj & Eap & Er & Hrep & Ea & _).
    destruct (Huniq j s a Hj Hrep Ea) as [Hr' Ha'].
    destruct (location_answer _ _ _ _ _) as [g|e].
    + exists g. split; [done|]. apply Ha. exists info2. split; [done|]. split; [congruence|]. by rewrite <- Er, Hr'.
    + exfalso. destruct Ha as [_ Ha]. eapply Ha; [exact Hi2|congruence|]. by rewrite <- Er, Hr'.
Qed.
End located.

(** ** A node, its master and a location server *)
Lemma located_lift cfg (c c' : @cluster SetBalancers) this pc rd dn : rtc (cluster_step cfg) c c' →
  rtc (located_step cfg) (mkLocated c this pc rd dn) (mkLocated c' this pc rd dn).
Proof.
  induction 1 as [|c1 c2 c3 (e & Hp & E) _ IH]; [done|]. eapply rtc_l; [|exact IH].
  exists (LCluster e). split; [exact Hp|]. simpl. by rewrite E.
Qed.
(** The next turn of the synchronisation, with nothing else going on. *)
Definition next_turn (l : @located SetBalancers) : located :=
  let this := decode_reply (mkSyncReply (NodesCopy (the_master (clu l))) (NodesLogsCopy (the_master (clu l)))) (loc l) in
  mkLocated (clu l) (sync_update (map_to_list (Location_Nodes this)).*1
    (map_to_list (deref (fst <$> lm_reply this) this)).*1 this) SIdle [] false.
Lemma next_turn_synchronises cfg l :
  ended (clu l) = false → down l = false → sync l = SIdle → readers l = [] → synchronises cfg l (next_turn l).
Proof.
  destruct l as [[m ns dead] this pc rd dn]. simpl. intros -> -> -> ->. set (c := mkCluster' m ns false).
  set (r := mkSyncReply (NodesCopy (the_master c)) (NodesLogsCopy (the_master c))).
  exists (mkLocated c this (SAnswer r) [] false), (mkLocated c this (SAnswer r) [] false),
    (mkLocated c (decode_reply r this) (SDecoded r) [] false), (mkLocated c (decode_reply r this) (SDecoded r) [] false).
  eexists _, _. split_and!; [done|apply rtc_refl|done|apply rtc_refl|split; reflexivity|done].
Qed.
Definition delivered : list cluster_event := in_flight ++ [CNode 0 (EReportDelivered 7)].

Lemma location_finds_reporters_witness : ∃ l,
  rtc (located_step same_cfg) (not_yet_located no_hosts no_hosts) l ∧ synchronises same_cfg l (next_turn l) ∧
  ∃ g, location_answer (λ _, 0%Z) 1 (map_to_list (Location_Nodes (loc (next_turn l)))) (next_turn l)
    ["app"; "gate"; SELECTOR_TYPE_GROUP] = Ok g ∧ "10.0.0.5:7001" ∈ ir_Node <$> g.
Proof.
  assert (∃ c, runs (node_event same_cfg) delivered (no_nodes no_hosts) = Some c ∧ ended c = false ∧
    is_Some (mc_Nodes (the_master c) !! "10.0.0.5:7001")) as (c & E & Hlive & info & Hi).
  { assert ((λ c, (ended c, bool_decide (is_Some (mc_Nodes (the_master c) !! "10.0.0.5:7001"))))
      <$> runs (node_event same_cfg) delivered (no_nodes no_hosts) = Some (false, true)) as H by (vm_compute; reflexivity).
    apply fmap_Some in H as (c & E & H). injection H as Hl Hb. exists c. split; [done|]. split; [done|].
    symmetry in Hb. by apply bool_decide_eq_true in Hb. }
  set (l := mkLocated c (Location_Awake no_hosts) SIdle [] false).
  assert (rtc (located_step same_cfg) (not_yet_located no_hosts no_hosts) l) as Hr
    by exact (located_lift same_cfg _ c _ _ _ _ (node_events_steps same_cfg delivered _ c E)).
  exists l. split; [exact Hr|]. pose proof (next_turn_synchronises same_cfg l Hlive eq_refl eq_refl eq_refl) as Hs.
  split; [exact Hs|].
  destruct (location_finds_reporters same_cfg no_hosts no_hosts l no_hosts_empty Hr) as [_ Hfind].
  exact (Hfind "10.0.0.5:7001" info 0 (next_turn l) (next_turn l) Hi Hs (rtc_refl _ _)
    (λ j s a _ _ _, conj eq_refl eq_refl) (λ _, 0%Z) 1 _ "gate" (reflexivity _) ltac:(by left)).
Defined.

(** The client's goroutine writes into the map while an inquiry ranges over it: the lock
    of the component does not cover the decoding. *)
Lemma sync_races_inquiry cfg : ∃ l,
  rtc (located_step cfg) (not_yet_located no_hosts no_hosts) l ∧ down l = true.
Proof.
  eexists. split; [|shelve].
  eapply rtc_l; [exists LAsk; by split|].
  eapply rtc_l; [exists (LDecode false); by split|].
  eapply rtc_l; [exists (LUpdate [] []); split; [split; vm_compute; reflexivity|reflexivity]|].
  eapply rtc_l; [exists LInquiry; by split|].
  eapply rtc_l; [exists LAsk; by split|].
  eapply rtc_once. exists (LDecode true). split; [exact I|vm_compute; reflexivity].
  Unshelve. reflexivity.
Qed.
