(* ===== verification/NetStart.v ===== *)
(** * hNet: the servers of a process and their one pool (hNet/server.go, gPool.go)

    StartUp and Shutdown of any number of servers of one process. Their handlers all get
    the pool of the first that listened (GetGloblePool), and Destroy of a handler releases
    it. The pool itself is NetPool's, the choice of the handler and Listen are
    NetServer's. *)
From S2P Require Import Prelude NetPool NetServer.

Section start.
Context {P : Type}.
Abbreviation gPool := (gPool P).

(** Where a server is: not listening, up, in [Release] before the stop of worker [i], or
    shut down. *)
Inductive phase := PNew | PUp | PReleasing (i : nat) | PDown.
(** [Server], with its handler once it listens. *)
Record ServerState := mkServer { ns_conf : ServerConf; ns_handle : option IHander; ns_closed : bool; ns_phase : phase }.
Definition NewNetServer (conf : ServerConf) : ServerState := mkServer conf None false PNew.

Record process := mkProcess { globalPool : option gPool; servers : gmap positive ServerState }.

(** [StartUp]: the handler is made, and its [Listen] starts the goroutine that listens, of
    which Awaken says what becomes; its pool is the process's, a new one of its own size if
    there is none. *)
Definition StartUp (k : positive) (w : process) : outcome process :=
  match servers w !! k with
  | None => Panic NilDereference
  | Some s =>
      h ← getHandler (ns_conf s);
      '(conf, size) ← Listen (ns_conf s) ((λ p, (numWorkers p, Z.of_nat (jobQueueLen p))) <$> globalPool w);
      let pool := match globalPool w with Some p => p | None => NewPool (Z.to_nat size.1) (Z.to_nat size.2) end in
      Ret (mkProcess (Some pool) (<[k := mkServer conf (Some h) (ns_closed s) PUp]> (servers w)))
  end.

(** [Shutdown], up to the loop of [Release]; a server without a handler has nothing to
    destroy. *)
Definition Shutdown_begin (k : positive) (w : process) : option process :=
  s ← servers w !! k;
  match ns_phase s with
  | PReleasing _ => None
  | _ => Some (mkProcess (globalPool w)
           (<[k := mkServer (ns_conf s) (ns_handle s) true
                     (match ns_handle s with Some _ => PReleasing 0 | None => PDown end)]> (servers w)))
  end.
(** [worker.stop <- struct{}{}]: the worker takes it at its [select], and only there. *)
Definition release_worker (i : nat) (p : gPool) : option gPool :=
  w ← workerQueue p !! i;
  match w_state w with Idle => Some (set_worker i (mkWorker (w_jobs w) Stopped) p) | _ => None end.
Definition Shutdown_release (k : positive) (w : process) : option process :=
  s ← servers w !! k;
  p ← globalPool w;
  match ns_phase s with
  | PReleasing i =>
      p ← release_worker i p;
      Some (mkProcess (Some p) (<[k := mkServer (ns_conf s) (ns_handle s) true (PReleasing (S i))]> (servers w)))
  | _ => None
  end.
Definition Shutdown_end (k : positive) (w : process) : option process :=
  s ← servers w !! k;
  p ← globalPool w;
  match ns_phase s with
  | PReleasing i =>
      if decide (i = length (workerQueue p))
      then Some (mkProcess (Some p) (<[k := mkServer (ns_conf s) None true PDown]> (servers w)))
      else None
  | _ => None
  end.

(** What connections and workers do meanwhile, on the pool of the process. *)
Definition pool_own (e : pool_event (P := P)) : bool := match e with ERelease | EStop _ => false | _ => true end.
Inductive process_event :=
| PNewServer (k : positive) (conf : ServerConf)
| PStartUp (k : positive)
| PShutdown (k : positive)
| PRelease (k : positive)
| PEnd (k : positive)
| PPool (e : pool_event (P := P)).
Definition process_run (e : process_event) (w : process) : option process :=
  match e with
  | PNewServer k conf =>
      match servers w !! k with
      | None => Some (mkProcess (globalPool w) (<[k := NewNetServer conf]> (servers w)))
      | Some _ => None
      end
  | PStartUp k => match StartUp k w with Ret w' => Some w' | _ => None end
  | PShutdown k => Shutdown_begin k w
  | PRelease k => Shutdown_release k w
  | PEnd k => Shutdown_end k w
  | PPool e =>
      p ← globalPool w;
      if pool_own e then (p' ← pool_run e p; Some (mkProcess (Some p') (servers w))) else None
  end.
Definition process_step (w w' : process) : Prop := ∃ e, process_run e w = Some w'.

(** ** A released pool *)
(** Every worker of a pool has ended, or those before the [i]-th. *)
Definition dead_pool (p : gPool) : Prop := ∀ i w, workerQueue p !! i = Some w → w_state w = Stopped.
Definition stopped_before (i : nat) (p : gPool) : Prop := ∀ j w, j < i → workerQueue p !! j = Some w → w_state w = Stopped.

(** A worker that has ended stays ended, and when all have, no job is begun. *)
Definition keeps_stopped (p p' : gPool) : Prop :=
  ∀ i w', workerQueue p' !! i = Some w' → ∃ w, workerQueue p !! i = Some w ∧ (w_state w = Stopped → w_state w' = Stopped).
Record no_worse (p p' : gPool) : Prop := {
  nw_keeps : keeps_stopped p p';
  nw_length : length (workerQueue p') = length (workerQueue p);
  nw_handled : dead_pool p → handled p' = handled p }.

Lemma no_worse_same (p p' : gPool) : workerQueue p' = workerQueue p → handled p' = handled p → no_worse p p'.
Proof. intros E1 E2. split; [|by rewrite E1|done]. intros i w. rewrite E1. eauto. Qed.
Lemma no_worse_trans (p1 p2 p3 : gPool) : no_worse p1 p2 → no_worse p2 p3 → no_worse p1 p3.
Proof.
  intros [H1 L1 G1] [H2 L2 G2]. split; [|congruence|].
  - intros i w3 H3. destruct (H2 i w3 H3) as (w2 & Hw2 & E2). destruct (H1 i w2 Hw2) as (w1 & Hw1 & E1). eauto.
  - intros Hd. rewrite G2; [by apply G1|]. intros i w2 Hw2. destruct (H1 i w2 Hw2) as (w1 & Hw1 & E1).
    apply E1. by eapply Hd.
Qed.
Lemma no_worse_worker i w w' (p p' : gPool) :
  workerQueue p !! i = Some w → (w_state w = Stopped → w_state w' = Stopped) →
  workerQueue p' = <[i := w']> (workerQueue p) → handled p' = handled p → no_worse p p'.
Proof.
  intros Hi Hw E Eh. split; [|by rewrite E, length_insert|done]. intros j v. rewrite E. intros Hj.
  destruct (decide (i = j)) as [->|Hne].
  - rewrite list_lookup_insert_eq in Hj by (by eapply lookup_lt_Some). injection Hj as <-. eauto.
  - rewrite list_lookup_insert_ne in Hj by done. eauto.
Qed.
(** A worker that runs cannot have ended. *)
Lemma no_worse_running i w (p p' : gPool) :
  workerQueue p !! i = Some w → w_state w ≠ Stopped →
  (∀ j, j ≠ i → workerQueue p' !! j = workerQueue p !! j) → length (workerQueue p') = length (workerQueue p) →
  no_worse p p'.
Proof.
  intros Hi Hw Ho Hl. split; [|done|intros Hd; by destruct (Hw (Hd i w Hi))]. intros j v Hj.
  destruct (decide (j = i)) as [->|Hne]; [exists w; split; [done|by intros ?%Hw]|]. rewrite Ho in Hj by done. eauto.
Qed.
Lemma dead_no_worse p p' : no_worse p p' → dead_pool p → dead_pool p'.
Proof. intros [Hk _ _] Hd i w' Hw'. destruct (Hk i w' Hw') as (w & Hw & E). apply E. by eapply Hd. Qed.
Lemma stopped_no_worse i p p' : no_worse p p' → stopped_before i p → stopped_before i p'.
Proof. intros [Hk _ _] Hs j w' Hj Hw'. destruct (Hk j w' Hw') as (w & Hw & E). apply E. by eapply Hs. Qed.

Lemma get_job_same got (p p' : gPool) v : get_job got p = Some (p', v) →
  workerQueue p' = workerQueue p ∧ handled p' = handled p.
Proof.
  unfold get_job. destruct got as [z|]; [|by intros [= <- _]].
  destruct (remove_first _ _); cbn; [by intros [= <- _]|done].
Qed.
Lemma push_job_no_worse k j (p p' : gPool) : push_job k j p = Some p' → no_worse p p'.
Proof.
  unfold push_job. destruct (workerQueue p !! k) as [w|] eqn:Ew; [|done]. cbn. case_decide; [|done]. intros [= <-].
  eapply no_worse_worker; [exact Ew| |reflexivity|reflexivity]. done.
Qed.

Lemma set_worker_running i w w' (p : gPool) :
  workerQueue p !! i = Some w → w_state w ≠ Stopped → no_worse p (set_worker i w' p).
Proof.
  intros Hi Hw. eapply no_worse_running; [exact Hi|exact Hw| |by cbn; rewrite length_insert].
  intros j Hj. cbn. by rewrite list_lookup_insert_ne.
Qed.

Lemma pool_run_no_worse e (p p' : gPool) : pool_own e = true → pool_run e p = Some p' → no_worse p p'.
Proof.
  intros Ho E. destruct e as [id|id pkg got|id|id|pkg got|i|i|i|i| |i]; try done; cbn in E.
  - destruct (readers p !! id); [done|]. injection E as <-. by apply no_worse_same.
  - unfold recv_packet in E. destruct (readers p !! id) as [r|]; [|done]. cbn in E. case_decide; [|done].
    destruct (get_job got p) as [[p1 v]|] eqn:Eg; [|done]. cbn in E. apply get_job_same in Eg as [Eq1 Eq2].
    assert (∀ r', no_worse p (set_reader id r' p1)) as Hr by (intros r'; by apply no_worse_same).
    destruct (worker_of id (rd_wid r) (numWorkers p1)); [case_decide|..]; injection E as <-; apply Hr.
  - unfold recv_send in E. destruct (readers p !! id) as [r|]; [|done]. cbn in E. destruct (rd_sending r) as [j|]; [|done].
    cbn in E. destruct (push_job _ _ p) as [p1|] eqn:Ep; [|done]. cbn in E. injection E as <-.
    eapply no_worse_trans; [by eapply push_job_no_worse|by apply no_worse_same].
  - unfold recv_close in E. destruct (readers p !! id) as [r|]; [|done]. cbn in E. case_decide; [|done].
    injection E as <-. by apply no_worse_same.
  - unfold AddJobParallel in E. destruct (get_job got p) as [[p1 v]|] eqn:Eg; [|done]. cbn in E.
    apply get_job_same in Eg as [Eq1 Eq2]. case_decide; [|done]. injection E as <-. by apply no_worse_same.
  - unfold worker_take in E. destruct (workerQueue p !! i) as [w|] eqn:Ew; [|done]. cbn in E.
    destruct (w_state w) eqn:Es; try done. destruct (w_jobs w) as [|j js]; [done|]. injection E as <-.
    eapply no_worse_running; [exact Ew|congruence| |by cbn; rewrite length_insert].
    intros k Hk. cbn. by rewrite list_lookup_insert_ne.
  - unfold worker_take_shared in E. destruct (workerQueue p !! i) as [w|] eqn:Ew; [|done]. cbn in E.
    destruct (w_state w) eqn:Es; try done. destruct (jobQueue p) as [|j js]; [done|].
    destruct (decide _) in E; injection E as <-; (eapply no_worse_running; [exact Ew|congruence| |by cbn; rewrite length_insert]);
      intros k Hk; cbn; by rewrite list_lookup_insert_ne.
  - unfold worker_forward in E. destruct (workerQueue p !! i) as [w|] eqn:Ew; [|done]. cbn in E.
    destruct (w_state w) as [| |j k|] eqn:Es; try done. destruct (push_job k j p) as [p1|] eqn:Ep; [|done]. cbn in E.
    destruct (workerQueue p1 !! i) as [w1|] eqn:Ew1; [|done]. cbn in E. injection E as <-.
    pose proof (push_job_no_worse _ _ _ _ Ep) as Hp.
    assert (w_state w1 = w_state w) as Ew1s.
    { unfold push_job in Ep. destruct (workerQueue p !! k) as [wk|] eqn:Ek; [|done]. cbn in Ep. case_decide; [|done].
      injection Ep as <-. cbn in Ew1. destruct (decide (k = i)) as [->|Hki].
      - rewrite list_lookup_insert_eq in Ew1 by (by eapply lookup_lt_Some). injection Ew1 as <-. cbn. congruence.
      - rewrite list_lookup_insert_ne in Ew1 by done. congruence. }
    eapply no_worse_trans; [exact Hp|]. eapply set_worker_running; [exact Ew1|congruence].
  - unfold worker_done in E. destruct (workerQueue p !! i) as [w|] eqn:Ew; [|done]. cbn in E.
    destruct (w_state w) eqn:Es; try done. injection E as <-.
    eapply no_worse_running; [exact Ew|congruence| |by cbn; rewrite length_insert].
    intros k Hk. cbn. by rewrite list_lookup_insert_ne.
Qed.

Lemma release_no_worse i (p p' : gPool) : release_worker i p = Some p' →
  no_worse p p' ∧ (stopped_before i p → stopped_before (S i) p').
Proof.
  unfold release_worker. destruct (workerQueue p !! i) as [w|] eqn:Ew; [|done]. cbn.
  destruct (w_state w) eqn:Es; try done. intros [= <-]. split; [eapply set_worker_running; [exact Ew|congruence]|].
  intros Hb j v Hj Hv. cbn in Hv. destruct (decide (i = j)) as [->|Hne].
  - rewrite list_lookup_insert_eq in Hv by (by eapply lookup_lt_Some). by injection Hv as <-.
  - rewrite list_lookup_insert_ne in Hv by done. apply (Hb j v); [lia|done].
Qed.

(** *** The processes that can be *)
(** The workers before the one that a release is at have ended; who has a handler has
    the process's pool. *)
Record process_ok (w : process) : Prop := {
  pk_releasing k s i : servers w !! k = Some s → ns_phase s = PReleasing i →
    ∃ p, globalPool w = Some p ∧ stopped_before i p;
  pk_handle k s : servers w !! k = Some s → is_Some (ns_handle s) → is_Some (globalPool w) }.

(** The pool is made once and only gets worse. *)
Definition pool_goes_on (w w' : process) : Prop :=
  ∀ p, globalPool w = Some p → ∃ p', globalPool w' = Some p' ∧ no_worse p p'.
Lemma no_worse_refl (p : gPool) : no_worse p p.
Proof. by apply no_worse_same. Qed.

Lemma process_step_pool w w' : process_step w w' → pool_goes_on w w'.
Proof.
  intros [e E] p Hp. destruct e as [k conf|k|k|k|k|e]; cbn in E.
  - destruct (servers w !! k); [done|]. injection E as <-. exists p. by split; [|apply no_worse_refl].
  - unfold StartUp in E. destruct (servers w !! k) as [s|]; [|done]. destruct (getHandler _) as [h| |]; [|done..].
    cbn in E. destruct (Listen _ _) as [[conf size]| |]; [|done..]. cbn in E. injection E as <-. rewrite Hp.
    exists p. by split; [|apply no_worse_refl].
  - unfold Shutdown_begin in E. destruct (servers w !! k) as [s|]; [|done]. cbn in E.
    destruct (ns_phase s); try done; injection E as <-; exists p; (split; [done|apply no_worse_refl]).
  - unfold Shutdown_release in E. destruct (servers w !! k) as [s|]; [|done]. rewrite Hp in E. cbn in E.
    destruct (ns_phase s) as [| |i|]; try done. destruct (release_worker i p) as [p'|] eqn:Er; [|done]. injection E as <-.
    exists p'. split; [done|]. by eapply release_no_worse.
  - unfold Shutdown_end in E. destruct (servers w !! k) as [s|]; [|done]. rewrite Hp in E. cbn in E.
    destruct (ns_phase s) as [| |i|]; try done. case_decide; [|done]. injection E as <-.
    exists p. by split; [|apply no_worse_refl].
  - rewrite Hp in E. cbn in E. destruct (pool_own e) eqn:Eo; [|done]. destruct (pool_run e p) as [p'|] eqn:Er; [|done].
    injection E as <-. exists p'. split; [done|]. by eapply pool_run_no_worse.
Qed.

Lemma process_ok_server w w' k s' :
  process_ok w → pool_goes_on w w' → servers w' = <[k := s']> (servers w) →
  (∀ i, ns_phase s' = PReleasing i → ∃ p, globalPool w' = Some p ∧ stopped_before i p) →
  (is_Some (ns_handle s') → is_Some (globalPool w')) → process_ok w'.
Proof.
  intros [Hr Hh] Hp Hs Hr' Hh'. split; rewrite Hs; intros k' s; destruct (decide (k = k')) as [->|Hne].
  - intros i. rewrite lookup_insert_eq. intros [= <-]. apply Hr'.
  - intros i. rewrite lookup_insert_ne by done. intros Hk Hi. destruct (Hr _ _ _ Hk Hi) as (p & Ep & Hb).
    destruct (Hp p Ep) as (p' & Ep' & Hw). exists p'. split; [done|]. by eapply stopped_no_worse.
  - rewrite lookup_insert_eq. intros [= <-]. apply Hh'.
  - rewrite lookup_insert_ne by done. intros Hk Hi. destruct (Hh _ _ Hk Hi) as [p Ep].
    destruct (Hp p Ep) as (p' & Ep' & _). by rewrite Ep'.
Qed.

Lemma process_step_ok w w' : process_ok w → process_step w w' → process_ok w'.
Proof.
  intros Hok Hst. pose proof (process_step_pool _ _ Hst) as Hp. destruct Hst as [e E].
  pose proof Hok as [Hr Hh]. destruct e as [k conf|k|k|k|k|e]; cbn in E.
  - destruct (servers w !! k); [done|]. injection E as <-. by eapply process_ok_server; [exact Hok|exact Hp|done|..];
      [|intros []].
  - unfold StartUp in E. destruct (servers w !! k) as [s|]; [|done]. destruct (getHandler _) as [h| |]; [|done..].
    cbn in E. destruct (Listen _ _) as [[conf size]| |]; [|done..]. cbn in E. injection E as <-.
    eapply process_ok_server; [exact Hok|exact Hp|done|done|]. by eexists.
  - unfold Shutdown_begin in E. destruct (servers w !! k) as [s|] eqn:Ek; [|done]. cbn in E.
    destruct (ns_phase s); try done; injection E as <-; (eapply process_ok_server; [exact Hok|exact Hp|done|..]);
      cbn; try (by apply (Hh _ _ Ek)); intros i Hi; destruct (ns_handle s) as [h|] eqn:Eh; try done;
      injection Hi as <-; destruct (Hh _ _ Ek) as [p Ep]; try (by rewrite Eh); exists p; (split; [done|]); intros j v; lia.
  - unfold Shutdown_release in E. destruct (servers w !! k) as [s|] eqn:Ek; [|done]. cbn in E.
    destruct (globalPool w) as [p|] eqn:Ep; [|done]. cbn in E.
    destruct (ns_phase s) as [| |i|] eqn:Es; try done. destruct (release_worker i p) as [p'|] eqn:Er; [|done].
    cbn in E. injection E as <-. eapply process_ok_server; [exact Hok|exact Hp|done| |by eexists].
    cbn. intros j [= <-]. exists p'. split; [done|]. destruct (Hr _ _ _ Ek Es) as (q & [= <-] & Hb).
    by eapply release_no_worse.
  - unfold Shutdown_end in E. destruct (servers w !! k) as [s|]; [|done]. cbn in E.
    destruct (globalPool w) as [p|] eqn:Ep; [|done]. cbn in E.
    destruct (ns_phase s) as [| |i|]; try done. case_decide; [|done]. injection E as <-.
    eapply process_ok_server; [exact Hok|exact Hp|done|done|]. by eexists.
  - destruct (globalPool w) as [p|] eqn:Ep; [|done]. cbn in E. destruct (pool_own e); [|done].
    destruct (pool_run e p) as [p'|] eqn:Er; [|done]. injection E as <-. split; cbn.
    + intros k s i Hk Hi. destruct (Hr _ _ _ Hk Hi) as (q & [= <-] & Hb). destruct (Hp p Ep) as (q' & [= <-] & Hw).
      exists p'. split; [done|]. by eapply stopped_no_worse.
    + by eexists.
Qed.

Lemma no_process_ok : process_ok (mkProcess None ∅).
Proof. by split. Qed.

(** A server that is up, or has only begun to shut down. *)
Definition not_down (k : positive) (w : process) : Prop :=
  ∃ s, servers w !! k = Some s ∧ is_Some (ns_handle s) ∧ (ns_phase s = PUp ∨ ns_phase s = PReleasing 0).
Definition dead_process (handled0 : list (nat * Job P)) (n : nat) (w : process) : Prop :=
  ∃ p, globalPool w = Some p ∧ dead_pool p ∧ handled p = handled0 ∧ length (workerQueue p) = n.

Lemma dead_process_step h n w w' : dead_process h n w → process_step w w' → dead_process h n w'.
Proof.
  intros (p & Ep & Hd & Hh & Hl) Hst. destruct (process_step_pool _ _ Hst p Ep) as (p' & Ep' & Hw). exists p'.
  split; [done|]. split; [by eapply dead_no_worse|]. destruct Hw as [_ Hlen Hhan]. rewrite Hlen, Hhan by done. done.
Qed.
Lemma not_down_step h n k w w' : 0 < n → dead_process h n w → not_down k w → process_step w w' → not_down k w'.
Proof.
  intros Hn (p & Ep & Hd & _ & Hl) (s & Hk & Hh & Hph) [e E].
  assert (∀ k' s' w', servers w' = <[k' := s']> (servers w) →
    (k' = k → is_Some (ns_handle s') ∧ (ns_phase s' = PUp ∨ ns_phase s' = PReleasing 0)) → not_down k w') as Hins.
  { intros k' s' w0 E0 H0. unfold not_down. rewrite E0. destruct (decide (k' = k)) as [->|Hne].
    - exists s'. rewrite lookup_insert_eq. split; [done|]. by apply H0.
    - exists s. by rewrite lookup_insert_ne. }
  destruct e as [k' conf|k'|k'|k'|k'|e]; cbn in E.
  - destruct (servers w !! k') eqn:Ek'; [done|]. injection E as <-. eapply Hins; [done|]. intros ->. congruence.
  - unfold StartUp in E. destruct (servers w !! k') as [s'|]; [|done]. destruct (getHandler _) as [h'| |]; [|done..].
    cbn in E. destruct (Listen _ _) as [[conf size]| |]; [|done..]. cbn in E. injection E as <-.
    eapply Hins; [done|]. intros _. split; [by eexists|by left].
  - unfold Shutdown_begin in E. destruct (servers w !! k') as [s'|] eqn:Ek'; [|done]. cbn in E.
    destruct (ns_phase s'); try done; injection E as <-; (eapply Hins; [done|]); intros ->;
      rewrite Hk in Ek'; injection Ek' as <-; (split; [done|right]); destruct Hh as [hd Ehd]; cbn; by rewrite Ehd.
  - unfold Shutdown_release in E. destruct (servers w !! k') as [s'|] eqn:Ek'; [|done]. rewrite Ep in E. cbn in E.
    destruct (ns_phase s') as [| |i|] eqn:Es; try done. destruct (release_worker i p) as [p'|] eqn:Er; [|done]. exfalso.
    unfold release_worker in Er. destruct (workerQueue p !! i) as [v|] eqn:Ev; [|done]. cbn in Er. by rewrite (Hd _ _ Ev) in Er.
  - unfold Shutdown_end in E. destruct (servers w !! k') as [s'|] eqn:Ek'; [|done]. rewrite Ep in E. cbn in E.
    destruct (ns_phase s') as [| |i|] eqn:Es; try done. case_decide as Hi; [|done]. injection E as <-.
    eapply Hins; [done|]. intros ->. rewrite Hk in Ek'. injection Ek' as <-. destruct Hph as [Hph|Hph]; rewrite Es in Hph; [done|].
    injection Hph as ->. lia.
  - rewrite Ep in E. cbn in E. destruct (pool_own e); [|done]. destruct (pool_run e p) as [p'|]; [|done]. injection E as <-.
    exists s. by split_and!.
Qed.

(** When the first server of a process has shut down, the workers of all of them have
    ended: from then on no packet of any connection is handled, servers that are up cannot
    shut down any more, and those that start later get the same pool. *)
Theorem shutdown_ends_everyone w k w1 :
  rtc process_step (mkProcess None ∅) w → process_run (PEnd k) w = Some w1 →
  ∃ p1, globalPool w1 = Some p1 ∧ dead_pool p1 ∧ ∀ w2, rtc process_step w1 w2 →
    (∃ p2, globalPool w2 = Some p2 ∧ dead_pool p2 ∧ handled p2 = handled p1) ∧
    (0 < length (workerQueue p1) → ∀ k' s, servers w1 !! k' = Some s → ns_phase s = PUp → is_Some (ns_handle s) →
       not_down k' w2).
Proof.
  intros Hr E. assert (process_ok w) as Hok by exact (rtc_preserves _ _ _ _ process_step_ok no_process_ok Hr).
  cbn in E. unfold Shutdown_end in E. destruct (servers w !! k) as [s|] eqn:Ek; [|done]. cbn in E.
  destruct (globalPool w) as [p|] eqn:Ep; [|done]. cbn in E. destruct (ns_phase s) as [| |i|] eqn:Es; try done.
  case_decide as Hi; [|done]. injection E as <-. exists p. split; [done|].
  assert (dead_pool p) as Hd.
  { destruct (pk_releasing _ Hok _ _ _ Ek Es) as (q & Eq & Hb). rewrite Ep in Eq. injection Eq as <-.
    intros j v Hv. apply (Hb j v); [|done]. rewrite Hi. by eapply lookup_lt_Some. }
  split; [done|]. intros w2 Hr2.
  set (w1 := mkProcess (Some p) (<[k := _]> (servers w))) in *.
  assert (dead_process (handled p) (length (workerQueue p)) w1) as H1 by (exists p; by split_and!).
  split.
  - destruct (rtc_preserves _ _ _ _ (dead_process_step _ _) H1 Hr2) as (p2 & E2 & Hd2 & Hh2 & _). by exists p2.
  - intros Hn k' s' Hk' Hs' Hh'.
    assert (dead_process (handled p) (length (workerQueue p)) w1 ∧ not_down k' w1) as H0.
    { split; [done|]. exists s'. split; [done|]. split; [done|by left]. }
    apply (rtc_preserves process_step (λ w, dead_process (handled p) (length (workerQueue p)) w ∧ not_down k' w) _ _
      (λ x y H Hxy, conj (dead_process_step _ _ _ _ (proj1 H) Hxy) (not_down_step _ _ _ _ _ Hn (proj1 H) (proj2 H) Hxy)) H0 Hr2).
Qed.
End start.

(** ** Two gates in one process *)
Definition one_worker : ServerConf := mkConf "ws" true false "127.0.0.1:5555" true 1 10.
Lemma shutdown_ends_everyone_witness :
  ∃ w w1 : process (P := nat), rtc process_step (mkProcess None ∅) w ∧ process_run (PEnd 1) w = Some w1 ∧
    ∀ w2, rtc process_step w1 w2 → not_down 2 w2.
Proof.
  set (es := [PNewServer 1 one_worker; PNewServer 2 one_worker; PStartUp 1; PStartUp 2; PShutdown 1; PRelease 1]
    : list (process_event (P := nat))).
  destruct (runs process_run es (mkProcess None ∅)) as [w|] eqn:Er; [|by vm_compute in Er].
  assert (rtc process_step (mkProcess None ∅) w) as Hr by exact (runs_steps process_run es _ _ Er).
  destruct (process_run (PEnd 1) w) as [w1|] eqn:E1; [|vm_compute in Er; injection Er as <-; by vm_compute in E1].
  exists w, w1. split; [exact Hr|]. split; [exact E1|]. intros w2 H2.
  destruct (shutdown_ends_everyone _ _ _ Hr E1) as (p1 & Ep & _ & H). destruct (H w2 H2) as [_ Hup].
  vm_compute in Er. injection Er as <-. vm_compute in E1. injection E1 as <-. injection Ep as <-.
  apply (Hup ltac:(simpl; lia) 2%positive _ eq_refl eq_refl). by eexists.
Defined.
