(* ===== verification/Gate.v ===== *)
(** * hBaseComponent: the gates

    DefaultGateComponent.go: the clients of a gate, and the wait group, as Go's sync package
    has it, through which the launcher waits for the last of them; and SelectGateComponent.go: what the handlers of
    the stateless gate answer.  [OnConnected] and [CheckClose] are one step each;
    [OnDropped] is two, the count and the deferred look at it. *)
From S2P Require Import Prelude Master.

(** ** The default gate *)
Module DefaultGate.

(** [wg] is the counter of the launcher's wait group, [others] how much of it other
    components have added and not yet taken back; [dropping] counts the goroutines in
    [OnDropped] that have not yet looked.  [adds] and [dones] are what the gate did to the
    counter, [readLocks] the read locks that panicking goroutines have left behind. *)
Inductive at_wait := Before | Waiting | Through.

Record gate := mkGate {
  acceptNum : Z;
  clients : gset string;
  isCloseServer : bool;
  hasGroup : bool;
  dropping : nat;
  readLocks : nat;
  wg : Z;
  launcher : at_wait;
  others : Z;
  adds : nat;
  dones : nat;
  panics : nat }.

Definition Awake : gate := mkGate 0 ∅ false false 0 0 0 Before 0 0 0 0.

Definition with_clients (n : Z) (cs : gset string) (d : nat) (g : gate) : gate :=
  mkGate n cs (isCloseServer g) (hasGroup g) d (readLocks g) (wg g) (launcher g) (others g) (adds g)
    (dones g) (panics g).
Definition with_closed (g : gate) : gate :=
  mkGate (acceptNum g) (clients g) true true (dropping g) (readLocks g) (wg g) (launcher g) (others g)
    (adds g) (dones g) (panics g).
Definition with_counts (o : Z) (a d : nat) (g : gate) : gate :=
  mkGate (acceptNum g) (clients g) (isCloseServer g) (hasGroup g) (dropping g) (readLocks g) (wg g)
    (launcher g) o a d (panics g).
Definition with_launcher (l : at_wait) (g : gate) : gate :=
  mkGate (acceptNum g) (clients g) (isCloseServer g) (hasGroup g) (dropping g) (readLocks g) (wg g)
    l (others g) (adds g) (dones g) (panics g).
Definition with_readLocks (n : nat) (g : gate) : gate :=
  mkGate (acceptNum g) (clients g) (isCloseServer g) (hasGroup g) (dropping g) n (wg g)
    (launcher g) (others g) (adds g) (dones g) (panics g).

(** [sync.WaitGroup]: [Add] (and [Done], which is [Add(-1)]) changes the counter; below
    zero it panics, at zero it lets everyone through who waits.  [Wait] comes back at
    once when the counter is zero, and only then. *)
Definition wg_Add (d : Z) (g : gate) : gate :=
  let v := (wg g + d)%Z in
  mkGate (acceptNum g) (clients g) (isCloseServer g) (hasGroup g) (dropping g) (readLocks g) v
    (match launcher g with Waiting => if decide (v = 0%Z) then Through else Waiting | l => l end)
    (others g) (adds g) (dones g) (if decide (v < 0)%Z then S (panics g) else panics g).
Definition wg_Wait (g : gate) : gate :=
  with_launcher (if decide (wg g = 0%Z) then Through else Waiting) g.

Definition OnConnected (id : string) (g : gate) : gate :=
  with_clients (acceptNum g + 1) ({[id]} ∪ clients g) (dropping g) g.

(** [CheckClose] needs the lock for writing. *)
Definition CheckClose (g : gate) : option gate :=
  if decide (readLocks g ≠ 0) then None
  else Some (
    if decide (0 < acceptNum g)%Z then
      let g' := wg_Add 1 (with_counts (others g) (S (adds g)) (dones g) g) in
      if decide (wg g' < 0)%Z then g' else with_closed g'
    else with_closed g).

(** The body of [OnDropped]. *)
Definition OnDropped (id : string) (g : gate) : option gate :=
  if decide (id ∈ clients g)
  then Some (with_clients (acceptNum g - 1) (clients g ∖ {[id]}) (S (dropping g)) g)
  else None.
(** Its deferred function: when [Done] panics the read lock is not given back. *)
Definition OnDropped_deferred (g : gate) : option gate :=
  match dropping g with
  | O => None
  | S n =>
      let g := with_clients (acceptNum g) (clients g) n g in
      Some (if isCloseServer g && bool_decide (acceptNum g ≤ 0)%Z && hasGroup g
            then let g' := wg_Add (-1) (with_counts (others g) (adds g) (S (dones g)) g) in
                 if decide (wg g' < 0)%Z then with_readLocks (S (readLocks g)) g' else g'
            else g)
  end.

(** What happens around a gate.  The launcher waits after it has asked the gate; other
    components share the group. *)
Inductive gate_event :=
| EConnected (id : string) | EDropped (id : string) | EDeferred
| ECheckClose | EWait | EOtherAdd | EOtherDone.
Definition gate_run (e : gate_event) (g : gate) : option gate :=
  match e with
  | EConnected id => if decide (id ∈ clients g) then None else Some (OnConnected id g)
  | EDropped id => OnDropped id g
  | EDeferred => OnDropped_deferred g
  | ECheckClose => if isCloseServer g then None else CheckClose g
  | EWait => match launcher g, isCloseServer g with Before, true => Some (wg_Wait g) | _, _ => None end
  | EOtherAdd => Some (wg_Add 1 (with_counts (others g + 1) (adds g) (dones g) g))
  | EOtherDone => if decide (0 < others g)%Z
                  then Some (wg_Add (-1) (with_counts (others g - 1) (adds g) (dones g) g)) else None
  end.
Definition gate_step (g g' : gate) : Prop := ∃ e, gate_run e g = Some g'.

(** Clients that leave one at a time, and none that leaves while the gate is asked or
    comes after it has been. *)
Definition orderly (e : gate_event) (g : gate) : Prop :=
  match e with
  | EConnected _ => isCloseServer g = false
  | EDropped _ | ECheckClose => dropping g = 0
  | _ => True
  end.
Definition orderly_step (g g' : gate) : Prop := ∃ e, orderly e g ∧ gate_run e g = Some g'.

(** [SendMessage] answers this error also after it has passed the message on. *)
Definition SendMessage (sid : string) (g : gate) : bool * option string :=
  (bool_decide (sid ∈ clients g), Some ("this session id: [ " +:+ sid +:+ " ] not exist")).

(** In any interleaving: what the gate has added it takes back when its clients are gone. *)
Record gate_ok (g : gate) : Prop := {
  ok_count : acceptNum g = Z.of_nat (size (clients g));
  ok_closed : hasGroup g = isCloseServer g;
  ok_adds : adds g ≤ 1 ∧ (isCloseServer g = false → adds g = 0 ∧ dones g = 0 ∧ launcher g = Before);
  ok_wg : wg g = (others g + Z.of_nat (adds g) - Z.of_nat (dones g))%Z;
  ok_done : adds g = 1 → dones g = 0 → (0 < acceptNum g)%Z ∨ 0 < dropping g;
  ok_others : (0 ≤ others g)%Z;
  ok_waits : launcher g = Waiting → wg g ≠ 0%Z;
  ok_panics : panics g = 0 → (0 ≤ wg g)%Z }.

(** With orderly clients it takes back nothing else. *)
Record gate_orderly (g : gate) : Prop := {
  or_ok : gate_ok g;
  or_dropping : dropping g ≤ 1;
  or_open : isCloseServer g = true → adds g = 0 → acceptNum g = 0%Z ∧ dropping g = 0;
  or_dones : dones g ≤ adds g;
  or_done : dones g = 1 → acceptNum g = 0%Z ∧ dropping g = 0;
  or_through : launcher g = Through → adds g = dones g;
  or_panics : panics g = 0 }.

Lemma size_plus (id : string) (cs : gset string) : id ∉ cs → size ({[id]} ∪ cs) = S (size cs).
Proof. intros. rewrite size_union by set_solver. by rewrite size_singleton. Qed.
Lemma size_minus (id : string) (cs : gset string) : id ∈ cs → S (size (cs ∖ {[id]})) = size cs.
Proof.
  intros Hin. rewrite size_difference by set_solver. rewrite size_singleton.
  assert (size cs ≠ 0); [|lia]. intros Hz%size_empty_iff. set_solver.
Qed.

Ltac gate_field := try done; try lia; try (split; [lia|done]).

Lemma gate_step_ok g g' : gate_ok g → gate_step g g' → gate_ok g'.
Proof.
  intros [Hn Hc [Ha Hb] Hw Hd Ho Hl Hp] [e E].
  destruct e as [id|id| | | | |]; simpl in E; unfold OnDropped, OnDropped_deferred, CheckClose in E.
  - case_decide as Hin; [done|]. injection E as <-. split; simpl; try done; try lia.
    rewrite size_plus by done. lia.
  - case_decide as Hin; [|done]. injection E as <-. pose proof (size_minus _ _ Hin).
    split; simpl; try done; lia.
  - destruct (dropping g) as [|n] eqn:En; [done|]. injection E as <-. simpl.
    destruct (isCloseServer g) eqn:Ec; simpl;
      [|destruct (Hb eq_refl) as (? & ? & ?); split; simpl; rewrite ?Ec; try done; lia].
    rewrite Hc. case_bool_decide as Hz; simpl; [|split; simpl; rewrite ?Ec; gate_field].
    case_decide as Hneg; split; simpl in *; rewrite ?Ec; gate_field;
      destruct (launcher g); repeat case_decide; gate_field.
  - destruct (isCloseServer g) eqn:Ec; [done|]. case_decide; [done|]. injection E as <-.
    destruct (Hb eq_refl) as (Ha0 & Hd0 & Hl0). rewrite Hl0 in *.
    case_decide as Hz; [|split; simpl; try rewrite Hl0; gate_field]. simpl.
    case_decide as Hneg; [lia|]. split; simpl; try rewrite Hl0; gate_field.
  - destruct (launcher g) eqn:El, (isCloseServer g) eqn:Ec; try done. injection E as <-.
    split; simpl; rewrite ?Ec; gate_field. by case_decide.
  - injection E as <-. split; simpl; try done; try lia.
    + split; [done|]. intros Hcl. destruct (Hb Hcl) as (? & ? & ->). done.
    + destruct (launcher g); repeat case_decide; done || lia.
    + case_decide; lia.
  - case_decide; [|done]. injection E as <-. split; simpl; try done; try lia.
    + split; [done|]. intros Hcl. destruct (Hb Hcl) as (? & ? & ->). done.
    + destruct (launcher g); repeat case_decide; done || lia.
    + case_decide; lia.
Qed.

Lemma orderly_step_ok g g' : gate_orderly g → orderly_step g g' → gate_orderly g'.
Proof.
  intros [Hok Hdr Hop Hdn Hd1 Ht Hp] (e & Ho & E).
  assert (gate_ok g') as Hok' by (apply (gate_step_ok g); [done|by exists e]).
  destruct Hok as [Hn Hc [Ha Hb] Hw Hd Hoth Hl Hpp]. specialize (Hpp Hp).
  destruct e as [id|id| | | | |]; simpl in E, Ho; unfold OnDropped, OnDropped_deferred, CheckClose in E.
  - case_decide as Hin; [done|]. injection E as <-. destruct (Hb Ho) as (? & ? & Hl0).
    split; simpl; rewrite ?Ho, ?Hl0; try done; lia.
  - case_decide as Hin; [|done]. injection E as <-. pose proof (size_minus _ _ Hin).
    split; simpl; gate_field; intros; exfalso; destruct Hop; done || lia.
  - destruct (dropping g) as [|n] eqn:En; [done|]. assert (n = 0) as -> by lia. injection E as <-. simpl in *.
    destruct (isCloseServer g) eqn:Ec; simpl in *; [|split; simpl; rewrite ?Ec; try done; lia].
    rewrite Hc in *. assert (adds g = 1) as Had by (destruct (adds g) as [|[|]]; [destruct (Hop eq_refl eq_refl); lia|done|lia]).
    assert (dones g = 0) as Hdo by (destruct (dones g) as [|[|]]; [done|destruct (Hd1 eq_refl); lia|lia]).
    case_bool_decide as Hz; simpl in *; [|split; simpl; try done; lia].
    rewrite (decide_False (P := (wg g + -1 < 0)%Z)) in * by lia.
    split; simpl; gate_field. by rewrite decide_False by lia.
  - destruct (isCloseServer g) eqn:Ec; [done|]. case_decide; [done|]. injection E as <-.
    destruct (Hb eq_refl) as (Ha0 & Hd0 & Hl0).
    case_decide as Hz; [|split; simpl; rewrite ?Hl0; try done; lia]. simpl in *. rewrite Hl0 in *.
    rewrite (decide_False (P := (wg g + 1 < 0)%Z)) in * by lia.
    split; simpl; try rewrite Hl0; gate_field. by rewrite decide_False by lia.
  - destruct (launcher g) eqn:El, (isCloseServer g) eqn:Ec; try done. injection E as <-.
    split; simpl; rewrite ?Ec; try done. case_decide; [lia|done].
  - injection E as <-. split; simpl; try done; [|by rewrite decide_False by lia].
    destruct (launcher g); [done| |by auto]. rewrite decide_False by lia. done.
  - case_decide; [|done]. injection E as <-. split; simpl; try done; [|by rewrite decide_False by lia].
    destruct (launcher g); [done| |by auto]. case_decide; [lia|done].
Qed.

Lemma Awake_ok : gate_ok Awake.
Proof. split; simpl; try done; try lia. split; [lia|done]. Qed.
Lemma Awake_orderly : gate_orderly Awake.
Proof. split; simpl; try done; try lia. apply Awake_ok. Qed.

(** Two clients that leave together take the counter below zero. *)
Definition left_together : list gate_event :=
  [EConnected "a"; EConnected "b"; ECheckClose; EDropped "a"; EDropped "b"; EDeferred; EDeferred].
(** Below zero nobody comes through who has begun to wait, unless something is added. *)
Lemma waits_for_ever g g' :
  rtc (λ g g', ∃ e, e ≠ EOtherAdd ∧ gate_run e g = Some g') g g' →
  gate_ok g → isCloseServer g = true → launcher g = Waiting → (wg g < 0)%Z → launcher g' = Waiting.
Proof.
  intros Hr. induction Hr as [g|g g1 g2 (e & Hne & E) _ IH]; [done|]. intros Hok Hc Hl Hw.
  assert (gate_ok g1) as Hok1 by (apply (gate_step_ok g); [done|by exists e]).
  assert (isCloseServer g1 = true ∧ launcher g1 = Waiting ∧ (wg g1 < 0)%Z) as (? & ? & ?); [|by apply IH].
  destruct e as [id|id| | | | |]; simpl in E; unfold OnDropped, OnDropped_deferred in E; try done.
  - case_decide; [done|]. by injection E as <-.
  - case_decide; [|done]. by injection E as <-.
  - destruct (dropping g); [done|]. injection E as <-. simpl. rewrite Hc. simpl.
    case_bool_decide; simpl; [|done]. destruct (hasGroup g); [|done].
    rewrite decide_True by lia. simpl. rewrite Hl, decide_False by lia. split_and!; [done..|lia].
  - by rewrite Hc in E.
  - by rewrite Hl in E.
  - case_decide; [|done]. injection E as <-. simpl. rewrite Hl, decide_False by lia. split_and!; [done..|lia].
Qed.

Lemma orderly_facts g : rtc orderly_step Awake g → gate_orderly g ∧ readLocks g = 0.
Proof.
  intros Hr. eapply (rtc_preserves orderly_step (λ g, gate_orderly g ∧ readLocks g = 0)); [| |exact Hr].
  - intros g1 g2 [Ho Hz] Hs. split; [by eapply orderly_step_ok|].
    assert (gate_orderly g2) as Ho2 by (by eapply orderly_step_ok).
    pose proof (ok_panics _ (or_ok _ Ho2) (or_panics _ Ho2)) as Hpos. destruct Hs as (e & _ & E).
    destruct e as [id|id| | | | |]; simpl in E; unfold OnDropped, OnDropped_deferred, CheckClose in E;
      repeat case_decide; try done; simplify_eq; try done; simpl in *;
      repeat (case_match; simplify_eq/=; try done); lia.
  - split; [apply Awake_orderly|done].
Qed.

(** C37: when the clients of a gate leave one at a time, none of them while it is asked
    and none comes after it has been, the gate takes back from the launcher's wait group
    exactly what it added: nothing panics, whoever waits waits for something, and once
    the clients are gone and the others have finished the launcher has come through or
    does so; it comes through only when the gate has no client left.

    Without that it does not hold.  Two clients that leave together both call [Done]:
    with another component still busy the launcher is let through too early, and without
    one the counter ends below zero, [Done] panics and leaves a read lock behind, and a
    launcher that begins to wait then never comes back, though no client is left. *)
Theorem gate_released :
  (∀ g, rtc orderly_step Awake g →
     panics g = 0 ∧ readLocks g = 0 ∧ (0 ≤ wg g)%Z ∧
     (launcher g = Waiting → (0 < wg g)%Z) ∧
     (launcher g = Through → acceptNum g = 0%Z ∧ dropping g = 0) ∧
     (isCloseServer g = true → acceptNum g = 0%Z → dropping g = 0 → wg g = others g ∧
        (others g = 0%Z → launcher g = Through ∨
           gate_run EWait g = Some (with_launcher Through g)))) ∧
  (∃ g, rtc gate_step Awake g ∧ launcher g = Through ∧ others g = 1%Z ∧ panics g = 0) ∧
  (∃ g, rtc gate_step Awake g ∧ acceptNum g = 0%Z ∧ dropping g = 0 ∧ others g = 0%Z ∧
     panics g = 1 ∧ readLocks g = 1 ∧ launcher g = Waiting ∧
     ∀ g', rtc (λ g g', ∃ e, e ≠ EOtherAdd ∧ gate_run e g = Some g') g g' → launcher g' = Waiting).
Proof.
  split_and!.
  - intros g Hr. destruct (orderly_facts g Hr) as [[Hok Hdr Hop Hdn Hd1 Ht Hp] Hrl].
    destruct Hok as [Hn Hc [Ha Hb] Hw Hd Ho Hl Hpp]. specialize (Hpp Hp).
    split_and!; [done|done|done| | |].
    + intros Hwt. specialize (Hl Hwt). lia.
    + intros Hth. specialize (Ht Hth). destruct (isCloseServer g) eqn:Ec.
      * destruct (adds g) as [|[|]] eqn:E; [by apply Hop|by apply Hd1|lia].
      * destruct (Hb eq_refl) as (_ & _ & ?). congruence.
    + intros Hcl Hz Hdz. assert (adds g = dones g) as E.
      { destruct (adds g) as [|[|]]; [lia| |lia]. destruct (dones g) as [|[|]]; [|done|lia].
        destruct (Hd eq_refl eq_refl); lia. }
      split; [lia|]. intros Hoz. destruct (launcher g) eqn:El; [right|exfalso; apply (Hl eq_refl); lia|by left].
      simpl. rewrite El, Hcl. unfold wg_Wait. by rewrite decide_True by lia.
  - eexists (mkGate 0 ∅ true true 0 0 0 Through 1 1 2 0). split; [|by split_and!].
    apply (runs_steps gate_run [EConnected "a"; EConnected "b"; EOtherAdd; ECheckClose; EWait; EDropped "a"; EDropped "b"; EDeferred; EDeferred]).
    vm_compute. reflexivity.
  - assert (rtc gate_step Awake (mkGate 0 ∅ true true 0 1 (-1) Waiting 0 1 2 1)) as Hr.
    { apply (runs_steps gate_run (left_together ++ [EWait])). vm_compute. reflexivity. }
    eexists (mkGate 0 ∅ true true 0 1 (-1) Waiting 0 1 2 1). split; [exact Hr|].
    split_and!; try done. intros g' Hg'. eapply waits_for_ever; [exact Hg'| |done..].
    exact (rtc_preserves _ _ _ _ gate_step_ok Awake_ok Hr).
Qed.

(** A gate with one client, which leaves while the launcher waits. *)
Lemma gate_released_witness :
  ∃ g, rtc orderly_step Awake g ∧ isCloseServer g = true ∧ adds g = 1 ∧ launcher g = Through ∧
    acceptNum g = 0%Z ∧ dropping g = 0.
Proof.
  assert (rtc orderly_step Awake (mkGate 0 ∅ true true 0 0 0 Through 0 1 1 0)) as Hr.
  { do 5 (eapply rtc_l; [match goal with |- orderly_step ?g _ =>
      first [exists (EConnected "a"); split; vm_compute; reflexivity
            |exists ECheckClose; split; vm_compute; reflexivity
            |exists EWait; split; vm_compute; reflexivity
            |exists (EDropped "a"); split; vm_compute; reflexivity
            |exists EDeferred; split; vm_compute; reflexivity] end|]). constructor. }
  destruct (proj1 gate_released _ Hr) as (_ & _ & _ & _ & Ht & _).
  eexists. split; [exact Hr|]. split; [reflexivity|]. split; [reflexivity|]. split; [reflexivity|].
  exact (Ht eq_refl).
Defined.
End DefaultGate.

(** ** The stateless gate

    Every handler is given what the node component, the master and the selected node
    answer; [V] are the values a node reports about itself. *)
Module SelectGate.
Section select.
Context {V K N : Type} (as_string : V → option string).

Inductive answer :=
| HttpError (msg : string) (code : Z)
| Text (s : string)
| JSON_Nodes (nodes : N)
| JSON_Status (msg : string) (all : gmap string string)
| JSON_Msg (msg : string).

(** The connection to the master that is kept, the connections made, the calls without
    reply, and what was answered. *)
Record sg := mkSg {
  sg_master : option K;
  sg_calls : list (K * string * list string);
  sg_answers : list answer }.

Definition reply (a : answer) : prog sg unit :=
  modify (λ s, mkSg (sg_master s) (sg_calls s) (sg_answers s ++ [a])).
Definition err_json (e : string) : answer :=
  Text ("{" +:+ String (Ascii.ascii_of_nat 34) "err" +:+ String (Ascii.ascii_of_nat 34) (":" +:+
        String (Ascii.ascii_of_nat 34) ("[ERROR] ==>" +:+ e +:+ String (Ascii.ascii_of_nat 34) "}"))).
Definition ip_json (ip : string) : answer :=
  Text ("{" +:+ String (Ascii.ascii_of_nat 34) "ip" +:+ String (Ascii.ascii_of_nat 34) (":" +:+
        String (Ascii.ascii_of_nat 34) (ip +:+ String (Ascii.ascii_of_nat 34) "}"))).
Definition StatusNotFound : Z := 404.
Definition StatusMethodNotAllowed : Z := 405.

(** [home]: after the answer to another method it goes on. *)
Definition home (path_ok get : bool) : prog sg unit :=
  if negb path_ok then reply (HttpError "Api not found" StatusNotFound)
  else
    _ ← (if get then mret tt else reply (HttpError "Post type is not GET" StatusMethodNotAllowed));
    reply (Text "happy server framework").

Definition only_post (post : bool) (m : prog sg unit) : prog sg unit :=
  if post then m else reply (HttpError "Post type is not POST" StatusMethodNotAllowed).

(** [getUsableGate]: after the answer to a failed selection it goes on as well, with the
    nil information. *)
Definition getUsableGate (post : bool) (group : result string unit)
    (selected : option (gmap string V) * option string) : prog sg unit :=
  only_post post (
    match group with
    | Err e => reply (err_json e)
    | Ok _ =>
        _ ← (match selected.2 with Some e => reply (err_json e) | None => mret tt end);
        match selected.1 with
        | None => panicking NilDereference
        | Some data =>
            match data !! "netAddr" ≫= as_string with
            | Some ip => reply (ip_json ip)
            | None => panicking (PanicVal "interface conversion")
            end
        end
    end).

Definition GetMasterClient (connect : result string K) : prog sg (result string K) :=
  s ← get_state;
  match sg_master s with
  | Some k => mret (Ok k)
  | None =>
      match connect with
      | Err e => mret (Err e)
      | Ok k => _ ← modify (λ s, mkSg (Some k) (sg_calls s) (sg_answers s)); mret (Ok k)
      end
  end.
Definition CallWithoutReply (k : K) (method : string) (args : list string) (err : option string)
    : prog sg (option string) :=
  _ ← modify (λ s, mkSg (sg_master s) (sg_calls s ++ [(k, method, args)]) (sg_answers s)); mret err.

Definition getOnLineWork (post : bool) (connect : result string K) (sync : K → result string N) : prog sg unit :=
  only_post post (
    master ← GetMasterClient connect;
    match master with
    | Err e => reply (err_json e)
    | Ok k => match sync k with Err e => reply (err_json e) | Ok n => reply (JSON_Nodes n) end
    end).

(** [closeOnLineNode]: [node] is the address the configuration defines for the name. *)
Definition closeOnLineNode (post : bool) (node : option string) (name : string) (connect : result string K)
    (err1 : option string) (client : result string K) (err2 : option string) : prog sg unit :=
  only_post post (
    match node with
    | None => reply (JSON_Msg "no exists")
    | Some addr =>
        master ← GetMasterClient connect;
        match master with
        | Err e => reply (JSON_Msg e)
        | Ok k =>
            e1 ← CallWithoutReply k "MasterService.SetNodeStatus" [addr; NODE_STAUTE_WEBCLOSE] err1;
            match e1 with
            | Some e => reply (JSON_Msg e)
            | None =>
                match client with
                | Err e => reply (JSON_Msg e)
                | Ok c =>
                    e2 ← CallWithoutReply c "LauncherService.CloseSelf" [name] err2;
                    match e2 with Some e => reply (JSON_Msg e) | None => reply (JSON_Msg "ok") end
                end
            end
        end
    end).

Definition getAllNodeStatus (post : bool) (connect : result string K)
    (status : K → result string (gmap string string)) : prog sg unit :=
  only_post post (
    master ← GetMasterClient connect;
    match master with
    | Err e => reply (JSON_Msg e)
    | Ok k => match status k with Err e => reply (JSON_Msg e) | Ok m => reply (JSON_Status "ok" m) end
    end).

Definition setNodeStatus (post : bool) (name : string) (connect : result string K) (err : option string) : prog sg unit :=
  only_post post (
    master ← GetMasterClient connect;
    match master with
    | Err e => reply (JSON_Msg e)
    | Ok k =>
        e ← CallWithoutReply k "MasterService.SetNodeStatus" [name; NODE_STAUTE_OFFLINE] err;
        match e with Some e => reply (JSON_Msg e) | None => reply (JSON_Msg "ok") end
    end).

(** Closing a node from the web: the node is told to close only after the master has
    recorded that it closes, and the caller hears ok only after both. *)
Lemma closeOnLineNode_order node name connect e1 client e2 s s' r :
  closeOnLineNode true node name connect e1 client e2 s = (s', r) →
  r = Ret tt ∧ (∀ k args, (k, "LauncherService.CloseSelf", args) ∈ sg_calls s' →
     (k, "LauncherService.CloseSelf", args) ∈ sg_calls s ∨
     (e1 = None ∧ ∃ addr k0 pre, node = Some addr ∧ args = [name] ∧
        sg_calls s' = pre ++ [(k0, "MasterService.SetNodeStatus", [addr; NODE_STAUTE_WEBCLOSE]);
                              (k, "LauncherService.CloseSelf", [name])])).
Proof.
  unfold closeOnLineNode, only_post, GetMasterClient, CallWithoutReply, reply.
  destruct node as [addr|]; [|intros [= <- <-]; split; [done|]; intros; by left].
  unfold_prog. unfold get_state, modify. destruct (sg_master s) as [k0|] eqn:Em; [|destruct connect as [k0|e]];
    try (intros [= <- <-]; split; [done|]; intros; by left);
    (destruct e1 as [e|]; [intros [= <- <-]; split; [done|]; simpl; intros k args Hin; left;
       apply elem_of_app in Hin as [?|Hin%list_elem_of_singleton]; done|]);
    (destruct client as [c|e]; [destruct e2 as [e|]|]); intros [= <- <-]; (split; [done|]); simpl;
    intros k args Hin; rewrite ?elem_of_app, ?list_elem_of_singleton in Hin.
  all: try (destruct Hin as [?|Hin]; [by left|done]).
  all: destruct Hin as [[?|?]|Hin]; [by left|done|]; injection Hin as -> ->; right; split; [done|].
  all: exists addr, k0, (sg_calls s); by rewrite <- app_assoc.
Qed.

(** A stateless gate with no usable node answers the error and then panics; only a
    node that reports its address as a string is answered, once. *)
Theorem getUsableGate_answers group selected s :
  (∀ e, group = Err e → getUsableGate true group selected s = reply (err_json e) s) ∧
  (∀ e, group = Ok tt → selected = (None, Some e) →
     getUsableGate true group selected s = ((reply (err_json e) s).1, Panic NilDereference)) ∧
  (∀ data ip, group = Ok tt → selected = (Some data, None) → data !! "netAddr" ≫= as_string = Some ip →
     getUsableGate true group selected s = reply (ip_json ip) s) ∧
  getUsableGate false group selected s = reply (HttpError "Post type is not POST" StatusMethodNotAllowed) s.
Proof.
  split_and!; [intros e ->|intros e -> ->|intros data ip -> -> Hip|]; try done.
  unfold getUsableGate, only_post. simpl. unfold_prog. cbn. simpl in Hip. by rewrite Hip.
Qed.
End select.
End SelectGate.
