(* ===== verification/Web.v ===== *)
(** * Web: what the HTTP servers of a node answer

    hCommon/ginExten.go (the middleware for requests of other origins) and the routers of
    SelectGateComponent.go, httpHandler.go and websocketHandler.go, over the handlers of
    Gate and NetServer. The engine (gin) is a class: what is registered with it, and how
    it runs a request: the status of a response is fixed by the first write of a body, and
    a panic that comes later no longer changes it. *)
From S2P Require Import Prelude GoString GoReflect NetSession NetApi NetServer Master Gate.
Import SelectGate.

(** ** Requests, responses and the engine *)
(** The headers are in the order in which [range] gives them. *)
Record request := mkRequest {
  rq_Method : string;
  rq_Path : string;
  rq_Header : list (string * string);
  rq_form : gmap string string }.
(** [Header.Get] *)
Definition Header_Get (k : string) (r : request) : string :=
  default "" (snd <$> head (filter (λ h, h.1 = k) (rq_Header r))).
(** [PostFormValue] *)
Definition PostFormValue (k : string) (r : request) : string := default "" (rq_form r !! k).

(** The response and the keys of the context, around the state of the application. The
    status that has been asked for is sent with the first byte of the body, and what is
    asked for afterwards has no effect ([ht_sent]). The headers are those the source sets;
    the content type that the library adds for itself is not among them. *)
Record Http (S : Type) := mkHttp {
  ht_header : gmap string string;
  ht_keys : gmap string string;
  ht_code : Z;
  ht_sent : option Z;
  ht_body : list string;
  ht_app : S }.
Arguments mkHttp {S} _ _ _ _ _ _.
Arguments ht_header {S} _.
Arguments ht_keys {S} _.
Arguments ht_code {S} _.
Arguments ht_sent {S} _.
Arguments ht_body {S} _.
Arguments ht_app {S} _.

Section web.
Context {S : Type}.

Definition with_app (s : S) (w : Http S) : Http S :=
  mkHttp (ht_header w) (ht_keys w) (ht_code w) (ht_sent w) (ht_body w) s.
Definition on_app {A} (m : prog S A) : prog (Http S) A := λ w,
  let '(s, r) := m (ht_app w) in (with_app s w, r).

(** [WriteHeader] and [Write] of the response, and [WriteHeaderNow] of gin's. *)
Definition WriteHeader (code : Z) (w : Http S) : Http S :=
  mkHttp (ht_header w) (ht_keys w) code (ht_sent w) (ht_body w) (ht_app w).
Definition WriteHeaderNow (w : Http S) : Http S :=
  mkHttp (ht_header w) (ht_keys w) (ht_code w) (Some (default (ht_code w) (ht_sent w))) (ht_body w) (ht_app w).
Definition Write (s : string) (w : Http S) : Http S :=
  let w := WriteHeaderNow w in
  mkHttp (ht_header w) (ht_keys w) (ht_code w) (ht_sent w) (ht_body w ++ [s]) (ht_app w).
(** The status that the other side is told in the end. *)
Definition status (w : Http S) : Z := default (ht_code w) (ht_sent w).

(** [c.Header], [c.Set], and what is written to the response: [c.JSON] of an object with
    its text, [http.Error] and [WriteString]. *)
Definition set_Header (k v : string) : prog (Http S) unit :=
  modify (λ w, mkHttp (<[k := v]> (ht_header w)) (ht_keys w) (ht_code w) (ht_sent w) (ht_body w) (ht_app w)).
Definition set_key (k v : string) : prog (Http S) unit :=
  modify (λ w, mkHttp (ht_header w) (<[k := v]> (ht_keys w)) (ht_code w) (ht_sent w) (ht_body w) (ht_app w)).
Definition JSON (code : Z) (text : string) : prog (Http S) unit := modify (λ w, Write text (WriteHeader code w)).
Definition newline : string := String (Ascii.ascii_of_nat 10) "".
Definition http_Error (msg : string) (code : Z) : prog (Http S) unit :=
  modify (λ w, Write (msg +:+ newline) (WriteHeader code w)).
Definition WriteString (s : string) : prog (Http S) unit := modify (Write s).
Definition quoted (s : string) : string := String (Ascii.ascii_of_nat 34) (s +:+ String (Ascii.ascii_of_nat 34) "").

Definition handler : Type := request → prog (Http S) unit.
(** A middleware is given what is behind it in the chain, which [c.Next] runs. *)
Definition middleware : Type := request → prog (Http S) unit → prog (Http S) unit.

(** What [Use], [GET] and [POST] have registered. *)
Record engine := mkEngine { eg_uses : list middleware; eg_routes : list (string * string * handler) }.
Definition gin_New : engine := mkEngine [] [].
Definition Use (m : middleware) (e : engine) : engine := mkEngine (eg_uses e ++ [m]) (eg_routes e).
Definition route_add (method path : string) (h : handler) (e : engine) : engine :=
  mkEngine (eg_uses e) (eg_routes e ++ [(method, path, h)]).
Definition GET := route_add "GET".
Definition POST := route_add "POST".

Definition routed (r : request) (e : engine) (h : handler) : Prop := (rq_Method r, rq_Path r, h) ∈ eg_routes e.
Definition chain (ms : list middleware) (r : request) (last : prog (Http S) unit) : prog (Http S) unit :=
  foldr (λ m next, m r next) last ms.

(** [AbortWithStatus(500)], which [gin.Recovery] ends a panic of what is behind it with, and
    the engine's own answer to a request without a route: neither can change a status that
    has been sent. *)
Definition abort500 (w : Http S) : Http S := WriteHeaderNow (WriteHeader 500 w).
Definition not_found : handler := λ r w,
  (match ht_sent w with Some _ => w | None => Write "404 page not found" (WriteHeader 404 w) end, Ret tt).

(** Middlewares run in the order of their registration around the handler of the route, or
    around the engine's own answer when there is no route for the method. *)
Class Gin := {
  Recovery : middleware;
  ServeHTTP : engine → request → prog (Http S) unit;
  serves_route e r h : NoDup (fst <$> eg_routes e) → routed r e h → ServeHTTP e r = chain (eg_uses e) r (h r);
  serves_nothing e r : rq_Method r ∉ (λ x : string * string * handler, x.1.1) <$> eg_routes e →
    ServeHTTP e r = chain (eg_uses e) r (not_found r);
  recovers r next w : Recovery r next w = recovering next (λ _ w, (abort500 w, Ret tt)) w }.

(** ** [Cors] *)
Definition StatusOK : Z := 200.
Definition allow_methods : string := "POST, GET, OPTIONS, PUT, DELETE,UPDATE".
Definition allow_headers : string := "Authorization, Content-Length, X-CSRF-Token, Token,session,X_Requested_With,Accept, Origin, Host, Connection, Accept-Encoding, Accept-Language,DNT, X-CustomHeader, Keep-Alive, User-Agent, X-Requested-With, If-Modified-Since, Cache-Control, Content-Type, Pragma".
Definition expose_headers : string := "Content-Length, Access-Control-Allow-Origin, Access-Control-Allow-Headers,Cache-Control,Content-Language,Content-Type,Expires,Last-Modified,Pragma,FooBar".

(** The list of the request's headers is put together, and not used. *)
Definition Cors_headerStr (r : request) : string :=
  let headerStr := Join ", " (fst <$> rq_Header r) in
  if decide (headerStr ≠ "")
  then "access-control-allow-origin, access-control-allow-headers, " +:+ headerStr
  else "access-control-allow-origin, access-control-allow-headers".
Definition Cors : middleware := λ r next,
  let origin := Header_Get "Origin" r in
  let headerStr := Cors_headerStr r in
  _ ← (if decide (origin ≠ "") then
         _ ← set_Header "Access-Control-Allow-Origin" "*";
         _ ← set_Header "Access-Control-Allow-Origin" "*";
         _ ← set_Header "Access-Control-Allow-Methods" allow_methods;
         _ ← set_Header "Access-Control-Allow-Headers" allow_headers;
         _ ← set_Header "Access-Control-Expose-Headers" expose_headers;
         _ ← set_Header "Access-Control-Max-Age" "172800";
         _ ← set_Header "Access-Control-Allow-Credentials" "false";
         set_key "content-type" "application/json"
       else mret tt);
  _ ← (if decide (rq_Method r = "OPTIONS") then JSON StatusOK (quoted "Options Request!") else mret tt);
  next.

(** The headers that a request of another origin finds. *)
Definition cors_headers : gmap string string :=
  <["Access-Control-Allow-Credentials" := "false"]> (<["Access-Control-Max-Age" := "172800"]>
  (<["Access-Control-Expose-Headers" := expose_headers]> (<["Access-Control-Allow-Headers" := allow_headers]>
  (<["Access-Control-Allow-Methods" := allow_methods]> {["Access-Control-Allow-Origin" := "*"]})))).

(** What the handler behind the middleware starts from. *)
Definition after_Cors (r : request) (w : Http S) : Http S :=
  let foreign := bool_decide (Header_Get "Origin" r ≠ "") in
  let w1 := mkHttp (if foreign then cors_headers ∪ ht_header w else ht_header w)
    (if foreign then <["content-type" := "application/json"]> (ht_keys w) else ht_keys w)
    (ht_code w) (ht_sent w) (ht_body w) (ht_app w) in
  if decide (rq_Method r = "OPTIONS") then Write (quoted "Options Request!") (WriteHeader StatusOK w1) else w1.

Lemma cors_union (h : gmap string string) :
  <["Access-Control-Allow-Credentials" := "false"]> (<["Access-Control-Max-Age" := "172800"]>
  (<["Access-Control-Expose-Headers" := expose_headers]> (<["Access-Control-Allow-Headers" := allow_headers]>
  (<["Access-Control-Allow-Methods" := allow_methods]> (<["Access-Control-Allow-Origin" := "*"]>
  (<["Access-Control-Allow-Origin" := "*"]> h)))))) = cors_headers ∪ h.
Proof. unfold cors_headers. by rewrite <- !insert_union_l, <- insert_union_singleton_l, insert_insert_eq. Qed.

Lemma Cors_run r next w : Cors r next w = next (after_Cors r w).
Proof.
  unfold Cors, after_Cors. cbn zeta.
  destruct (decide (Header_Get "Origin" r ≠ "")) as [Ho|Ho];
    [rewrite bool_decide_true by done|rewrite bool_decide_false by done];
    destruct (decide (rq_Method r = "OPTIONS")); unfold_prog; unfold set_Header, set_key, JSON, modify; cbn;
    rewrite ?cors_union; by destruct w.
Qed.

Lemma after_Cors_app r w : ht_app (after_Cors r w) = ht_app w.
Proof. unfold after_Cors. by case_decide. Qed.

(** The middlewares of the gate and of the handler of posted messages. *)
Lemma recovered_chain `{Gin} r (h : prog (Http S) unit) w :
  chain [Recovery; Cors] r h w = recovering h (λ _ w, (abort500 w, Ret tt)) (after_Cors r w).
Proof.
  cbn [chain foldr]. rewrite recovers. unfold recovering. by rewrite Cors_run.
Qed.
End web.
Arguments handler S : clear implicits.
Arguments middleware S : clear implicits.
Arguments engine S : clear implicits.
Arguments Gin S : clear implicits.

(** ** The stateless gate's server *)
Section select_server.
Context {V K N : Type} (as_string : V → option string).
Abbreviation gate_state := (sg (K:=K) (N:=N)).
Context `{Gin gate_state}.

(** What the node component, the master and the configuration answer to the handlers. *)
Record select_env := mkEnv {
  se_group : result string unit;
  se_selected : option (gmap string V) * option string;
  se_connect : result string K;
  se_sync : K → result string N;
  se_status : K → result string (gmap string string);
  se_NodeDefine : string → option string;
  se_told : option string;
  se_client : result string K;
  se_closed : option string }.

(** The answers of a handler as they are written; [json] is the text of gin's objects. *)
Context (json : answer (N:=N) → string).
Definition answer_text (a : answer (N:=N)) : string :=
  match a with HttpError msg _ => msg +:+ newline | Text s => s | _ => json a end.
Definition write_answer (w : Http gate_state) (a : answer (N:=N)) : Http gate_state :=
  Write (answer_text a)
    (match a with HttpError _ code => WriteHeader code w | Text _ => w | _ => WriteHeader StatusOK w end).
Definition answering {A} (m : prog gate_state A) : prog (Http gate_state) A := λ w,
  let '(s, r) := m (ht_app w) in
  (foldl write_answer (with_app s w) (drop (length (sg_answers (ht_app w))) (sg_answers s)), r).

Definition is_post (r : request) : bool := bool_decide (rq_Method r = "POST").
Definition is_get (r : request) : bool := bool_decide (rq_Method r = "GET").

Definition h_home : handler gate_state := λ r, answering (home (bool_decide (rq_Path r = "/")) (is_get r)).
Definition h_getUsableGate (env : select_env) : handler gate_state := λ r,
  answering (getUsableGate as_string (is_post r) (se_group env) (se_selected env)).
Definition h_getOnLineWork (env : select_env) : handler gate_state := λ r,
  answering (getOnLineWork (is_post r) (se_connect env) (se_sync env)).
Definition h_closeOnLineNode (env : select_env) : handler gate_state := λ r,
  let name := PostFormValue "name" r in
  answering (closeOnLineNode (is_post r) (se_NodeDefine env name) name (se_connect env) (se_told env) (se_client env) (se_closed env)).
Definition h_getAllNodeStatus (env : select_env) : handler gate_state := λ r,
  answering (getAllNodeStatus (is_post r) (se_connect env) (se_status env)).
Definition h_setNodeStatus (env : select_env) : handler gate_state := λ r,
  answering (setNodeStatus (is_post r) (PostFormValue "name" r) (se_connect env) (se_told env)).

Definition initServer (env : select_env) : engine gate_state :=
  let router := gin_New in
  let router := Use Recovery router in
  let router := Use Cors router in
  let router := GET "/" h_home router in
  let router := POST "/getUsableGate" (h_getUsableGate env) router in
  let router := POST "/getOnLineWork" (h_getOnLineWork env) router in
  let router := POST "/closeOnLineNode" (h_closeOnLineNode env) router in
  let router := POST "/getAllNodeStatus" (h_getAllNodeStatus env) router in
  POST "/setNodeStatus" (h_setNodeStatus env) router.

Lemma answering_ends {A} (m : prog gate_state A) : (∀ s, goes_on (m s).2 = true) → ∀ w, goes_on (answering m w).2 = true.
Proof. intros Hm w. unfold answering. specialize (Hm (ht_app w)). by destruct (m (ht_app w)). Qed.

Ltac by_cases := repeat (case_match; simplify_eq/=; try done).
Lemma handlers_end env r h w : routed r (initServer env) h → goes_on (h r w).2 = true.
Proof.
  unfold routed. simpl. rewrite !elem_of_cons, elem_of_nil. intros Hh.
  destruct_or! Hh; try done; injection Hh as _ _ ->; apply answering_ends; intros s;
    unfold home, getUsableGate, getOnLineWork, closeOnLineNode, getAllNodeStatus, setNodeStatus, only_post,
      GetMasterClient, CallWithoutReply, reply; unfold_prog; unfold get_state, modify, panicking; by_cases.
Qed.

(** The answers of a handler that a request was routed to: none is that of a wrong method
    or path, which the router has sorted out. *)
Definition no_http_error (a : answer (N:=N)) : Prop := match a with HttpError _ _ => False | _ => True end.
Definition answers_more (m : prog gate_state unit) : Prop := ∀ s, ∃ l,
  sg_answers (m s).1 = sg_answers s ++ l ∧ Forall no_http_error l.

(** A response that nothing has been written to. *)
Definition fresh_response (w : Http gate_state) : Prop := ht_code w = StatusOK ∧ ht_sent w = None ∧ ht_body w = [].

Lemma writes_ok l (w : Http gate_state) : Forall no_http_error l → ht_code w = StatusOK →
  ht_sent w = None ∨ ht_sent w = Some StatusOK →
  let w' := foldl write_answer w l in
  ht_body w' = ht_body w ++ (answer_text <$> l) ∧ ht_header w' = ht_header w ∧ ht_app w' = ht_app w ∧
  ht_code w' = StatusOK ∧ ht_sent w' = match l with [] => ht_sent w | _ => Some StatusOK end.
Proof.
  intros Hl. revert w. induction Hl as [|a l Ha _ IH]; intros w Hc Hs; simpl; [by rewrite app_nil_r|].
  assert (ht_code (write_answer w a) = StatusOK ∧ ht_sent (write_answer w a) = Some StatusOK) as [Hc' Hs'].
  { destruct a; simpl; try done; rewrite ?Hc; split; try done; by destruct Hs as [-> | ->]. }
  destruct (IH (write_answer w a) Hc' (or_intror Hs')) as (-> & -> & -> & -> & ->).
  split_and!; [|by destruct a|by destruct a|done|rewrite Hs'; by destruct l].
  destruct a; simpl; by rewrite <- app_assoc.
Qed.

Lemma answering_run m w : answers_more m → fresh_response w → ∃ l,
  Forall no_http_error l ∧ sg_answers (ht_app (answering m w).1) = sg_answers (ht_app w) ++ l ∧
  ht_body (answering m w).1 = answer_text <$> l ∧ ht_header (answering m w).1 = ht_header w ∧
  ht_code (answering m w).1 = StatusOK ∧
  ht_sent (answering m w).1 = (match l with [] => None | _ => Some StatusOK end).
Proof.
  intros Hm (Hc & Hs & Hb). destruct (Hm (ht_app w)) as (l & E & Hl). exists l.
  unfold answering. destruct (m (ht_app w)) as [s r]. simpl in E |- *. rewrite E, drop_app_length.
  destruct (writes_ok l (with_app s w) Hl Hc (or_introl Hs)) as (Hb' & Hh & Ha & Hc' & Hs').
  rewrite Hb', Hh, Ha, Hc', Hs'. simpl. rewrite Hb, Hs. by split_and!.
Qed.
Ltac one_answer :=
  first [ exists []; rewrite app_nil_r; by split
        | eexists; split; [reflexivity|by repeat constructor]
        | eexists; split; [by rewrite <- app_assoc|by repeat constructor] ].
Lemma handlers_answer env r h : routed r (initServer env) h →
  ∃ m, h r = answering m ∧ answers_more m.
Proof.
  unfold routed. simpl. rewrite !elem_of_cons, elem_of_nil. intros Hh.
  destruct_or! Hh; try done; injection Hh as Em Ep ->; eexists; (split; [reflexivity|]); intros s;
    unfold is_post, is_get;
    rewrite ?Ep, Em, ?bool_decide_true by done;
    unfold home, getUsableGate, getOnLineWork, closeOnLineNode, getAllNodeStatus, setNodeStatus, only_post,
      GetMasterClient, CallWithoutReply, reply; unfold_prog; unfold get_state, modify, panicking;
    repeat (case_match; simplify_eq/=); one_answer.
Qed.

Lemma routes_differ env : NoDup (fst <$> eg_routes (initServer env)).
Proof. apply (bool_decide_unpack _). vm_compute. exact I. Qed.
Lemma initServer_serves env r h w : routed r (initServer env) h →
  ServeHTTP (initServer env) r w = recovering (h r) (λ _ w, (abort500 w, Ret tt)) (after_Cors r w).
Proof. intros Hh. rewrite (serves_route _ r h (routes_differ env) Hh). apply recovered_chain. Qed.

Lemma routed_fresh env r h w : routed r (initServer env) h → fresh_response w → fresh_response (after_Cors r w).
Proof.
  intros Hh Hw. assert (rq_Method r ≠ "OPTIONS") as Hm.
  { unfold routed in Hh. simpl in Hh. rewrite !elem_of_cons, elem_of_nil in Hh.
    destruct_or! Hh; try done; by injection Hh as -> _ _. }
  unfold after_Cors. by rewrite decide_False.
Qed.

(** C34: whatever is asked of the stateless gate by a route it has, its server stays alive: the
    request comes to an end, with the answers of the handler as the body, none of which is
    that to a wrong method or path, as the router has sorted such requests out. The status
    is 500 when the handler panics before it has written anything, as with a node that does
    not tell its address, and 200 otherwise: also for an error, and also when the handler
    panics after its answer, as it does when no gate is usable, where the error is all the
    caller sees. The page is answered at the root; a preflight request is answered with
    200; another method without a route is answered 404. *)
Theorem select_gate_serves env w : fresh_response w →
  (∀ r h, routed r (initServer env) h → ∃ w' l, ServeHTTP (initServer env) r w = (w', Ret tt) ∧
     Forall no_http_error l ∧ sg_answers (ht_app w') = sg_answers (ht_app w) ++ l ∧
     ht_body w' = answer_text <$> l ∧ ht_header w' = ht_header (after_Cors r w) ∧
     status w' = match (h r (after_Cors r w)).2, l with Panic _, [] => 500 | _, _ => 200 end%Z) ∧
  (∀ r, rq_Method r = "GET" → rq_Path r = "/" → ∃ w', ServeHTTP (initServer env) r w = (w', Ret tt) ∧
     status w' = 200%Z ∧ ht_body w' = ["happy server framework"]) ∧
  (∀ r e, rq_Method r = "POST" → rq_Path r = "/getUsableGate" → se_group env = Ok tt → se_selected env = (None, Some e) →
     (h_getUsableGate env r (after_Cors r w)).2 = Panic NilDereference ∧
     ∃ w', ServeHTTP (initServer env) r w = (w', Ret tt) ∧
       status w' = 200%Z ∧ ht_body w' = [answer_text (err_json e)]) ∧
  (∀ r data, rq_Method r = "POST" → rq_Path r = "/getUsableGate" → se_group env = Ok tt → se_selected env = (Some data, None) →
     ∃ w', ServeHTTP (initServer env) r w = (w', Ret tt) ∧
       match data !! "netAddr" ≫= as_string with
       | Some ip => status w' = 200%Z ∧ ht_body w' = [answer_text (ip_json ip)]
       | None => status w' = 500%Z ∧ ht_body w' = []
       end) ∧
  (∀ r, rq_Method r ∉ ["GET"; "POST"] → ∃ w', ServeHTTP (initServer env) r w = (w', Ret tt) ∧
     if decide (rq_Method r = "OPTIONS") then status w' = 200%Z ∧ ht_body w' = [quoted "Options Request!"]
     else status w' = 404%Z ∧ ht_body w' = ["404 page not found"]).
Proof.
  intros Hw. split; [|split; [|split; [|split]]].
  - intros r h Hh. rewrite (initServer_serves env r h w Hh). unfold recovering.
    pose proof (handlers_end env r h (after_Cors r w) Hh) as Hend.
    destruct (handlers_answer env r h Hh) as (m & Em & Hm).
    destruct (answering_run m (after_Cors r w) Hm (routed_fresh env r h w Hh Hw)) as (l & Hl & Ha & Hb & Hhd & Hc & Hs).
    rewrite Em in Hend |- *. rewrite after_Cors_app in Ha. destruct (answering m (after_Cors r w)) as [w0 [[]|p|]]; simpl in *; [| |done].
    + exists w0, l. split_and!; try done. unfold status. rewrite Hs, Hc. by destruct l.
    + destruct (fatal p); [done|]. exists (abort500 w0), l. split_and!; try done.
      unfold status, abort500. simpl. rewrite Hs. by destruct l.
  - intros r Em Ep. rewrite (initServer_serves env r h_home w) by (unfold routed; rewrite Em, Ep; by left).
    unfold h_home, is_get, recovering, answering, home, reply. rewrite Em, Ep, !bool_decide_true by done.
    unfold_prog. unfold modify. cbn -[after_Cors]. rewrite drop_app_length. cbn -[after_Cors].
    destruct Hw as (Hc & Hs & Hb). eexists. split; [done|]. unfold status, after_Cors. cbn.
    rewrite decide_False by (by rewrite Em). cbn. by rewrite Hb, Hc, Hs.
  - intros r e Em Ep Eg Es.
    rewrite (initServer_serves env r (h_getUsableGate env) w) by (unfold routed; rewrite Em, Ep; right; by left).
    unfold h_getUsableGate, is_post. rewrite Em, bool_decide_true, Eg, Es by done. destruct Hw as (Hc & Hs & Hb).
    unfold recovering, answering, getUsableGate, only_post, reply. unfold_prog. unfold modify, panicking.
    cbn -[after_Cors]. rewrite drop_app_length. cbn -[after_Cors]. split; [done|]. eexists. split; [done|].
    unfold status, after_Cors. rewrite decide_False by (by rewrite Em). cbn. by rewrite Hb, Hc, Hs.
  - intros r data Em Ep Eg Es.
    rewrite (initServer_serves env r (h_getUsableGate env) w) by (unfold routed; rewrite Em, Ep; right; by left).
    unfold h_getUsableGate, is_post. rewrite Em, bool_decide_true, Eg, Es by done. destruct Hw as (Hc & Hs & Hb).
    unfold recovering, answering, getUsableGate, only_post, reply. unfold_prog. unfold modify, panicking.
    change (data !! "netAddr" ≫= as_string) with (option_bind V string as_string (data !! "netAddr")).
    cbn -[after_Cors option_bind]. generalize (option_bind V string as_string (data !! "netAddr")).
    intros [ip|]; cbn -[after_Cors];
      rewrite ?drop_app_length, ?drop_all; cbn -[after_Cors]; (eexists; split; [reflexivity|]);
      unfold status, after_Cors; rewrite decide_False by (by rewrite Em); cbn; by rewrite ?Hb, ?Hc, ?Hs.
  - intros r Hm. destruct Hw as (Hc & Hs & Hb). rewrite serves_nothing.
    + change (eg_uses (initServer env)) with [Recovery; @Cors gate_state]. rewrite recovered_chain. unfold recovering, not_found, after_Cors.
      destruct (decide (rq_Method r = "OPTIONS")); cbn; rewrite ?Hs; cbn; eexists; (split; [done|]);
        unfold status; cbn; by rewrite ?Hb, ?Hs.
    + intros Hin. apply Hm. change (rq_Method r ∈ ["GET"; "POST"; "POST"; "POST"; "POST"; "POST"]) in Hin. set_solver.
Qed.
End select_server.

(** ** The servers of hNet

    The handler of posted messages has the same middlewares and one route; that of
    websockets has a page and the route of the connections, which NetServer and NetPool
    follow step by step. *)
Section net_servers.
Context {C : Type} `{Transport C} {PV M D : Type}.
Context (Unmarshal : bytes → gotype → result string M).
Context (user : methodType → positive → M → prog (Net C PV M) unit).
Context (json_Marshal : D → bytes).
Abbreviation srv := (Srv C PV M).
Context `{Gin srv}.

(** [Api] with what it answers; [body] is what [BindJSON] makes of a request, which aborts
    with the status 400 when it cannot be read. *)
Definition StatusBadRequest : Z := 400.
Definition h_Api (conf : ServerConf) (sess : positive) (body : request → option (MsgData D)) : handler srv := λ r,
  a ← on_app (Api Unmarshal user json_Marshal conf (is_post r) sess (body r));
  match a with
  | MethodNotAllowed => http_Error "Post type is not POST" StatusMethodNotAllowed
  | PostDataErr =>
      _ ← modify (λ w, WriteHeaderNow (WriteHeader StatusBadRequest w));
      JSON StatusOK ("{" +:+ quoted "Msg" +:+ ":" +:+ quoted "post data err!!!" +:+ "," +:+
                                   quoted "Status" +:+ ":" +:+ quoted "-1" +:+ "}")
  | Handled => mret tt
  end.
Definition HttpHandler_router (conf : ServerConf) (sess : positive) (body : request → option (MsgData D)) : engine srv :=
  let router := gin_New in
  let router := Use Recovery router in
  let router := Use Cors router in
  POST "/api" (h_Api conf sess body) router.

(** The page of the websocket server. *)
Definition ws_home : handler srv := λ r,
  if negb (bool_decide (rq_Path r = "/")) then http_Error "Api not found" StatusNotFound
  else
    _ ← (if negb (is_get r) then http_Error "Post type is not GET" StatusMethodNotAllowed else mret tt);
    WriteString ("happy server framework " +:+ String (Ascii.ascii_of_nat 10) " Gate Component").
(** [upgrade] answers the error of the library, [connection] is what is done with one. *)
Definition h_ws (upgrade : request → option string) (connection : handler srv) : handler srv := λ r,
  match upgrade r with
  | Some _ => WriteString "Server internal error"
  | None => connection r
  end.
Definition WebSocketHandler_router (upgrade : request → option string) (connection : handler srv) : engine srv :=
  let router := gin_New in
  let router := Use Recovery router in
  let router := GET "/" ws_home router in
  GET "/ws" (h_ws upgrade connection) router.

(** A posted message with the application's own handler panics before anything is written,
    is answered 500, and its connection is never taken off the count; one that cannot be
    read is answered 400, and stays counted too. *)
Lemma posted_stays_counted conf sess body r w :
  rq_Method r = "POST" → rq_Path r = "/api" → (-2 ^ 31 ≤ sv_acceptNum (ht_app w) < 2 ^ 31 - 1)%Z →
  (cf_CustomeHandler conf = true ∧ body r ≠ None ∨ body r = None) →
  ∃ w', ServeHTTP (HttpHandler_router conf sess body) r w = (w', Ret tt) ∧
    (w' = abort500 (on_app (modify (λ s, set_acceptNum (sv_acceptNum s + 1) s)) (after_Cors r w)).1 ∨
     ht_app w' = set_acceptNum (sv_acceptNum (ht_app w) + 1) (ht_app w)).
Proof.
  intros Em Ep Hn Hb. rewrite (serves_route _ r (h_Api conf sess body)).
  2: { apply NoDup_singleton. }
  2: { unfold routed. rewrite Em, Ep. by left. }
  change (eg_uses (HttpHandler_router conf sess body)) with [Recovery; @Cors srv]. rewrite recovered_chain.
  unfold h_Api, is_post. rewrite Em, bool_decide_true by done.
  unfold recovering, Api. unfold_prog. unfold on_app. cbn -[after_Cors]. rewrite after_Cors_app.
  unfold modify. cbn -[after_Cors].
  destruct (body r) as [p|] eqn:Eb.
  - destruct Hb as [[Hc _]|?]; [|done]. unfold revc, handleMsg. rewrite Hc. unfold_prog. cbn -[after_Cors].
    eexists. split; [done|]. left. rewrite swrap_small by lia. done.
  - cbn -[after_Cors]. eexists. split; [done|]. right. cbn. rewrite swrap_small by lia. done.
Qed.
End net_servers.

(** ** An engine that looks its routes up *)
Section table_engine.
Context {S : Type}.
Definition find_route (l : list (string * string * handler S)) (k : string * string) : option (handler S) :=
  snd <$> head (filter (λ x, x.1 = k) l).
Lemma find_route_Some l k h : NoDup (fst <$> l) → (k, h) ∈ l → find_route l k = Some h.
Proof.
  unfold find_route. induction l as [|[k' h'] l IH]; simpl; [by intros _ ?%elem_of_nil|].
  intros [Hk Hl]%NoDup_cons Hin. rewrite filter_cons. simpl. apply elem_of_cons in Hin as [[= -> ->]|Hin].
  - by rewrite decide_True.
  - rewrite decide_False; [by apply IH|]. intros ->. apply Hk, list_elem_of_fmap. by exists (k, h).
Qed.
Lemma find_route_None l m p : m ∉ (λ x, x.1.1) <$> l → find_route l (m, p) = None.
Proof.
  intros Hm. unfold find_route. assert (filter (λ x, x.1 = (m, p)) l = []) as ->; [|done].
  induction l as [|[[m' p'] h] l IH]; [done|]. rewrite filter_cons. simpl in *.
  apply not_elem_of_cons in Hm as [Hne Hm]. rewrite decide_False by congruence. by apply IH.
Qed.
#[local] Instance table_gin : Gin S.
Proof.
  refine {|
    Recovery r next := recovering next (λ _ w, (abort500 w, Ret tt));
    ServeHTTP e r := chain (eg_uses e) r
      (match find_route (eg_routes e) (rq_Method r, rq_Path r) with Some h => h r | None => not_found r end) |}.
  - intros e r h Hnd Hin. by rewrite (find_route_Some _ _ _ Hnd Hin).
  - intros e r Hm. by rewrite (find_route_None _ _ _ Hm).
  - done.
Defined.
End table_engine.

Definition a_request (method path : string) : request := mkRequest method path [("Origin", "http://game.cn")] ∅.
Definition no_gate : select_env (V:=string) (K:=unit) (N:=unit) :=
  mkEnv (Ok tt) (None, Some "no node") (Err "no master") (λ _, Ok tt) (λ _, Ok ∅) (λ _, None) None (Err "down") None.

Definition no_json : answer (N:=unit) → string := λ _, "{}".
Definition new_response : Http (sg (K:=unit) (N:=unit)) := mkHttp ∅ ∅ StatusOK None [] (mkSg None [] []).

(** No gate is usable: the error is answered with the status 200, and the server goes on. *)
Lemma select_gate_serves_witness :
  ∃ w', ServeHTTP (Gin := table_gin) (initServer (H := table_gin) Some no_json no_gate) (a_request "POST" "/getUsableGate")
      new_response = (w', Ret tt) ∧ status w' = 200%Z ∧
    ht_body w' = [answer_text no_json (err_json "no node")].
Proof.
  destruct (select_gate_serves (H := table_gin) Some no_json no_gate new_response) as (_ & _ & Hno & _); [by split_and!|].
  destruct (Hno (a_request "POST" "/getUsableGate") "no node" eq_refl eq_refl eq_refl eq_refl) as (_ & w' & E & Hs & Hb). exists w'. split; [exact E|]. split; [exact Hs|exact Hb].
Defined.
