(* ===== verification/RpcClient.v ===== *)
(** * hRpc: the client

    client.go.  Many goroutines call through one [TcpClient]: [send] holds
    [reqMutex] from registering a call until its request is written, [input] reads
    the responses in a goroutine of its own, [Close] and the heartbeat run beside
    them.  An event is what happens between two points at which another goroutine
    can come in; [run_event] answers [None] for an event that has to wait for a
    mutex, a channel or its turn.  The wire is what the codec has written; what is
    read from it comes with the event. *)
From S2P Require Import Prelude.

Definition RPC_CALL_TYPE_NONE : Z := 0.
Definition RPC_CALL_TYPE_NORMAL : Z := 1.
Definition RPC_CALL_TYPE_WITHOUTREPLY : Z := 2.

Inductive rpc_error :=
| ErrShutdown | ErrTimeout | ErrEOF | ErrUnexpectedEOF | ErrErrorBody
| ServerError (msg : string)
| IoError (msg : string)
| ReadingBody (msg : string)
| ReadingErrorBody (msg : string).

#[global] Instance rpc_error_eq_dec : EqDecision rpc_error.
Proof. solve_decision. Defined.

Record Request := mkRequest { rq_ServiceMethod : string; rq_Seq : Z; rq_Type : Z }.
Record Response := mkResponse { rs_ServiceMethod : string; rs_Seq : Z; rs_Error : string }.

Section client.
(** Arguments and replies. *)
Context {V : Type}.

(** [Call]; [c_done] counts the calls of [done], of which the channel of capacity
    one keeps the first.  [c_seq] is the number [send] gave it and [c_from] the
    number of the response that completed it; the code keeps neither. *)
Record Call := mkCall {
  c_ServiceMethod : string;
  c_Args : V;
  c_wants_reply : bool;
  c_Reply : option V;
  c_Error : option rpc_error;
  c_Type : Z;
  c_done : nat;
  c_seq : option Z;
  c_from : option Z }.

(** Who holds [reqMutex]. *)
Inductive sender :=
| SIdle
| SWriting (id : positive) (seq : Z)        (* registered, about to write *)
| SFailed (seq : Z) (err : rpc_error).      (* the write failed *)

(** Where [input] stands. *)
Inductive input_pc :=
| IHeader
| IBody (call : option positive) (resp : Response)
| ITerminate (err : rpc_error)
| IEnded.

(** Where the heartbeat stands: at its [select], about to call, waiting for the call,
    each with [pingCount], in its own [Close], or gone. *)
Inductive heart := HSelect (pingCount : Z) | HCalling (pingCount : Z) | HWaiting (pingCount : Z) | HClosing | HGone.

Record TcpClient := mkClient {
  seq : Z;
  request : Request;
  pending : gmap Z positive;
  closing : bool;
  shutdown : bool;
  reqMutex : sender;
  mutex_held : bool;                       (* by a [Close] that waits *)
  input : input_pc;
  heartbeat : heart;
  calls : gmap positive Call;
  wire : list (Request * V);
  closed_events : nat }.

Definition set_calls cs s := mkClient (seq s) (request s) (pending s) (closing s) (shutdown s)
  (reqMutex s) (mutex_held s) (input s) (heartbeat s) cs (wire s) (closed_events s).
Definition set_pending p s := mkClient (seq s) (request s) p (closing s) (shutdown s)
  (reqMutex s) (mutex_held s) (input s) (heartbeat s) (calls s) (wire s) (closed_events s).
Definition set_reqMutex m s := mkClient (seq s) (request s) (pending s) (closing s) (shutdown s)
  m (mutex_held s) (input s) (heartbeat s) (calls s) (wire s) (closed_events s).
Definition set_input i s := mkClient (seq s) (request s) (pending s) (closing s) (shutdown s)
  (reqMutex s) (mutex_held s) i (heartbeat s) (calls s) (wire s) (closed_events s).
Definition set_heart h s := mkClient (seq s) (request s) (pending s) (closing s) (shutdown s)
  (reqMutex s) (mutex_held s) (input s) h (calls s) (wire s) (closed_events s).

(** [NewClientWithConn]: in debug mode the heartbeat returns at once. *)
Definition NewClientWithConn (DebugMode : bool) : TcpClient :=
  mkClient 0 (mkRequest "" 0 0) ∅ false false SIdle false IHeader
    (if DebugMode then HGone else HSelect 0) ∅ [] 0.

(** [call.Error = err; call.done()], the reply and the response being those of
    [input]. *)
Definition complete (err : option rpc_error) (reply : option V) (from : option Z) (c : Call) : Call :=
  mkCall (c_ServiceMethod c) (c_Args c) (c_wants_reply c)
    (match reply with Some v => Some v | None => c_Reply c end) err (c_Type c) (S (c_done c))
    (c_seq c) (match from with Some k => Some k | None => c_from c end).

Definition complete_id (err : option rpc_error) (id : positive) (s : TcpClient) : TcpClient :=
  set_calls (alter (complete err None None) id (calls s)) s.

(** [Go]: the new call. *)
Definition new_call (method : string) (args : V) (wants_reply : bool) : Call :=
  mkCall method args wants_reply None None
    (if wants_reply then RPC_CALL_TYPE_NORMAL else RPC_CALL_TYPE_WITHOUTREPLY) 0 None None.

(** [send], up to the unlocking of [mutex] after the registration. *)
Definition send_register (id : positive) (method : string) (args : V) (s : TcpClient)
    : option TcpClient :=
  match reqMutex s, calls s !! id with
  | SIdle, None =>
      if mutex_held s then None
      else if shutdown s || closing s then
        Some (complete_id (Some ErrShutdown) id
          (set_calls (<[id := new_call method args true]> (calls s)) s))
      else
        let c := new_call method args true in
        let c := mkCall (c_ServiceMethod c) (c_Args c) (c_wants_reply c) (c_Reply c) (c_Error c)
                   (c_Type c) (c_done c) (Some (seq s)) (c_from c) in
        Some (mkClient (uint64 (seq s + 1)) (request s) (<[seq s := id]> (pending s))
          (closing s) (shutdown s) (SWriting id (seq s)) (mutex_held s) (input s) (heartbeat s)
          (<[id := c]> (calls s)) (wire s) (closed_events s))
  | _, _ => None
  end.

(** [send], the encoding; [w] is the error of [WriteRequest]. *)
Definition send_write (w : option rpc_error) (s : TcpClient) : option TcpClient :=
  match reqMutex s with
  | SWriting id k =>
      match calls s !! id with
      | None => None
      | Some c =>
          let r := mkRequest (c_ServiceMethod c) k (c_Type c) in
          Some (mkClient (seq s) r (pending s) (closing s) (shutdown s)
            (match w with None => SIdle | Some e => SFailed k e end) (mutex_held s) (input s)
            (heartbeat s) (calls s)
            (match w with None => wire s ++ [(r, c_Args c)] | Some _ => wire s end) (closed_events s))
      end
  | _ => None
  end.

(** [send], after a write that failed. *)
Definition send_failed (s : TcpClient) : option TcpClient :=
  match reqMutex s with
  | SFailed k err =>
      if mutex_held s then None else
      let s' := set_reqMutex SIdle (set_pending (delete k (pending s)) s) in
      Some (match pending s !! k with Some id => complete_id (Some err) id s' | None => s' end)
  | _ => None
  end.

(** [sendWithoutReply]: the number of the request is left as it was. *)
Definition sendWithoutReply (id : positive) (method : string) (args : V) (w : option rpc_error)
    (s : TcpClient) : option TcpClient :=
  match reqMutex s, calls s !! id with
  | SIdle, None =>
      let s := set_calls (<[id := new_call method args false]> (calls s)) s in
      if shutdown s || closing s then Some (complete_id (Some ErrShutdown) id s)
      else
        let r := mkRequest method (rq_Seq (request s)) RPC_CALL_TYPE_WITHOUTREPLY in
        let s := mkClient (seq s) r (pending s) (closing s) (shutdown s) (reqMutex s) (mutex_held s)
                   (input s) (heartbeat s) (calls s)
                   (match w with None => wire s ++ [(r, args)] | Some _ => wire s end)
                   (closed_events s) in
        let s := match w with Some e => complete_id (Some e) id s | None => s end in
        Some (complete_id None id s)
  | _, _ => None
  end.

(** [input]: a header, or the error of reading one. *)
Definition input_header (h : result rpc_error Response) (s : TcpClient) : option TcpClient :=
  match input s with
  | IHeader =>
      match h with
      | Err e => Some (set_input (ITerminate e) s)
      | Ok resp =>
          if mutex_held s then None
          else Some (set_input (IBody (pending s !! rs_Seq resp) resp)
                       (set_pending (delete (rs_Seq resp) (pending s)) s))
      end
  | _ => None
  end.

(** [input]: the body, whatever it is read into. *)
Definition input_body (body : result string V) (s : TcpClient) : option TcpClient :=
  match input s with
  | IBody None resp =>
      Some (set_input (match body with Ok _ => IHeader | Err m => ITerminate (ReadingErrorBody m) end) s)
  | IBody (Some id) resp =>
      match calls s !! id with
      | None => None
      | Some c =>
          let from := Some (rs_Seq resp) in
          Some (if decide (rs_Error resp ≠ "") then
            set_input (match body with Ok _ => IHeader | Err _ => ITerminate ErrErrorBody end)
              (set_calls (alter (complete (Some (ServerError (rs_Error resp))) None from) id (calls s)) s)
          else if negb (c_wants_reply c) then
            set_input (match body with Ok _ => IHeader | Err m => ITerminate (ReadingErrorBody m) end)
              (set_calls (alter (complete (c_Error c) None from) id (calls s)) s)
          else match body with
               | Ok v => set_input IHeader
                   (set_calls (alter (complete (c_Error c) (Some v) from) id (calls s)) s)
               | Err m => set_input (ITerminate (if decide (m = "EOF") then ErrEOF else IoError m))
                   (set_calls (alter (complete (Some (ReadingBody m)) None from) id (calls s)) s)
               end)
      end
  | _ => None
  end.

(** [input]: the end of it, under both mutexes; the completed calls stay in the map. *)
Definition input_terminate (s : TcpClient) : option TcpClient :=
  match input s, reqMutex s with
  | ITerminate err, SIdle =>
      if mutex_held s then None else
      let err := match err with
                 | ErrEOF => if closing s then ErrShutdown else ErrUnexpectedEOF
                 | e => e
                 end in
      Some (mkClient (seq s) (request s) (pending s) (closing s) true SIdle false IEnded (heartbeat s)
        (foldr (alter (complete (Some err) None None)) (calls s) (map_to_list (pending s)).*2)
        (wire s) (S (closed_events s)))
  | _, _ => None
  end.

(** [Close], up to the send on [closeHeartbeat], which keeps [mutex]. *)
Definition Close_begin (s : TcpClient) : option TcpClient :=
  if mutex_held s then None
  else if closing s then Some s
  else Some (mkClient (seq s) (request s) (pending s) true (shutdown s) (reqMutex s) true (input s)
    (heartbeat s) (calls s) (wire s) (closed_events s)).

(** The heartbeat receives at its [select], and only there. *)
Definition Close_send (s : TcpClient) : option TcpClient :=
  match mutex_held s, heartbeat s with
  | true, HSelect _ =>
      Some (mkClient (seq s) (request s) (pending s) (closing s) (shutdown s) (reqMutex s) false
        (input s) HGone (calls s) (wire s) (closed_events s))
  | _, _ => None
  end.

(** [StartHeartBeat]: the ticker fires; its [Call] looks at [IsClosed] first, and comes
    back at the latest when it times out; [ok] is whether it brought the result 1. *)
Definition heart_tick (s : TcpClient) : option TcpClient :=
  match heartbeat s with HSelect n => Some (set_heart (HCalling n) s) | _ => None end.
Definition heart_call (s : TcpClient) : option TcpClient :=
  match heartbeat s with
  | HCalling n => if mutex_held s then None else Some (set_heart (HWaiting n) s)
  | _ => None
  end.
Definition heart_back (ok : bool) (s : TcpClient) : option TcpClient :=
  match heartbeat s with
  | HWaiting n =>
      if ok then Some (set_heart (HSelect 0) s)
      else if (3 <? n + 1)%Z then None else Some (set_heart (HSelect (n + 1)) s)
  | _ => None
  end.
(** With more than three failed beats in a row it closes the client itself. *)
Definition heart_close (s : TcpClient) : option TcpClient :=
  match heartbeat s with
  | HWaiting n =>
      if negb (3 <? n + 1)%Z || mutex_held s then None
      else if closing s then Some (set_heart HGone s) else set_heart HClosing <$> Close_begin s
  | _ => None
  end.

(** [Call], when the answer does not come in time. *)
Definition call_timeout (id : positive) (s : TcpClient) : option TcpClient :=
  match calls s !! id with
  | None => None
  | Some _ =>
      Some (set_calls (alter (λ c, mkCall (c_ServiceMethod c) (c_Args c) (c_wants_reply c) (c_Reply c)
        (Some ErrTimeout) (c_Type c) (c_done c) (c_seq c) (c_from c)) id (calls s)) s)
  end.

Definition IsClosed (s : TcpClient) : option bool :=
  if mutex_held s then None else Some (closing s || shutdown s).

(** ** Events *)
Inductive rpc_event :=
| ESend (id : positive) (method : string) (args : V)
| EWrite (w : option rpc_error)
| EFailed
| EOneWay (id : positive) (method : string) (args : V) (w : option rpc_error)
| EHeader (h : result rpc_error Response)
| EBody (body : result string V)
| ETerminate
| EClose | ECloseSent | ETick | ECall | EBeat (ok : bool) | EBeatClose
| ETimeout (id : positive).

Definition run_event (e : rpc_event) (s : TcpClient) : option TcpClient :=
  match e with
  | ESend id method args => send_register id method args s
  | EWrite w => send_write w s
  | EFailed => send_failed s
  | EOneWay id method args w => sendWithoutReply id method args w s
  | EHeader h => input_header h s
  | EBody body => input_body body s
  | ETerminate => input_terminate s
  | EClose => Close_begin s
  | ECloseSent => Close_send s
  | ETick => heart_tick s
  | ECall => heart_call s
  | EBeat ok => heart_back ok s
  | EBeatClose => heart_close s
  | ETimeout id => call_timeout id s
  end.

Definition rpc_step (s s' : TcpClient) : Prop := ∃ e, run_event e s = Some s'.

(** Fewer than 2^64 calls. *)
Definition counted_step (s s' : TcpClient) : Prop := rpc_step s s' ∧ (seq s + 1 < 2 ^ 64)%Z.

(** What a caller gets when its call is done: [CallWait]. *)
Definition call_result (s : TcpClient) (id : positive) : option (result rpc_error (option V)) :=
  c ← calls s !! id;
  match c_done c with
  | O => None
  | _ => Some (match c_Error c with Some e => Err e | None => Ok (c_Reply c) end)
  end.

(** [CallWithoutReply]: [None] while it waits for a lock. *)
Definition CallWithoutReply (id : positive) (method : string) (args : V) (w : option rpc_error) (s : TcpClient)
    : option (TcpClient * option rpc_error) :=
  isClosed ← IsClosed s;
  if isClosed : bool then Some (s, Some ErrShutdown)
  else
    s' ← sendWithoutReply id method args w s;
    r ← call_result s' id;
    Some (s', match r with Err e => Some e | Ok _ => None end).
End client.
Arguments Call V : clear implicits.
Arguments TcpClient V : clear implicits.
Arguments rpc_event V : clear implicits.

(** ** The invariant *)
Section client_proofs.
Context {V : Type}.
Implicit Types (cs : gmap positive (Call V)) (p : gmap Z positive) (h : gmap positive Z).

(** The calls [cs] with the numbers below [q] given out, the pending ones [p] and those
    [h] that have been taken from there to be completed. *)
Record core (q : Z) p cs h : Prop := {
  co_pending k id : p !! k = Some id →
    ∃ c, cs !! id = Some c ∧ c_seq c = Some k ∧ c_done c = 0;
  co_hand id k : h !! id = Some k →
    ∃ c, cs !! id = Some c ∧ c_seq c = Some k ∧ c_done c = 0 ∧ p !! k = None;
  co_open id c : cs !! id = Some c → c_done c = 0 →
    ∃ k, c_seq c = Some k ∧ (p !! k = Some id ∨ h !! id = Some k);
  co_bound id c k : cs !! id = Some c → c_seq c = Some k → (0 ≤ k < q)%Z;
  co_inj i j c d k : cs !! i = Some c → cs !! j = Some d → c_seq c = Some k → c_seq d = Some k → i = j;
  co_once id c : cs !! id = Some c → c_wants_reply c = true → c_done c ≤ 1;
  co_from id c k : cs !! id = Some c → c_from c = Some k → c_seq c = Some k;
  co_reply id c : cs !! id = Some c → is_Some (c_Reply c) → is_Some (c_from c) }.

Definition numbered (k : Z) (c : Call V) : Call V :=
  mkCall (c_ServiceMethod c) (c_Args c) (c_wants_reply c) (c_Reply c) (c_Error c)
    (c_Type c) (c_done c) (Some k) (c_from c).

Lemma core_register q p cs h id method args :
  core q p cs h → (0 ≤ q)%Z → cs !! id = None →
  core (q + 1) (<[q := id]> p) (<[id := numbered q (new_call method args true)]> cs) h.
Proof.
  intros [Hp Hh Ho Hb Hi H1 Hf Hr] Hq Hid.
  assert (p !! q = None) as Hpq.
  { destruct (p !! q) as [j|] eqn:E; [|done]. destruct (Hp _ _ E) as (c & Hc & Hs & _).
    specialize (Hb _ _ _ Hc Hs). lia. }
  assert (∀ i c, cs !! i = Some c → i ≠ id) as Hne by (intros i c Hc ->; congruence).
  split.
  - intros k i [[<- <-]|[Hk Hpk]]%lookup_insert_Some.
    + eexists. rewrite lookup_insert_eq. done.
    + destruct (Hp _ _ Hpk) as (c & Hc & ?). exists c. rewrite lookup_insert_ne by (by symmetry; eapply Hne).
      done.
  - intros i k Hi'. destruct (Hh _ _ Hi') as (c & Hc & Hs & Hd & Hpk). exists c.
    rewrite lookup_insert_ne by (by symmetry; eapply Hne). split_and!; [done..|].
    rewrite lookup_insert_ne; [done|]. intros <-. specialize (Hb _ _ _ Hc Hs). lia.
  - intros i c [[<- <-]|[Hk Hc]]%lookup_insert_Some Hd.
    + exists q. split; [done|]. left. apply lookup_insert_eq.
    + destruct (Ho _ _ Hc Hd) as (k & Hs & Hor). exists k. split; [done|].
      rewrite lookup_insert_ne; [done|]. intros <-. specialize (Hb _ _ _ Hc Hs). lia.
  - intros i c k [[<- <-]|[Hk Hc]]%lookup_insert_Some Hs; [simpl in Hs; simplify_eq; lia|].
    specialize (Hb _ _ _ Hc Hs). lia.
  - intros i j c d k [[<- <-]|[N1 Hc]]%lookup_insert_Some [[<- <-]|[N2 Hd]]%lookup_insert_Some Hs1 Hs2;
      simpl in *; simplify_eq; try done.
    + specialize (Hb _ _ _ Hd Hs2). lia.
    + specialize (Hb _ _ _ Hc Hs1). lia.
    + by eapply Hi.
  - intros i c [[<- <-]|[_ Hc]]%lookup_insert_Some; [simpl; lia|by eauto].
  - intros i c k [[<- <-]|[_ Hc]]%lookup_insert_Some; [done|by eauto].
  - intros i c [[<- <-]|[_ Hc]]%lookup_insert_Some; [by intros []|by eauto].
Qed.

(** A call that is over before it had a number. *)
Lemma core_add q p cs h id c :
  core q p cs h → cs !! id = None → c_seq c = None → c_from c = None → c_Reply c = None →
  c_done c ≠ 0 → (c_wants_reply c = true → c_done c ≤ 1) →
  core q p (<[id := c]> cs) h.
Proof.
  intros [Hp Hh Ho Hb Hi H1 Hf Hr] Hid Hcs Hcf Hcr Hd Hw.
  assert (∀ i c, cs !! i = Some c → id ≠ i) as Hne by (intros i c' Hc ->; congruence).
  split.
  - intros k i Hk. destruct (Hp _ _ Hk) as (d & Hdd & ?). exists d. by rewrite lookup_insert_ne by eauto.
  - intros i k Hk. destruct (Hh _ _ Hk) as (d & Hdd & ?). exists d. by rewrite lookup_insert_ne by eauto.
  - intros i d [[<- <-]|[_ Hc]]%lookup_insert_Some Hd0; [done|by eauto].
  - intros i d k [[<- <-]|[_ Hc]]%lookup_insert_Some Hs; [congruence|by eauto].
  - intros i j d e k [[<- <-]|[N1 Hc]]%lookup_insert_Some [[<- <-]|[N2 Hdd]]%lookup_insert_Some;
      try congruence. by eapply Hi.
  - intros i d [[<- <-]|[_ Hc]]%lookup_insert_Some; by eauto.
  - intros i d k [[<- <-]|[_ Hc]]%lookup_insert_Some; [congruence|by eauto].
  - intros i d [[<- <-]|[_ Hc]]%lookup_insert_Some; [rewrite Hcr; by intros []|by eauto].
Qed.

(** Taking a pending call out. *)
Lemma core_take q p cs h k id :
  core q p cs h → p !! k = Some id → core q (delete k p) cs (<[id := k]> h).
Proof.
  intros [Hp Hh Ho Hb Hi H1 Hf Hr] Hk. destruct (Hp _ _ Hk) as (c & Hc & Hs & Hd).
  split; try done.
  - intros k' i [Hne Hpk]%lookup_delete_Some. by eauto.
  - intros i k' [[<- <-]|[Hne Hhi]]%lookup_insert_Some.
    + exists c. split_and!; [done..|]. apply lookup_delete_eq.
    + destruct (Hh _ _ Hhi) as (d & Hdd & Hds & Hd0 & Hn). exists d. split_and!; [done..|].
      rewrite lookup_delete_None. by right.
  - intros i d Hdd Hd0. destruct (Ho _ _ Hdd Hd0) as (k' & Hs' & Hor). exists k'. split; [done|].
    destruct (decide (i = id)) as [->|Hne].
    + right. simplify_eq. apply lookup_insert_eq.
    + destruct Hor as [Hor|Hor]; [left|right; by rewrite lookup_insert_ne].
      rewrite lookup_delete_ne; [done|]. intros <-. congruence.
Qed.

Lemma core_take_none q p cs h k : core q p cs h → p !! k = None → core q (delete k p) cs h.
Proof. intros Hc Hk. by rewrite delete_id. Qed.

(** Completing one that was taken out. *)
Lemma core_complete q p cs h id k e r f :
  core q p cs h → h !! id = Some k → (f = None ∧ r = None ∨ f = Some k) →
  core q p (alter (complete e r f) id cs) (delete id h).
Proof.
  intros [Hp Hh Ho Hb Hi H1 Hf Hr] Hid Hfr. destruct (Hh _ _ Hid) as (c & Hc & Hs & Hd & Hpk).
  assert (∀ i d, alter (complete e r f) id cs !! i = Some d →
    i = id ∧ d = complete e r f c ∨ i ≠ id ∧ cs !! i = Some d) as Hlk.
  { intros i d. destruct (decide (i = id)) as [->|Hne].
    - rewrite lookup_alter_eq, Hc. simpl. intros [= <-]. by left.
    - rewrite lookup_alter_ne by done. by right. }
  split.
  - intros k' i Hk'. destruct (Hp _ _ Hk') as (d & Hdd & Hds & Hd0). exists d.
    rewrite lookup_alter_ne; [done|]. intros <-. by simplify_eq.
  - intros i k' [Hne Hhi]%lookup_delete_Some. rewrite lookup_alter_ne by done. by eauto.
  - intros i d [[-> ->]|[Hne Hdd]]%Hlk Hd0; [done|]. destruct (Ho _ _ Hdd Hd0) as (k' & Hs' & Hor).
    exists k'. rewrite lookup_delete_ne by done. by split.
  - intros i d k' [[-> ->]|[Hne Hdd]]%Hlk Hds; by eauto.
  - intros i j d d' k' [[-> ->]|[N1 H2]]%Hlk [[-> ->]|[N2 H3]]%Hlk; simpl; try done; intros; by eapply Hi.
  - intros i d [[-> ->]|[Hne Hdd]]%Hlk; [simpl; rewrite Hd; lia|by eauto].
  - intros i d k' [[-> ->]|[Hne Hdd]]%Hlk; [|by eauto]. simpl. destruct f as [k''|]; [|by eauto].
    intros [= <-]. destruct Hfr as [[? _]|[= <-]]; done.
  - intros i d [[-> ->]|[Hne Hdd]]%Hlk; [|by eauto]. simpl.
    destruct f as [k''|]; [by eexists|]. destruct Hfr as [[_ ->]|?]; [|done]. by eauto.
Qed.

(** The error of a call is free to change. *)
Lemma core_error q p cs h id g :
  core q p cs h →
  (∀ c, c_seq (g c) = c_seq c ∧ c_done (g c) = c_done c ∧ c_wants_reply (g c) = c_wants_reply c ∧
        c_from (g c) = c_from c ∧ c_Reply (g c) = c_Reply c) →
  core q p (alter g id cs) h.
Proof.
  intros [Hp Hh Ho Hb Hi H1 Hf Hr] Hg.
  assert (∀ i d, alter g id cs !! i = Some d → ∃ d0, cs !! i = Some d0 ∧ c_seq d = c_seq d0 ∧
    c_done d = c_done d0 ∧ c_wants_reply d = c_wants_reply d0 ∧ c_from d = c_from d0 ∧
    c_Reply d = c_Reply d0) as Hlk.
  { intros i d. destruct (decide (i = id)) as [->|Hne].
    - rewrite lookup_alter_eq, fmap_Some. intros (d0 & Hd0 & ->). exists d0. split; [done|]. apply Hg.
    - rewrite lookup_alter_ne by done. intros Hd. by exists d. }
  assert (∀ i d0, cs !! i = Some d0 → ∃ d, alter g id cs !! i = Some d ∧ c_seq d = c_seq d0 ∧
    c_done d = c_done d0) as Hlk'.
  { intros i d0 Hd0. destruct (decide (i = id)) as [->|Hne].
    - rewrite lookup_alter_eq, Hd0. eexists. split; [done|]. split; apply Hg.
    - rewrite lookup_alter_ne by done. by exists d0. }
  split.
  - intros k i Hk. destruct (Hp _ _ Hk) as (c & Hc & Hs & Hd).
    destruct (Hlk' _ _ Hc) as (d & Hdd & Es & Ed). exists d. by rewrite Es, Ed.
  - intros i k Hk. destruct (Hh _ _ Hk) as (c & Hc & Hs & Hd & ?).
    destruct (Hlk' _ _ Hc) as (d & Hdd & Es & Ed). exists d. by rewrite Es, Ed.
  - intros i d (d0 & Hd0 & -> & -> & _)%Hlk. by eauto.
  - intros i d k (d0 & Hd0 & -> & _)%Hlk. by eauto.
  - intros i j d e k (d0 & Hd0 & -> & _)%Hlk (e0 & He0 & -> & _)%Hlk. by eapply Hi.
  - intros i d (d0 & Hd0 & _ & -> & -> & _)%Hlk. by eauto.
  - intros i d k (d0 & Hd0 & -> & _ & _ & -> & _)%Hlk. by eauto.
  - intros i d (d0 & Hd0 & _ & _ & _ & -> & ->)%Hlk. by eauto.
Qed.

(** Completing all the pending ones. *)
Lemma core_terminate q (l : list (Z * positive)) p0 cs e :
  core q (list_to_map l ∪ p0) cs ∅ → NoDup l.*1 → (∀ k, k ∈ l.*1 → p0 !! k = None) →
  core q p0 (foldr (alter (complete e None None)) cs l.*2) ∅.
Proof.
  revert p0. induction l as [|[k id] l IH]; intros p0 Hc Hnd Hp0; simpl in *.
  { by rewrite (left_id_L ∅ (∪)) in Hc. }
  apply NoDup_cons in Hnd as [Hk Hnd].
  assert (core q (<[k := id]> p0) (foldr (alter (complete e None None)) cs l.*2) ∅) as Hc1.
  { apply IH; [|done|].
    - rewrite <- insert_union_r by (by apply not_elem_of_list_to_map_1). by rewrite insert_union_l.
    - intros k' Hk'. rewrite lookup_insert_ne; [apply Hp0; by right|]. intros <-. done. }
  assert (p0 !! k = None) as Hp by (apply Hp0; by left).
  apply (core_take _ _ _ _ k id) in Hc1; [|apply lookup_insert_eq].
  rewrite delete_insert_id in Hc1 by done.
  apply (core_complete _ _ _ _ id k e None None) in Hc1; [|apply lookup_insert_eq|by left].
  by rewrite delete_insert_id in Hc1.
Qed.

(** ** The client's invariant *)
Definition in_hand (i : input_pc) : gmap positive Z :=
  match i with IBody (Some id) resp => {[id := rs_Seq resp]} | _ => ∅ end.
Definition live_pending (s : TcpClient V) : gmap Z positive :=
  match input s with IEnded => ∅ | _ => pending s end.

Record rpc_ok (s : TcpClient V) : Prop := {
  ro_seq : (0 ≤ seq s)%Z;
  ro_core : core (seq s) (live_pending s) (calls s) (in_hand (input s));
  ro_ended : input s = IEnded → shutdown s = true ∧ reqMutex s = SIdle }.

Lemma NewClientWithConn_ok b : rpc_ok (NewClientWithConn b).
Proof.
  split; simpl; [lia| |done]. unfold live_pending. simpl.
  split; intros *; rewrite ?lookup_empty; done.
Qed.

(** Every event keeps it: those that leave the pending calls alone, *)
Lemma rpc_ok_frame (s s' : TcpClient V) :
  rpc_ok s → seq s' = seq s → pending s' = pending s → calls s' = calls s → input s' = input s →
  shutdown s' = shutdown s → (reqMutex s' = reqMutex s ∨ reqMutex s ≠ SIdle) → rpc_ok s'.
Proof.
  intros [Hq Hc He] E1 E2 E3 E4 E5 E6. split; unfold live_pending in *; rewrite ?E1, ?E2, ?E3, ?E4, ?E5.
  - done.
  - done.
  - intros Hi. destruct (He Hi) as [? Hs]. split; [done|]. destruct E6 as [->|?]; done.
Qed.

(** those of the senders, *)
Lemma send_register_ok id m a (s s' : TcpClient V) :
  rpc_ok s → (seq s + 1 < 2 ^ 64)%Z → send_register id m a s = Some s' → rpc_ok s'.
Proof.
  intros [Hq Hc He] Hbound Hrun. unfold live_pending in Hc.
  unfold send_register in Hrun. destruct (reqMutex s) eqn:Hm; try done.
  destruct (calls s !! id) eqn:Hid; [done|]. destruct (mutex_held s); [done|].
  destruct (shutdown s || closing s) eqn:Hsd; simplify_eq/=.
  - split; [done| |intros Hi; destruct (He Hi); by split].
    unfold live_pending, complete_id, set_calls. simpl.
    rewrite alter_insert_eq. by apply core_add.
  - assert (uint64 (seq s + 1) = seq s + 1)%Z as Ew by (apply uwrap_small; lia).
    destruct (input s) eqn:Hi; try (destruct (He eq_refl) as [Hs _]; by rewrite Hs in Hsd);
      (split; unfold live_pending; simpl; rewrite ?Hi, ?Ew; [lia| |done]; by apply core_register).
Qed.

Lemma send_failed_ok (s s' : TcpClient V) : rpc_ok s → send_failed s = Some s' → rpc_ok s'.
Proof.
  intros [Hq Hc He] Hrun. unfold send_failed in Hrun. destruct (reqMutex s) as [| |k err] eqn:Hm; try done.
  destruct (mutex_held s); [done|]. simplify_eq.
  assert (input s ≠ IEnded) as Hi by (intros Hi; destruct (He Hi); congruence).
  assert (live_pending s = pending s) as El by (unfold live_pending; by destruct (input s)).
  unfold live_pending in Hc.
  assert (core (seq s) (pending s) (calls s) (in_hand (input s))) as Hc' by (by destruct (input s)).
  destruct (pending s !! k) as [id|] eqn:Hk.
  - split; simpl; [done| |done]. replace (live_pending _) with (delete k (pending s))
      by (unfold live_pending; simpl; by destruct (input s)).
    pose proof (core_complete _ _ _ _ id k (Some err) None None (core_take _ _ _ _ _ _ Hc' Hk)) as Hcc.
    rewrite lookup_insert_eq in Hcc. specialize (Hcc eq_refl (or_introl (conj eq_refl eq_refl))).
    rewrite delete_insert_id in Hcc; [done|].
    destruct (in_hand (input s) !! id) as [k'|] eqn:Eh; [|done].
    destruct (co_hand _ _ _ _ Hc' _ _ Eh) as (c & Hcid & Hs & _ & Hn).
    destruct (co_pending _ _ _ _ Hc' _ _ Hk) as (c' & Hcid' & Hs' & _). congruence.
  - split; simpl; [done| |done]. replace (live_pending _) with (delete k (pending s))
      by (unfold live_pending; simpl; by destruct (input s)).
    by apply core_take_none.
Qed.

Lemma sendWithoutReply_ok id m a w (s s' : TcpClient V) :
  rpc_ok s → sendWithoutReply id m a w s = Some s' → rpc_ok s'.
Proof.
  intros [Hq Hc He] Hrun. unfold sendWithoutReply in Hrun. destruct (reqMutex s) eqn:Hm; try done.
  destruct (calls s !! id) eqn:Hid; [done|]. unfold live_pending in Hc. simpl in Hrun.
  assert (∀ n e, n ≠ 0 → core (seq s) (live_pending s) (<[id := mkCall m a false None e
    RPC_CALL_TYPE_WITHOUTREPLY n None None]> (calls s)) (in_hand (input s))) as Hadd
    by (intros n e Hn; by apply core_add).
  destruct (shutdown s || closing s) eqn:Hsd; [|destruct w as [e|]]; simplify_eq/=;
    (split; [done| |intros Hi; destruct (He Hi); by split]); simpl; unfold live_pending in *;
    unfold complete_id, set_calls; simpl; rewrite ?alter_insert_eq; by apply Hadd.
Qed.

(** and those of [input]. *)
Lemma input_header_ok hdr (s s' : TcpClient V) : rpc_ok s → input_header hdr s = Some s' → rpc_ok s'.
Proof.
  intros [Hq Hc He] Hrun. unfold input_header in Hrun. destruct (input s) eqn:Hi; try done.
  unfold live_pending in Hc. rewrite Hi in Hc.
  destruct hdr as [resp|e]; [destruct (mutex_held s); [done|]|]; simplify_eq; [|by split].
  split; simpl; [done| |done]. unfold live_pending. simpl.
  destruct (pending s !! rs_Seq resp) as [id|] eqn:Hk; [by apply core_take|by apply core_take_none].
Qed.

Lemma input_body_ok b (s s' : TcpClient V) : rpc_ok s → input_body b s = Some s' → rpc_ok s'.
Proof.
  intros [Hq Hc He] Hrun. unfold input_body in Hrun. destruct (input s) as [|[id|] resp| |] eqn:Hi; try done.
  - unfold live_pending in Hc. rewrite Hi in Hc. destruct (calls s !! id) as [c|] eqn:Hid; [|done].
    assert (∀ e r, core (seq s) (pending s) (alter (complete e r (Some (rs_Seq resp))) id (calls s)) ∅) as Hcc.
    { intros e r. pose proof (core_complete _ _ _ _ id (rs_Seq resp) e r (Some (rs_Seq resp)) Hc) as Hcc.
      simpl in Hcc. rewrite lookup_singleton_eq, delete_singleton_eq in Hcc.
      apply Hcc; [done|by right]. }
    destruct (decide _); [|destruct (negb _)]; destruct b as [v|msg]; simplify_eq/=;
      (split; simpl; [done|apply Hcc|done]).
  - unfold live_pending in Hc. rewrite Hi in Hc. destruct b as [v|msg]; simplify_eq; by split.
Qed.

Lemma input_terminate_ok (s s' : TcpClient V) : rpc_ok s → input_terminate s = Some s' → rpc_ok s'.
Proof.
  intros [Hq Hc He] Hrun. unfold input_terminate in Hrun. destruct (input s) as [| |err|] eqn:Hi; try done.
  destruct (reqMutex s); try done. destruct (mutex_held s); [done|]. simplify_eq.
  unfold live_pending in Hc. rewrite Hi in Hc. split; simpl; [done| |done].
  assert (core (seq s) (list_to_map (map_to_list (pending s)) ∪ ∅) (calls s) ∅) as Hc'
    by (by rewrite list_to_map_to_list, map_union_empty).
  apply (core_terminate _ _ _ _ _ Hc'); [apply NoDup_fst_map_to_list|done].
Qed.

Lemma rpc_step_ok (s s' : TcpClient V) : rpc_ok s → counted_step s s' → rpc_ok s'.
Proof.
  intros Hok [[e Hrun] Hbound]. destruct e as [id m a|w| |id m a w|hdr|b| | | | | |ok| |id]; simpl in Hrun.
  - by eapply send_register_ok.
  - unfold send_write in Hrun. destruct (reqMutex s) eqn:Hm; try done.
    destruct (calls s !! id); simplify_eq. apply (rpc_ok_frame _ _ Hok); try done. right. congruence.
  - by eapply send_failed_ok.
  - by eapply sendWithoutReply_ok.
  - by eapply input_header_ok.
  - by eapply input_body_ok.
  - by eapply input_terminate_ok.
  - unfold Close_begin in Hrun. destruct (mutex_held s); [done|].
    destruct (closing s); simplify_eq; apply (rpc_ok_frame _ _ Hok); auto.
  - unfold Close_send in Hrun. destruct (mutex_held s), (heartbeat s); simplify_eq;
      apply (rpc_ok_frame _ _ Hok); auto.
  - unfold heart_tick in Hrun. destruct (heartbeat s); simplify_eq; apply (rpc_ok_frame _ _ Hok); auto.
  - unfold heart_call in Hrun. destruct (heartbeat s), (mutex_held s); simplify_eq;
      apply (rpc_ok_frame _ _ Hok); auto.
  - unfold heart_back in Hrun. destruct (heartbeat s); try done.
    destruct ok; [|destruct (3 <? pingCount + 1)%Z; [done|]]; injection Hrun as <-; apply (rpc_ok_frame _ _ Hok); auto.
  - unfold heart_close, Close_begin in Hrun. destruct (heartbeat s); try done.
    destruct (negb _), (mutex_held s), (closing s) eqn:Hcl; simplify_eq/=; apply (rpc_ok_frame _ _ Hok); auto.
  - unfold call_timeout in Hrun. destruct (calls s !! id); simplify_eq.
    destruct Hok as [Hq Hc He]. split; [done| |done]. simpl. unfold live_pending in *. simpl.
    by apply core_error.
Qed.

Lemma rpc_reachable_ok b (s : TcpClient V) : rtc counted_step (NewClientWithConn b) s → rpc_ok s.
Proof.
  exact (rtc_preserves _ _ _ _ rpc_step_ok (NewClientWithConn_ok b)).
Qed.

(** C11: however calls, responses, failing writes and the end of the connection
    interleave, as long as fewer than 2^64 calls are made: no call that wants a
    reply is completed twice; one that is not completed is waiting under its own
    number, or is the one [input] is completing; a reply is one that came with the
    call's own number; and once [input] has ended every call is completed. *)
Theorem calls_complete_once b (s : TcpClient V) id c :
  rtc counted_step (NewClientWithConn b) s → calls s !! id = Some c →
  (c_wants_reply c = true → c_done c ≤ 1) ∧
  (c_done c = 0 → ∃ k, c_seq c = Some k ∧ input s ≠ IEnded ∧
     (pending s !! k = Some id ∨ ∃ resp, input s = IBody (Some id) resp ∧ rs_Seq resp = k)) ∧
  (∀ v, c_Reply c = Some v → ∃ k, c_from c = Some k ∧ c_seq c = Some k).
Proof.
  intros Hr Hid. pose proof (rpc_reachable_ok b s Hr) as [_ Hc _]. split_and!.
  - by apply (co_once _ _ _ _ Hc id).
  - intros Hd. destruct (co_open _ _ _ _ Hc id c Hid Hd) as (k & Hk & Hor). exists k. split; [done|].
    unfold live_pending in Hor. destruct (input s) as [|[j|] resp|e|] eqn:Hi; simpl in Hor;
      rewrite ?lookup_empty in Hor; (split; [try done|]); destruct Hor as [Hor|Hor]; try done; auto.
    apply lookup_singleton_Some in Hor as [-> Hor]. right. by exists resp.
  - intros v Hv. destruct (co_reply _ _ _ _ Hc id c Hid) as [k Hk]; [by eexists|].
    exists k. split; [done|]. by apply (co_from _ _ _ _ Hc id).
Qed.

(** ** Close in debug mode *)

(** What stands once [Close] waits for a heartbeat that is gone: [ps] are the calls
    that were pending. *)
Record blocked (ps : gmap Z positive) (s : TcpClient V) : Prop := {
  bl_mutex : mutex_held s = true;
  bl_heart : heartbeat s = HGone ∨ heartbeat s = HClosing;
  bl_pending : pending s = ps;
  bl_done k id : ps !! k = Some id → ∃ c, calls s !! id = Some c ∧ c_done c = 0;
  bl_hand k id resp : ps !! k = Some id → input s ≠ IBody (Some id) resp }.

Lemma blocked_frame ps (s s' : TcpClient V) :
  blocked ps s → mutex_held s' = mutex_held s → heartbeat s' = heartbeat s → pending s' = pending s →
  (∀ k id c, ps !! k = Some id → calls s !! id = Some c → c_done c = 0 →
     ∃ c', calls s' !! id = Some c' ∧ c_done c' = 0) →
  (∀ id resp, input s' = IBody (Some id) resp → input s = IBody (Some id) resp) →
  blocked ps s'.
Proof.
  intros [Hm Hh Hp Hd Hi] E1 E2 E3 Hcs Hin. split; [congruence|by rewrite E2|congruence| |].
  - intros k id Hk. destruct (Hd _ _ Hk) as (c & Hc & H0). by eapply Hcs.
  - intros k id resp Hk E. by eapply Hi, Hin.
Qed.

Lemma blocked_step ps (s s' : TcpClient V) : blocked ps s → rpc_step s s' → blocked ps s'.
Proof.
  intros Hb [e Hrun]. pose proof Hb as [Hm Hh _ Hd Hi].
  destruct e as [id m a|w| |id m a w|hdr|b| | | | | |ok| |id]; simpl in Hrun.
  - unfold send_register in Hrun. rewrite Hm in Hrun. by repeat case_match.
  - unfold send_write in Hrun. destruct (reqMutex s); try done. destruct (calls s !! id); simplify_eq.
    apply (blocked_frame _ _ _ Hb); simpl; eauto.
  - unfold send_failed in Hrun. rewrite Hm in Hrun. by repeat case_match.
  - unfold sendWithoutReply in Hrun. destruct (reqMutex s); try done.
    destruct (calls s !! id) eqn:Hid; [done|]. simpl in Hrun.
    assert (∀ k id' c (x : Call V), ps !! k = Some id' → calls s !! id' = Some c → c_done c = 0 →
      ∃ c', <[id := x]> (calls s) !! id' = Some c' ∧ c_done c' = 0) as Hins.
    { intros k id' c x _ Hc H0. exists c. rewrite lookup_insert_ne; [done|congruence]. }
    destruct (shutdown s || closing s); [|destruct w]; simplify_eq/=;
      apply (blocked_frame _ _ _ Hb); simpl; try done; rewrite ?alter_insert_eq;
      intros; by eapply Hins.
  - unfold input_header in Hrun. rewrite Hm in Hrun. destruct (input s); try done.
    destruct hdr; simplify_eq. apply (blocked_frame _ _ _ Hb); simpl; try done. eauto.
  - unfold input_body in Hrun. destruct (input s) as [|[id|] resp| |] eqn:Ei; try done.
    + destruct (calls s !! id) as [c|] eqn:Hid; [|done].
      assert (∀ k id' c' g, ps !! k = Some id' → calls s !! id' = Some c' → c_done c' = 0 →
        ∃ c'', alter g id (calls s) !! id' = Some c'' ∧ c_done c'' = 0) as Halt.
      { intros k id' c' g Hk Hc H0. exists c'. rewrite lookup_alter_ne; [done|].
        intros <-. by eapply Hi. }
      destruct (decide _); [|destruct (negb _)]; destruct b; simplify_eq/=;
        apply (blocked_frame _ _ _ Hb); simpl; try done; intros; by eapply Halt.
    + destruct b; simplify_eq; apply (blocked_frame _ _ _ Hb); simpl; try done; eauto.
  - unfold input_terminate in Hrun. rewrite Hm in Hrun. by repeat case_match.
  - unfold Close_begin in Hrun. by rewrite Hm in Hrun.
  - unfold Close_send in Hrun. rewrite Hm in Hrun. by destruct Hh as [Hh|Hh]; rewrite Hh in Hrun.
  - unfold heart_tick in Hrun. by destruct Hh as [Hh|Hh]; rewrite Hh in Hrun.
  - unfold heart_call in Hrun. by destruct Hh as [Hh|Hh]; rewrite Hh in Hrun.
  - unfold heart_back in Hrun. by destruct Hh as [Hh|Hh]; rewrite Hh in Hrun.
  - unfold heart_close in Hrun. by destruct Hh as [Hh|Hh]; rewrite Hh in Hrun.
  - unfold call_timeout in Hrun. destruct (calls s !! id) as [c0|] eqn:Hid; simplify_eq.
    apply (blocked_frame _ _ _ Hb); simpl; try done. intros k id' c _ Hc H0.
    destruct (decide (id' = id)) as [->|Hne].
    + rewrite lookup_alter_eq, Hc. eexists. split; [done|]. done.
    + exists c. by rewrite lookup_alter_ne.
Qed.

Lemma heart_left_alone e (s s' : TcpClient V) :
  run_event e s = Some s' →
  match e with ETick | ECall | EBeat _ | EBeatClose | ECloseSent => True | _ => heartbeat s' = heartbeat s end.
Proof.
  intros Hrun. destruct e; try done; simpl in Hrun;
    unfold send_register, send_write, send_failed, sendWithoutReply, input_header, input_body,
      input_terminate, Close_begin, call_timeout in Hrun; repeat (case_match; simplify_eq/=; try done).
Qed.
(** In debug mode there is no heartbeat. *)
Lemma debug_no_heart (s s' : TcpClient V) : heartbeat s = HGone → rpc_step s s' → heartbeat s' = HGone.
Proof.
  intros Hh [e Hrun]. pose proof (heart_left_alone e s s' Hrun) as Hsame.
  destruct e; try (by rewrite Hsame); simpl in Hrun; unfold Close_send, heart_tick, heart_call, heart_back,
    heart_close in Hrun; rewrite Hh in Hrun; by destruct (mutex_held s).
Qed.

(** Its beats that failed in a row, as long as it is still beating. *)
Definition heart_ok (s : TcpClient V) : Prop :=
  match heartbeat s with HSelect n | HCalling n | HWaiting n => (0 ≤ n ≤ 3)%Z | _ => True end.
Lemma heart_step_ok (s s' : TcpClient V) : heart_ok s → rpc_step s s' → heart_ok s'.
Proof.
  intros Hok [e Hrun]. pose proof (heart_left_alone e s s' Hrun) as Hsame. unfold heart_ok in *.
  destruct e; try (by rewrite Hsame); simpl in Hrun.
  - unfold Close_send in Hrun. by destruct (mutex_held s), (heartbeat s); simplify_eq/=.
  - unfold heart_tick in Hrun. by destruct (heartbeat s); simplify_eq/=.
  - unfold heart_call in Hrun. by destruct (heartbeat s), (mutex_held s); simplify_eq/=.
  - unfold heart_back in Hrun. destruct (heartbeat s) as [| |n| |]; try done. destruct ok; [by simplify_eq/=|].
    destruct (3 <? n + 1)%Z eqn:En; [done|]. apply Z.ltb_ge in En. simplify_eq/=. lia.
  - unfold heart_close, Close_begin in Hrun. destruct (heartbeat s); try done.
    by destruct (negb _), (mutex_held s), (closing s); simplify_eq/=.
Qed.

(** Where such a [Close] leaves the client. *)
Lemma Close_begins debug (s s1 : TcpClient V) :
  rtc counted_step (NewClientWithConn debug) s → closing s = false →
  (if debug then Close_begin s = Some s1 else heart_close s = Some s1) →
  mutex_held s1 = true ∧ (heartbeat s1 = HGone ∨ heartbeat s1 = HClosing) ∧ pending s1 = pending s ∧
    calls s1 = calls s ∧ input s1 = input s ∧ (debug = false → heartbeat s = HWaiting 3).
Proof.
  intros Hr Hcl Hclose. destruct debug.
  - assert (heartbeat s = HGone) as Hh.
    { refine (rtc_preserves counted_step (λ s, heartbeat s = HGone) _ s _ _ Hr); [|done].
      intros t1 t2 Ht [Hs _]. by eapply debug_no_heart. }
    unfold Close_begin in Hclose. destruct (mutex_held s); [done|]. rewrite Hcl in Hclose.
    injection Hclose as <-. simpl. by split_and!; auto.
  - assert (heart_ok s) as Hh.
    { refine (rtc_preserves counted_step heart_ok _ s _ _ Hr); [|unfold heart_ok; simpl; lia].
      intros t1 t2 Ht [Hs _]. by eapply heart_step_ok. }
    unfold heart_close, Close_begin in Hclose. unfold heart_ok in Hh.
    destruct (heartbeat s) as [| |n| |] eqn:Eh; try done.
    destruct (3 <? n + 1)%Z eqn:En; [|done]. apply Z.ltb_lt in En.
    destruct (mutex_held s); [done|]. rewrite Hcl in Hclose. injection Hclose as <-. simpl.
    split_and!; auto. intros _. f_equal. lia.
Qed.

(** A [Close] that meets no heartbeat at its [select] never returns: in debug mode,
    where the heartbeat has returned at once, any [Close] of an open client; and
    otherwise the [Close] of the heartbeat itself, which it does when its fourth beat in
    a row has failed.  From then on, whatever happens, [IsClosed] does not return, so
    that neither does a call started later, and no call that was pending is ever
    completed. *)
Theorem Close_blocks_for_ever debug (s s1 s' : TcpClient V) :
  rtc counted_step (NewClientWithConn debug) s → closing s = false → shutdown s = false →
  (if debug then Close_begin s = Some s1 else heart_close s = Some s1) → rtc rpc_step s1 s' →
  (debug = false → heartbeat s = HWaiting 3) ∧
  IsClosed s' = None ∧
  ∀ k id, pending s !! k = Some id → pending s' !! k = Some id ∧ call_result s' id = None.
Proof.
  intros Hr Hcl Hsd Hclose Hr'. pose proof (rpc_reachable_ok debug s Hr) as [_ Hc He].
  assert (live_pending s = pending s) as El.
  { unfold live_pending. destruct (input s); try done. destruct He as [Hsd' _]; [done|congruence]. }
  rewrite El in Hc.
  assert (mutex_held s1 = true ∧ (heartbeat s1 = HGone ∨ heartbeat s1 = HClosing) ∧ pending s1 = pending s ∧
    calls s1 = calls s ∧ input s1 = input s ∧ (debug = false → heartbeat s = HWaiting 3))
    as (Em & Eh & Ep & Ec & Ei & Hn) by by apply (Close_begins debug).
  assert (blocked (pending s) s1) as Hb.
  { split; rewrite ?Ec, ?Ei; try done.
    - intros k id Hk. destruct (co_pending _ _ _ _ Hc _ _ Hk) as (c & ? & _ & ?). eauto.
    - intros k id resp Hk Hi. destruct (co_pending _ _ _ _ Hc _ _ Hk) as (c & Hcid & Hs & _).
      destruct (co_hand _ _ _ _ Hc id (rs_Seq resp)) as (c' & Hcid' & Hs' & _ & Hnn);
        [rewrite Hi; apply lookup_singleton_eq|]. congruence. }
  pose proof (rtc_preserves _ _ _ _ (blocked_step (pending s)) Hb Hr') as [Hm _ Hp Hd _].
  split; [done|]. split; [unfold IsClosed; by rewrite Hm|]. intros k id Hk. split; [by rewrite Hp|].
  destruct (Hd _ _ Hk) as (c & Hcid & H0). unfold call_result. rewrite Hcid. simpl. by rewrite H0.
Qed.

(** A one-way call whose request could not be written reports success. *)
Lemma one_way_error_lost id m a e (s s' : TcpClient V) :
  sendWithoutReply id m a (Some e) s = Some s' → shutdown s = false → closing s = false →
  call_result s' id = Some (Ok None) ∧ wire s' = wire s.
Proof.
  intros Hrun Hsd Hcl. unfold sendWithoutReply in Hrun. destruct (reqMutex s); try done.
  destruct (calls s !! id); [done|]. simpl in Hrun. rewrite Hsd, Hcl in Hrun. simplify_eq/=.
  split; [|done]. unfold call_result. simpl. by rewrite !lookup_alter_eq, lookup_insert_eq.
Qed.

(** [CallWithoutReply] answers that the client is closed, or nothing: not the error of
    writing the request. *)
Lemma CallWithoutReply_errors id m a w (s s' : TcpClient V) e :
  CallWithoutReply id m a w s = Some (s', e) →
  e = (if closing s || shutdown s then Some ErrShutdown else None) ∧
  (closing s || shutdown s = false → wire s' = wire s ++
     match w with None => [(mkRequest m (rq_Seq (request s)) RPC_CALL_TYPE_WITHOUTREPLY, a)] | Some _ => [] end).
Proof.
  unfold CallWithoutReply, IsClosed. destruct (mutex_held s); [done|]. cbn [mbind option_bind].
  destruct (closing s || shutdown s) eqn:Ecl; [by intros [= <- <-]|].
  apply orb_false_iff in Ecl as [Hcl Hsd]. unfold sendWithoutReply.
  destruct (reqMutex s); try done. destruct (calls s !! id); [done|]. simpl. rewrite Hsd, Hcl. simpl.
  unfold call_result. destruct w; simpl; rewrite !lookup_alter_eq; rewrite ?lookup_alter_eq, lookup_insert_eq; simpl;
    intros [= <- <-]; (split; [done|]); intros _; simpl; by rewrite ?app_nil_r.
Qed.

(** ** Runs *)
Definition counted_event (e : rpc_event V) (s : TcpClient V) : option (TcpClient V) :=
  if decide (seq s + 1 < 2 ^ 64)%Z then run_event e s else None.
Lemma counted_runs_steps es (s s' : TcpClient V) : runs counted_event es s = Some s' → rtc counted_step s s'.
Proof.
  intros Hr%runs_steps. revert Hr. apply rtc_subrel. intros s1 s2 [e E]. unfold counted_event in E.
  case_decide; [|done]. split; [by exists e|done].
Qed.
End client_proofs.

(** ** Witnesses *)
Definition one_answered : TcpClient nat :=
  default (NewClientWithConn true)
    (runs counted_event [ESend 1 "Master.Ping" 7; EWrite None; ESend 2 "Master.Ping" 8; EWrite None;
       EHeader (Ok (mkResponse "Master.Ping" 0 "")); EBody (Ok 70)] (NewClientWithConn true)).

Lemma one_answered_reached : rtc counted_step (NewClientWithConn true) one_answered.
Proof.
  apply (counted_runs_steps [ESend 1 "Master.Ping" 7; EWrite None; ESend 2 "Master.Ping" 8; EWrite None;
    EHeader (Ok (mkResponse "Master.Ping" 0 "")); EBody (Ok 70)]). vm_compute. reflexivity.
Qed.

Lemma calls_complete_once_witness :
  call_result one_answered 1 = Some (Ok (Some 70)) ∧
  ∃ c, calls one_answered !! 1%positive = Some c ∧ ∃ k, c_from c = Some k ∧ c_seq c = Some k.
Proof.
  split; [vm_compute; reflexivity|].
  eexists. split; [vm_compute; reflexivity|].
  eapply (calls_complete_once true one_answered 1);
    [apply one_answered_reached|vm_compute; reflexivity|reflexivity].
Defined.

(** A call that is never answered, and a heartbeat that misses four beats. *)
Definition missed_beat : list (rpc_event nat) := [ETick; ECall; EBeat false].
Definition beats_missed : TcpClient nat :=
  default (NewClientWithConn false) (runs counted_event
    ([ESend 1 "Room.Join" 7; EWrite None] ++ missed_beat ++ missed_beat ++ missed_beat ++ [ETick; ECall])
    (NewClientWithConn false)).
Lemma beats_missed_reached : rtc counted_step (NewClientWithConn false) beats_missed.
Proof.
  apply (counted_runs_steps ([ESend 1 "Room.Join" 7; EWrite None] ++ missed_beat ++ missed_beat ++
    missed_beat ++ [ETick; ECall])). vm_compute. reflexivity.
Qed.

Lemma Close_blocks_for_ever_witness :
  (∃ s1, Close_begin one_answered = Some s1 ∧ IsClosed s1 = None ∧ call_result s1 2 = None) ∧
  (∃ s1, heart_close beats_missed = Some s1 ∧ IsClosed s1 = None ∧ call_result s1 1 = None).
Proof.
  split.
  - eexists. split; [vm_compute; reflexivity|].
    destruct (Close_blocks_for_ever true one_answered _ _ one_answered_reached eq_refl eq_refl eq_refl
      (rtc_refl _ _)) as (_ & Hi & Hp).
    split; [exact Hi|]. by destruct (Hp 1%Z 2%positive eq_refl).
  - eexists. split; [vm_compute; reflexivity|].
    destruct (Close_blocks_for_ever false beats_missed _ _ beats_missed_reached eq_refl eq_refl eq_refl
      (rtc_refl _ _)) as (_ & Hi & Hp).
    split; [exact Hi|]. by destruct (Hp 0%Z 1%positive eq_refl).
Defined.
