(* ===== verification/RpcServer.v ===== *)
(** * hRpc: the server

    server.go: registering the methods of a receiver, and serving the requests of
    any number of connections.  Each connection has a goroutine that reads its
    requests one after the other ([ServeCodec]) and starts a goroutine per request
    ([service.call]); all share the server's list of free [Request]s.  A step is one
    turn of the reading loop or the end of one call; what is read from a connection
    and what a handler answers come with the step. *)
From S2P Require Import Prelude GoString GoReflect RpcClient.

Definition typeOfError : gotype := TType "" "error" KOther.

Record methodType := mkMethodType { mt_method : rmethod; mt_ArgType : gotype; mt_ReplyType : option gotype }.
Record service := mkService { sv_name : string; sv_typ : gotype; sv_method : gmap string methodType }.

(** What one method is registered as, if it is. *)
Definition suitable (m : rmethod) : option methodType :=
  if decide (rm_PkgPath m ≠ "") then None else
  match rm_In m with
  | _ :: argType :: rest =>
      if negb (isExportedOrBuiltinType argType) then None else
      let reply := head rest in
      if match reply with
         | Some r => negb (is_ptr r) || negb (isExportedOrBuiltinType r)
         | None => false
         end then None
      else match rm_Out m with
           | [returnType] => if decide (returnType = typeOfError) then Some (mkMethodType m argType reply)
                             else None
           | _ => None
           end
  | _ => None
  end.

(** [suitableMethods]; the line that is logged asks a type for its element, which
    only a pointer has. *)
Fixpoint suitableMethods (typ : gotype) (ms : list rmethod) : outcome (gmap string methodType) :=
  match ms with
  | [] => Ret ∅
  | m :: ms =>
      match suitable m with
      | None => suitableMethods typ ms
      | Some mt =>
          if is_ptr typ then methods ← suitableMethods typ ms; Ret (<[rm_Name m := mt]> methods)
          else Panic (PanicVal "reflect: Elem of invalid type")
      end
  end.

(** A receiver: its type, the methods of that type and those of the pointer to it. *)
Record receiver := mkReceiver { rc_typ : gotype; rc_methods : list rmethod; rc_ptr_methods : list rmethod }.

Definition receiver_name (r : receiver) : string :=
  type_name (match rc_typ r with TPtr t => t | t => t end).

(** ** The server *)
Section server.
(** Arguments and replies as they travel. *)
Context {V : Type}.

(** A connection is identified by a number. *)
Abbreviation conn := positive.

(** A call under way: the cell of its request, the request as it was read, the method,
    the decoded argument, and whether its goroutine has counted it and gone on to the
    handler. *)
Record flight := mkFlight {
  fl_conn : conn;
  fl_req : positive;
  fl_read : Request;
  fl_mtype : methodType;
  fl_argv : V;
  fl_started : bool }.

Record Server := mkServer {
  serviceMap : gmap string service;
  requests : gmap positive Request;
  freeReq : list positive;
  inflight : list flight;
  (** what went to [WriteResponse], the body being [None] for [invalidRequest] *)
  responses : list (conn * Response * option V);
  stopped : gset conn;
  (** the counters of the methods, by the name that resolves to them *)
  numCalls : gmap string Z }.

Definition NewServer_empty : Server := mkServer ∅ ∅ [] [] [] ∅ ∅.

Definition set_services m s :=
  mkServer m (requests s) (freeReq s) (inflight s) (responses s) (stopped s) (numCalls s).

(** [register] *)
Definition register (r : receiver) (name : string) (useName : bool) (s : Server)
    : outcome (Server * option string) :=
  let sname := if useName then name else receiver_name r in
  if decide (sname = "") then Ret (s, Some "rpc.RegisterGroup: no service name for type")
  else if negb (isExported sname) && negb useName
  then Ret (s, Some ("rpc.RegisterGroup: type " +:+ sname +:+ " is not exported"))
  else
    methods ← suitableMethods (rc_typ r) (rc_methods r);
    if decide (methods = ∅) then
      ptr ← suitableMethods (TPtr (rc_typ r)) (rc_ptr_methods r);
      Ret (s, Some ("rpc.RegisterGroup: type " +:+ sname +:+
        (if decide (ptr = ∅) then " has no exported methods of suitable type"
         else " has no exported methods of suitable type (hint: pass a pointer to value of that type)")))
    else match serviceMap s !! sname with
         | Some _ => Ret (s, Some ("rpc: service already defined: " +:+ sname))
         | None => Ret (set_services (<[sname := mkService sname (rc_typ r) methods]> (serviceMap s)) s, None)
         end.

(** [getRequest] and [freeRequest]: the free list is a stack of cells. *)
Definition zero_request : Request := mkRequest "" 0 0.
Definition getRequest (s : Server) : positive * Server :=
  match freeReq s with
  | [] =>
      let r := fresh (dom (requests s)) in
      (r, mkServer (serviceMap s) (<[r := zero_request]> (requests s)) [] (inflight s)
            (responses s) (stopped s) (numCalls s))
  | r :: free =>
      (r, mkServer (serviceMap s) (<[r := zero_request]> (requests s)) free (inflight s)
            (responses s) (stopped s) (numCalls s))
  end.
Definition freeRequest (r : positive) (s : Server) : Server :=
  mkServer (serviceMap s) (requests s) (r :: freeReq s) (inflight s) (responses s) (stopped s) (numCalls s).

(** [sendResponse]: what the cell holds now is what is answered. *)
Definition sendResponse (c : conn) (r : positive) (reply : option V) (errmsg : string) (s : Server) : Server :=
  let req := default zero_request (requests s !! r) in
  let reply := if decide (errmsg = "") then reply else None in
  mkServer (serviceMap s) (requests s) (freeReq s) (inflight s)
    (responses s ++ [(c, mkResponse (rq_ServiceMethod req) (rq_Seq req) errmsg, reply)]) (stopped s) (numCalls s).

(** The character '.'. *)
Definition dot : Ascii.ascii := Ascii.Ascii false true true true false true false false.

(** The service and method a request names. *)
Definition resolve (services : gmap string service) (req : Request) : result string methodType :=
  match cut_last dot (rq_ServiceMethod req) with
  | None => Err ("rpc: service/method request ill-formed: " +:+ rq_ServiceMethod req)
  | Some (serviceName, methodName) =>
      match services !! serviceName with
      | None => Err ("rpc: can't find service " +:+ rq_ServiceMethod req)
      | Some svc =>
          match sv_method svc !! methodName with
          | None => Err ("rpc: can't find method " +:+ rq_ServiceMethod req)
          | Some mt => Ok mt
          end
      end
  end.

(** [readRequest], with the header that [ReadRequestHeader] gives and the argument, or
    the error, of [ReadRequestBody]: a header that cannot be read ends the reading;
    otherwise a request is answered with an error or handed to its method. *)
Inductive read_result :=
| RStop
| RError (req : Request) (e : string)
| RCall (req : Request) (mt : methodType) (argv : V).

Definition readRequest (services : gmap string service) (header : result string Request)
    (body : result string V) : read_result :=
  match header with
  | Err _ => RStop
  | Ok req =>
      match resolve services req with
      | Err e => RError req e
      | Ok mt => match body with Err e => RError req e | Ok argv => RCall req mt argv end
      end
  end.

(** One turn of the loop of [ServeCodec]; the request is read into the cell [r]. *)
Definition serve (c : conn) (header : result string Request) (body : result string V) (s : Server) : Server :=
  let '(r, s) := getRequest s in
  let read_into req := mkServer (serviceMap s) (<[r := req]> (requests s)) (freeReq s) (inflight s)
                         (responses s) (stopped s) (numCalls s) in
  match readRequest (serviceMap s) header body with
  | RStop => mkServer (serviceMap s) (requests s) (freeReq s) (inflight s) (responses s) ({[c]} ∪ stopped s) (numCalls s)
  | RError req e => freeRequest r (sendResponse c r None e (read_into req))
  | RCall req mt argv =>
      mkServer (serviceMap s) (<[r := req]> (requests s)) (freeReq s)
        (inflight s ++ [mkFlight c r req mt argv false]) (responses s) (stopped s) (numCalls s)
  end.

(** [service.call], up to the handler: the method's counter, a [uint], is increased; [fl]
    is the call between [fl1] and [fl2]. *)
Definition NumCalls (s : Server) (method : string) : Z := default 0%Z (numCalls s !! method).
Definition call_begin (fl : flight) (fl1 fl2 : list flight) (s : Server) : Server :=
  let m := rq_ServiceMethod (fl_read fl) in
  mkServer (serviceMap s) (requests s) (freeReq s)
    (fl1 ++ mkFlight (fl_conn fl) (fl_req fl) (fl_read fl) (fl_mtype fl) (fl_argv fl) true :: fl2)
    (responses s) (stopped s) (<[m := uint64 (NumCalls s m + 1)]> (numCalls s)).

(** [service.call], when the handler has returned [errmsg] (empty for nil) and its
    reply; [fl] leaves the calls under way, which [rest] are. *)
Definition call (fl : flight) (errmsg : string) (reply : V) (rest : list flight) (s : Server) : Server :=
  let s := mkServer (serviceMap s) (requests s) (freeReq s) rest (responses s) (stopped s) (numCalls s) in
  let req := default zero_request (requests s !! fl_req fl) in
  let reply := match mt_ReplyType (fl_mtype fl) with Some _ => Some reply | None => None end in
  freeRequest (fl_req fl)
    (if decide (rq_Type req = RPC_CALL_TYPE_NORMAL) then sendResponse (fl_conn fl) (fl_req fl) reply errmsg s
     else s).

(** [ServeRequest]: one request, served before it returns; [handler] is what the method
    does with its argument, the error message first. *)
Definition ServeRequest (c : conn) (header : result string Request) (body : result string V)
    (handler : methodType → V → string * V) (s : Server) : Server * option string :=
  match readRequest (serviceMap s) header body with
  | RStop => ((getRequest s).2, Some match header with Err e => e | Ok _ => "" end)
  | RError _ e => (serve c header body s, Some e)
  | RCall req mt argv =>
      let fl := mkFlight c (getRequest s).1 req mt argv false in
      let '(errmsg, reply) := handler mt argv in
      (call fl errmsg reply (inflight s) (call_begin fl (inflight s) [] (serve c header body s)), None)
  end.

(** ** Steps *)
Inductive server_step : list (conn * Request * bool) → Server → Server → Prop :=
| step_register r name useName s s' e :
    register r name useName s = Ret (s', e) → server_step [] s s'
| step_header_error c e body s :
    c ∉ stopped s → server_step [] s (serve c (Err e) body s)
| step_serve c req body s :
    c ∉ stopped s →
    server_step [(c, req, match resolve (serviceMap s) req, body with Ok _, Ok _ => true | _, _ => false end)]
      s (serve c (Ok req) body s)
| step_begin fl1 fl fl2 s :
    inflight s = fl1 ++ fl :: fl2 → fl_started fl = false → server_step [] s (call_begin fl fl1 fl2 s)
| step_call fl1 fl fl2 errmsg reply s :
    inflight s = fl1 ++ fl :: fl2 → fl_started fl = true → server_step [] s (call fl errmsg reply (fl1 ++ fl2) s).

(** A run, with the requests read on the way, each with its connection and whether it
    reached a handler. *)
Inductive server_run : list (conn * Request * bool) → Server → Server → Prop :=
| run_refl s : server_run [] s s
| run_step s1 s2 s3 l1 l2 : server_run l1 s1 s2 → server_step l2 s2 s3 → server_run (l1 ++ l2) s1 s3.

(** What a request is answered with in the end: requests that reached a handler when
    they are normal calls, the others always. *)
Definition answered (r : conn * Request * bool) : bool :=
  let '(_, req, handled) := r in
  negb handled || bool_decide (rq_Type req = RPC_CALL_TYPE_NORMAL).
Definition echo (r : conn * Request * bool) : conn * string * Z :=
  (r.1.1, rq_ServiceMethod r.1.2, rq_Seq r.1.2).
Definition response_echo (r : conn * Response * option V) : conn * string * Z :=
  (r.1.1, rs_ServiceMethod r.1.2, rs_Seq r.1.2).
Definition flight_read (fl : flight) : conn * Request * bool := (fl_conn fl, fl_read fl, true).

Record server_ok (read : list (conn * Request * bool)) (s : Server) : Prop := {
  so_cells fl : fl ∈ inflight s → requests s !! fl_req fl = Some (fl_read fl);
  so_pool : NoDup (freeReq s ++ (fl_req <$> inflight s));
  so_alloc r : r ∈ freeReq s → is_Some (requests s !! r);
  so_answers : (response_echo <$> responses s) ++
      (echo <$> filter answered (flight_read <$> inflight s)) ≡ₚ echo <$> filter answered read }.
End server.
Arguments Server V : clear implicits.
Arguments flight V : clear implicits.

(** ** The invariant *)
Section server_proofs.
Context {V : Type}.
Implicit Types s : Server V.

Lemma answers_app read l s :
  server_ok read s → filter answered l = [] → server_ok (read ++ l) s.
Proof.
  intros [Hc Hp Ha Hans] Hl. split; try done. by rewrite Hans, filter_app, Hl, app_nil_r.
Qed.

(** A cell out of the free list, or a new one: it is nobody else's. *)
Lemma getRequest_ok read s r s' :
  server_ok read s → getRequest s = (r, s') →
  server_ok read s' ∧ r ∉ freeReq s' ∧ r ∉ fl_req <$> inflight s' ∧ is_Some (requests s' !! r) ∧
  serviceMap s' = serviceMap s.
Proof.
  intros [Hc Hp Ha Hans] E. unfold getRequest in E. destruct (freeReq s) as [|r' free] eqn:Ef.
  - simplify_eq. set (r := fresh (dom (requests s))). simpl in *.
    assert (requests s !! r = None) as Hr by (apply not_elem_of_dom, is_fresh).
    assert (r ∉ fl_req <$> inflight s) as Hnin.
    { intros (fl & E & Hfl)%list_elem_of_fmap. specialize (Hc _ Hfl). congruence. }
    split_and!; simpl; try done; [|set_solver|rewrite lookup_insert_eq; by eexists].
    split; simpl; try done.
    + intros fl Hfl. rewrite lookup_insert_ne; [by apply Hc|]. intros E. apply Hnin.
      rewrite E. by apply list_elem_of_fmap_2.
    + intros r' Hr'. set_solver.
  - simplify_eq. simpl in *. apply NoDup_cons in Hp as [Hnin Hp].
    assert (r ∉ fl_req <$> inflight s) as Hnin' by (intros ?; apply Hnin, elem_of_app; by right).
    split_and!; simpl; try done; [|by intros ?; apply Hnin, elem_of_app; left
      |rewrite lookup_insert_eq; by eexists].
    split; simpl; try done.
    + intros fl Hfl. rewrite lookup_insert_ne; [by apply Hc|]. intros E. apply Hnin'.
      rewrite E. by apply list_elem_of_fmap_2.
    + intros r' Hr'. destruct (decide (r = r')) as [->|Hne]; [rewrite lookup_insert_eq; by eexists|].
      rewrite lookup_insert_ne by done. apply Ha. by right.
Qed.

Lemma serve_error_ok read s r c req e :
  server_ok read s → r ∉ freeReq s → r ∉ fl_req <$> inflight s → is_Some (requests s !! r) →
  let s1 := mkServer (serviceMap s) (<[r := req]> (requests s)) (freeReq s) (inflight s)
              (responses s) (stopped s) (numCalls s) in
  server_ok (read ++ [(c, req, false)]) (freeRequest r (sendResponse c r None e s1)).
Proof.
  intros [Hc Hp Ha Hans] Hf Hfl Hr s1. unfold freeRequest, sendResponse, s1. simpl.
  rewrite lookup_insert_eq. simpl. split; simpl.
  - intros fl Hin. rewrite lookup_insert_ne; [by apply Hc|]. intros E. apply Hfl. rewrite E.
    by apply list_elem_of_fmap_2.
  - apply NoDup_cons. split; [rewrite elem_of_app; tauto|done].
  - intros r' Hr'. rewrite lookup_insert_is_Some. destruct (decide (r = r')); [by left|right].
    split; [done|]. apply Ha. apply elem_of_cons in Hr' as [->|?]; done.
  - rewrite fmap_app, filter_app, fmap_app, <- Hans. simpl.
    rewrite <- !app_assoc. apply Permutation_app; [done|]. apply Permutation_app_comm.
Qed.

Lemma serve_call_ok read s r c req mt argv :
  server_ok read s → r ∉ freeReq s → r ∉ fl_req <$> inflight s →
  server_ok (read ++ [(c, req, true)])
    (mkServer (serviceMap s) (<[r := req]> (requests s)) (freeReq s)
       (inflight s ++ [mkFlight c r req mt argv false]) (responses s) (stopped s) (numCalls s)).
Proof.
  intros [Hc Hp Ha Hans] Hf Hfl. split; simpl.
  - intros fl [Hin| ->%list_elem_of_singleton]%elem_of_app; [|apply lookup_insert_eq].
    rewrite lookup_insert_ne; [by apply Hc|]. intros E. apply Hfl. rewrite E. by apply list_elem_of_fmap_2.
  - rewrite fmap_app. simpl. rewrite app_assoc. apply NoDup_app. split_and!; [done| |].
    + intros x Hx ->%list_elem_of_singleton. apply elem_of_app in Hx as [?|?]; done.
    + apply NoDup_singleton.
  - intros r' Hr'. destruct (decide (r = r')) as [->|Hne]; [done|]. rewrite lookup_insert_ne by done.
    by apply Ha.
  - rewrite fmap_app, filter_app, fmap_app, filter_app, fmap_app, <- Hans, <- app_assoc. done.
Qed.

Lemma call_ok read s fl1 fl fl2 errmsg reply :
  server_ok read s → inflight s = fl1 ++ fl :: fl2 →
  server_ok read (call fl errmsg reply (fl1 ++ fl2) s).
Proof.
  intros [Hc Hp Ha Hans] E. rewrite E in *.
  assert (requests s !! fl_req fl = Some (fl_read fl)) as Hcell by (apply Hc; set_solver).
  unfold call. simpl. rewrite Hcell. simpl.
  rewrite fmap_app in Hp. simpl in Hp. rewrite <- Permutation_middle in Hp.
  rewrite <- Permutation_middle in Hp. rewrite <- fmap_app in Hp.
  assert (∀ fl', fl' ∈ fl1 ++ fl2 → requests s !! fl_req fl' = Some (fl_read fl')) as Hc'
    by (intros fl' Hin; apply Hc; set_solver).
  assert (∀ r, r ∈ fl_req fl :: freeReq s → is_Some (requests s !! r)) as Ha'.
  { intros r [->|Hin]%elem_of_cons; [by rewrite Hcell|by apply Ha]. }
  rewrite fmap_app, filter_app in Hans. simpl in Hans. rewrite filter_cons in Hans.
  rewrite !fmap_app in Hans.
  destruct (decide (rq_Type (fl_read fl) = RPC_CALL_TYPE_NORMAL)) as [Hn|Hn].
  - rewrite decide_True in Hans by (unfold answered, flight_read; simpl; rewrite bool_decide_true by done; done).
    split; simpl; [done|done|done|]. rewrite Hcell. simpl.
    rewrite <- Hans, !fmap_app, filter_app, fmap_app. simpl. rewrite <- !app_assoc.
    apply Permutation_app; [done|]. simpl.
    change (response_echo _) with (echo (flight_read fl)). by rewrite Permutation_middle.
  - rewrite decide_False in Hans by (unfold answered, flight_read; simpl; rewrite bool_decide_false by done; intros []).
    split; simpl; [done|done|done|]. by rewrite <- Hans, fmap_app, filter_app, fmap_app.
Qed.

Lemma call_begin_ok read s fl1 fl fl2 :
  server_ok read s → inflight s = fl1 ++ fl :: fl2 → server_ok read (call_begin fl fl1 fl2 s).
Proof.
  intros [Hc Hp Ha Hans] E. rewrite E in *. rewrite fmap_app, fmap_cons in Hp. rewrite fmap_app, fmap_cons in Hans.
  split; simpl; rewrite ?fmap_app, ?fmap_cons; try done.
  intros fl' Hin. apply elem_of_app in Hin as [Hin|[->|Hin]%elem_of_cons]; simpl;
    apply Hc; rewrite elem_of_app, elem_of_cons; auto.
Qed.

Lemma server_step_ok read l s s' :
  server_ok read s → server_step l s s' → server_ok (read ++ l) s'.
Proof.
  intros Hok. destruct 1 as [r name un s s' e Hr|c e b s _|c req b s _|fl1 fl fl2 s E _|fl1 fl fl2 em reply s E _];
    rewrite ?app_nil_r.
  - unfold register in Hr. destruct Hok as [Hc Hp Ha Hans].
    repeat (case_decide || case_match; simplify_eq; try (by split));
      try (apply outcome_bind_Ret in Hr as (ms & _ & Hr); repeat (case_decide || case_match; simplify_eq; try (by split)));
      try (apply outcome_bind_Ret in Hr as (ms' & _ & Hr); repeat (case_decide || case_match; simplify_eq; try (by split))).
  - unfold serve, readRequest. destruct (getRequest s) as [r s1] eqn:E.
    destruct (getRequest_ok _ _ _ _ Hok E) as ([Hc Hp Ha Hans] & _). by split.
  - unfold serve, readRequest. destruct (getRequest s) as [r s1] eqn:E.
    destruct (getRequest_ok _ _ _ _ Hok E) as (Hok1 & Hf & Hfl & Hsome & Esv). simpl. rewrite <- Esv.
    destruct (resolve (serviceMap s1) req) as [mt|e]; [destruct b as [argv|e]|].
    + by apply serve_call_ok.
    + by apply serve_error_ok.
    + by apply serve_error_ok.
  - by apply call_begin_ok.
  - by apply call_ok.
Qed.

Lemma server_run_ok read l s s' :
  server_ok read s → server_run l s s' → server_ok (read ++ l) s'.
Proof.
  intros Hok Hr. revert read Hok. induction Hr as [s|s1 s2 s3 l1 l2 _ IH Hs]; intros read Hok.
  - by rewrite app_nil_r.
  - rewrite app_assoc. eapply server_step_ok; [|exact Hs]. by apply IH.
Qed.

(** Serving a request on the spot is reading it and ending its call, with nothing left
    under way. *)
Lemma ServeRequest_runs c req body handler s :
  c ∉ stopped s →
  inflight (ServeRequest c (Ok req) body handler s).1 = inflight s ∧
  server_run [(c, req, match resolve (serviceMap s) req, body with Ok _, Ok _ => true | _, _ => false end)]
    s (ServeRequest c (Ok req) body handler s).1.
Proof.
  intros Hc. pose proof (step_serve c req body s Hc) as Hs. unfold ServeRequest.
  destruct (readRequest (serviceMap s) (Ok req) body) as [|r e|r mt a] eqn:Er.
  - unfold readRequest in Er. by destruct (resolve _ req), body.
  - split; [|by eapply (run_step _ _ _ []); [apply run_refl|]].
    unfold serve. destruct (getRequest s) as [cell s1] eqn:Eg. unfold getRequest in Eg.
    destruct (freeReq s); injection Eg as <- <-; cbn [serviceMap]; by rewrite Er.
  - destruct (handler mt a) as [errmsg reply]. split; [unfold call; by case_decide|].
    assert (inflight (serve c (Ok req) body s) = inflight s ++ [mkFlight c (getRequest s).1 r mt a false]) as Ei.
    { unfold serve. destruct (getRequest s) as [cell s1] eqn:Eg. unfold getRequest in Eg.
      destruct (freeReq s); injection Eg as <- <-; cbn [serviceMap]; by rewrite Er. }
    rewrite <- (app_nil_r [(c, req, _)]). eapply run_step.
    + rewrite <- (app_nil_r [(c, req, _)]). eapply run_step; [|by apply step_begin].
      by eapply (run_step _ _ _ []); [apply run_refl|].
    + pose proof (step_call (inflight s) (mkFlight c (getRequest s).1 r mt a true) [] errmsg reply
        (call_begin (mkFlight c (getRequest s).1 r mt a false) (inflight s) [] (serve c (Ok req) body s)) eq_refl eq_refl) as Hend.
      rewrite app_nil_r in Hend. exact Hend.
Qed.

(** C14: whatever the connections send and in whatever order the handlers come back, the
    responses written so far, with the answers still due from handlers under way, are
    exactly one per request that is to be answered, on its own connection and with
    its own method and number, although the cells of the requests are handed round
    among the connections: every normal call, and every request that named no method
    or whose argument could not be read. *)
Theorem one_response_each read s :
  server_run read NewServer_empty s →
  (response_echo <$> responses s) ++ (echo <$> filter answered (flight_read <$> inflight s)) ≡ₚ
    echo <$> filter answered read ∧
  NoDup (freeReq s ++ (fl_req <$> inflight s)).
Proof.
  intros Hr. assert (server_ok [] (@NewServer_empty V)) as H0.
  { split; simpl; try done; try set_solver. constructor. }
  pose proof (server_run_ok _ _ _ _ H0 Hr) as [_ Hp _ Ha]. by split.
Qed.

(** ** The counters of the methods *)
Definition handled_reads (m : string) (read : list (positive * Request * bool)) : nat :=
  length (filter (λ r, r.2 = true ∧ rq_ServiceMethod r.1.2 = m) read).
Definition not_begun (m : string) (l : list (flight V)) : nat :=
  length (filter (λ fl, fl_started fl = false ∧ rq_ServiceMethod (fl_read fl) = m) l).
Lemma not_begun_app m l k : not_begun m (l ++ k) = not_begun m l + not_begun m k.
Proof. unfold not_begun. by rewrite filter_app, length_app. Qed.
Lemma not_begun_cons m fl l : not_begun m (fl :: l) =
  (if decide (fl_started fl = false ∧ rq_ServiceMethod (fl_read fl) = m) then 1 else 0) + not_begun m l.
Proof. unfold not_begun. rewrite filter_cons. by case_decide. Qed.

Lemma handled_reads_app m l k : handled_reads m (l ++ k) = handled_reads m l + handled_reads m k.
Proof. unfold handled_reads. by rewrite filter_app, length_app. Qed.
Lemma handled_reads_one m r : handled_reads m [r] =
  if decide (r.2 = true ∧ rq_ServiceMethod r.1.2 = m) then 1 else 0.
Proof. unfold handled_reads. rewrite filter_cons. by case_decide. Qed.

Definition counts_ok (read : list (positive * Request * bool)) (s : Server V) : Prop :=
  ∀ m, NumCalls s m = uint64 (Z.of_nat (handled_reads m read) - Z.of_nat (not_begun m (inflight s))).

Lemma serve_counts c header body s :
  numCalls (serve c header body s) = numCalls s ∧
  inflight (serve c header body s) = inflight s ++
    match readRequest (serviceMap s) header body with
    | RCall req mt a => [mkFlight c (getRequest s).1 req mt a false]
    | _ => []
    end.
Proof.
  unfold serve. destruct (getRequest s) as [r s1] eqn:E. unfold getRequest in E.
  assert (serviceMap s1 = serviceMap s ∧ numCalls s1 = numCalls s ∧ inflight s1 = inflight s) as (-> & <- & <-)
    by (by destruct (freeReq s); simplify_eq).
  by destruct (readRequest _ header body); rewrite ?app_nil_r.
Qed.

Lemma register_counts r name useName s s' e :
  register r name useName s = Ret (s', e) → numCalls s' = numCalls s ∧ inflight s' = inflight s.
Proof.
  unfold register. destruct (decide _); [by intros [= <- _]|]. destruct (negb _ && negb _); [by intros [= <- _]|].
  intros (methods & _ & E)%outcome_bind_Ret. destruct (decide (methods = ∅)).
  - by apply outcome_bind_Ret in E as (ptr & _ & [= <- _]).
  - by destruct (serviceMap s !! _); injection E as <- _.
Qed.

Lemma server_step_counts read l s s' : server_step l s s' → counts_ok read s → counts_ok (read ++ l) s'.
Proof.
  intros Hs Hok m. specialize (Hok m). unfold NumCalls in *. rewrite handled_reads_app.
  destruct Hs as [r name un s s' e Hr|c e b s _|c req b s _|fl1 fl fl2 s E Hst|fl1 fl fl2 em reply s E Hst].
  - apply register_counts in Hr as [-> ->]. by rewrite Nat.add_0_r.
  - destruct (serve_counts c (Err e) b s) as [-> ->]. simpl. by rewrite app_nil_r, Nat.add_0_r.
  - destruct (serve_counts c (Ok req) b s) as [-> ->]. rewrite Hok, not_begun_app, handled_reads_one. unfold readRequest.
    destruct (resolve (serviceMap s) req) as [mt|e]; [destruct b as [a|e]|]; simpl.
    + rewrite not_begun_cons. simpl. change (not_begun m []) with 0.
      destruct (decide (true = true ∧ rq_ServiceMethod req = m)), (decide (false = false ∧ rq_ServiceMethod req = m));
        try tauto; f_equal; lia.
    + change (not_begun m []) with 0. f_equal. lia.
    + change (not_begun m []) with 0. f_equal. lia.
  - simpl. rewrite E in Hok. rewrite not_begun_app, not_begun_cons, Hst in Hok.
    rewrite not_begun_app, not_begun_cons, Nat.add_0_r. simpl. destruct (decide (rq_ServiceMethod (fl_read fl) = m)) as [<-|Hne].
    + rewrite lookup_insert_eq. simpl. unfold NumCalls. rewrite Hok, decide_True by done.
      unfold uwrap. rewrite Zplus_mod_idemp_l. f_equal. lia.
    + rewrite lookup_insert_ne by done. rewrite Hok, decide_False by tauto. done.
  - unfold call, freeRequest, sendResponse. simpl. rewrite Nat.add_0_r.
    assert (not_begun m (inflight s) = not_begun m (fl1 ++ fl2)) as Hn.
    { rewrite E, !not_begun_app, not_begun_cons, Hst, decide_False by (by intros []). done. }
    rewrite Hn in Hok. by case_decide.
Qed.

(** The counter of a method is, up to the width of a [uint], the number of the requests
    for it that were handed to a goroutine, less those whose goroutine has not got that
    far. *)
Theorem calls_counted read s m :
  server_run read NewServer_empty s →
  NumCalls s m = uint64 (Z.of_nat (handled_reads m read) - Z.of_nat (not_begun m (inflight s))).
Proof.
  intros Hr. revert m. change (counts_ok read s).
  assert (∀ l s0, server_run l s0 s → ∀ read, counts_ok read s0 → counts_ok (read ++ l) s) as H.
  { clear. intros l s0 Hr. induction Hr as [s|s1 s2 s3 l1 l2 _ IH Hs]; intros read Hok; [by rewrite app_nil_r|].
    rewrite app_assoc. eapply server_step_counts; [exact Hs|]. by apply IH. }
  apply (H _ _ Hr []). intros m. done.
Qed.
End server_proofs.

(** ** Registration *)
Section registration.
Context {V : Type}.

Lemma suitableMethods_lookup typ ms methods :
  suitableMethods typ ms = Ret methods → NoDup (rm_Name <$> ms) →
  ∀ m, m ∈ ms → methods !! rm_Name m = suitable m.
Proof.
  revert methods. induction ms as [|m0 ms IH]; intros methods E Hnd m Hm; [by apply elem_of_nil in Hm|].
  rewrite fmap_cons in Hnd. apply NoDup_cons in Hnd as [Hnin Hnd].
  assert (∀ ms' methods', suitableMethods typ ms' = Ret methods' → rm_Name m0 ∉ rm_Name <$> ms' →
    methods' !! rm_Name m0 = None) as Hnone.
  { clear. intros ms'. induction ms' as [|m1 ms' IH]; intros methods' E Hn; [by simplify_eq/=|].
    rewrite fmap_cons, not_elem_of_cons in Hn. destruct Hn as [Hne Hn]. simpl in E.
    destruct (suitable m1) as [mt|]; [|by eapply IH]. destruct (is_ptr typ); [|done].
    apply outcome_bind_Ret in E as (ms1 & E & [= <-]). rewrite lookup_insert_ne by done. by eapply IH. }
  assert (∀ m', m' ∈ ms → rm_Name m' ≠ rm_Name m0) as Hother.
  { intros m' Hm' E'. apply Hnin. rewrite <- E'. by apply list_elem_of_fmap_2. }
  cbn [suitableMethods] in E. destruct (suitable m0) as [mt|] eqn:Es.
  - destruct (is_ptr typ); [|done]. apply outcome_bind_Ret in E as (ms1 & E & [= <-]).
    apply elem_of_cons in Hm as [->|Hm]; [by rewrite lookup_insert_eq|].
    rewrite lookup_insert_ne by (by symmetry; apply Hother). by eapply IH.
  - apply elem_of_cons in Hm as [->|Hm]; [rewrite Es; by eapply Hnone|by eapply IH].
Qed.

Definition service_name (r : receiver) (name : string) (useName : bool) : string :=
  if useName then name else receiver_name r.

Lemma register_run r name useName (s s' : Server V) :
  register r name useName s = Ret (s', None) →
  ∃ methods, suitableMethods (rc_typ r) (rc_methods r) = Ret methods ∧
    serviceMap s !! service_name r name useName = None ∧
    s' = set_services (<[service_name r name useName :=
           mkService (service_name r name useName) (rc_typ r) methods]> (serviceMap s)) s.
Proof.
  unfold register. fold (service_name r name useName).
  destruct (decide (service_name r name useName = "")); [done|]. destruct (negb _ && negb _); [done|].
  intros (methods & Em & E)%outcome_bind_Ret. exists methods. split; [done|].
  destruct (decide (methods = ∅)).
  - apply outcome_bind_Ret in E as (ptr & _ & E). by destruct (decide _).
  - destruct (serviceMap s !! _); [done|]. by simplify_eq.
Qed.

Lemma register_refused r name useName (s s' : Server V) e :
  register r name useName s = Ret (s', Some e) → s' = s.
Proof.
  unfold register. destruct (decide _); [by intros [= <- _]|].
  destruct (negb _ && negb _); [by intros [= <- _]|]. intros (methods & _ & E)%outcome_bind_Ret.
  destruct (decide (methods = ∅)).
  - apply outcome_bind_Ret in E as (ptr & _ & E). by injection E.
  - destruct (serviceMap s !! _); [by injection E|done].
Qed.

(** Registering a receiver makes each of its suitable methods, and no other, the one
    that the request "Service.Method" resolves to, whatever dots the service's name
    holds; every request that resolved before resolves to what it did; and a name
    already taken is refused without any change. *)
Theorem register_resolves r name useName (s s' : Server V) e :
  register r name useName s = Ret (s', e) → NoDup (rm_Name <$> rc_methods r) →
  (e = None → ∀ m sq ty, m ∈ rc_methods r → has_char dot (rm_Name m) = false →
    resolve (serviceMap s')
      (mkRequest (service_name r name useName +:+ String dot (rm_Name m)) sq ty) =
    match suitable m with
    | Some mt => Ok mt
    | None => Err ("rpc: can't find method " +:+ service_name r name useName +:+ String dot (rm_Name m))
    end) ∧
  (∀ req mt, resolve (serviceMap s) req = Ok mt → resolve (serviceMap s') req = Ok mt) ∧
  (e ≠ None → s' = s) ∧
  (is_Some (serviceMap s !! service_name r name useName) → e ≠ None).
Proof.
  intros E Hnd. destruct e as [e|].
  - by apply register_refused in E as ->.
  - destruct (register_run _ _ _ _ _ E) as (methods & Em & Hfree & ->). split_and!; [|  |done|].
    + intros _ m sq ty Hm Hdot. unfold resolve. simpl. rewrite cut_last_app by done.
      rewrite lookup_insert_eq. simpl. rewrite (suitableMethods_lookup _ _ _ Em Hnd m Hm).
      by destruct (suitable m).
    + intros req mt. unfold resolve. simpl. destruct (cut_last _ _) as [[sv m]|]; [|done].
      destruct (serviceMap s !! sv) as [svc|] eqn:Esv; [|done].
      rewrite lookup_insert_ne by congruence. by rewrite Esv.
    + intros [x Hx]. congruence.
Qed.
End registration.

(** ** A one-way call to a method the server does not know *)
Section stale.
Context {V : Type}.

Lemma resolve_error_ne services req e : resolve services req = Err e → e ≠ "".
Proof. unfold resolve. intros E. repeat case_match; simplify_eq; done. Qed.

(** A one-way call goes out under the number of the call written before it.  When
    it names a method the server does not know, the server answers it all the same,
    under that number, and the client gives that answer to the earlier call, which
    fails with an error that was never its own. *)
Theorem one_way_answers_earlier_call (s s1 : TcpClient V) id1 id2 m1 a1 m2 a2 :
  input s = IHeader → mutex_held s = false →
  (seq s + 2 < 2 ^ 64)%Z → shutdown s = false → closing s = false →
  runs counted_event [ESend id1 m1 a1; EWrite None; EOneWay id2 m2 a2 None] s = Some s1 →
  ∃ frame, last (wire s1) = Some (frame, a2) ∧ rq_ServiceMethod frame = m2 ∧
    ∀ (srv : Server V) c body e, resolve (serviceMap srv) frame = Err e →
    ∃ resp, last (responses (serve c (Ok frame) body srv)) = Some (c, resp, None) ∧
      ∀ v, ∃ s2, runs counted_event [EHeader (Ok resp); EBody (Ok v)] s1 = Some s2 ∧
        call_result s2 id1 = Some (Err (RpcClient.ServerError e)).
Proof.
  intros Hi Hm Hq Hsd Hcl Hrun. cbn [runs] in Hrun. unfold counted_event in Hrun. rewrite decide_True in Hrun by lia.
  simpl in Hrun. unfold send_register in Hrun. destruct (reqMutex s) eqn:Hrm; try done.
  destruct (calls s !! id1) eqn:H1; [done|]. rewrite Hm, Hsd, Hcl in Hrun. simpl in Hrun.
  destruct (decide (uint64 (seq s + 1) + 1 < 2 ^ 64)%Z) as [Hq1|]; [|done].
  unfold send_write in Hrun. simpl in Hrun.
  rewrite lookup_insert_eq in Hrun. simpl in Hrun. rewrite ?(decide_True (P := (uint64 _ + 1 < _)%Z)) in Hrun by done.
  unfold sendWithoutReply in Hrun. simpl in Hrun.
  destruct (decide (id2 = id1)) as [->|Hne]; [by rewrite lookup_insert_eq in Hrun|].
  rewrite lookup_insert_ne in Hrun by done. destruct (calls s !! id2) eqn:H2; [done|].
  simpl in Hrun. simplify_eq. simpl.
  eexists. split; [by rewrite last_snoc|]. split; [done|]. intros srv c body e Hres.
  unfold serve, readRequest. destruct (getRequest srv) as [r srv1] eqn:Eg. simpl.
  assert (serviceMap srv1 = serviceMap srv) as -> by (unfold getRequest in Eg; by destruct (freeReq srv); simplify_eq).
  rewrite Hres. unfold freeRequest, sendResponse. simpl. rewrite lookup_insert_eq. simpl.
  rewrite (decide_False (P := e = "")) by (by eapply resolve_error_ne).
  eexists. split; [by rewrite last_snoc|]. intros v. unfold counted_event. simpl. rewrite decide_True by done.
  unfold input_header. simpl. rewrite Hi. simpl. rewrite decide_True by done.
  unfold input_body. simpl. rewrite lookup_insert_eq. rewrite lookup_alter_ne by done.
  rewrite lookup_insert_ne by done. rewrite lookup_insert_eq. simpl.
  rewrite decide_True by (by eapply resolve_error_ne).
  eexists. split; [done|]. unfold call_result. simpl. rewrite lookup_alter_eq, lookup_alter_ne by done.
  rewrite lookup_insert_ne by done. rewrite lookup_insert_eq. done.
Qed.
End stale.

(** ** Witnesses *)
Definition heartbeat_method : rmethod :=
  mkRMethod "HeartBeat" "" [TPtr (TType "rpc" "InnerResponse" KOther); TType "" "" KOther;
    TPtr (TType "rpc" "HeartBeatReuslt" KOther)] [typeOfError].
(** [new(InnerResponse)], which [NewServer] registers. *)
Definition InnerResponse : receiver :=
  mkReceiver (TPtr (TType "rpc" "InnerResponse" KOther)) [heartbeat_method] [].
Definition inner_service : service :=
  mkService "InnerResponse" (TPtr (TType "rpc" "InnerResponse" KOther))
    {["HeartBeat" := mkMethodType heartbeat_method (TType "" "" KOther)
        (Some (TPtr (TType "rpc" "HeartBeatReuslt" KOther)))]}.
(** [NewServer] *)
Definition NewServer {V} : Server V := set_services {["InnerResponse" := inner_service]} NewServer_empty.

Lemma NewServer_register {V} : register InnerResponse "" false (@NewServer_empty V) = Ret (NewServer, None).
Proof. vm_compute. reflexivity. Qed.

Definition beat : Request := mkRequest "InnerResponse.HeartBeat" 5 1.

Lemma one_beat_run :
  server_run [(1%positive, beat, true)] (@NewServer_empty nat)
    (serve 1 (Ok beat) (Ok 0) NewServer).
Proof.
  eapply (run_step _ NewServer _ [] [(1%positive, beat, true)]).
  - eapply (run_step _ NewServer_empty _ [] []); [apply run_refl|].
    eapply step_register, NewServer_register.
  - apply (step_serve 1 beat (Ok 0) NewServer). by apply not_elem_of_empty.
Qed.

Lemma one_response_each_witness :
  server_run [(1%positive, beat, true)] (@NewServer_empty nat) (serve 1 (Ok beat) (Ok 0) NewServer) ∧
  [(1%positive, "InnerResponse.HeartBeat", 5%Z)] ≡ₚ [(1%positive, "InnerResponse.HeartBeat", 5%Z)].
Proof.
  split; [apply one_beat_run|]. apply (one_response_each _ _ one_beat_run).
Defined.

Lemma register_resolves_witness :
  resolve (serviceMap (@NewServer nat)) beat =
    Ok (mkMethodType heartbeat_method (TType "" "" KOther)
          (Some (TPtr (TType "rpc" "HeartBeatReuslt" KOther)))).
Proof.
  destruct (register_resolves InnerResponse "" false (@NewServer_empty nat) _ _ NewServer_register) as (H & _).
  - apply NoDup_singleton.
  - apply (H eq_refl heartbeat_method 5%Z 1%Z); [by left|reflexivity].
Defined.

Lemma one_way_answers_earlier_call_witness :
  ∃ s1 : TcpClient nat,
    runs counted_event [ESend 1 "InnerResponse.HeartBeat" 0; EWrite None; EOneWay 2 "Room.Leave" 9 None]
      (NewClientWithConn true) = Some s1 ∧
    ∃ frame : Request, last (wire s1) = Some (frame, 9).
Proof.
  eexists. split; [vm_compute; reflexivity|].
  destruct (one_way_answers_earlier_call (NewClientWithConn true) _ 1 2 "InnerResponse.HeartBeat" 0
    "Room.Leave" 9 eq_refl eq_refl eq_refl eq_refl eq_refl eq_refl) as (frame & Hf & _).
  by exists frame.
Defined.
