(* ===== verification/Services.v ===== *)
(** * The RPC services of a node

    The services that the framework's components register on their node's server
    (MasterService.go, LocationService.go, ActorProxyService.go, LauncherService.go), with
    the signatures of their methods, the start of that server and the registration
    (NodeComponent.go), and the calls the framework makes to them: what is called, and the
    types that are sent and expected. Registration and resolution are RpcServer's. *)
From S2P Require Import Prelude GoString GoReflect RpcClient RpcServer.

(** ** Signatures *)
(** Types as gob writes them. *)
Inductive wire :=
| WBasic (name : string)
| WNamed (pkg name : string)
| WEmpty
| WPtr (t : wire)
| WSlice (t : wire)
| WMap (k t : wire).
#[global] Instance wire_eq_dec : EqDecision wire.
Proof. solve_decision. Defined.
Fixpoint reflect_type (t : wire) : gotype :=
  match t with
  | WBasic n => TType "" n KOther
  | WNamed p n => TType p n KOther
  | WEmpty => TType "" "" KOther
  | WPtr t => TPtr (reflect_type t)
  | WSlice _ => TType "" "" KSlice
  | WMap _ _ => TType "" "" KMap
  end.
(** gob sends what pointers point to, at any depth. *)
Fixpoint flat (t : wire) : wire :=
  match t with
  | WPtr t => flat t
  | WSlice t => WSlice (flat t)
  | WMap k t => WMap (flat k) (flat t)
  | t => t
  end.

(** [func (this *T) M(args A, reply R) error] *)
Record sig := mkSig { sg_name : string; sg_args : wire; sg_reply : wire }.
Definition method_of (recv : gotype) (m : sig) : rmethod :=
  mkRMethod (sg_name m) "" [TPtr recv; reflect_type (sg_args m); reflect_type (sg_reply m)] [typeOfError].
Definition pointer_receiver (pkg name : string) (ms : list sig) : receiver :=
  mkReceiver (TPtr (TType pkg name KOther)) (method_of (TType pkg name KOther) <$> ms) [].

Definition WString : wire := WBasic "string".
Definition WBool : wire := WBasic "bool".
Definition cluster_type (n : string) : wire := WNamed "custom/happy/hCluster" n.
Definition actor_type (n : string) : wire := WNamed "custom/happy/hActor" n.
Definition inquiry_replies : wire := WPtr (WSlice (WPtr (cluster_type "InquiryReply"))).

(** [reflect] lists the exported methods in the order of their names. *)
Definition MasterService_methods : list sig :=
  [mkSig "GetAllNodeStatus" WString (WPtr (WMap WString WString));
   mkSig "GetNodeStatus" WString (WPtr WString);
   mkSig "NodeInfoSync" WString (WPtr (cluster_type "NodeInfoSyncReply"));
   mkSig "NodeInquiry" (WSlice WString) inquiry_replies;
   mkSig "NodeInquiryDetail" (WSlice WString) inquiry_replies;
   mkSig "ReportNodeClose" WString (WPtr WBool);
   mkSig "ReportNodeInfo" (WPtr (cluster_type "NodeInfo")) (WPtr WBool);
   mkSig "SetNodeStatus" (WSlice WString) (WPtr WBool)].
Definition LocationService_methods : list sig :=
  [mkSig "NodeInquiry" (WSlice WString) inquiry_replies;
   mkSig "NodeInquiryDetail" (WSlice WString) inquiry_replies;
   mkSig "NodeLogInquiry" (WBasic "int64") (WPtr (WSlice (WPtr (cluster_type "NodeLog"))))].
Definition ActorProxyService_methods : list sig :=
  [mkSig "ServiceInquiry" WString (WPtr (actor_type "ActorID"));
   mkSig "Tell" (WPtr (actor_type "ActorRpcMessageInfo")) (WPtr (actor_type "ActorMessage"))].
Definition LauncherService_methods : list sig := [mkSig "CloseSelf" WString (WPtr WBool)].

(** server.go: the service that every server has, for the heartbeats. *)
Definition InnerResponse_methods : list sig := [mkSig "HeartBeat" WEmpty (WPtr (WNamed "rpc" "HeartBeatReuslt"))].
Definition InnerResponseContent : Z := 1.
(** [InnerResponse.HeartBeat]: what it sets the result to. *)
Definition HeartBeat (result : Z) : Z * option string := (InnerResponseContent, None).

Inductive svc := SInner | SLauncher | SProxy | SMaster | SLocation.
#[global] Instance svc_eq_dec : EqDecision svc.
Proof. solve_decision. Defined.
Definition svc_pkg (x : svc) : string :=
  match x with
  | SInner => "rpc"
  | SLauncher => "custom/happy/hBaseComponent"
  | SProxy => "custom/happy/hActor"
  | SMaster | SLocation => "custom/happy/hCluster"
  end.
Definition svc_name (x : svc) : string :=
  match x with
  | SInner => "InnerResponse"
  | SLauncher => "LauncherService"
  | SProxy => "ActorProxyService"
  | SMaster => "MasterService"
  | SLocation => "LocationService"
  end.
Definition svc_methods (x : svc) : list sig :=
  match x with
  | SInner => InnerResponse_methods
  | SLauncher => LauncherService_methods
  | SProxy => ActorProxyService_methods
  | SMaster => MasterService_methods
  | SLocation => LocationService_methods
  end.
(** [new(MasterService)] and the like. *)
Definition rcvr_of (x : svc) : receiver := pointer_receiver (svc_pkg x) (svc_name x) (svc_methods x).

(** ** The calls of the framework *)
(** [cl_args] and [cl_reply] are the types of the expressions at the call; no reply for
    [CallWithoutReply]. *)
Record rpc_call := mkCall { cl_svc : svc; cl_method : string; cl_args : wire; cl_reply : option wire }.

Definition SelectGate_calls : list rpc_call :=
  [mkCall SMaster "NodeInfoSync" WString (Some (WPtr (WPtr (cluster_type "NodeInfoSyncReply"))));
   mkCall SMaster "SetNodeStatus" (WSlice WString) None;
   mkCall SLauncher "CloseSelf" WString None;
   mkCall SMaster "GetAllNodeStatus" WString (Some (WPtr (WMap WString WString)))].
Definition Launcher_calls : list rpc_call :=
  [mkCall SMaster "GetNodeStatus" WString (Some (WPtr WString));
   mkCall SMaster "SetNodeStatus" (WSlice WString) None].
Definition Proxy_calls : list rpc_call :=
  [mkCall SProxy "ServiceInquiry" WString (Some (WPtr (actor_type "ActorID")));
   mkCall SProxy "Tell" (WPtr (actor_type "ActorRpcMessageInfo")) (Some (WPtr (WPtr (actor_type "ActorMessage"))))].
Definition Child_calls : list rpc_call :=
  [mkCall SMaster "ReportNodeInfo" (WPtr (cluster_type "NodeInfo")) (Some (WPtr WBool));
   mkCall SMaster "ReportNodeClose" WString (Some (WPtr WBool))].
Definition Location_calls : list rpc_call :=
  [mkCall SMaster "NodeInfoSync" WString (Some (WPtr (WPtr (cluster_type "NodeInfoSyncReply"))))].
Definition Node_calls : list rpc_call :=
  let replies := WPtr (WPtr (WSlice (WPtr (cluster_type "InquiryReply")))) in
  [mkCall SLocation "NodeInquiry" (WSlice WString) (Some replies);
   mkCall SMaster "NodeInquiry" (WSlice WString) (Some replies)].
Definition HeartBeat_calls : list rpc_call := [mkCall SInner "HeartBeat" WEmpty (Some (WPtr (WNamed "rpc" "HeartBeatReuslt")))].
Definition all_calls : list rpc_call :=
  HeartBeat_calls ++ SelectGate_calls ++ Launcher_calls ++ Proxy_calls ++ Child_calls ++ Location_calls ++ Node_calls.
Definition call_name (c : rpc_call) : string := svc_name (cl_svc c) +:+ String dot (cl_method c).

(** ** The server of a node *)
Section node_server.
(** Addresses, listeners and what net answers. *)
Context {V A L : Type} (ResolveTCPAddr : string → result string A) (ListenTCP : A → result string L).

Record NodeServer := mkNodeServer { nd_serverListener : option L; nd_rpcServer : option (Server V) }.

(** [Server.Register] and [RegisterName]. *)
Definition Server_Register (r : receiver) (s : Server V) : outcome (Server V * option string) := register r "" false s.
Definition Server_RegisterName (name : string) (r : receiver) (s : Server V) : outcome (Server V * option string) :=
  register r name true s.

(** [StartRpcServer]; [go server.Accept] is [Accept] below. *)
Definition StartRpcServer (LocalAddress : string) : prog NodeServer (option string) :=
  match ResolveTCPAddr LocalAddress with
  | Err e => mret (Some e)
  | Ok addr =>
      match ListenTCP addr with
      | Err e => _ ← modify (λ n, mkNodeServer None (nd_rpcServer n)); mret (Some e)
      | Ok l => _ ← modify (λ n, mkNodeServer (Some l) (Some NewServer)); mret None
      end
  end.
(** [NodeComponent.Register]: without a server the map of services cannot be reached. *)
Definition Node_Register (r : receiver) : prog NodeServer (option string) :=
  n ← get_state;
  match nd_rpcServer n with
  | Some s =>
      '(s, e) ← of_outcome (Server_Register r s);
      _ ← modify (λ n, mkNodeServer (nd_serverListener n) (Some s)); mret e
  | None =>
      '(_, e) ← of_outcome (Server_Register r NewServer_empty);
      match e with Some e => mret (Some e) | None => panicking NilDereference end
  end.

(** What the components do with their service: the proxy hands the error on, the launcher's
    [registerService], the master's and the location's [Awake] panic. *)
Definition register_service (x : svc) : prog NodeServer (option string) :=
  e ← Node_Register (rcvr_of x);
  match x, e with
  | (SLauncher | SMaster | SLocation), Some e => panicking (PanicVal e)
  | _, e => mret e
  end.
Fixpoint register_all (l : list svc) : prog NodeServer unit :=
  match l with [] => mret tt | x :: l => _ ← register_service x; register_all l end.

(** [Accept]: a goroutine serves each connection that the listener gives, until it fails. *)
Fixpoint Accept {C} (lis : list (result string C)) (served : list C) : list C * option string :=
  match lis with
  | [] => (served, None)
  | Ok conn :: lis => Accept lis (served ++ [conn])
  | Err e :: _ => (served, Some e)
  end.

(** client.go: [NewTcpClient] and [Dial], over what the network answers, and
    [NodeComponent.ConnectToNode], which stores the client under the address. *)
Definition NewTcpClient {C K} (client_of : C → K) (dialled : result string C) : result string K :=
  match dialled with Err e => Err e | Ok conn => Ok (client_of conn) end.
Definition Dial {C K} (client_of : C → K) (dialled : result string C) : result string K :=
  match NewTcpClient client_of dialled with Err e => Err e | Ok c => Ok c end.
Definition ConnectToNode {C K} (client_of : C → K) (addr : string) (dialled : result string C)
    : prog (gmap string K) (result string K) :=
  match NewTcpClient client_of dialled with
  | Err e => mret (Err e)
  | Ok client => _ ← modify (λ rpcClient, <[addr := client]> rpcClient); mret (Ok client)
  end.

(** *** Registered services *)
Definition entry_of (x : svc) : service :=
  mkService (svc_name x) (TPtr (TType (svc_pkg x) (svc_name x) KOther))
    (match suitableMethods (rc_typ (rcvr_of x)) (rc_methods (rcvr_of x)) with Ret m => m | _ => ∅ end).
(** A server has the services of [l], and those only. *)
Definition has_services (l : list svc) (s : Server V) : Prop :=
  (∀ x, x ∈ l → serviceMap s !! svc_name x = Some (entry_of x)) ∧
  (∀ n, is_Some (serviceMap s !! n) → ∃ x, x ∈ l ∧ n = svc_name x).

Lemma svc_name_inj x y : svc_name x = svc_name y → x = y.
Proof. by destruct x, y. Qed.
Lemma Register_svc x (s : Server V) :
  Server_Register (rcvr_of x) s = match serviceMap s !! svc_name x with
    | Some _ => Ret (s, Some ("rpc: service already defined: " +:+ svc_name x))
    | None => Ret (set_services (<[svc_name x := entry_of x]> (serviceMap s)) s, None)
    end.
Proof. destruct x; reflexivity. Qed.

Lemma NewServer_has : has_services [SInner] NewServer.
Proof.
  split.
  - intros x ->%list_elem_of_singleton. reflexivity.
  - intros n [svc Hn]. exists SInner. split; [by left|].
    unfold NewServer in Hn. simpl in Hn. apply lookup_singleton_Some in Hn as [<- _]. done.
Qed.
Lemma has_services_register x l (s : Server V) : has_services l s → x ∉ l →
  ∃ s', Server_Register (rcvr_of x) s = Ret (s', None) ∧ has_services (l ++ [x]) s'.
Proof.
  intros [Hin Honly] Hx. rewrite Register_svc. destruct (serviceMap s !! svc_name x) as [e|] eqn:E.
  - destruct (Honly (svc_name x)) as (y & Hy & En); [by eexists|]. apply svc_name_inj in En as <-. done.
  - eexists. split; [done|]. split.
    + intros y [Hy| ->%list_elem_of_singleton]%elem_of_app; simpl; [|by rewrite lookup_insert_eq].
      rewrite lookup_insert_ne by (intros ->%svc_name_inj; done). by apply Hin.
    + intros n. simpl. intros [e [[<- _]|[_ Hn]]%lookup_insert_Some].
      * exists x. split; [apply elem_of_app; right; by left|done].
      * destruct (Honly n) as (y & Hy & ->); [by eexists|]. exists y. split; [apply elem_of_app; by left|done].
Qed.

Lemma register_all_run l n : ∀ l0 s, nd_rpcServer n = Some s → has_services l0 s → NoDup (l0 ++ l) →
  ∃ s', register_all l n = (mkNodeServer (nd_serverListener n) (Some s'), Ret tt) ∧ has_services (l0 ++ l) s'.
Proof.
  revert n. induction l as [|x l IH]; intros n l0 s Hs Hl Hnd.
  - exists s. rewrite app_nil_r. split; [|done]. simpl. destruct n; simpl in *. by subst.
  - assert (x ∉ l0) as Hx. { apply NoDup_app in Hnd as (_ & Hd & _). intros Hin. apply (Hd x Hin). by left. }
    destruct (has_services_register x l0 s Hl Hx) as (s' & E & Hl').
    change (x :: l) with ([x] ++ l) in Hnd |- *. rewrite app_assoc in Hnd |- *.
    destruct (IH (mkNodeServer (nd_serverListener n) (Some s')) (l0 ++ [x]) s' eq_refl Hl' Hnd) as (s2 & E2 & H2).
    exists s2. split; [|done]. cbn [register_all app]. erewrite bind_Ret; [exact E2|].
    unfold register_service, Node_Register. unfold_prog. unfold get_state, of_outcome, modify. rewrite Hs, E. by destruct x.
Qed.

(** A call finds its method, and the types are those of the method up to pointers. *)
Definition finds_method (s : Server V) (c : rpc_call) (sq : Z) (ty : Z) : Prop :=
  ∃ mt m, resolve (serviceMap s) (mkRequest (call_name c) sq ty) = Ok mt ∧ m ∈ svc_methods (cl_svc c) ∧
    sg_name m = cl_method c ∧ mt_ArgType mt = reflect_type (sg_args m) ∧ mt_ReplyType mt = Some (reflect_type (sg_reply m)) ∧
    flat (cl_args c) = flat (sg_args m) ∧ (∀ r, cl_reply c = Some r → flat r = flat (sg_reply m)).

Lemma entry_finds c : c ∈ all_calls → ∃ mt m, sv_method (entry_of (cl_svc c)) !! cl_method c = Some mt ∧
  m ∈ svc_methods (cl_svc c) ∧ sg_name m = cl_method c ∧ mt_ArgType mt = reflect_type (sg_args m) ∧
  mt_ReplyType mt = Some (reflect_type (sg_reply m)) ∧
  flat (cl_args c) = flat (sg_args m) ∧ (∀ r, cl_reply c = Some r → flat r = flat (sg_reply m)).
Proof.
  assert (∀ c, c ∈ all_calls → ∃ m, head (filter (λ m, sg_name m = cl_method c) (svc_methods (cl_svc c))) = Some m ∧
    sv_method (entry_of (cl_svc c)) !! cl_method c = suitable (method_of (TType (svc_pkg (cl_svc c)) (svc_name (cl_svc c)) KOther) m) ∧
    is_Some (suitable (method_of (TType (svc_pkg (cl_svc c)) (svc_name (cl_svc c)) KOther) m)) ∧
    flat (cl_args c) = flat (sg_args m) ∧ (∀ r, cl_reply c = Some r → flat r = flat (sg_reply m))) as Hall.
  { intros d Hd. repeat (apply elem_of_cons in Hd as [->|Hd];
      [eexists; split; [reflexivity|]; split; [vm_compute; reflexivity|]; split; [by eexists|]; split; [done|]; by intros r [= <-]|]).
    by apply elem_of_nil in Hd. }
  intros Hc. destruct (Hall c Hc) as (m & Hm & Eq & [mt Hmt] & Ha & Hr).
  apply head_Some_elem_of, list_elem_of_filter in Hm as [Hn Hin]. exists mt, m.
  rewrite Eq. assert (mt_ArgType mt = reflect_type (sg_args m) ∧ mt_ReplyType mt = Some (reflect_type (sg_reply m))) as [??].
  { revert Hmt. unfold suitable, method_of. simpl. repeat (case_match; try done). by intros [= <-]. }
  by split_and!.
Qed.
Lemma has_services_find l s c sq ty : has_services l s → c ∈ all_calls → cl_svc c ∈ l → finds_method s c sq ty.
Proof.
  intros [Hin _] Hc Hl. destruct (entry_finds c Hc) as (mt & m & Hmt & Hm & Hn & Hrest). exists mt, m.
  split; [|exact (conj Hm (conj Hn Hrest))]. unfold resolve, call_name. simpl. rewrite cut_last_app.
  - by rewrite (Hin _ Hl), Hmt.
  - assert (Forall (λ c, has_char dot (cl_method c) = false) all_calls) as Hdot by (repeat constructor).
    rewrite Forall_forall in Hdot. by apply Hdot.
Qed.

(** A node whose address can be listened on has a server on which the framework's services
    can be registered, each once and in any order; then every call that the framework makes
    to one of them, of all that are in its source, resolves to a method whose argument and
    reply have the types that are sent and expected, up to pointers. A service that is
    registered a second time is refused, with a panic unless it is the proxy's. On a node
    whose address is taken Initialize only returns the error, and the first registration
    panics. *)
Theorem node_services LocalAddress addr n :
  ResolveTCPAddr LocalAddress = Ok addr →
  (∀ lst l, ListenTCP addr = Ok lst → NoDup (SInner :: l) →
     ∃ n' s, (_ ← StartRpcServer LocalAddress; register_all l) n = (n', Ret tt) ∧
       n' = mkNodeServer (Some lst) (Some s) ∧ has_services (SInner :: l) s ∧
       (∀ c sq ty, c ∈ all_calls → cl_svc c ∈ SInner :: l → finds_method s c sq ty) ∧
       (∀ x, x ∈ SInner :: l → let e := "rpc: service already defined: " +:+ svc_name x in
          register_service x n' = (n', if decide (x = SProxy ∨ x = SInner) then Ret (Some e) else Panic (PanicVal e)))) ∧
  (∀ e, ListenTCP addr = Err e → nd_rpcServer n = None →
     ∃ n', StartRpcServer LocalAddress n = (n', Ret (Some e)) ∧ ∀ x, register_service x n' = (n', Panic NilDereference)).
Proof.
  intros Ha. split.
  - intros lst l Hl Hnd.
    destruct (register_all_run l (mkNodeServer (Some lst) (Some NewServer)) [SInner] NewServer eq_refl NewServer_has Hnd)
      as (s & E & Hs).
    exists (mkNodeServer (Some lst) (Some s)), s. split; [|split; [done|split; [done|split]]].
    + unfold StartRpcServer. rewrite Ha, Hl. unfold_prog. unfold modify. exact E.
    + intros c sq ty. by apply has_services_find.
    + intros x Hx. destruct Hs as [Hin _]. unfold register_service, Node_Register. unfold_prog.
      unfold get_state, of_outcome, modify. cbn [nd_rpcServer]. rewrite Register_svc, (Hin x Hx). by destruct x.
  - intros e Hl Hn. exists (mkNodeServer None None). split.
    + unfold StartRpcServer. rewrite Ha, Hl. unfold_prog. unfold modify. by rewrite Hn.
    + intros x. unfold register_service, Node_Register. unfold_prog. unfold get_state, of_outcome. cbn [nd_rpcServer].
      by rewrite Register_svc.
Qed.
End node_server.
Arguments NodeServer V L : clear implicits.

(** ** A master with a location server *)
Lemma node_services_witness :
  let ok (a : string) : result string string := Ok a in
  ∃ n' s, (_ ← StartRpcServer ok ok "127.0.0.1:6666"; register_all [SLauncher; SProxy; SMaster; SLocation])
      (mkNodeServer (V := nat) None None) = (n', Ret tt) ∧ nd_rpcServer n' = Some s ∧
    (∀ c, c ∈ all_calls → finds_method s c 1 0) ∧
    (register_service SMaster n').2 = Panic (PanicVal "rpc: service already defined: MasterService").
Proof.
  intros ok. destruct (node_services (V := nat) ok ok "127.0.0.1:6666" "127.0.0.1:6666" (mkNodeServer None None) eq_refl)
    as [H _].
  destruct (H "127.0.0.1:6666" [SLauncher; SProxy; SMaster; SLocation] eq_refl) as (n' & s & E & En & _ & Hf & Hd).
  - apply (bool_decide_unpack _). by vm_compute.
  - exists n', s. split; [exact E|]. split; [by rewrite En|]. split.
    + intros c Hc. apply Hf; [exact Hc|]. destruct (cl_svc c); repeat first [by left|right].
    + rewrite (Hd SMaster ltac:(by right; right; right; left)). reflexivity.
Defined.
