(* ===== verification/Awaken.v ===== *)
(** * happy: the components of a node wake up

    Awake of MasterComponent.go, LocationComponent.go, ChildComponent.go,
    DefaultGateComponent.go and SelectGateComponent.go, and Initialize of NodeComponent.go
    and ActorProxyComponent.go, as far as they concern other components: the node's
    component starts its server (Services) and its search for location servers (Node), the
    others look for it in the tree (Boot) and register their service on its server, and the
    gates start their own (NetStart), each with a goroutine that listens and ends the
    process when it cannot. What they do to their own state is in the files of the
    components. *)
From S2P Require Import Prelude Node.
From S2P Require Import GoList Iter EcsSystems EcsObject EcsTree EcsComponents Config Groups GroupsTree Launcher Boot.
From S2P Require Import RpcClient RpcServer Services NetPool NetServer NetStart.

Section awaken.
Context (part_of : cid → option part) (user_type : cid → rtype).
Context (user_unique : cid → option Z) (user_require : cid → option Requires).
Context (type_implements : rtype → rtype → bool).
Hypothesis user_concrete : ∀ c, is_interface (user_type c) = false.
Context {V L P : Type}.

(** The goroutines that listen: of a websocket handler and of the stateless gate. *)
Inductive listener := LWebSocket (addr : string) | LSelect (addr : string).
Definition listens_on (g : listener) : string := match g with LWebSocket a | LSelect a => a end.

(** The node: its objects, its RPC server, the network servers of the process, the rest of
    the node's component, the goroutines on their way to listen, and the addresses that
    are listened on. *)
Record running := mkRunning {
  rn_world : World; rn_rpc : NodeServer V L; rn_net : process (P := P); rn_node : Node.NodeComponent;
  rn_going : list listener; rn_bound : list string }.
Definition on_tree {A} (m : W A) : prog running A := λ s,
  let '(w, r) := m (rn_world s) in (mkRunning w (rn_rpc s) (rn_net s) (rn_node s) (rn_going s) (rn_bound s), r).
Definition on_rpc {A} (m : prog (NodeServer V L) A) : prog running A := λ s,
  let '(n, r) := m (rn_rpc s) in (mkRunning (rn_world s) n (rn_net s) (rn_node s) (rn_going s) (rn_bound s), r).
Definition on_node {A} (m : prog Node.NodeComponent A) : prog running A := λ s,
  let '(n, r) := m (rn_node s) in (mkRunning (rn_world s) (rn_rpc s) (rn_net s) n (rn_going s) (rn_bound s), r).
Definition start_listener (g : listener) : prog running unit := modify (λ s,
  mkRunning (rn_world s) (rn_rpc s) (rn_net s) (rn_node s) (rn_going s ++ [g]) (rn_bound s)).

(** [router.Run] in the [i]-th of these goroutines, up to where it serves: [free] is which
    addresses the operating system gives to the process. An error ends the process, by
    [log.Fatal] in the one handler and by a panic that nothing recovers in the other. *)
Definition router_Run (free : string → bool) (i : nat) : prog running unit := λ s,
  match rn_going s !! i with
  | None => (s, Stuck)
  | Some g =>
      if free (listens_on g) && bool_decide (listens_on g ∉ rn_bound s)
      then (mkRunning (rn_world s) (rn_rpc s) (rn_net s) (rn_node s) (delete i (rn_going s))
              (rn_bound s ++ [listens_on g]), Ret tt)
      else (s, Panic (PanicVal "listen: address already in use"))
  end.

(** An error is a value of Go's interface; what it holds is not looked at. *)
Definition ecs_panic (e : ecs_error) : panic := PanicVal "component not found".
Definition find_node_or_panic (o : oid) : prog running cid :=
  r ← on_tree (find_part type_implements PNode o);
  match r with Err e => panicking (ecs_panic e) | Ok c => mret c end.

(** The steps of each [Awake] that concern other components; [o] is the object of the
    component. *)
Definition Master_wakes (o : oid) : prog running unit :=
  _ ← find_node_or_panic o; _ ← on_rpc (register_service SMaster); mret tt.
Definition Location_wakes (o : oid) : prog running unit :=
  _ ← find_node_or_panic o; _ ← on_rpc (register_service SLocation); mret tt.
Definition Child_wakes (o : oid) : prog running unit := _ ← find_node_or_panic o; mret tt.
(** With [StartUp]; the router of [initServer] is Web's. *)
Definition SelectGate_wakes (o : oid) (c : ClusterConfig) : prog running unit :=
  _ ← find_node_or_panic o; start_listener (LSelect (SelectNetListenAddress c)).
(** [ActorProxyComponent.Initialize] hands its errors on; its object is the root. *)
Definition Proxy_Initialize (o : oid) : prog running (option string) :=
  r ← on_tree (find_part type_implements PNode o);
  match r with Err e => mret (Some "component not found") | Ok _ => on_rpc (register_service SProxy) end.

(** [DefaultGateComponent.Awake]: its server, known by [k]; [NetAPI] is the user's interface,
    by its [Init]. *)
Definition gate_conf (c : ClusterConfig) : ServerConf := mkConf "ws" true false (NetListenAddress c) true 1000 10000.
Definition Gate_wakes (o : oid) (NetAPI : option (oid → prog running unit)) (c : ClusterConfig) (k : positive)
    : prog running unit :=
  _ ← find_node_or_panic o;
  match NetAPI with
  | None => panicking (PanicVal "NetAPI is necessity of defaultGateComponent")
  | Some Init =>
    _ ← Init o;
    _ ← modify (λ s, mkRunning (rn_world s) (rn_rpc s)
           (mkProcess (globalPool (rn_net s)) (<[k := NewNetServer (gate_conf c)]> (servers (rn_net s)))) (rn_node s)
           (rn_going s) (rn_bound s));
    s ← get_state;
    net ← of_outcome (StartUp k (rn_net s));
    _ ← modify (λ s, mkRunning (rn_world s) (rn_rpc s) net (rn_node s) (rn_going s) (rn_bound s));
    start_listener (LWebSocket (cf_Address (gate_conf c)))
  end.

(** ** On a launched node *)
Context (config launcher node proxy : cid).
Context (config_part : part_of config = Some PConfig) (launcher_part : part_of launcher = Some PLauncher)
  (node_part : part_of node = Some PNode) (proxy_part : part_of proxy = Some PProxy).
Abbreviation launched := (launched_node part_of user_type config launcher node proxy).
(** The root, or an object of a group. *)
Definition in_node (w : World) (root o : oid) : Prop :=
  o = root ∨ ∃ y, w_objs w !! o = Some y ∧ obj_parent y = Some root.

Lemma find_node_run s root gs o :
  launched (rn_world s) root gs → in_node (rn_world s) root o → find_node_or_panic o s = (s, Ret node).
Proof.
  intros Hn Ho. unfold find_node_or_panic, on_tree. unfold_prog.
  rewrite (launched_find part_of user_type type_implements user_concrete config launcher node proxy config_part
    launcher_part node_part proxy_part (rn_world s) root gs o node PNode Hn Ho); [by destruct s|].
  right; right; left.
Qed.

(** The components that wake up in the first frames, with the objects they are in; the
    gates with the configuration, and that with an interface with its Init and its server. *)
Inductive waking :=
| WMaster (o : oid)
| WLocation (o : oid)
| WChild (o : oid)
| WSelectGate (o : oid) (c : ClusterConfig)
| WGate (o : oid) (Init : oid → prog running unit) (c : ClusterConfig) (k : positive).
Definition run_waking (a : waking) : prog running unit :=
  match a with
  | WMaster o => Master_wakes o
  | WLocation o => Location_wakes o
  | WChild o => Child_wakes o
  | WSelectGate o c => SelectGate_wakes o c
  | WGate o Init c k => Gate_wakes o (Some Init) c k
  end.
Definition waking_object (a : waking) : oid :=
  match a with WMaster o | WLocation o | WChild o | WSelectGate o _ | WGate o _ _ _ => o end.
Definition waking_services (a : waking) : list svc :=
  match a with WMaster _ => [SMaster] | WLocation _ => [SLocation] | _ => [] end.
Definition waking_server (a : waking) : list positive := match a with WGate _ _ _ k => [k] | _ => [] end.
Definition waking_listener (a : waking) : list listener :=
  match a with
  | WSelectGate _ c => [LSelect (SelectNetListenAddress c)]
  | WGate _ _ c _ => [LWebSocket (NetListenAddress c)]
  | _ => []
  end.
(** The interface of a gate sets up itself, not the node. *)
Definition waking_ok (a : waking) : Prop :=
  match a with WGate o Init _ _ => ∀ s, Init o s = (s, Ret tt) | _ => True end.

(** The node's component: [NodeComponent.Initialize], with the server it starts. *)
Definition Node_Initialize (c : ClusterConfig) {A} (ResolveTCPAddr : string → result string A)
    (ListenTCP : A → result string L) : prog running (option string) :=
  e ← on_rpc (StartRpcServer ResolveTCPAddr ListenTCP (LocalAddress c));
  on_node (Node.Initialize (AppName c) (IsLocationMode c) e).
(** [AddComponent] calls Initialize in [hCommon.Try], and does not look at its error. *)
Definition try_init {A} (m : prog running A) : prog running unit :=
  recovering (_ ← m; mret tt) (λ _, mret tt).

(** What Serve does with the root's components, when the master does not hold the node
    back. *)
Definition node_starts (c : ClusterConfig) {A} (ResolveTCPAddr : string → result string A)
    (ListenTCP : A → result string L) (root : oid) : prog running unit :=
  _ ← try_init (Node_Initialize c ResolveTCPAddr ListenTCP);
  _ ← on_rpc (register_service SLauncher);
  try_init (Proxy_Initialize root).

(** The first frames: the components that are still to wake up do so one after the other,
    while the goroutines they start come to listen. [None]: the process has ended. *)
Inductive frames_step (free : string → bool) : list waking * running → option (list waking * running) → Prop :=
| step_wakes a l s s' : run_waking a s = (s', Ret tt) → frames_step free (a :: l, s) (Some (l, s'))
| step_wake_panics a l s s' p : run_waking a s = (s', Panic p) → frames_step free (a :: l, s) None
| step_listens i l s s' : router_Run free i s = (s', Ret tt) → frames_step free (l, s) (Some (l, s'))
| step_listen_fails i l s s' p : router_Run free i s = (s', Panic p) → frames_step free (l, s) None.
Definition frames (free : string → bool) (x y : list waking * running) : Prop := frames_step free x (Some y).
(** The node's component afterwards: in location mode it searches for location servers;
    without it, Initialize has panicked at the search that there is none of. *)
Definition node_initial : Node.NodeComponent := Node.mkNode "" false false None false 0.
Definition node_after (c : ClusterConfig) : Node.NodeComponent :=
  Node.mkNode (AppName c) false (IsLocationMode c) None (IsLocationMode c) (if IsLocationMode c then 1 else 0).

(** A node with the services of [l] and the network servers [ks] up. *)
Record awake_node (root : oid) (gs : list ComponentGroup) (l : list svc) (ks : list positive) (s : running) : Prop := {
  aw_tree : launched (rn_world s) root gs;
  aw_services : ∃ sv, nd_rpcServer (rn_rpc s) = Some sv ∧ has_services l sv;
  aw_servers k : k ∈ ks → ∃ c, servers (rn_net s) !! k = Some (mkServer (gate_conf c) (Some WebSocketHandler) false PUp);
  aw_pool : ks ≠ [] → is_Some (globalPool (rn_net s)) }.

Lemma register_service_run x l s sv :
  nd_rpcServer (rn_rpc s) = Some sv → has_services l sv → x ∉ l →
  ∃ sv', has_services (l ++ [x]) sv' ∧
    on_rpc (register_service x) s = (mkRunning (rn_world s) (mkNodeServer (nd_serverListener (rn_rpc s)) (Some sv')) (rn_net s) (rn_node s)
      (rn_going s) (rn_bound s), Ret None).
Proof.
  intros Hs Hl Hx. destruct (has_services_register x l sv Hl Hx) as (sv' & E & Hl'). exists sv'. split; [done|].
  unfold on_rpc, register_service, Node_Register. unfold_prog. unfold get_state, of_outcome, modify. rewrite Hs, E.
  by destruct x.
Qed.

Lemma Node_Initialize_run (c : ClusterConfig) {A} (ResolveTCPAddr : string → result string A) (ListenTCP : A → result string L)
    addr lst w net :
  ResolveTCPAddr (LocalAddress c) = Ok addr → ListenTCP addr = Ok lst →
  try_init (Node_Initialize c ResolveTCPAddr ListenTCP) (mkRunning w (mkNodeServer None None) net node_initial [] []) =
    (mkRunning w (mkNodeServer (Some lst) (Some NewServer)) net (node_after c) [] [], Ret tt).
Proof.
  intros Ha Hlst. unfold try_init, recovering, Node_Initialize, on_rpc, on_node, StartRpcServer, Node.Initialize,
    InitLocationServerGetter, locationGetter, node_after.
  unfold_prog. unfold modify, get_state. cbn. rewrite Ha, Hlst. cbn. by destruct (IsLocationMode c).
Qed.
Lemma StartUp_gate c k (w : process (P := P)) :
  servers w !! k = Some (NewNetServer (gate_conf c)) →
  StartUp k w = Ret (mkProcess (Some (default (NewPool 1000 10000) (globalPool w)))
    (<[k := mkServer (gate_conf c) (Some WebSocketHandler) false PUp]> (servers w))).
Proof. intros Hk. unfold StartUp. rewrite Hk. by destruct (globalPool w). Qed.

Lemma waking_run root gs l ks a s :
  awake_node root gs l ks s → in_node (rn_world s) root (waking_object a) → waking_ok a → NoDup (l ++ waking_services a) →
  ∃ s', run_waking a s = (s', Ret tt) ∧ rn_world s' = rn_world s ∧ rn_node s' = rn_node s ∧
    rn_going s' = rn_going s ++ waking_listener a ∧ rn_bound s' = rn_bound s ∧
    awake_node root gs (l ++ waking_services a) (ks ++ waking_server a) s'.
Proof.
  intros [Ht (sv & Hsv & Hl) Hk Hp] Ho Hok Hnd. pose proof (find_node_run s root gs _ Ht Ho) as Ef.
  destruct a as [o|o|o|o c|o Init c k]; simpl in *; rewrite ?app_nil_r in *;
    unfold Master_wakes, Location_wakes, Child_wakes, SelectGate_wakes, Gate_wakes; rewrite (bind_Ret _ _ _ _ _ Ef).
  1,2: apply NoDup_app in Hnd as (_ & Hd & _);
       match goal with |- context [on_rpc (register_service ?x)] =>
         destruct (register_service_run x l s sv Hsv Hl) as (sv' & Hl' & E);
         [intros Hin; apply (Hd x Hin); by left|] end;
       rewrite (bind_Ret _ _ _ _ _ E); eexists; (split; [reflexivity|]); cbn [rn_going rn_bound];
       rewrite ?app_nil_r; do 4 (split; [done|]); split; try done; by exists sv'.
  1: exists s; do 5 (split; [done|]); split; eauto.
  1: eexists; (split; [reflexivity|]); do 4 (split; [done|]); split; eauto.
  set (w1 := mkProcess (globalPool (rn_net s)) (<[k := NewNetServer (gate_conf c)]> (servers (rn_net s)))).
  assert (servers w1 !! k = Some (NewNetServer (gate_conf c))) as Hk1 by apply lookup_insert_eq.
  eexists. split.
  - rewrite (bind_Ret _ _ _ _ _ (Hok s)). unfold_prog. unfold modify, get_state, of_outcome. cbn [rn_net]. fold w1.
    rewrite (StartUp_gate c k w1 Hk1). reflexivity.
  - do 4 (split; [done|]). split; [done|by exists sv| |by eexists]. simpl. intros j Hj. rewrite insert_insert_eq.
    destruct (decide (j = k)) as [->|Hne]; [exists c; by rewrite lookup_insert_eq|].
    rewrite lookup_insert_ne by done. apply elem_of_app in Hj as [Hj|Hj%list_elem_of_singleton]; [by apply Hk|done].
Qed.

(** *** The first frames *)
Definition waking_addresses (l : list waking) : list string := listens_on <$> (l ≫= waking_listener).
Definition left_to_do (x : list waking * running) : nat := 2 * length x.1 + length (rn_going x.2).

(** Some of [all] have woken up, and those that listen or are about to are theirs. *)
Record coming_up (root : oid) (gs : list ComponentGroup) (l0 : list svc) (all : list waking) (w : World)
    (nd : Node.NodeComponent) (x : list waking * running) : Prop := {
  cu_woken : ∃ l1, all = l1 ++ x.1 ∧ awake_node root gs (l0 ++ (l1 ≫= waking_services)) (l1 ≫= waking_server) x.2 ∧
    (listens_on <$> rn_going x.2) ++ rn_bound x.2 ≡ₚ waking_addresses l1;
  cu_world : rn_world x.2 = w;
  cu_node : rn_node x.2 = nd }.

Section frames.
Context (free : string → bool) (root : oid) (gs : list ComponentGroup) (l0 : list svc) (all : list waking) (w : World)
  (nd : Node.NodeComponent).
Hypothesis objects : Forall (λ a, in_node w root (waking_object a)) all.
Hypothesis interfaces : Forall waking_ok all.
Hypothesis services_once : NoDup (l0 ++ (all ≫= waking_services)).
Hypothesis addresses_once : NoDup (waking_addresses all).
Hypothesis addresses_free : ∀ a, a ∈ waking_addresses all → free a = true.

Lemma next_wakes a l s : coming_up root gs l0 all w nd (a :: l, s) →
  ∃ s', run_waking a s = (s', Ret tt) ∧ coming_up root gs l0 all w nd (l, s') ∧ left_to_do (l, s') < left_to_do (a :: l, s).
Proof.
  intros [(l1 & Eall & Haw & Hperm) Hw Hnd]. simpl in *.
  assert (a ∈ all) as Ha by (rewrite Eall, elem_of_app; right; left).
  rewrite Forall_forall in objects, interfaces.
  destruct (waking_run root gs _ _ a s Haw) as (s' & E & Ew & En & Eg & Eb & Haw'); [rewrite Hw; by apply objects|by apply interfaces| |].
  { rewrite Eall, bind_app, bind_cons, !app_assoc in services_once. by apply NoDup_app in services_once as [? _]. }
  exists s'. split; [done|]. split.
  - split; simpl; [|congruence|congruence]. exists (l1 ++ [a]). rewrite <- app_assoc. split; [done|].
    unfold waking_addresses. rewrite !bind_app, bind_singleton, bind_singleton, bind_singleton, app_assoc. split; [done|].
    rewrite Eg, Eb, !fmap_app, <- Hperm. solve_Permutation.
  - unfold left_to_do. simpl. rewrite Eg, length_app. destruct a; simpl; lia.
Qed.

Lemma next_listens i g l s : coming_up root gs l0 all w nd (l, s) → rn_going s !! i = Some g →
  ∃ s', router_Run free i s = (s', Ret tt) ∧ coming_up root gs l0 all w nd (l, s') ∧ left_to_do (l, s') < left_to_do (l, s).
Proof.
  intros [(l1 & Eall & [At As Ak Ap] & Hperm) Hw Hnd] Hi. simpl in *.
  assert (rn_going s ≡ₚ g :: delete i (rn_going s)) as Hdel by by apply delete_Permutation.
  assert (waking_addresses all = waking_addresses l1 ++ waking_addresses l) as Eadd
    by (unfold waking_addresses; by rewrite Eall, bind_app, fmap_app).
  assert (listens_on g ∈ waking_addresses l1) as Hg.
  { rewrite <- Hperm, Hdel. left. }
  assert (NoDup ((listens_on <$> rn_going s) ++ rn_bound s)) as Hnodup.
  { rewrite Hperm. rewrite Eadd in addresses_once. by apply NoDup_app in addresses_once as [? _]. }
  unfold router_Run. rewrite Hi, addresses_free by (rewrite Eadd, elem_of_app; by left).
  rewrite bool_decide_true.
  2: { rewrite Hdel in Hnodup. simpl in Hnodup. apply NoDup_cons in Hnodup as [Hn _]. set_solver. }
  eexists. split; [done|]. split.
  - split; simpl; [|done|done]. exists l1. split; [done|]. split; [by split|]. rewrite <- Hperm.
    rewrite Hdel at 2. simpl. solve_Permutation.
  - unfold left_to_do. simpl. pose proof (Permutation_length Hdel). simpl in *. lia.
Qed.

Lemma frames_step_ok x o : coming_up root gs l0 all w nd x → frames_step free x o →
  ∃ y, o = Some y ∧ coming_up root gs l0 all w nd y ∧ left_to_do y < left_to_do x.
Proof.
  intros Hx Hs. destruct Hs as [a l s s' E|a l s s' p E|i l s s' E|i l s s' p E].
  1,2: destruct (next_wakes a l s Hx) as (s2 & E2 & ? & ?); rewrite E in E2; simplify_eq; by eexists.
  all: destruct (rn_going s !! i) as [g|] eqn:Ei; [|unfold router_Run in E; by rewrite Ei in E];
    destruct (next_listens i g l s Hx Ei) as (s2 & E2 & ? & ?); rewrite E in E2; simplify_eq; by eexists.
Qed.
Lemma frames_ok x y : coming_up root gs l0 all w nd x → rtc (frames free) x y → coming_up root gs l0 all w nd y.
Proof.
  intros Hx. apply (rtc_preserves (frames free)); [|done]. intros x1 x2 H1 Hs.
  destruct (frames_step_ok x1 _ H1 Hs) as (y' & [= ->] & ? & _). done.
Qed.
Lemma frames_end n x y : coming_up root gs l0 all w nd x → nsteps (frames free) n x y → n ≤ left_to_do x.
Proof.
  intros Hx Hn. revert Hx. induction Hn as [x|n x x1 y Hs _ IH]; intros Hx; [lia|].
  destruct (frames_step_ok x _ Hx Hs) as (x2 & [= ->] & H2 & Hlt). specialize (IH H2). lia.
Qed.
Lemma frames_go_on x : coming_up root gs l0 all w nd x → x.1 = [] ∧ rn_going x.2 = [] ∨ ∃ y, frames free x y.
Proof.
  intros Hx. destruct x as [[|a l] s].
  - destruct (rn_going s) as [|g gsl] eqn:Eg; [by left|right].
    destruct (next_listens 0 g [] s Hx) as (s' & E & _); [by rewrite Eg|]. exists ([], s'). by eapply step_listens.
  - right. destruct (next_wakes a l s Hx) as (s' & E & _). exists (l, s'). by eapply step_wakes.
Qed.
Lemma frames_finish x : coming_up root gs l0 all w nd x → ∃ s, rtc (frames free) x ([], s) ∧ rn_going s = [].
Proof.
  remember (left_to_do x) as n eqn:En. revert x En. induction (lt_wf n) as [n _ IH]. intros x -> Hx.
  destruct (frames_go_on x Hx) as [[E1 E2]|[y Hy]].
  - destruct x as [l s]. simpl in *. subst l. exists s. by split; [apply rtc_refl|].
  - destruct (frames_step_ok x _ Hx Hy) as (y' & [= <-] & Hy' & Hlt).
    destruct (IH _ Hlt y eq_refl Hy') as (s & Hr & Hg). exists s. split; [|done]. by eapply rtc_l.
Qed.
End frames.

Lemma services_distinct l : NoDup (l ≫= waking_services) → NoDup ([SInner; SLauncher; SProxy] ++ (l ≫= waking_services)).
Proof.
  intros Hnd. apply NoDup_app. split; [apply (bool_decide_unpack _); by vm_compute|]. split; [|done].
  intros x Hx (a & Hxa & _)%list_elem_of_bind. rewrite !elem_of_cons, elem_of_nil in Hx.
  destruct a; simpl in Hxa; rewrite ?elem_of_nil, ?list_elem_of_singleton in Hxa; subst; by destruct_or! Hx.
Qed.

Context (implements : iface → cid → bool) (uuid : string → string) (master child location modle : cid).
Abbreviation the_launch := (launch part_of user_type user_unique user_require implements type_implements uuid
  config launcher node proxy master child location modle).

(** C13: a node that is launched on an address that is free comes up: from nothing, its tree
    is put together, its RPC server is started, and the search for location servers begins
    in location mode (without it Initialize panics, which is recovered, after the server has
    been started). Then the framework's components wake up, in whatever order and however
    the goroutines that listen for the gates run meanwhile: as long as no two masters or
    location servers are among them, the addresses of the gates are free and different, and
    the interfaces of the gates leave the node alone, the process is never ended and, after
    at most two steps for each component, the tree is as it was launched, the server has the
    services of the components that woke up and those only, every call that the framework
    makes to one of them resolves to a method of the types it sends and expects, and exactly
    the gates' addresses are listened on, over the one pool. A gate whose address is not
    free, or that of another, ends the process; one more master in the node panics when it
    wakes up, and so does a gate that was given no interface. *)
Theorem node_comes_up order c g roles groups {A} (ResolveTCPAddr : string → result string A)
    (ListenTCP : A → result string L) addr lst net free :
  serve_roles master child location modle order c g = (roles, groups) →
  let gs := omap (groups !!.) (group_names roles) in
  Forall (λ g, content_ok part_of user_require (cg_content g)) gs →
  no_clash part_of user_type user_unique (gs ≫= cg_content) →
  ResolveTCPAddr (LocalAddress c) = Ok addr → ListenTCP addr = Ok lst →
  ∃ w root s0, the_launch order c g World_Init = (w, Ret root) ∧ launched w root gs ∧
    node_starts c ResolveTCPAddr ListenTCP root (mkRunning w (mkNodeServer None None) net node_initial [] []) = (s0, Ret tt) ∧
    (∀ l, Forall (λ a, in_node w root (waking_object a)) l → Forall waking_ok l → NoDup (l ≫= waking_services) →
      NoDup (waking_addresses l) → (∀ a, a ∈ waking_addresses l → free a = true) →
      let services := [SInner; SLauncher; SProxy] ++ (l ≫= waking_services) in
      (∀ n x, nsteps (frames free) n (l, s0) x → n ≤ 2 * length l ∧ ¬ frames_step free x None) ∧
      (∃ s, rtc (frames free) (l, s0) ([], s) ∧ rn_going s = []) ∧
      (∀ l' s, rtc (frames free) (l, s0) (l', s) →
        (∃ y, frames free (l', s) y) ∨
        l' = [] ∧ rn_going s = [] ∧ rn_world s = w ∧ rn_node s = node_after c ∧ awake_node root gs services (l ≫= waking_server) s ∧
        rn_bound s ≡ₚ waking_addresses l ∧
        (∀ sv k sq ty, nd_rpcServer (rn_rpc s) = Some sv → k ∈ all_calls → cl_svc k ∈ services → finds_method sv k sq ty) ∧
        (∀ o, in_node w root o → SMaster ∈ services →
           Master_wakes o s = (s, Panic (PanicVal "rpc: service already defined: MasterService"))) ∧
        (∀ o k, in_node w root o →
           Gate_wakes o None c k s = (s, Panic (PanicVal "NetAPI is necessity of defaultGateComponent"))))) ∧
    (∀ l s i x, rn_going s !! i = Some x → free (listens_on x) = false ∨ listens_on x ∈ rn_bound s →
       frames_step free (l, s) None).
Proof.
  intros Es gs Hok Hclash Ha Hlst.
  destruct (launch_run part_of user_type user_unique user_require implements type_implements uuid user_concrete config launcher
    node proxy master child location modle config_part launcher_part node_part proxy_part order c g roles groups Es Hok Hclash)
    as (w & root & E & Hn & _).
  set (st sv := mkRunning w (mkNodeServer (Some lst) (Some sv)) net (node_after c) [] [] : running).
  assert (try_init (Node_Initialize c ResolveTCPAddr ListenTCP) (mkRunning w (mkNodeServer None None) net node_initial [] []) =
    (st NewServer, Ret tt)) as E0 by (by apply Node_Initialize_run with addr).
  destruct (register_service_run SLauncher [SInner] (st NewServer) NewServer eq_refl NewServer_has) as (sv1 & H1 & E1).
  { by intros ?%list_elem_of_singleton. }
  destruct (register_service_run SProxy [SInner; SLauncher] (st sv1) sv1 eq_refl H1) as (sv2 & H2 & E2).
  { apply (bool_decide_unpack _). by vm_compute. }
  assert (try_init (Proxy_Initialize root) (st sv1) = (st sv2, Ret tt)) as Ep.
  { unfold try_init, recovering. erewrite bind_Ret; [reflexivity|]. unfold Proxy_Initialize, on_tree. unfold_prog. change (rn_world (st sv1)) with w.
    rewrite (launched_find part_of user_type type_implements user_concrete config launcher node proxy config_part
      launcher_part node_part proxy_part w root gs root node PNode Hn); [exact E2|by left|right; right; left]. }
  exists w, root, (st sv2). split; [exact E|]. split; [exact Hn|]. split; [|split].
  - unfold node_starts. rewrite (bind_Ret _ _ _ _ _ E0), (bind_Ret _ _ _ _ _ E1). exact Ep.
  - intros l Hl Hwok Hnd Haddr Hfree services. apply services_distinct in Hnd.
    assert (coming_up root gs [SInner; SLauncher; SProxy] l w (node_after c) (l, st sv2)) as H0.
    { split; [|done|done]. exists []. split; [done|]. split; [|done].
      split; [exact Hn|exists sv2; split; [reflexivity|exact H2]| |intros Hne; destruct (Hne eq_refl)].
      intros k Hk. destruct (proj1 (elem_of_nil k) Hk). }
    pose proof (λ y, frames_ok free root gs _ l w (node_after c) Hl Hwok Hnd Haddr Hfree (l, st sv2) y H0) as Hreach. split; [|split].
    + intros n x Hx. split.
      * pose proof (frames_end free root gs _ l w (node_after c) Hl Hwok Hnd Haddr Hfree n _ x H0 Hx) as Hlen.
        unfold left_to_do in Hlen. simpl in Hlen. lia.
      * intros Hs. assert (rtc (frames free) (l, st sv2) x) as Hr by (apply rtc_nsteps; eauto).
        by destruct (frames_step_ok free root gs _ l w (node_after c) Hl Hwok Hnd Haddr Hfree x None (Hreach x Hr) Hs) as (y & ? & _).
    + by eapply (frames_finish free root gs _ l w (node_after c)).
    + intros l' s Hr. pose proof (Hreach _ Hr) as Hs.
      destruct (frames_go_on free root gs _ l w (node_after c) Hl Hwok Hnd Haddr Hfree (l', s) Hs) as [[El Eg]|?]; [right|by left].
      destruct Hs as [(l1 & Eall & Haw & Hperm) Eq En]. simpl in *. subst l'. rewrite app_nil_r in Eall. subst l1.
      rewrite Eg in Hperm. pose proof Haw as [Ht (sv & Hsv & Hsvc) _ _].
      do 6 (split; [done|]). split; [|split].
      * intros sv' k sq ty Hsv' Hk Hin. rewrite Hsv in Hsv'. injection Hsv' as <-. by eapply has_services_find.
      * intros o Ho Hin. unfold Master_wakes. rewrite (bind_Ret _ _ s s node) by (eapply find_node_run; [exact Ht|by rewrite Eq]).
        destruct Hsvc as [Hhas _]. unfold on_rpc, register_service, Node_Register. unfold_prog.
        unfold get_state, of_outcome, modify. rewrite Hsv, Register_svc, (Hhas _ Hin). destruct s as [? [] ? ?]; simpl in *. by subst.
      * intros o k Ho. unfold Gate_wakes. by rewrite (bind_Ret _ _ s s node) by (eapply find_node_run; [exact Ht|by rewrite Eq]).
  - intros l s i x Hi Hbad. eapply (step_listen_fails free i l s s). unfold router_Run. rewrite Hi.
    destruct Hbad as [-> |Hin]; [done|]. rewrite bool_decide_false by tauto. by rewrite andb_false_r.
Qed.
End awaken.

(** ** A node in single mode

    A master and a gate; and two gates on the one address. *)
Definition a_gate (og : oid) : waking (V := nat) (L := string) (P := unit) := WGate og (λ _, mret tt) default_cluster 1.
Lemma node_comes_up_witness :
  let ok (a : string) : result string string := Ok a in
  let everywhere (a : string) : bool := true in
  ∃ w root om og s0 s, launch example_parts (λ _, room) (λ _, None) (λ _, None) Example.implements Example.type_implements
      (λ n, n) 1 2 3 4 5 6 7 8 ["gate"; "child"; "master"] default_cluster game_groups World_Init = (w, Ret root) ∧
    node_starts Example.type_implements default_cluster ok ok root
      (mkRunning w (mkNodeServer (V := nat) None None) (mkProcess (P := unit) None ∅) node_initial [] []) = (s0, Ret tt) ∧
    rtc (frames Example.type_implements everywhere) ([WMaster om; a_gate og], s0) ([], s) ∧
    rn_bound s ≡ₚ [NetListenAddress default_cluster] ∧
    (∃ sv, nd_rpcServer (rn_rpc s) = Some sv ∧ ∀ k, k ∈ Child_calls → finds_method sv k 1 0) ∧
    Master_wakes Example.type_implements om s = (s, Panic (PanicVal "rpc: service already defined: MasterService")) ∧
    frames_step Example.type_implements everywhere ([], mkRunning w (rn_rpc s) (rn_net s) (rn_node s)
      [LSelect (NetListenAddress default_cluster)] (rn_bound s)) None.
Proof.
  intros ok everywhere. set (S := serve_roles 5 6 7 8 ["gate"; "child"; "master"] default_cluster game_groups).
  set (gs := [mkGroup "gate" [9; 10]; mkGroup "child" [6]; mkGroup "master" [5]; mkGroup "modle" [8]]%positive).
  assert (omap (S.2 !!.) (group_names S.1) = gs) as Egs by by vm_compute.
  destruct (node_comes_up (V := nat) (P := unit) example_parts (λ _, room) (λ _, None) (λ _, None) Example.type_implements
    (λ _, eq_refl) 1 2 3 4 eq_refl eq_refl eq_refl eq_refl Example.implements (λ n, n) 5 6 7 8 ["gate"; "child"; "master"]
    default_cluster game_groups S.1 S.2 ok ok (LocalAddress default_cluster) (LocalAddress default_cluster) (mkProcess None ∅)
    everywhere (surjective_pairing S)) as (w & root & s0 & E & (_ & _ & x & _ & _ & _ & _ & Hc) & E0 & Hup & Hfail); [rewrite Egs..| | |].
  - repeat constructor.
  - apply NoDup_no_clash. apply (bool_decide_unpack _). by vm_compute.
  - exact eq_refl.
  - exact eq_refl.
  - rewrite Egs in Hc. apply Forall2_cons_inv_r in Hc as (og & l1 & (yg & Hyg & _ & Hpg & _) & Hc & _).
    apply Forall2_cons_inv_r in Hc as (oc & l2 & _ & Hc & _).
    apply Forall2_cons_inv_r in Hc as (om & l3 & (ym & Hym & _ & Hpm & _) & _ & _).
    destruct (Hup [WMaster om; a_gate og]) as (_ & (s & Hr & Hg) & Hend).
    + constructor; [right; exists ym; exact (conj Hym Hpm)|]. constructor; [right; exists yg; exact (conj Hyg Hpg)|constructor].
    + repeat constructor.
    + apply (bool_decide_unpack _). by vm_compute.
    + apply NoDup_singleton.
    + intros a _. reflexivity.
    + destruct (Hend [] s Hr) as [[y Hy]|(_ & _ & _ & _ & [_ (sv & Hsv & _) _ _] & Hb & Hcalls & Hm & _)].
      { inversion Hy as [| |i l s1 s2 Hs|]. subst. unfold router_Run in Hs. rewrite Hg in Hs. discriminate Hs. }
      exists w, root, om, og, s0, s. split; [exact E|]. split; [exact E0|]. split; [exact Hr|]. split; [exact Hb|]. split; [|split].
      * exists sv. split; [exact Hsv|]. intros k Hk. apply (Hcalls sv k 1%Z 0%Z Hsv).
        -- do 4 (apply elem_of_app; right). apply elem_of_app. left. exact Hk.
        -- assert (Forall (λ k, cl_svc k = SMaster) Child_calls) as Hms by repeat constructor.
           rewrite Forall_forall in Hms. rewrite (Hms k Hk). right; right; right; left.
      * apply Hm; [right; exists ym; exact (conj Hym Hpm)|right; right; right; left].
      * eapply (Hfail [] _ 0); [reflexivity|]. right. simpl. rewrite Hb. left.
Defined.
