(* ===== verification/RpcConn.v ===== *)
(** * hRpc: the deadline of a server's connection (hRpc/server.go)

    ServeConn gives a connection a deadline and pushes it back whenever a request has been
    handed to a method (IOCallback, UpdateConnTimeout); a read that waits beyond it fails,
    which ends the loop of ServeCodec. This is that loop of one connection over time,
    while the server goes on with its other steps. *)
From S2P Require Import Prelude GoString GoReflect RpcClient RpcServer.

Section conn.
Context {V : Type}.
(** The settings, and the connection. *)
Context (DebugMode : bool) (Timeout : Z) (c : positive).

(** How the loop ended: the deadline, or what the other side sent or did. *)
Inductive ended := ByDeadline | ByPeer (e : string).

(** Beside the server: the clock, the deadline, how the loop ended, and for the statements
    what each turn of the loop read and when, the latest first. *)
Record served_conn := mkServedConn {
  sv_server : Server V; now : Z; deadline : option Z; loop_end : option ended;
  reads : list (Z * read_result (V := V)) }.

(** [UpdateConnTimeout] *)
Definition UpdateConnTimeout (s : served_conn) : served_conn :=
  mkServedConn (sv_server s) (now s)
    (if negb DebugMode && negb (bool_decide (Timeout = 0%Z)) then Some (now s + Timeout)%Z else deadline s)
    (loop_end s) (reads s).
(** [ServeConn], up to the loop. *)
Definition ServeConn (sv : Server V) (t0 : Z) : served_conn := UpdateConnTimeout (mkServedConn sv t0 None None []).

(** One turn of the loop of [ServeCodec] with what was read. *)
Definition turn (header : result string Request) (body : result string V) (s : served_conn) : served_conn :=
  let s' := mkServedConn (serve c header body (sv_server s)) (now s) (deadline s) (loop_end s) (reads s) in
  match readRequest (serviceMap (sv_server s)) header body with
  | RStop => mkServedConn (sv_server s') (now s) (deadline s) (Some (ByPeer (match header with Err e => e | Ok _ => "" end)))
               (reads s)
  | RError _ _ => s'
  | RCall _ _ _ => UpdateConnTimeout s'
  end.
Definition before_deadline (s : served_conn) : Prop := match deadline s with Some d => (now s < d)%Z | None => True end.
Definition ErrDeadline : string := "i/o timeout".

(** The record of a turn, written beside the code's own state. *)
Definition note (header : result string Request) (body : result string V) (s s' : served_conn) : served_conn :=
  mkServedConn (sv_server s') (now s') (deadline s') (loop_end s')
    ((now s, readRequest (serviceMap (sv_server s)) header body) :: reads s).

Inductive conn_step : served_conn → served_conn → Prop :=
| conn_time s t : (now s ≤ t)%Z → conn_step s (mkServedConn (sv_server s) t (deadline s) (loop_end s) (reads s))
| conn_turn s header body : loop_end s = None → before_deadline s →
    conn_step s (note header body s (turn header body s))
| conn_deadline s body : loop_end s = None → ¬ before_deadline s →
    conn_step s (mkServedConn (serve c (Err ErrDeadline) body (sv_server s)) (now s) (deadline s) (Some ByDeadline) (reads s))
| conn_other s l sv : server_step l (sv_server s) sv →
    conn_step s (mkServedConn sv (now s) (deadline s) (loop_end s) (reads s)).

(** ** The invariant *)
(** When a request was handed to its method, and before all when the connection was
    accepted: the latest first. A request that is refused is not handed over. *)
Definition handed (t0 : Z) (l : list (Z * read_result (V := V))) : list Z :=
  omap (λ r, match r.2 with RCall _ _ _ => Some r.1 | _ => None end) l ++ [t0].

(** Less than a time-out between one time and the one before. *)
Fixpoint within (l : list Z) : Prop :=
  match l with
  | t :: (t' :: _) as l' => (t' ≤ t < t' + Timeout)%Z ∧ within l'
  | _ => True
  end.
Definition times_out : bool := negb DebugMode && negb (bool_decide (Timeout = 0%Z)).

Record conn_ok (t0 : Z) (s : served_conn) : Prop := {
  co_past t : head (handed t0 (reads s)) = Some t → (t ≤ now s)%Z;
  co_deadline : deadline s = if times_out then (λ t, (t + Timeout)%Z) <$> head (handed t0 (reads s)) else None;
  co_within : times_out = true → within (handed t0 (reads s));
  co_end t : loop_end s = Some ByDeadline → head (handed t0 (reads s)) = Some t →
    times_out = true ∧ (t + Timeout ≤ now s)%Z }.

Lemma handed_cons t0 l : ∃ t ts, handed t0 l = t :: ts.
Proof. unfold handed. destruct (omap _ l) as [|t ts]; simpl; eauto. Qed.

Lemma ServeConn_ok sv t0 : conn_ok t0 (ServeConn sv t0).
Proof. unfold ServeConn, UpdateConnTimeout. fold times_out. split; simpl; try done; intros t [= <-]; lia. Qed.

Lemma conn_ok_server t0 s sv e l :
  conn_ok t0 s → e ≠ Some ByDeadline → handed t0 l = handed t0 (reads s) →
  conn_ok t0 (mkServedConn sv (now s) (deadline s) e l).
Proof.
  intros [Hp Hd Hw He] Hne Hl.
  split; cbn [now deadline loop_end reads]; rewrite ?Hl; done.
Qed.

Lemma conn_step_ok t0 s s' : conn_ok t0 s → conn_step s s' → conn_ok t0 s'.
Proof.
  intros Hok. destruct 1 as [s t Ht|s header body Hl Hb|s body Hl Hb|s l sv _].
  - destruct Hok as [Hp Hd Hw He]. split; cbn; [|done|done|].
    + intros t' Hx. specialize (Hp t' Hx). lia.
    + intros t' Hx Ht'. destruct (He t' Hx Ht'). split; [done|lia].
  - unfold turn, note. destruct (readRequest _ header body) as [|req e|req mt argv]; cbn;
      [apply conn_ok_server; by rewrite ?Hl..|].
    unfold UpdateConnTimeout. fold times_out. destruct Hok as [Hp Hd Hw He].
    destruct (handed_cons t0 (reads s)) as (t & ts & Ex). rewrite Ex in *. specialize (Hp t eq_refl).
    assert (∀ r, handed t0 ((now s, RCall req mt argv) :: r) = now s :: handed t0 r) as Ec by done.
    split; cbn [now deadline loop_end reads]; rewrite Ec, Ex; cbn [head]; [intros ? [= <-]; lia| | |by rewrite Hl].
    + by destruct times_out.
    + intros Ht. rewrite Ht in Hd. unfold before_deadline in Hb. rewrite Hd in Hb. cbn in Hb.
      split; [lia|]. by apply Hw.
  - destruct Hok as [Hp Hd Hw He]. split; cbn [now deadline loop_end reads]; try done.
    intros t _ Hx. unfold before_deadline in Hb.
    rewrite Hd in Hb. destruct times_out; [|done]. rewrite Hx in Hb. cbn in Hb. split; [done|lia].
  - destruct Hok as [Hp Hd Hw He]. by split.
Qed.

Lemma conn_reachable sv t0 s : rtc conn_step (ServeConn sv t0) s → conn_ok t0 s.
Proof.
  intros Hr. refine (rtc_preserves conn_step (conn_ok t0) _ _ _ (ServeConn_ok sv t0) Hr). intros x y. apply conn_step_ok.
Qed.

(** C26: the deadline of a connection is at every time exactly a time-out after the latest
    moment at which it was accepted or one of its requests was handed to a method; requests
    that are refused do not count. Two such moments are less than a time-out apart, and the
    server ends the connection by its deadline only when a whole time-out has passed since
    the latest. In debug mode, or without a time-out, it never does. *)
Theorem deadline_kept sv t0 s :
  rtc conn_step (ServeConn sv t0) s →
  ∃ t earlier, handed t0 (reads s) = t :: earlier ∧ (t ≤ now s)%Z ∧
    deadline s = (if times_out then Some (t + Timeout)%Z else None) ∧
    (times_out = true → within (t :: earlier)) ∧
    (loop_end s = Some ByDeadline → times_out = true ∧ (t + Timeout ≤ now s)%Z).
Proof.
  intros [Hp Hd Hw He]%conn_reachable. destruct (handed_cons t0 (reads s)) as (t & ts & Ex).
  rewrite Ex in *. exists t, ts. split; [done|]. split; [by apply Hp|]. split; [done|].
  split; [done|]. intros Hx. by apply He.
Qed.

(** *** Heartbeats *)
Lemma register_keeps_services r name useName (sv sv' : Server V) e n svc :
  register r name useName sv = Ret (sv', e) → serviceMap sv !! n = Some svc → serviceMap sv' !! n = Some svc.
Proof.
  intros E Hn. destruct e as [e|].
  - by rewrite (register_refused _ _ _ _ _ _ E).
  - destruct (register_run _ _ _ _ _ E) as (methods & _ & Hfree & ->). cbn. rewrite lookup_insert_ne; [done|congruence].
Qed.
Lemma serve_keeps_services c' header body (sv : Server V) : serviceMap (serve c' header body sv) = serviceMap sv.
Proof.
  unfold serve. destruct (getRequest sv) as [r sv1] eqn:E. unfold getRequest in E.
  assert (serviceMap sv1 = serviceMap sv) as <- by (by destruct (freeReq sv); simplify_eq).
  by destruct (readRequest _ header body).
Qed.
Lemma server_step_services l (sv sv' : Server V) n svc :
  server_step l sv sv' → serviceMap sv !! n = Some svc → serviceMap sv' !! n = Some svc.
Proof.
  destruct 1; rewrite ?serve_keeps_services; [by eapply register_keeps_services|done..|].
  unfold call. by case_decide.
Qed.
Lemma conn_step_services s s' n svc :
  conn_step s s' → serviceMap (sv_server s) !! n = Some svc → serviceMap (sv_server s') !! n = Some svc.
Proof.
  destruct 1 as [s t Ht|s header body Hl Hb|s body Hl Hb|s l sv Hs]; cbn; rewrite ?serve_keeps_services; try done.
  - unfold note, turn. destruct (readRequest _ header body); cbn; by rewrite serve_keeps_services.
  - by eapply server_step_services.
Qed.

(** A heartbeat that is read before the deadline pushes it back, whatever has been
    registered meanwhile. *)
Lemma beat_extends t0 s k ty (argv : V) :
  rtc conn_step (ServeConn NewServer t0) s →
  turn (Ok (mkRequest "InnerResponse.HeartBeat" k ty)) (Ok argv) s =
    UpdateConnTimeout (mkServedConn (serve c (Ok (mkRequest "InnerResponse.HeartBeat" k ty)) (Ok argv) (sv_server s))
      (now s) (deadline s) (loop_end s) (reads s)).
Proof.
  intros Hr.
  assert (serviceMap (sv_server s) !! "InnerResponse" = Some inner_service) as Hs.
  { refine (rtc_preserves conn_step (λ s, serviceMap (sv_server s) !! "InnerResponse" = Some inner_service) _ _ _
      eq_refl Hr).
    intros x y Hx Hxy. by eapply conn_step_services. }
  unfold turn, readRequest, resolve. cbn [rq_ServiceMethod].
  change (cut_last dot "InnerResponse.HeartBeat") with (Some ("InnerResponse", "HeartBeat")).
  cbn. rewrite Hs. done.
Qed.
End conn.

(** ** Over HTTP

    The connection may also be asked of an HTTP server: HandleHTTP, ServeHTTP (server.go)
    and DialHTTPPath (client.go). net/http is a class: the method and path of a request,
    the status of an answer, and the texts of the answers it writes itself. *)
Class NetHttp := {
  parse_request : string → option (string * string);
  ReadResponse : string → result string string;
  page : string → string → string }.
Definition newline : string := String (Ascii.ascii_of_nat 10) "".
Class NetHttpLaws `{NetHttp} := {
  plain_path : string → Prop;
  parse_connect p : plain_path p →
    parse_request ("CONNECT " +:+ p +:+ " HTTP/1.0" +:+ newline +:+ newline) = Some ("CONNECT", p);
  read_connected : ReadResponse ("HTTP/1.0 " +:+ "200 Connected to Go RPC" +:+ newline +:+ newline) =
    Ok "200 Connected to Go RPC";
  read_page status body : ReadResponse (page status body) = Ok status }.

Section http.
Context `{NetHttp}.
Definition connected : string := "200 Connected to Go RPC".

(** The paths that are served: [http.Handle] panics at a path that is taken. *)
Inductive http_handler := HRpc | HDebug (text : string).
Definition Handle (path : string) (h : http_handler) (mux : gmap string http_handler)
    : outcome (gmap string http_handler) :=
  match mux !! path with
  | Some _ => Panic (PanicVal "http: multiple registrations")
  | None => Ret (<[path := h]> mux)
  end.
Definition HandleHTTP (rpcPath debugPath debugText : string) (mux : gmap string http_handler)
    : outcome (gmap string http_handler) :=
  mux ← Handle rpcPath HRpc mux; Handle debugPath (HDebug debugText) mux.

(** What is written, and whether the connection is then served. *)
Definition ServeHTTP (method : string) (hijack : result string unit) : string * bool :=
  if decide (method ≠ "CONNECT") then (page "405 Method Not Allowed" ("405 must CONNECT" +:+ newline), false)
  else match hijack with
       | Err _ => ("", false)
       | Ok _ => ("HTTP/1.0 " +:+ connected +:+ newline +:+ newline, true)
       end.
Definition http_server (mux : gmap string http_handler) (hijack : result string unit) (text : string) : string * bool :=
  match parse_request text with
  | None => (page "400 Bad Request" "", false)
  | Some (method, path) =>
      match mux !! path with
      | None => (page "404 Not Found" "404 page not found", false)
      | Some HRpc => ServeHTTP method hijack
      | Some (HDebug text) => (page "200 OK" text, false)
      end
  end.

(** The errors of dialing; [exchange] is what the other side answers. *)
Inductive dial_error := DialErr (e : string) | OpError (op net : string) (err : string).
Definition DialHTTPPath (network address path : string) (dial : result string (string → string))
    : result dial_error unit :=
  match dial with
  | Err e => Err (DialErr e)
  | Ok exchange =>
      let failed e := Err (OpError "dial-http" (network +:+ " " +:+ address) e) in
      match ReadResponse (exchange ("CONNECT " +:+ path +:+ " HTTP/1.0" +:+ newline +:+ newline)) with
      | Ok status => if decide (status = connected) then Ok tt else failed ("unexpected HTTP response: " +:+ status)
      | Err e => failed e
      end
  end.

(** The paths of the package, and what uses them. *)
Definition DefaultRPCPath : string := "/_goRPC_".
Definition DefaultDebugPath : string := "/debugMode/rpc".
Definition DefaultServer_HandleHTTP (debugText : string) (mux : gmap string http_handler)
    : outcome (gmap string http_handler) := HandleHTTP DefaultRPCPath DefaultDebugPath debugText mux.
Definition DialHTTP (network address : string) (dial : result string (string → string)) : result dial_error unit :=
  DialHTTPPath network address DefaultRPCPath dial.

(** Dialing the path of the RPC gives a client whose connection is served, when it can be
    taken over; any other path of such a server gives an error that names the status, and
    nothing is served. *)
Theorem dial_http `{!NetHttpLaws} network address rpcPath debugPath debugText mux path :
  HandleHTTP rpcPath debugPath debugText ∅ = Ret mux → plain_path path →
  let ask hijack := DialHTTPPath network address path (Ok (λ t, (http_server mux hijack t).1)) in
  let served hijack := (http_server mux hijack ("CONNECT " +:+ path +:+ " HTTP/1.0" +:+ newline +:+ newline)).2 in
  (path = rpcPath → ask (Ok tt) = Ok tt ∧ served (Ok tt) = true) ∧
  (path ≠ rpcPath → ∀ hijack, served hijack = false ∧ ∃ status,
     ask hijack = Err (OpError "dial-http" (network +:+ " " +:+ address) ("unexpected HTTP response: " +:+ status))).
Proof.
  intros Hm Hp. cbn zeta. unfold HandleHTTP, Handle in Hm. rewrite lookup_empty in Hm. cbn in Hm.
  destruct (decide (rpcPath = debugPath)) as [->|Hne]; [by rewrite lookup_insert_eq in Hm|].
  rewrite lookup_insert_ne, lookup_empty in Hm by done. injection Hm as <-.
  unfold DialHTTPPath, http_server. rewrite parse_connect by done. split.
  - intros ->. rewrite lookup_insert_ne, lookup_insert_eq by done. unfold ServeHTTP. rewrite decide_False by (by intros []).
    cbn [fst snd]. unfold connected. rewrite read_connected. by rewrite decide_True.
  - intros Hne' hijack. destruct (decide (path = debugPath)) as [->|Hd].
    + rewrite lookup_insert_eq. cbn [fst snd]. rewrite read_page, decide_False by done. eauto.
    + rewrite !lookup_insert_ne, lookup_empty by done. cbn [fst snd]. rewrite read_page, decide_False by done. eauto.
Qed.
End http.

(** ** One heartbeat, then silence *)
Definition accepted_conn : served_conn (V := nat) := mkServedConn NewServer 3000 (Some 9000%Z) None [].
Definition one_beat_conn : served_conn (V := nat) :=
  note (Ok beat) (Ok 0) accepted_conn (turn false 9000 1 (Ok beat) (Ok 0) accepted_conn).
Definition silent_conn : served_conn :=
  mkServedConn (serve 1 (Err ErrDeadline) (Ok 0) (sv_server one_beat_conn)) 12500 (Some 12000%Z) (Some ByDeadline)
    (reads one_beat_conn).

Lemma silent_conn_run : rtc (conn_step false 9000 1) (ServeConn false 9000 (@NewServer nat) 0) silent_conn.
Proof.
  eapply rtc_l; [apply (conn_time false 9000 1 _ 3000); by vm_compute|].
  eapply rtc_l; [apply (conn_turn false 9000 1 _ (Ok beat) (Ok 0)); [done|by vm_compute]|].
  eapply rtc_l; [apply (conn_time false 9000 1 one_beat_conn 12500); by vm_compute|].
  eapply rtc_l; [apply (conn_deadline false 9000 1 _ (Ok 0)); [done|intros H; vm_compute in H; discriminate H]|].
  apply rtc_refl.
Qed.

Lemma deadline_kept_witness :
  rtc (conn_step false 9000 1) (ServeConn false 9000 (@NewServer nat) 0) silent_conn ∧
  handed 0 (reads silent_conn) = [3000; 0]%Z ∧
  ∃ t earlier, handed 0 (reads silent_conn) = t :: earlier ∧ (t + 9000 ≤ now silent_conn)%Z.
Proof.
  split; [apply silent_conn_run|]. split; [vm_compute; reflexivity|].
  destruct (deadline_kept false 9000 1 _ _ _ silent_conn_run) as (t & earlier & E & _ & _ & _ & H).
  exists t, earlier. split; [exact E|]. apply (proj2 (H eq_refl)).
Defined.

(** ** An HTTP library with the laws *)
#[local] Instance small_http : NetHttp := {
  parse_request text :=
    if decide (text = "CONNECT " +:+ "/_goRPC_" +:+ " HTTP/1.0" +:+ newline +:+ newline) then Some ("CONNECT", "/_goRPC_")
    else None;
  ReadResponse text :=
    match text with
    | String (Ascii.Ascii true true false false false true false false) status => Ok status
    | _ => if decide (text = "HTTP/1.0 " +:+ "200 Connected to Go RPC" +:+ newline +:+ newline)
           then Ok "200 Connected to Go RPC" else Err "malformed HTTP response"
    end;
  page status _ := String (Ascii.Ascii true true false false false true false false) status }.
#[local] Instance small_http_laws : NetHttpLaws.
Proof.
  refine {| plain_path := λ p, p = "/_goRPC_" |}; [intros p ->; vm_compute; reflexivity|vm_compute; reflexivity|done].
Defined.

Lemma dial_http_witness :
  DialHTTPPath "tcp" "10.0.0.1:80" "/_goRPC_"
    (Ok (λ t, (http_server {["/debugMode/rpc" := HDebug ""; "/_goRPC_" := HRpc]} (Ok tt) t).1)) = Ok tt.
Proof.
  destruct (dial_http "tcp" "10.0.0.1:80" "/_goRPC_" "/debugMode/rpc" ""
    {["/debugMode/rpc" := HDebug ""; "/_goRPC_" := HRpc]} "/_goRPC_") as [H _]; [vm_compute; reflexivity|done|].
  exact (proj1 (H eq_refl)).
Defined.
