(* ===== verification/RpcSystem.v ===== *)
(** * hRpc: clients and a server together

    Any number of [TcpClient]s, each connected to one [Server]: client and connection
    [i] are each other's.  What a client has written is read by the server in order,
    what the server has written for a connection is read by its client in order; the
    codec gives what was encoded or an error, at any time.  A step is an event of one
    client, a request read by the server, a handler that returns, or a response read.
    One-way requests go out with the number of the last call, and their refusals are
    answers to it. *)
From stdpp Require Import functions.
From S2P Require Import Prelude GoString GoReflect RpcClient RpcServer.

Section system.
(** Arguments and replies as they travel. *)
Context {V : Type}.

(** Beside clients and server: how many requests of a connection the server has read,
    how many responses its client has; and for the statements what was read, refused
    and returned by handlers so far. *)
Record system := mkSystem {
  client_of : positive → TcpClient V;
  server : Server V;
  taken : positive → nat;
  got : positive → nat;
  read_log : list (positive * Request * bool);
  refused : list (positive * Request * string);
  returned : list (flight V * string * V) }.

Definition no_calls_yet (debug : positive → bool) : system :=
  mkSystem (λ i, NewClientWithConn (debug i)) NewServer_empty (λ _, 0) (λ _, 0) [] [] [].

(** What was written for connection [i]. *)
Definition sent_to (i : positive) (l : list (positive * Response * option V)) : list (Response * option V) :=
  omap (λ x, if decide (x.1.1 = i) then Some (x.1.2, x.2) else None) l.

Inductive system_event :=
| SClient (i : positive) (e : rpc_event V)
| SRegister (r : receiver) (name : string) (useName : bool)
| SRead (i : positive) (bad : option string)      (* the argument cannot be decoded *)
| SReadError (i : positive) (e : string)
| SBegin (n : nat)                                (* the [n]-th call under way reaches its handler *)
| SReturn (n : nat) (errmsg : string) (reply : V)
| SHeader (i : positive)
| SBody (i : positive) (bad : option string) (untouched : V).

(** Reading a response is an event of its own. *)
Definition arrival (e : rpc_event V) : bool :=
  match e with EHeader (Ok _) | EBody _ => true | _ => false end.

Definition with_client (i : positive) (c : TcpClient V) (s : system) : system :=
  mkSystem (<[i := c]> (client_of s)) (server s) (taken s) (got s) (read_log s) (refused s) (returned s).

Definition system_run (e : system_event) (s : system) : option system :=
  match e with
  | SClient i e =>
      if arrival e then None
      else c ← counted_event e (client_of s i); Some (with_client i c s)
  | SRegister r name useName =>
      match register r name useName (server s) with
      | Ret (v, _) => Some (mkSystem (client_of s) v (taken s) (got s) (read_log s) (refused s) (returned s))
      | _ => None
      end
  | SRead i bad =>
      if decide (i ∈ stopped (server s)) then None
      else '(req, a) ← wire (client_of s i) !! taken s i;
        let body := match bad with Some e => Err e | None => Ok a end in
        let why := match resolve (serviceMap (server s)) req with
                   | Err e => Some e
                   | Ok _ => bad
                   end in
        Some (mkSystem (client_of s) (serve i (Ok req) body (server s)) (<[i := S (taken s i)]> (taken s)) (got s)
          (read_log s ++ [(i, req, match why with None => true | _ => false end)])
          (match why with Some e => refused s ++ [(i, req, e)] | None => refused s end) (returned s))
  | SReadError i e =>
      if decide (i ∈ stopped (server s)) then None
      else Some (mkSystem (client_of s) (serve i (Err e) (Err e) (server s)) (taken s) (got s) (read_log s)
             (refused s) (returned s))
  | SBegin n =>
      fl ← inflight (server s) !! n;
      if fl_started fl then None
      else Some (mkSystem (client_of s)
             (call_begin fl (take n (inflight (server s))) (drop (S n) (inflight (server s))) (server s))
             (taken s) (got s) (read_log s) (refused s) (returned s))
  | SReturn n errmsg reply =>
      fl ← inflight (server s) !! n;
      if negb (fl_started fl) then None
      else Some (mkSystem (client_of s) (call fl errmsg reply (delete n (inflight (server s))) (server s)) (taken s)
        (got s) (read_log s) (refused s) (returned s ++ [(fl, errmsg, reply)]))
  | SHeader i =>
      '(resp, _) ← sent_to i (responses (server s)) !! got s i;
      c ← counted_event (EHeader (Ok resp)) (client_of s i);
      Some (with_client i c s)
  | SBody i bad untouched =>
      '(_, reply) ← sent_to i (responses (server s)) !! got s i;
      let body := match bad with Some e => Err e | None => Ok (default untouched reply) end in
      c ← counted_event (EBody body) (client_of s i);
      Some (mkSystem (<[i := c]> (client_of s)) (server s) (taken s) (<[i := S (got s i)]> (got s))
        (read_log s) (refused s) (returned s))
  end.

(** The errors of reading and writing are not those a server answers, and an error of
    decoding has a message. *)
Definition io (e : rpc_error) : bool := match e with RpcClient.ServerError _ => false | _ => true end.
Definition event_io (e : rpc_event V) : bool :=
  match e with EWrite (Some e) | EOneWay _ _ _ (Some e) | EHeader (Err e) => io e | _ => true end.
Definition permitted (e : system_event) (s : system) : bool :=
  match e with
  | SClient _ e => event_io e
  | SRead i bad => bool_decide (bad ≠ Some "")
  | _ => true
  end.
Definition permitted_run (e : system_event) (s : system) : option system :=
  if permitted e s then system_run e s else None.
Definition system_step : relation system := step_of permitted_run.
End system.
Arguments system V : clear implicits.
Arguments system_event V : clear implicits.

(** ** One client and the responses meant for it *)
Section client_side.
Context {V : Type}.
Implicit Types (s : TcpClient V) (c : Call V) (rs : list (Response * option V)).

Definition io_opt (e : option rpc_error) : Prop := match e with Some e => io e | None => True end.

(** What happens to a call other than by a response. *)
Record quiet c c' : Prop := {
  qt_method : c_ServiceMethod c' = c_ServiceMethod c;
  qt_args : c_Args c' = c_Args c;
  qt_type : c_Type c' = c_Type c;
  qt_seq : c_seq c' = c_seq c;
  qt_done : c_done c ≤ c_done c';
  qt_reply : c_Reply c' = c_Reply c;
  qt_error : c_Error c' = c_Error c ∨ io_opt (c_Error c') }.
#[local] Instance quiet_preorder : PreOrder quiet.
Proof.
  split; [by intros c; split; auto|]. intros c1 c2 c3 [] []. split; try congruence; [lia|].
  destruct qt_error1 as [->|]; auto.
Qed.
Lemma quiet_complete e c : io_opt e → quiet c (complete e None None c).
Proof. intros He. split; simpl; auto. Qed.

(** From [cs] to [cs'], the calls that are in the second map only satisfying [new]. *)
Definition moved (new : positive → Call V → Prop) (cs cs' : gmap positive (Call V)) : Prop :=
  ∀ id, match cs !! id, cs' !! id with
        | Some c, Some c' => quiet c c'
        | None, Some c' => new id c'
        | None, None => True
        | Some _, None => False
        end.
Lemma moved_refl new cs : moved new cs cs.
Proof. intros id. by destruct (cs !! id). Qed.
Lemma moved_insert (new : positive → Call V → Prop) id c cs :
  cs !! id = None → new id c → moved new cs (<[id := c]> cs).
Proof.
  intros Hid Hn j. destruct (decide (j = id)) as [->|].
  - by rewrite Hid, lookup_insert_eq.
  - rewrite lookup_insert_ne by done. by destruct (cs !! j).
Qed.
Lemma moved_alter (new : positive → Call V → Prop) f id cs cs' :
  (∀ c, quiet c (f c)) → (∀ j c, new j c → new j (f c)) → moved new cs cs' → moved new cs (alter f id cs').
Proof.
  intros Hf Hn Hq j. specialize (Hq j). destruct (decide (j = id)) as [->|].
  - rewrite lookup_alter_eq. destruct (cs !! id), (cs' !! id); simpl in *; auto. by etrans.
  - by rewrite lookup_alter_ne.
Qed.
Lemma moved_foldr (new : positive → Call V → Prop) f ids cs :
  (∀ c, quiet c (f c)) → (∀ j c, new j c → new j (f c)) → moved new cs (foldr (alter f) cs ids).
Proof. intros Hf Hn. induction ids; simpl; [apply moved_refl|by apply moved_alter]. Qed.
Lemma moved_to new cs cs' id c : moved new cs cs' → cs !! id = Some c → ∃ c', cs' !! id = Some c' ∧ quiet c c'.
Proof. intros Hq E. specialize (Hq id). rewrite E in Hq. destruct (cs' !! id); by eauto. Qed.
Lemma moved_from new cs cs' id c' : moved new cs cs' → cs' !! id = Some c' →
  (∃ c, cs !! id = Some c ∧ quiet c c') ∨ new id c'.
Proof. intros Hq E. specialize (Hq id). rewrite E in Hq. destruct (cs !! id); eauto. Qed.

(** A call the goroutine that holds [reqMutex] has not got onto the wire yet. *)
Definition held_back (k : Z) (m : sender) : Prop :=
  (∃ id, m = SWriting id k) ∨ ∃ e, m = SFailed k e.
Definition asked (k : Z) s : Prop := ∃ r a, (r, a) ∈ wire s ∧ rq_Type r = RPC_CALL_TYPE_NORMAL ∧ rq_Seq r = k.

(** [rs] is what was written for the client, [n] how much of it the client has; [clean] is
    whether all of it answers calls, and none of it the one-way requests, which have no
    number of their own. *)
Context (clean : Prop).
Record client_ok rs (n : nat) s : Prop := {
  cl_rpc : rpc_ok s;
  cl_have : n ≤ length rs;
  cl_type id c k : calls s !! id = Some c → c_seq c = Some k → c_Type c = RPC_CALL_TYPE_NORMAL;
  cl_writing id k : reqMutex s = SWriting id k → ∃ c, calls s !! id = Some c ∧ c_seq c = Some k;
  cl_failed k e : reqMutex s = SFailed k e → io e;
  cl_ending e : input s = ITerminate e → io e;
  cl_wire r a : (r, a) ∈ wire s → rq_Type r = RPC_CALL_TYPE_NORMAL →
    ∃ id c, calls s !! id = Some c ∧ c_seq c = Some (rq_Seq r) ∧
      c_ServiceMethod c = rq_ServiceMethod r ∧ c_Args c = a;
  cl_open id c k : clean → calls s !! id = Some c → c_done c = 0 → c_seq c = Some k →
    held_back k (reqMutex s) ∨ asked k s;
  cl_asked resp b : clean → (resp, b) ∈ rs → asked (rs_Seq resp) s;
  cl_input o resp : input s = IBody o resp → ∃ b, rs !! n = Some (resp, b);
  cl_got m resp b : clean → rs !! m = Some (resp, b) → m < n ∨ m = n ∧ (∃ o r, input s = IBody o r) →
    pending s !! rs_Seq resp = None;
  cl_reply id c v : calls s !! id = Some c → c_Reply c = Some v →
    ∃ resp b, c_seq c = Some (rs_Seq resp) ∧ (resp, b) ∈ rs ∧ rs_Error resp = "" ∧ (b = None ∨ b = Some v);
  cl_error id c e : calls s !! id = Some c → c_Error c = Some (RpcClient.ServerError e) →
    ∃ resp b, c_seq c = Some (rs_Seq resp) ∧ (resp, b) ∈ rs ∧ rs_Error resp = e }.

Lemma NewClient_ok debug : client_ok [] 0 (NewClientWithConn debug).
Proof.
  split; [apply NewClientWithConn_ok|done|..]; simpl; try done; intros *; rewrite ?lookup_empty, ?elem_of_nil; done.
Qed.

(** The numbers on the wire are numbers that were given out. *)
Lemma asked_bound rs n s k : client_ok rs n s → asked k s → (k < seq s)%Z.
Proof.
  intros Hok (r & a & Hin & Ht & <-). destruct (cl_wire _ _ _ Hok _ _ Hin Ht) as (id & c & Hc & Hs & _).
  destruct (cl_rpc _ _ _ Hok) as [_ Hcore _]. by destruct (co_bound _ _ _ _ Hcore _ _ _ Hc Hs).
Qed.

(** A call as it is when it is new: the one that was given a number is being written. *)
Definition new_here s s' (id : positive) c : Prop :=
  c_Reply c = None ∧ io_opt (c_Error c) ∧
  ∀ k, c_seq c = Some k → c_Type c = RPC_CALL_TYPE_NORMAL ∧ k = seq s ∧ reqMutex s' = SWriting id k.

Lemma new_complete s s' e j c : io_opt e → new_here s s' j c → new_here s s' j (complete e None None c).
Proof. intros He (? & ? & ?). by split_and!. Qed.

(** Everything but the arrival of a response. *)
Lemma client_ok_frame rs n s s' l :
  client_ok rs n s → rpc_ok s' →
  moved (new_here s s') (calls s) (calls s') →
  wire s' = wire s ++ l →
  (∀ k, (k < seq s)%Z → pending s !! k = None → pending s' !! k = None) →
  (∀ o r, input s' = IBody o r → input s = IBody o r) →
  (∀ id k, reqMutex s' = SWriting id k → reqMutex s = SWriting id k ∨
     ∃ c, calls s' !! id = Some c ∧ c_seq c = Some k) →
  (∀ k e, reqMutex s' = SFailed k e → io e) →
  (∀ e, input s' = ITerminate e → io e) →
  (∀ r a, (r, a) ∈ l → rq_Type r = RPC_CALL_TYPE_NORMAL →
     ∃ id c, calls s !! id = Some c ∧ c_seq c = Some (rq_Seq r) ∧ c_ServiceMethod c = rq_ServiceMethod r ∧
       c_Args c = a) →
  (∀ id c' k, calls s' !! id = Some c' → c_done c' = 0 → c_seq c' = Some k → held_back k (reqMutex s) →
     clean → held_back k (reqMutex s') ∨ asked k s') →
  client_ok rs n s'.
Proof.
  intros Hok Hrpc Hmv Hwire Hpend Hin Hwr Hfl Hend Hl Hopen.
  assert (∀ k, asked k s → asked k s') as Hask.
  { intros k (r & a & Hra & ?). exists r, a. rewrite Hwire, elem_of_app. auto. }
  assert (∀ id c k, calls s !! id = Some c → c_seq c = Some k →
    ∃ c', calls s' !! id = Some c' ∧ c_seq c' = Some k ∧ c_ServiceMethod c' = c_ServiceMethod c ∧
      c_Args c' = c_Args c) as Hto.
  { intros id c k E Es. destruct (moved_to _ _ _ _ _ Hmv E) as (c' & E' & []). exists c'. split_and!; congruence. }
  split; [done|by apply (cl_have _ _ _ Hok)|..].
  - intros id c' k E Es. destruct (moved_from _ _ _ _ _ Hmv E) as [(c & Ec & Hq)|(_ & _ & Hn)].
    + rewrite (qt_type _ _ Hq). apply (cl_type _ _ _ Hok id c k Ec). by rewrite <- (qt_seq _ _ Hq).
    + by destruct (Hn k Es).
  - intros id k [Hm|?]%Hwr; [|done]. destruct (cl_writing _ _ _ Hok _ _ Hm) as (c & Ec & Es).
    destruct (Hto _ _ _ Ec Es) as (c' & ? & ? & _). eauto.
  - done.
  - done.
  - intros r a Hra Ht. rewrite Hwire in Hra.
    assert (∃ id c, calls s !! id = Some c ∧ c_seq c = Some (rq_Seq r) ∧ c_ServiceMethod c = rq_ServiceMethod r ∧
       c_Args c = a) as (id & c & Ec & Es & <- & <-)
      by (apply elem_of_app in Hra as [Hra|Hra]; [by apply (cl_wire _ _ _ Hok)|by apply Hl]).
    destruct (Hto _ _ _ Ec Es) as (c' & ? & ? & ? & ?). by exists id, c'.
  - intros id c' k Hcl E Hd Es. destruct (moved_from _ _ _ _ _ Hmv E) as [(c & Ec & Hq)|(_ & _ & Hn)].
    + rewrite (qt_seq _ _ Hq) in Es. pose proof (qt_done _ _ Hq).
      destruct (cl_open _ _ _ Hok id c k Hcl Ec) as [Hh|Ha]; [lia|done| |auto].
      apply (Hopen id c'); try done. by rewrite (qt_seq _ _ Hq).
    + left. left. exists id. by apply (Hn k Es).
  - intros resp b Hcl Hr. by eapply Hask, cl_asked.
  - intros o resp Hi. by apply (cl_input _ _ _ Hok o), Hin.
  - intros m resp b Hcl Hr Hm. apply Hpend.
    + eapply asked_bound; [done|]. eapply cl_asked; [done|done|]. by eapply list_elem_of_lookup_2.
    + apply (cl_got _ _ _ Hok m resp b Hcl Hr). destruct Hm as [?|(-> & o & r & ?)]; [by left|right]. eauto.
  - intros id c' v E Er. destruct (moved_from _ _ _ _ _ Hmv E) as [(c & Ec & Hq)|(Hn & _)]; [|congruence].
    rewrite (qt_seq _ _ Hq). apply (cl_reply _ _ _ Hok id c v Ec). by rewrite <- (qt_reply _ _ Hq).
  - intros id c' e E Er. destruct (moved_from _ _ _ _ _ Hmv E) as [(c & Ec & Hq)|(_ & Hn & _)];
      [|by rewrite Er in Hn].
    rewrite (qt_seq _ _ Hq). apply (cl_error _ _ _ Hok id c e Ec).
    destruct (qt_error _ _ Hq) as [<-|Hio]; [done|]. by rewrite Er in Hio.
Qed.

Lemma client_ok_same rs n s s' :
  client_ok rs n s → rpc_ok s' → calls s' = calls s → pending s' = pending s → wire s' = wire s →
  input s' = input s → reqMutex s' = reqMutex s → client_ok rs n s'.
Proof.
  intros [_ ? ? ? ? ? ? Ho Ha ? ? ? ?] Hrpc Ec Ep Ew Ei Em.
  split; unfold asked in *; rewrite ?Ec, ?Ep, ?Ew, ?Ei, ?Em; done.
Qed.

(** A response the client is busy with was asked for. *)
Lemma in_hand_asked rs n s id k : clean → client_ok rs n s → in_hand (input s) !! id = Some k → asked k s.
Proof.
  intros Hcl Hok Hh. destruct (input s) as [|[j|] resp|e|] eqn:Ei; simpl in Hh; rewrite ?lookup_empty in Hh; try done.
  apply lookup_singleton_Some in Hh as [-> <-]. destruct (cl_input _ _ _ Hok _ _ Ei) as [b Hb].
  eapply cl_asked; [done|done|]. by eapply list_elem_of_lookup_2.
Qed.

Lemma client_register_ok rs n id method args s s' :
  client_ok rs n s → rpc_ok s' → send_register id method args s = Some s' → client_ok rs n s'.
Proof.
  intros Hok Hrpc E. unfold send_register in E. destruct (reqMutex s) eqn:Em; try done.
  destruct (calls s !! id) eqn:Eid; [done|]. destruct (mutex_held s); [done|].
  destruct (shutdown s || closing s); injection E as <-.
  - apply (client_ok_frame rs n s _ [] Hok Hrpc); simpl; rewrite ?Em, ?app_nil_r; try done; [|by eapply cl_ending| |].
    + rewrite alter_insert_eq. by apply moved_insert.
    + by intros r a ?%elem_of_nil.
    + by intros ? ? ? _ _ _ [[? ?]|[? ?]].
  - apply (client_ok_frame rs n s _ [] Hok Hrpc); simpl; rewrite ?app_nil_r; try done; [| | |by eapply cl_ending| |].
    + apply moved_insert; [done|]. split_and!; [done|done|]. simpl. intros k [= <-]. done.
    + intros k Hk Hp. rewrite lookup_insert_ne by lia. done.
    + intros id' k [= -> ->]. right. rewrite lookup_insert_eq. eauto.
    + by intros r a ?%elem_of_nil.
    + rewrite Em. by intros ? ? ? _ _ _ [[? ?]|[? ?]].
Qed.

Lemma client_write_ok rs n w s s' :
  client_ok rs n s → rpc_ok s' → event_io (EWrite (V := V) w) → send_write w s = Some s' → client_ok rs n s'.
Proof.
  intros Hok Hrpc Hio E. unfold send_write in E. destruct (reqMutex s) as [|id k|] eqn:Em; try done.
  destruct (calls s !! id) as [c|] eqn:Eid; [|done]. injection E as <-.
  destruct (cl_writing _ _ _ Hok _ _ Em) as (c' & Ec & Es). simplify_eq.
  pose proof (cl_type _ _ _ Hok _ _ _ Eid Es) as Ht.
  destruct w as [e|]; simpl in *.
  - apply (client_ok_frame rs n s _ [] Hok Hrpc); simpl; rewrite ?app_nil_r; try done; [| |by eapply cl_ending| |].
    + apply moved_refl.
    + by intros k' e' [= <- <-].
    + by intros r a ?%elem_of_nil.
    + intros id' c' k' _ _ _ Hh _. left. rewrite Em in Hh. destruct Hh as [[? [= -> ->]]|[? ?]]; [|done]. right. eauto.
  - apply (client_ok_frame rs n s _ _ Hok Hrpc (moved_refl _ _) eq_refl); simpl; try done; [by eapply cl_ending| |].
    + intros r a [= -> ->]%list_elem_of_singleton _. by exists id, c.
    + intros id' c' k' _ _ _ Hh _. right. rewrite Em in Hh. destruct Hh as [[? [= -> ->]]|[? ?]]; [|done].
      eexists _, _. simpl. rewrite elem_of_app, list_elem_of_singleton. split; [by right|done].
Qed.

Lemma client_failed_ok rs n s s' :
  client_ok rs n s → rpc_ok s' → send_failed s = Some s' → client_ok rs n s'.
Proof.
  intros Hok Hrpc E. unfold send_failed in E. destruct (reqMutex s) as [| |k err] eqn:Em; try done.
  destruct (mutex_held s); [done|]. pose proof (cl_failed _ _ _ Hok _ _ Em) as Hio.
  assert (pending s' = delete k (pending s) ∧ moved (new_here s s') (calls s) (calls s') ∧ wire s' = wire s ∧
    input s' = input s ∧ reqMutex s' = SIdle) as (Ep & Hmv & Ew & Ei & Em').
  { destruct (pending s !! k) as [id|]; injection E as <-; simpl; split_and!; try done; [|apply moved_refl].
    apply moved_alter; [by intros; apply quiet_complete|by intros; apply new_complete|apply moved_refl]. }
  apply (client_ok_frame rs n s s' [] Hok Hrpc Hmv); rewrite ?app_nil_r, ?Ew, ?Ei, ?Em'; try done;
    [|by eapply cl_ending| |].
  - intros k' _ Hp. rewrite Ep, lookup_delete_None. by right.
  - by intros r a ?%elem_of_nil.
  - intros id c k' Ec Hd Es Hh Hcl. right. rewrite Em in Hh. destruct Hh as [[? ?]|[? [= <- _]]]; [done|].
    destruct Hrpc as [_ Hcore _]. destruct (co_open _ _ _ _ Hcore _ _ Ec Hd) as (k2 & Es' & Hor).
    assert (k2 = k) as -> by congruence. clear E.
    destruct Hor as [Hp|Hh].
    + unfold live_pending in Hp. rewrite Ep in Hp. destruct (input s'); by rewrite ?lookup_empty, ?lookup_delete_eq in Hp.
    + rewrite Ei in Hh. unfold asked. rewrite Ew. by eapply in_hand_asked.
Qed.

Lemma client_one_way_ok rs n id method args w s s' :
  client_ok rs n s → rpc_ok s' → event_io (EOneWay id method args w) →
  sendWithoutReply id method args w s = Some s' → client_ok rs n s'.
Proof.
  intros Hok Hrpc Hio E. unfold sendWithoutReply in E. destruct (reqMutex s) eqn:Em; try done.
  destruct (calls s !! id) eqn:Eid; [done|].
  assert (∃ l c, calls s' = <[id := c]> (calls s) ∧ new_here s s' id c ∧ wire s' = wire s ++ l ∧
    (∀ r a, (r, a) ∈ l → rq_Type r ≠ RPC_CALL_TYPE_NORMAL) ∧ pending s' = pending s ∧ input s' = input s ∧
    reqMutex s' = SIdle) as (l & c & Ec & Hn & Ew & Hl & Ep & Ei & Em').
  { simpl in E. destruct (shutdown s || closing s); [|destruct w as [e|]]; injection E as <-; simpl;
      rewrite ?alter_insert_eq; rewrite Em; [exists []|exists []|exists [(mkRequest method (rq_Seq (request s)) RPC_CALL_TYPE_WITHOUTREPLY, args)]]; eexists; rewrite ?app_nil_r;
      (split_and!; [reflexivity|by split_and!|done| |done..]); try (by intros r a ?%elem_of_nil).
    by intros r a [= -> ->]%list_elem_of_singleton. }
  apply (client_ok_frame rs n s s' l Hok Hrpc); rewrite ?Ec, ?Ep, ?Ei, ?Em'; try done; [|by eapply cl_ending| |].
  - by apply moved_insert.
  - intros r a Hr Ht. by destruct (Hl _ _ Hr).
  - rewrite Em. by intros ? ? ? _ _ _ [[? ?]|[? ?]].
Qed.

Lemma client_event_ok rs n e s s' :
  client_ok rs n s → arrival e = false → event_io e → counted_event e s = Some s' → client_ok rs n s'.
Proof.
  intros Hok Ha Hio E. unfold counted_event in E. case_decide as Hb; [|done].
  assert (rpc_ok s') as Hrpc by (eapply rpc_step_ok; [by apply Hok|split; [by exists e|done]]).
  assert (∀ id c' k m, calls s' !! id = Some c' → c_done c' = 0 → c_seq c' = Some k → m = reqMutex s →
    held_back k m → held_back k (reqMutex s) ∨ asked k s') as Hstay by (intros; subst; by left).
  destruct e as [id m a|w| |id m a w|hdr|b| | | | | |ok| |id]; try done; simpl in E.
  - by eapply client_register_ok.
  - by eapply client_write_ok.
  - by eapply client_failed_ok.
  - by eapply client_one_way_ok.
  - unfold input_header in E. destruct (input s) eqn:Ei; try done. destruct hdr as [?|e]; [done|]. injection E as <-.
    apply (client_ok_frame rs n s _ [] Hok Hrpc (moved_refl _ _)); simpl; rewrite ?app_nil_r; eauto; try done.
    + by apply (cl_failed _ _ _ Hok).
    + by intros e' [= <-].
    + by intros r a ?%elem_of_nil.
  - unfold input_terminate in E. destruct (input s) as [| |err|] eqn:Ei; try done.
    destruct (reqMutex s) eqn:Em; try done. destruct (mutex_held s); [done|]. injection E as <-.
    apply (client_ok_frame rs n s _ [] Hok Hrpc); simpl; rewrite ?app_nil_r; try done.
    + pose proof (cl_ending _ _ _ Hok _ Ei).
      apply moved_foldr; [intros c; apply quiet_complete|intros j c; apply new_complete];
        destruct err; try done; by destruct (closing s).
    + by intros r a ?%elem_of_nil.
    + rewrite Em. by intros ? ? ? _ _ _ [[? ?]|[? ?]].
  - apply (client_ok_same rs n s _ Hok Hrpc); unfold Close_begin in E; by repeat (case_match; simplify_eq/=).
  - apply (client_ok_same rs n s _ Hok Hrpc); unfold Close_send in E; by repeat (case_match; simplify_eq/=).
  - apply (client_ok_same rs n s _ Hok Hrpc); unfold heart_tick in E; by repeat (case_match; simplify_eq/=).
  - apply (client_ok_same rs n s _ Hok Hrpc); unfold heart_call in E; by repeat (case_match; simplify_eq/=).
  - apply (client_ok_same rs n s _ Hok Hrpc); unfold heart_back in E; by repeat (case_match; simplify_eq/=).
  - apply (client_ok_same rs n s _ Hok Hrpc); unfold heart_close, Close_begin in E; by repeat (case_match; simplify_eq/=).
  - unfold call_timeout in E. destruct (calls s !! id) eqn:Eid; [|done]. injection E as <-.
    apply (client_ok_frame rs n s _ [] Hok Hrpc); simpl; rewrite ?app_nil_r; eauto; try done.
    + apply moved_alter; [intros ?; by split; simpl; auto| |apply moved_refl]. intros j d (? & ? & ?). by split_and!.
    + by apply (cl_failed _ _ _ Hok).
    + by apply (cl_ending _ _ _ Hok).
    + by intros r a ?%elem_of_nil.
Qed.

(** A response arrives: its header, *)
Lemma client_header_ok rs n resp b s s' :
  client_ok rs n s → rs !! n = Some (resp, b) → counted_event (EHeader (Ok resp)) s = Some s' → client_ok rs n s'.
Proof.
  intros Hok Hn E. unfold counted_event in E. case_decide as Hb; [|done].
  assert (rpc_ok s') as Hrpc by (eapply rpc_step_ok; [by apply Hok|split; [by exists (EHeader (Ok resp))|done]]).
  simpl in E. unfold input_header in E. destruct (input s) eqn:Ei; try done. destruct (mutex_held s); [done|].
  injection E as <-. destruct Hok as [_ Hh Ht Hw Hf He Hwi Ho Ha Hi Hg Hr Hx]. split; simpl; try done.
  - intros o r [= _ <-]. by exists b.
  - intros m r b' Hcl Hm Hor. rewrite lookup_delete_None. destruct Hor as [Hlt|[-> _]].
    + right. apply (Hg m r b' Hcl Hm). by left.
    + left. rewrite Hn in Hm. by injection Hm as <- <-.
Qed.

(** and its body, which goes to the call that has its number. *)
Definition read_body (bad : option string) (reply : option V) (untouched : V) : result string V :=
  match bad with Some e => Err e | None => Ok (default untouched reply) end.

(** What a response does to the call it is for. *)
Record answers (resp : Response) (body : result string V) c c' : Prop := {
  an_method : c_ServiceMethod c' = c_ServiceMethod c;
  an_args : c_Args c' = c_Args c;
  an_type : c_Type c' = c_Type c;
  an_seq : c_seq c' = c_seq c;
  an_done : c_done c' = S (c_done c);
  an_reply : c_Reply c' = c_Reply c ∨ ∃ v, rs_Error resp = "" ∧ body = Ok v ∧ c_Reply c' = Some v;
  an_error : c_Error c' = c_Error c ∨ io_opt (c_Error c') ∨
    c_Error c' = Some (RpcClient.ServerError (rs_Error resp)) }.

Lemma alter_one (f : Call V → Call V) id c0 (P : Call V → Call V → Prop) (cs : gmap positive (Call V)) j :
  cs !! id = Some c0 → P c0 (f c0) →
  match cs !! j, alter f id cs !! j with
  | Some c, Some c' => c' = c ∨ Some id = Some j ∧ P c c' | None, None => True | _, _ => False
  end.
Proof.
  intros Hid HP. destruct (decide (id = j)) as [->|].
  - rewrite lookup_alter_eq, Hid. simpl. auto.
  - rewrite lookup_alter_ne by done. destruct (cs !! j); auto.
Qed.

Lemma input_body_calls resp body o s s' :
  input s = IBody o resp → input_body body s = Some s' →
  pending s' = pending s ∧ wire s' = wire s ∧ reqMutex s' = reqMutex s ∧
  (input s' = IHeader ∨ ∃ e, io e ∧ input s' = ITerminate e) ∧
  ∀ j, match calls s !! j, calls s' !! j with
       | Some c, Some c' => c' = c ∨ o = Some j ∧ answers resp body c c' | None, None => True | _, _ => False
       end.
Proof.
  intros Ei E. unfold input_body in E. rewrite Ei in E. destruct o as [id|].
  - destruct (calls s !! id) as [c0|] eqn:Ec; [|done]. injection E as <-.
    destruct (decide (rs_Error resp ≠ "")) as [Hne|He%dec_stable]; [|destruct (c_wants_reply c0) eqn:Ew];
      destruct body as [v|m]; simpl; (split_and!; [done..| |]); try (by left);
      try (right; eexists; split; [|reflexivity]; first [exact I|case_decide; exact I]);
      intros j; apply alter_one with c0; try done; split; simpl; eauto.
  - injection E as <-. destruct body; simpl; (split_and!; [done..| |]); try (by left); try (right; eexists; split; [|reflexivity]; exact I);
      intros j; by destruct (calls s !! j); auto.
Qed.

Lemma client_body_ok rs n resp bad reply untouched s s' :
  client_ok rs n s → rs !! n = Some (resp, reply) →
  counted_event (EBody (read_body bad reply untouched)) s = Some s' → client_ok rs (S n) s'.
Proof.
  intros Hok Hn E. unfold counted_event in E. case_decide as Hb; [|done].
  assert (rpc_ok s') as Hrpc by (eapply rpc_step_ok; [by apply Hok|split; [by eexists (EBody _)|done]]).
  cbn [run_event] in E. destruct (input s) as [|o resp'| |] eqn:Ei; try (unfold input_body in E; by rewrite Ei in E).
  destruct (input_body_calls resp' _ o s s' Ei E) as (Ep & Ew & Em & Ei' & Hcs).
  pose proof Hok as [Hrpc0 Hh Ht Hwr Hf He Hwi Ho Ha Hi Hg Hr Hx].
  destruct (Hi _ _ Ei) as [b0 Hb0]. rewrite Hn in Hb0. injection Hb0 as <- <-.
  assert (∀ j c', calls s' !! j = Some c' → ∃ c, calls s !! j = Some c ∧ c_ServiceMethod c' = c_ServiceMethod c ∧
    c_Args c' = c_Args c ∧ c_Type c' = c_Type c ∧ c_seq c' = c_seq c ∧ c_done c ≤ c_done c' ∧
    (c' = c ∨ c_seq c = Some (rs_Seq resp) ∧ answers resp (read_body bad reply untouched) c c')) as Hfrom.
  { intros j c' E'. specialize (Hcs j). rewrite E' in Hcs. destruct (calls s !! j) as [c|] eqn:Ec; [|done].
    exists c. split; [done|]. destruct Hcs as [->|[-> Han]]; [by split_and!; auto|].
    destruct (co_hand _ _ _ _ (ro_core _ Hrpc0) j (rs_Seq resp)) as (c2 & Ec2 & Hs & _);
      [rewrite Ei; apply lookup_singleton_eq|].
    destruct Han. split_and!; auto; [lia|]. right. split; [congruence|by split]. }
  assert (∀ j c, calls s !! j = Some c → ∃ c', calls s' !! j = Some c' ∧ c_ServiceMethod c' = c_ServiceMethod c ∧
    c_Args c' = c_Args c ∧ c_seq c' = c_seq c) as Hto.
  { intros j c E'. specialize (Hcs j). rewrite E' in Hcs. destruct (calls s' !! j) as [c'|]; [|done].
    exists c'. split; [done|]. by destruct Hcs as [->|[_ []]]. }
  split; unfold asked in *; rewrite ?Ep, ?Ew, ?Em; try done.
  - apply lookup_lt_Some in Hn. lia.
  - intros id c' k E' Es. destruct (Hfrom _ _ E') as (c & Ec & _ & _ & -> & Es' & _). apply (Ht id c k Ec). congruence.
  - intros id k Hm. destruct (Hwr _ _ Hm) as (c & Ec & Es). destruct (Hto _ _ Ec) as (c' & ? & _ & _ & ?).
    exists c'. split; congruence.
  - intros e Ee. destruct Ei' as [?|(e' & ? & ?)]; congruence.
  - intros r a Hra Htr. destruct (Hwi _ _ Hra Htr) as (id & c & Ec & ? & ? & ?).
    destruct (Hto _ _ Ec) as (c' & ? & ? & ? & ?). exists id, c'. split_and!; congruence.
  - intros id c' k Hcl E' Hd Es. destruct (Hfrom _ _ E') as (c & Ec & _ & _ & _ & Es' & ? & _).
    apply (Ho id c k Hcl Ec); [lia|congruence].
  - intros o' r Eo. destruct Ei' as [?|(? & ? & ?)]; congruence.
  - intros m r b Hcl Hm Hor. apply (Hg m r b Hcl Hm). destruct Hor as [Hlt|(_ & o' & r' & Eo)];
      [|destruct Ei' as [?|(? & ? & ?)]; congruence].
    destruct (decide (m = n)) as [->|]; [right; eauto|left; lia].
  - intros id c' v E' Er. destruct (Hfrom _ _ E') as (c & Ec & _ & _ & _ & -> & _ & [->|[Hs Han]]); [by eapply Hr|].
    destruct (an_reply _ _ _ _ Han) as [Eq|(v' & He' & Hbody & Ev)]; [eapply Hr; [done|congruence]|].
    exists resp, reply. split_and!; [done|by eapply list_elem_of_lookup_2|done|].
    unfold read_body in Hbody. destruct bad; [done|]. injection Hbody as <-. destruct reply; [right|by left].
    simpl in Ev. congruence.
  - intros id c' e E' Er. destruct (Hfrom _ _ E') as (c & Ec & _ & _ & _ & -> & _ & [->|[Hs Han]]); [by eapply Hx|].
    destruct (an_error _ _ _ _ Han) as [Eq|[Hio|Eq]]; [eapply Hx; [done|congruence]|by rewrite Er in Hio|].
    exists resp, reply. split_and!; [done|by eapply list_elem_of_lookup_2|congruence].
Qed.

(** More is written for it. *)
Lemma client_more rs l n s :
  client_ok rs n s → (clean → ∀ resp b, (resp, b) ∈ l → asked (rs_Seq resp) s) → client_ok (rs ++ l) n s.
Proof.
  intros [Hrpc Hh Ht Hwr Hf He Hwi Ho Ha Hi Hg Hr Hx] Hl. split; try done.
  - rewrite length_app. lia.
  - intros resp b Hcl [Hin|Hin]%elem_of_app; eauto.
  - intros o resp Ei. destruct (Hi _ _ Ei) as [b Hb]. exists b. by apply lookup_app_l_Some.
  - intros m resp b Hcl [Hm|[Hle Hm]]%lookup_app_Some Hor; [by eauto|].
    destruct Hor as [?|(-> & o & r & Ei)]; [lia|]. destruct (Hi _ _ Ei) as [b' Hb%lookup_lt_Some]. lia.
  - intros id c v Ec Ev. destruct (Hr _ _ _ Ec Ev) as (resp & b & ? & ? & ? & ?). exists resp, b.
    split_and!; [done|apply elem_of_app; by left|done|done].
  - intros id c e Ec Ev. destruct (Hx _ _ _ Ec Ev) as (resp & b & ? & ? & ?). exists resp, b.
    split_and!; [done|apply elem_of_app; by left|done].
Qed.

(** What is written stays written. *)
Lemma event_wire e s s' : counted_event e s = Some s' → ∃ l, wire s' = wire s ++ l.
Proof.
  unfold counted_event. case_decide; [|done]. intros E. destruct e; simpl in E;
    unfold send_register, send_write, send_failed, sendWithoutReply, input_header, input_body,
      input_terminate, Close_begin, Close_send, heart_tick, heart_call, heart_back, heart_close, Close_begin,
      call_timeout in E;
    repeat (case_match; simplify_eq/=; try done); first [by eexists|exists []; by rewrite app_nil_r].
Qed.
End client_side.
Lemma client_ok_less {V} (P Q : Prop) rs n (s : TcpClient V) : (Q → P) → client_ok P rs n s → client_ok Q rs n s.
Proof. intros HQ [Hrpc Hh Ht Hwr Hf He Hwi Ho Ha Hi Hg Hr Hx]. split; eauto. Qed.

(** ** All clients and the server *)
Section whole.
Context {V : Type}.
Implicit Types (s : system V) (srv : Server V) (c : Call V) (fl : flight V).

(** The requests of connection [i] that were read. *)
Definition read_from (i : positive) (l : list (positive * Request * bool)) : list Request :=
  omap (λ x, if decide (x.1.1 = i) then Some x.1.2 else None) l.

(** A response on connection [i] comes from a request its client has written, either from the
    handler of that request, which is no one-way request then, or from its refusal. *)
Definition came_from s (i : positive) (resp : Response) (b : option V) : Prop :=
  ∃ r a, (r, a) ∈ wire (client_of s i) ∧ rq_Seq r = rs_Seq resp ∧
    ((∃ fl v, (fl, rs_Error resp, v) ∈ returned s ∧ fl_conn fl = i ∧ fl_read fl = r ∧ fl_argv fl = a ∧
        rq_Type r = RPC_CALL_TYPE_NORMAL ∧
        b = if decide (rs_Error resp = "") then (λ _, v) <$> mt_ReplyType (fl_mtype fl) else None) ∨
     (i, r, rs_Error resp) ∈ refused s ∧ rs_Error resp ≠ "").

(** No one-way request of connection [i] was refused. *)
Definition one_ways_served (i : positive) (rf : list (positive * Request * string)) : Prop :=
  ∀ r e, (i, r, e) ∈ rf → rq_Type r = RPC_CALL_TYPE_NORMAL.

Record system_ok s : Prop := {
  sy_client i : client_ok (one_ways_served i (refused s)) (sent_to i (responses (server s))) (got s i) (client_of s i);
  sy_server : server_ok (read_log s) (server s);
  sy_taken i : taken s i ≤ length (wire (client_of s i));
  sy_read i : read_from i (read_log s) = take (taken s i) (wire (client_of s i)).*1;
  sy_flight fl : fl ∈ inflight (server s) → (fl_read fl, fl_argv fl) ∈ wire (client_of s (fl_conn fl));
  sy_sent i resp b : (i, resp, b) ∈ responses (server s) → came_from s i resp b }.

Lemma no_calls_yet_ok debug : system_ok (no_calls_yet debug : system V).
Proof.
  split; simpl; try done.
  - intros i. apply NewClient_ok.
  - split; simpl; try done; try set_solver. constructor.
  - by intros fl ?%elem_of_nil.
  - by intros i resp b ?%elem_of_nil.
Qed.

Lemma sent_to_elem i (l : list (positive * Response * option V)) resp b :
  (resp, b) ∈ sent_to i l ↔ (i, resp, b) ∈ l.
Proof.
  unfold sent_to. rewrite list_elem_of_omap. split.
  - intros ([[j r] b'] & Hin & E). simpl in E. case_decide; simplify_eq. done.
  - intros Hin. exists (i, resp, b). split; [done|]. simpl. by rewrite decide_True.
Qed.

Lemma came_from_grows s s' i resp b l :
  came_from s i resp b → wire (client_of s' i) = wire (client_of s i) ++ l →
  returned s ⊆ returned s' → refused s ⊆ refused s' → came_from s' i resp b.
Proof.
  intros (r & a & Hin & Hs & Hor) Ew Hr Hf. exists r, a. rewrite Ew, elem_of_app.
  split_and!; [by left|done|]. destruct Hor as [(fl & w & ? & ?)|[? ?]]; [left|right].
  - exists fl, w. split; [by apply Hr|done].
  - split; [by apply Hf|done].
Qed.

(** A step of one client leaves the rest alone. *)
Lemma system_client_ok s i (c : TcpClient V) l g :
  system_ok s → client_ok (one_ways_served i (refused s)) (sent_to i (responses (server s))) (g i) c → wire c = wire (client_of s i) ++ l →
  (∀ j, i ≠ j → g j = got s j) →
  system_ok (mkSystem (<[i := c]> (client_of s)) (server s) (taken s) g (read_log s)
    (refused s) (returned s)).
Proof.
  intros [Hc Hsv Ht Hrd Hfl Hst] Hci Ew Hg.
  assert (∀ j, ∃ k, wire (<[i := c]> (client_of s) j) = wire (client_of s j) ++ k) as Hw.
  { intros j. destruct (decide (i = j)) as [<-|]; [rewrite fn_lookup_insert; eauto|].
    rewrite fn_lookup_insert_ne by done. exists []. by rewrite app_nil_r. }
  split; simpl; try done.
  - intros j. destruct (decide (i = j)) as [<-|]; [by rewrite fn_lookup_insert|].
    by rewrite fn_lookup_insert_ne, Hg.
  - intros j. destruct (Hw j) as [k ->]. rewrite length_app. specialize (Ht j). lia.
  - intros j. destruct (Hw j) as [k ->]. rewrite Hrd, fmap_app, take_app_le; [done|]. rewrite length_fmap. apply Ht.
  - intros fl Hin. destruct (Hw (fl_conn fl)) as [k ->]. apply elem_of_app. left. by apply Hfl.
  - intros j resp b Hin. destruct (Hw j) as [k Ek]. by eapply came_from_grows; [by apply Hst|exact Ek|..].
Qed.

(** What reading a request and ending a call do to the server. *)
Lemma serve_effect srv i req body :
  ∃ l k, responses (serve i (Ok req) body srv) = responses srv ++ l ∧
    inflight (serve i (Ok req) body srv) = inflight srv ++ k ∧
    match readRequest (serviceMap srv) (Ok req) body with
    | RStop => False
    | RError r e => r = req ∧ k = [] ∧ l = [(i, mkResponse (rq_ServiceMethod req) (rq_Seq req) e, None)]
    | RCall r mt a => r = req ∧ body = Ok a ∧ l = [] ∧ ∃ cell, k = [mkFlight i cell req mt a false]
    end.
Proof.
  unfold serve. destruct (getRequest srv) as [cell srv1] eqn:Eg.
  assert (serviceMap srv1 = serviceMap srv ∧ responses srv1 = responses srv ∧ inflight srv1 = inflight srv)
    as (Es & <- & <-) by (unfold getRequest in Eg; by destruct (freeReq srv); simplify_eq).
  rewrite Es. unfold readRequest. destruct (resolve (serviceMap srv) req) as [mt|e]; [destruct body as [a|e]|]; simpl.
  - exists [], [mkFlight i cell req mt a false]. rewrite app_nil_r. split_and!; eauto.
  - exists [(i, mkResponse (rq_ServiceMethod req) (rq_Seq req) e, None)], []. rewrite lookup_insert_eq, app_nil_r.
    by destruct (decide (e = "")).
  - exists [(i, mkResponse (rq_ServiceMethod req) (rq_Seq req) e, None)], []. rewrite lookup_insert_eq, app_nil_r.
    by destruct (decide (e = "")).
Qed.

Lemma call_effect read srv fl errmsg w rest :
  server_ok read srv → fl ∈ inflight srv →
  inflight (call fl errmsg w rest srv) = rest ∧
  responses (call fl errmsg w rest srv) = responses srv ++
    (if decide (rq_Type (fl_read fl) = RPC_CALL_TYPE_NORMAL) then
       [(fl_conn fl, mkResponse (rq_ServiceMethod (fl_read fl)) (rq_Seq (fl_read fl)) errmsg,
         if decide (errmsg = "") then (λ _, w) <$> mt_ReplyType (fl_mtype fl) else None)] else []).
Proof.
  intros Hok Hin. unfold call, freeRequest, sendResponse. simpl. rewrite (so_cells _ _ Hok _ Hin). simpl.
  case_decide; simpl; [|by rewrite app_nil_r]. rewrite ?(so_cells _ _ Hok _ Hin). simpl.
  by destruct (mt_ReplyType (fl_mtype fl)).
Qed.

(** The server's part of a step: what it wrote has a reason. *)
Lemma system_server_ok s srv t log rf rt l :
  system_ok s → server_ok log srv →
  (∀ i, t i ≤ length (wire (client_of s i))) →
  (∀ i, read_from i log = take (t i) (wire (client_of s i)).*1) →
  (∀ fl, fl ∈ inflight srv → (fl_read fl, fl_argv fl) ∈ wire (client_of s (fl_conn fl))) →
  responses srv = responses (server s) ++ l → returned s ⊆ rt → refused s ⊆ rf →
  (∀ i resp b, (i, resp, b) ∈ l →
     came_from (mkSystem (client_of s) srv t (got s) log rf rt) i resp b) →
  system_ok (mkSystem (client_of s) srv t (got s) log rf rt).
Proof.
  intros [Hc Hsv Ht Hrd Hfl Hst] Hsrv Ht' Hrd' Hfl' Er Hrt Hrf Hl. split; simpl; try done.
  - intros i. rewrite Er. unfold sent_to. rewrite omap_app. apply client_more.
    { eapply client_ok_less; [|apply Hc]. intros Hone r e Hin. by eapply Hone, Hrf. }
    intros Hone resp b Hin. fold (sent_to (V := V)) in Hin. apply sent_to_elem in Hin.
    destruct (Hl _ _ _ Hin) as (r & a & ? & ? & [(fl & v & _ & _ & _ & _ & Ht1 & _)|[Hrr _]]); exists r, a;
      split_and!; try done. by eapply Hone.
  - intros i resp b Hin. rewrite Er in Hin. apply elem_of_app in Hin as [Hin|Hin]; [|by apply Hl].
    eapply came_from_grows; [by apply Hst|by rewrite app_nil_r|done|done].
Qed.

Lemma read_from_app i l k : read_from i (l ++ k) = read_from i l ++ read_from i k.
Proof. apply omap_app. Qed.

Lemma register_effect r name useName srv srv' e :
  register r name useName srv = Ret (srv', e) → responses srv' = responses srv ∧ inflight srv' = inflight srv.
Proof.
  intros E. destruct e as [e|]; [by apply register_refused in E as ->|].
  by apply register_run in E as (methods & _ & _ & ->).
Qed.

Lemma system_register_ok s r name useName s' :
  system_ok s → system_run (SRegister r name useName) s = Some s' → system_ok s'.
Proof.
  intros Hok E. simpl in E. destruct (register r name useName (server s)) as [[srv e]| |] eqn:Er; try done.
  injection E as <-. destruct (register_effect _ _ _ _ _ _ Er) as [Ers Efl].
  apply (system_server_ok s srv _ _ _ _ [] Hok); rewrite ?Efl, ?Ers, ?app_nil_r; try done; try apply Hok.
  - rewrite <- (app_nil_r (read_log s)). eapply server_step_ok; [apply Hok|by econstructor].
  - by intros i resp b ?%elem_of_nil.
Qed.

Lemma system_read_error_ok s i e s' :
  system_ok s → system_run (SReadError i e) s = Some s' → system_ok s'.
Proof.
  intros Hok E. simpl in E. case_decide as Hst; [done|]. injection E as <-.
  assert (responses (serve i (Err e) (Err e) (server s)) = responses (server s) ∧
          inflight (serve i (Err e) (Err e) (server s)) = inflight (server s)) as [Ers Efl].
  { unfold serve, getRequest. by destruct (freeReq (server s)). }
  apply (system_server_ok s _ _ _ _ _ [] Hok); rewrite ?Efl, ?Ers, ?app_nil_r; try done; try apply Hok.
  - rewrite <- (app_nil_r (read_log s)). eapply server_step_ok; [apply Hok|by apply step_header_error].
  - by intros j resp b ?%elem_of_nil.
Qed.

Lemma system_read_ok s i bad s' :
  system_ok s → permitted (SRead i bad) s → system_run (SRead i bad) s = Some s' → system_ok s'.
Proof.
  intros Hok Hbad%bool_decide_unpack E. cbn [system_run] in E. case_decide as Hst; [done|].
  apply bind_Some in E as ([req a] & Hw & E). injection E as <-.
  set (body := match bad with Some e => Err e | None => Ok a end).
  set (why := match resolve (serviceMap (server s)) req with Err e => Some e | Ok _ => bad end).
  assert ((req, a) ∈ wire (client_of s i)) as Hin by by eapply list_elem_of_lookup_2.
  destruct (serve_effect (server s) i req body) as (l & k & Er & Ef & Hres).
  apply (system_server_ok s _ _ _ _ _ l Hok); try done.
  - replace (match why with None => true | _ => false end) with
      (match resolve (serviceMap (server s)) req, body with Ok _, Ok _ => true | _, _ => false end).
    { eapply server_step_ok; [apply Hok|by apply step_serve]. }
    unfold why, body. by destruct (resolve _ req), bad.
  - intros j. destruct (decide (i = j)) as [<-|]; [|rewrite fn_lookup_insert_ne by done; apply Hok].
    rewrite fn_lookup_insert. by apply lookup_lt_Some in Hw.
  - intros j. rewrite read_from_app, (sy_read _ Hok). unfold read_from. simpl.
    destruct (decide (i = j)) as [<-|]; [|by rewrite fn_lookup_insert_ne, app_nil_r by done].
    rewrite fn_lookup_insert. symmetry. apply take_S_r. by rewrite list_lookup_fmap, Hw.
  - rewrite Ef. intros fl [Hfl|Hfl]%elem_of_app; [by apply Hok|].
    destruct (readRequest _ _ _) as [|r e|r mt a'] eqn:Eq; [done| |]; destruct Hres as (-> & Hk & Hl).
    + subst k. by apply elem_of_nil in Hfl.
    + destruct Hl as (_ & cell & ->). apply list_elem_of_singleton in Hfl as ->. simpl.
      unfold body in Hk. destruct bad; [done|]. by injection Hk as <-.
  - by destruct why; [apply list_subseteq_app_l|].
  - intros j resp b Hl. destruct (readRequest _ _ _) as [|r e|r mt a'] eqn:Eq; [done| |];
      destruct Hres as (-> & Hk & Hres); [|destruct Hres as [-> _]; by apply elem_of_nil in Hl].
    rewrite Hres in Hl. apply list_elem_of_singleton in Hl. injection Hl as -> -> ->.
    assert (why = Some e ∧ e ≠ "") as [Ewhy Hne].
    { unfold readRequest in Eq. unfold why. destruct (resolve (serviceMap (server s)) req) as [mt|e'] eqn:Eres.
      - unfold body in Eq. destruct bad as [e'|]; [|done]. injection Eq as <-. split; congruence.
      - injection Eq as <-. split; [done|]. by eapply resolve_error_ne. }
    exists req, a. split_and!; [done|done|].
    right. simpl. rewrite Ewhy. split; [|done]. apply elem_of_app. right. by apply list_elem_of_singleton.
Qed.

Lemma system_begin_ok s n s' : system_ok s → system_run (SBegin n) s = Some s' → system_ok s'.
Proof.
  intros Hok E. cbn [system_run] in E. apply bind_Some in E as (fl & Hfl & E).
  destruct (fl_started fl) eqn:Hst; [done|]. injection E as <-. apply take_drop_middle in Hfl as Hsp.
  apply (system_server_ok s _ _ _ _ _ [] Hok); rewrite ?app_nil_r; try done; try apply Hok.
  - rewrite <- (app_nil_r (read_log s)). eapply server_step_ok; [apply Hok|by apply step_begin].
  - simpl. intros fl' Hin. assert (∀ x, x ∈ take n (inflight (server s)) ++ fl :: drop (S n) (inflight (server s)) →
      (fl_read x, fl_argv x) ∈ wire (client_of s (fl_conn x))) as Hall by (rewrite Hsp; apply Hok).
    apply elem_of_app in Hin as [Hin|[->|Hin]%elem_of_cons].
    + apply Hall, elem_of_app. by left.
    + apply (Hall fl), elem_of_app. right. by left.
    + apply Hall, elem_of_app. right. by right.
  - by intros i resp b ?%elem_of_nil.
Qed.

Lemma system_return_ok s n errmsg w s' :
  system_ok s → system_run (SReturn n errmsg w) s = Some s' → system_ok s'.
Proof.
  intros Hok E. cbn [system_run] in E. apply bind_Some in E as (fl & Hfl & E).
  destruct (fl_started fl) eqn:Hst; [|done]. injection E as <-.
  assert (fl ∈ inflight (server s)) as Hin by by eapply list_elem_of_lookup_2.
  destruct (call_effect _ _ _ errmsg w (delete n (inflight (server s))) (sy_server _ Hok) Hin) as [Ef Er].
  eapply (system_server_ok s _ _ _ _ _ _ Hok); try apply Hok; [| |exact Er| |done|].
  - destruct (list_elem_of_split_length _ _ _ Hfl) as (l1 & l2 & Esp & ->).
    rewrite Esp, delete_middle, <- (app_nil_r (read_log s)).
    eapply server_step_ok; [apply Hok|by apply step_call].
  - rewrite Ef. intros fl' Hfl'. apply Hok. eapply elem_of_submseteq; [exact Hfl'|]. by apply submseteq_delete.
  - by apply list_subseteq_app_l.
  - intros i resp b Hb. case_decide as Ht; [|by apply elem_of_nil in Hb].
    apply list_elem_of_singleton in Hb. injection Hb as -> -> ->.
    exists (fl_read fl), (fl_argv fl). split_and!; [by apply Hok|done|]. left. exists fl, w. simpl.
    split_and!; try done. apply elem_of_app. right. by apply list_elem_of_singleton.
Qed.

Lemma system_step_ok s s' : system_ok s → system_step s s' → system_ok s'.
Proof.
  intros Hok [e E]. unfold permitted_run in E. destruct (permitted e s) eqn:Hp; [|done].
  apply Is_true_true in Hp. destruct e as [i e|r name un|i bad|i e|n|n errmsg w|i|i bad u].
  - cbn [system_run] in E. destruct (arrival e) eqn:Ha; [done|]. apply bind_Some in E as (c & Ec & E).
    injection E as <-. destruct (event_wire _ _ _ Ec) as [l Hl].
    eapply system_client_ok; [done| |exact Hl|done]. eapply client_event_ok; [by apply Hok|done|done|done].
  - by eapply system_register_ok.
  - by eapply system_read_ok.
  - by eapply system_read_error_ok.
  - by eapply system_begin_ok.
  - by eapply system_return_ok.
  - cbn [system_run] in E. apply bind_Some in E as ([resp b] & Hn & E). apply bind_Some in E as (c & Ec & E).
    injection E as <-. destruct (event_wire _ _ _ Ec) as [l Hl].
    eapply system_client_ok; [done| |exact Hl|done]. eapply client_header_ok; [apply Hok|exact Hn|exact Ec].
  - cbn [system_run] in E. apply bind_Some in E as ([resp b] & Hn & E). apply bind_Some in E as (c & Ec & E).
    injection E as <-. destruct (event_wire _ _ _ Ec) as [l Hl].
    eapply system_client_ok; [done| |exact Hl|by intros; rewrite fn_lookup_insert_ne].
    rewrite fn_lookup_insert. eapply client_body_ok; [apply Hok|exact Hn|exact Ec].
Qed.

Lemma system_reachable_ok debug s : rtc system_step (no_calls_yet debug) s → system_ok s.
Proof. exact (rtc_preserves _ _ _ _ system_step_ok (no_calls_yet_ok debug)). Qed.

(** The call [c] of client [i] is the one [fl] is under way for. *)
Definition serves (i : positive) c fl : Prop :=
  fl_conn fl = i ∧ rq_ServiceMethod (fl_read fl) = c_ServiceMethod c ∧ fl_argv fl = c_Args c ∧
  c_seq c = Some (rq_Seq (fl_read fl)).
(** Everything that was written on connection [i] has been read, and no handler is under way. *)
Definition settled (i : positive) s : Prop :=
  taken s i = length (wire (client_of s i)) ∧ (∀ fl, fl ∈ inflight (server s) → fl_conn fl ≠ i) ∧
  got s i = length (sent_to i (responses (server s))).

(** Of the call's own request, or of a one-way request that went out with its number. *)
Definition refused_for (i : positive) c (e : string) s : Prop :=
  ∃ r, (i, r, e) ∈ refused s ∧ c_seq c = Some (rq_Seq r) ∧
    (rq_Type r = RPC_CALL_TYPE_NORMAL → rq_ServiceMethod r = c_ServiceMethod c).

Lemma own_response s i id c resp b :
  system_ok s → calls (client_of s i) !! id = Some c → c_seq c = Some (rs_Seq resp) →
  (resp, b) ∈ sent_to i (responses (server s)) →
  (∃ fl v, (fl, rs_Error resp, v) ∈ returned s ∧ serves i c fl ∧
     b = if decide (rs_Error resp = "") then (λ _, v) <$> mt_ReplyType (fl_mtype fl) else None) ∨
  refused_for i c (rs_Error resp) s ∧ rs_Error resp ≠ "".
Proof.
  intros Hok Hid Hs Hin%sent_to_elem. destruct (sy_sent _ Hok _ _ _ Hin) as (r & a & Hw & Hq & Hor).
  assert (rq_Type r = RPC_CALL_TYPE_NORMAL → rq_ServiceMethod r = c_ServiceMethod c ∧ a = c_Args c) as Hown.
  { intros Ht. destruct (cl_wire _ _ _ _ (sy_client _ Hok i) _ _ Hw Ht) as (id' & c' & Hid' & Hs' & Hm & Ha).
    pose proof (ro_core _ (cl_rpc _ _ _ _ (sy_client _ Hok i))) as Hcore.
    assert (id' = id) as -> by (eapply (co_inj _ _ _ _ Hcore); [exact Hid'|exact Hid|exact Hs'|congruence]).
    assert (c' = c) as -> by congruence. by split. }
  destruct Hor as [(fl & v & Hr & Hcn & <- & Hav & Ht & ->)|[Hr Hne]].
  - left. destruct (Hown Ht) as [Hm Ha]. exists fl, v. split_and!; [done| |done]. split_and!; congruence.
  - right. split; [|done]. exists r. split_and!; [done|congruence|]. intros Ht. by destruct (Hown Ht).
Qed.

Lemma settled_done s i id c :
  system_ok s → one_ways_served i (refused s) → settled i s → reqMutex (client_of s i) = SIdle →
  calls (client_of s i) !! id = Some c → c_done c ≠ 0.
Proof.
  intros Hok Hone (Htk & Hfl & Hgot) Hm Hid Hd. pose proof (sy_client _ Hok i) as Hcl.
  destruct (co_open _ _ _ _ (ro_core _ (cl_rpc _ _ _ _ Hcl)) _ _ Hid Hd) as (k & Hk & Hor).
  assert (∀ o resp, input (client_of s i) ≠ IBody o resp) as Hin.
  { intros o resp Ei. destruct (cl_input _ _ _ _ Hcl _ _ Ei) as [b Hb%lookup_lt_Some]. lia. }
  destruct Hor as [Hp|Hh]; cycle 1.
  { destruct (input (client_of s i)) as [|o resp| |] eqn:Ei; simpl in Hh; rewrite ?lookup_empty in Hh; try done.
    by destruct (Hin o resp). }
  destruct (cl_open _ _ _ _ Hcl _ _ _ Hone Hid Hd Hk) as [[[? ?]|[? ?]]|(r & a & Hw & Ht & Hq)]; [congruence..|].
  assert (r ∈ read_from i (read_log s)) as Hr.
  { rewrite (sy_read _ Hok), Htk, <- (length_fmap fst), take_ge by done. by apply (list_elem_of_fmap_2 fst _ (r, a)). }
  unfold read_from in Hr. apply list_elem_of_omap in Hr as ([[j r'] h] & Hlog & Ej). simpl in Ej.
  destruct (decide (j = i)) as [->|]; [injection Ej as ->|done].
  assert (echo (i, r, h) ∈ (response_echo <$> responses (server s)) ++
    (echo <$> filter answered (flight_read <$> inflight (server s)))) as He.
  { rewrite (so_answers _ _ (sy_server _ Hok)). apply list_elem_of_fmap_2, list_elem_of_filter.
    split; [|done]. unfold answered. rewrite bool_decide_true by done. by rewrite orb_true_r. }
  apply elem_of_app in He as [He|He]; apply list_elem_of_fmap in He as (x & Ex & Hx).
  - destruct x as [[j resp] b]. unfold echo, response_echo in Ex. simpl in Ex. injection Ex as <- _ Eq.
    apply sent_to_elem, list_elem_of_lookup in Hx as [m Hm']. apply lookup_lt_Some in Hm' as Hlt.
    rewrite <- Hgot in Hlt.
    pose proof (cl_got _ _ _ _ Hcl m resp b Hone Hm' (or_introl Hlt)) as Hnone.
    unfold live_pending in Hp. destruct (input (client_of s i)); rewrite ?lookup_empty in Hp; congruence.
  - apply list_elem_of_filter in Hx as [_ Hx]. apply list_elem_of_fmap in Hx as (fl & -> & Hx).
    unfold echo in Ex. injection Ex as Ex _ _. by destruct (Hfl _ Hx).
Qed.

(** C3: however the events of any number of clients and of the server they call
    interleave: a reply is what the method the call names returned, without an error,
    when it ran with the call's own argument, for this very call; an error of the
    server's is the one this call's handler returned, or the one this call's request was
    refused with, or, as one-way requests go out with the number of the last call, the
    one such a request with this call's number was refused with; and when what is
    written on a connection has been read at both ends, its handlers have returned and
    none of its one-way requests was refused, no call of its client is left waiting. *)
Theorem remote_calls debug s i id c :
  rtc system_step (no_calls_yet debug) s → calls (client_of s i) !! id = Some c →
  (∀ v, c_Reply c = Some v →
     ∃ fl w, (fl, "", w) ∈ returned s ∧ serves i c fl ∧ (v = w ∨ mt_ReplyType (fl_mtype fl) = None)) ∧
  (∀ e, c_Error c = Some (RpcClient.ServerError e) →
     (∃ fl w, (fl, e, w) ∈ returned s ∧ serves i c fl) ∨
     (∃ r, (i, r, e) ∈ refused s ∧ c_seq c = Some (rq_Seq r) ∧
        (rq_Type r = RPC_CALL_TYPE_NORMAL → rq_ServiceMethod r = c_ServiceMethod c))) ∧
  (one_ways_served i (refused s) → settled i s → reqMutex (client_of s i) = SIdle → c_done c ≠ 0).
Proof.
  intros Hr%system_reachable_ok Hid. pose proof (sy_client _ Hr i) as Hcl. split_and!.
  - intros v Hv. destruct (cl_reply _ _ _ _ Hcl _ _ _ Hid Hv) as (resp & b & Hs & Hin & He & Hb).
    destruct (own_response _ _ _ _ _ _ Hr Hid Hs Hin) as [(fl & w & Hret & Hsv & Eb)|[_ Hne]]; [|done].
    rewrite He in *. exists fl, w. split_and!; [done|done|]. rewrite decide_True in Eb by done.
    destruct (mt_ReplyType (fl_mtype fl)); [left|by right]. simpl in Eb. destruct Hb; congruence.
  - intros e He. destruct (cl_error _ _ _ _ Hcl _ _ _ Hid He) as (resp & b & Hs & Hin & <-).
    destruct (own_response _ _ _ _ _ _ Hr Hid Hs Hin) as [(fl & w & ? & ? & _)|[? _]]; eauto.
  - intros Hone Hst Hm. by eapply settled_done.
Qed.
End whole.

(** ** Witness

    Two clients call the method the server answers itself, and one of them a service it
    does not have; the second one's answer is written first. A third sends a one-way
    request that is refused while its call is under way. *)
Definition no_heartbeat (_ : positive) : bool := true.
Definition three_callers_run : list (system_event nat) :=
  [SRegister InnerResponse "" false;
   SClient 1 (ESend 7 "InnerResponse.HeartBeat" 3); SClient 2 (ESend 7 "InnerResponse.HeartBeat" 4);
   SClient 1 (EWrite None); SClient 2 (EWrite None); SRead 1 None; SRead 2 None;
   SBegin 1; SBegin 0; SReturn 1 "" 41; SReturn 0 "" 31; SHeader 2; SBody 2 None 0; SHeader 1; SBody 1 None 0;
   SClient 1 (ESend 8 "Room.Join" 5); SClient 1 (EWrite None); SRead 1 None; SHeader 1; SBody 1 None 0;
   SClient 3 (ESend 7 "InnerResponse.HeartBeat" 9); SClient 3 (EWrite None);
   SClient 3 (EOneWay 8 "Room.Leave" 6 None); SRead 3 None; SRead 3 None; SHeader 3; SBody 3 None 0].

Lemma remote_calls_witness :
  ∃ s c c' c3, rtc system_step (no_calls_yet no_heartbeat) s ∧
    calls (client_of s 1) !! 7%positive = Some c ∧ c_Reply c = Some 31 ∧
    calls (client_of s 1) !! 8%positive = Some c' ∧
    c_Error c' = Some (RpcClient.ServerError "rpc: can't find service Room.Join") ∧
    (∃ fl w, (fl, "", w) ∈ returned s ∧ serves 1 c fl ∧ (31 = w ∨ mt_ReplyType (fl_mtype fl) = None)) ∧
    calls (client_of s 3) !! 7%positive = Some c3 ∧
    c_Error c3 = Some (RpcClient.ServerError "rpc: can't find service Room.Leave") ∧
    ((∃ fl w, (fl, "rpc: can't find service Room.Leave", w) ∈ returned s ∧ serves 3 c3 fl) ∨
     (∃ r, (3%positive, r, "rpc: can't find service Room.Leave") ∈ refused s ∧ c_seq c3 = Some (rq_Seq r) ∧
        (rq_Type r = RPC_CALL_TYPE_NORMAL → rq_ServiceMethod r = c_ServiceMethod c3))).
Proof.
  assert (∃ s, runs permitted_run three_callers_run (no_calls_yet no_heartbeat) = Some s ∧
    (c_Reply <$> calls (client_of s 1) !! 7%positive) = Some (Some 31) ∧
    (c_Error <$> calls (client_of s 1) !! 8%positive) =
      Some (Some (RpcClient.ServerError "rpc: can't find service Room.Join")) ∧
    (c_Error <$> calls (client_of s 3) !! 7%positive) =
      Some (Some (RpcClient.ServerError "rpc: can't find service Room.Leave"))) as (s & E & E7 & E8 & E3).
  { eexists. split; [vm_compute; reflexivity|]. split; [|split]; reflexivity. }
  apply fmap_Some in E7 as (c & Hc & Hv). apply fmap_Some in E8 as (c' & Hc' & He).
  apply fmap_Some in E3 as (c3 & Hc3 & He3).
  assert (rtc system_step (no_calls_yet no_heartbeat) s) as Hr by exact (runs_steps _ _ _ _ E).
  exists s, c, c', c3. split_and!; [exact Hr|exact Hc|exact (eq_sym Hv)|exact Hc'|exact (eq_sym He)| |exact Hc3|exact (eq_sym He3)|].
  - exact (proj1 (remote_calls no_heartbeat s 1 7 c Hr Hc) 31 (eq_sym Hv)).
  - exact (proj1 (proj2 (remote_calls no_heartbeat s 3 7 c3 Hr Hc3)) _ (eq_sym He3)).
Defined.
