(* ===== verification/RpcDebug.v ===== *)
(** * hRpc: the debug page

    debug.go.  The page lists the registered services and their methods with their
    counters.  A [sync.Map] and a Go map are walked in any order, which comes as an
    argument; [sort.Sort] is any function that keeps its contract; what is handed to
    the template is the result. *)
From stdpp Require Import sorting.
From S2P Require Import Prelude GoString GoReflect RpcClient RpcServer.

Record debugMethod := mkDebugMethod { dm_Type : methodType; dm_Name : string }.
Record debugService := mkDebugService { ds_Service : service; ds_Name : string; ds_Method : list debugMethod }.

(** [Less] of [serviceArray] and of [methodArray]. *)
Definition service_Less (a b : debugService) : bool := String.ltb (ds_Name a) (ds_Name b).
Definition method_Less (a b : debugMethod) : bool := String.ltb (dm_Name a) (dm_Name b).

(** The contract of [sort.Sort]: the elements stay the same, and none is less than the one
    before it, as long as [less] never holds both ways. *)
Definition sorts (Sort : ∀ A : Type, (A → A → bool) → list A → list A) : Prop :=
  ∀ A (less : A → A → bool) l,
    Sort A less l ≡ₚ l ∧
    ((∀ x y, less x y = false ∨ less y x = false) → Sorted (λ x y, less y x = false) (Sort A less l)).

Section page.
Context (Sort : ∀ A : Type, (A → A → bool) → list A → list A).
Context {V : Type}.

(** [ServeHTTP], the data of the page: [services] is what [Range] gives one after the
    other, [methods] what the loop over a service's methods does. *)
Definition debug_service (methods : service → list (string * methodType)) (p : string * service) : debugService :=
  let '(sname, svc) := p in
  mkDebugService svc sname
    (Sort debugMethod method_Less ((λ m, mkDebugMethod m.2 m.1) <$> methods svc)).
Definition debug_ServeHTTP (services : list (string * service)) (methods : service → list (string * methodType))
    : list debugService :=
  Sort debugService service_Less (debug_service methods <$> services).

(** [debugText]: a line for each method, under the name of its service. *)
Definition debug_lines (srv : Server V) (page : list debugService)
    : list (string * list (string * gotype * option gotype * Z)) :=
  (λ ds, (ds_Name ds, (λ dm, (dm_Name dm, mt_ArgType (dm_Type dm), mt_ReplyType (dm_Type dm),
                        NumCalls srv (ds_Name ds +:+ String dot (dm_Name dm)))) <$> ds_Method ds)) <$> page.

(** What a walk over the maps may look like. *)
Record walk (srv : Server V) (services : list (string * service)) (methods : service → list (string * methodType)) : Prop := {
  wk_services : services ≡ₚ map_to_list (serviceMap srv);
  wk_methods svc : methods svc ≡ₚ map_to_list (sv_method svc) }.

Context (HSort : sorts Sort).

Lemma ltb_not_le a b : String.ltb a b = false → String.le b a.
Proof.
  unfold String.le, String.ltb, String.leb. rewrite (String.compare_antisym a b).
  by destruct (String.compare b a).
Qed.
Lemma ltb_asym a b : String.ltb a b = false ∨ String.ltb b a = false.
Proof.
  unfold String.ltb. rewrite (String.compare_antisym a b). destruct (String.compare b a); simpl; auto.
Qed.

(** Sorting by names that are all different: the order they came in does not matter. *)
Section by_name.
Context {A : Type} (name : A → string).
Definition by_name (a b : A) : bool := String.ltb (name a) (name b).

Lemma sorted_by_name l : StronglySorted (λ x y, String.le (name x) (name y)) (Sort A by_name l).
Proof.
  assert (Transitive (λ x y : A, String.le (name x) (name y))) as Ht by (intros x y z ??; by etrans).
  apply Sorted_StronglySorted; [done|]. destruct (HSort A by_name l) as [_ Hs].
  specialize (Hs (λ x y, ltb_asym (name x) (name y))). induction Hs as [|x k Hk IH Hd]; constructor; [done|].
  inversion Hd; subst; constructor. by apply ltb_not_le.
Qed.
Lemma sort_unique l k : NoDup (name <$> l) → l ≡ₚ k → Sort A by_name l = Sort A by_name k.
Proof.
  intros Hnd Hlk. apply (StronglySorted_unique_strong (λ x y, String.le (name x) (name y))).
  - intros x y Hx Hy Hxy Hyx.
    rewrite (proj1 (HSort A by_name l)) in Hx. rewrite (proj1 (HSort A by_name k)), <- Hlk in Hy.
    assert (name x = name y) as E by (by apply (anti_symm String.le)).
    clear -Hnd Hx Hy E. induction l as [|z l IH]; [by apply elem_of_nil in Hx|].
    rewrite fmap_cons in Hnd. apply NoDup_cons in Hnd as [Hz Hnd].
    apply elem_of_cons in Hx as [->|Hx], Hy as [->|Hy]; [done| | |by apply IH].
    + destruct Hz. rewrite E. by apply list_elem_of_fmap_2.
    + destruct Hz. rewrite <- E. by apply list_elem_of_fmap_2.
  - apply sorted_by_name.
  - apply sorted_by_name.
  - by rewrite (proj1 (HSort A by_name l)), (proj1 (HSort A by_name k)).
Qed.
End by_name.

Lemma keys_of_walk {A} (m : gmap string A) l : l ≡ₚ map_to_list m → NoDup l.*1.
Proof. intros ->. apply NoDup_fst_map_to_list. Qed.

Lemma debug_service_same srv s1 m1 s2 m2 p :
  walk srv s1 m1 → walk srv s2 m2 → debug_service m1 p = debug_service m2 p.
Proof.
  intros [_ H1] [_ H2]. destruct p as [sname svc]. unfold debug_service. f_equal. apply (sort_unique dm_Name).
  - rewrite <- list_fmap_compose. exact (keys_of_walk _ _ (H1 svc)).
  - by rewrite H1, H2.
Qed.

Lemma debug_names services methods : ds_Name <$> (debug_service methods <$> services) = services.*1.
Proof. rewrite <- list_fmap_compose. apply list_fmap_ext. by intros i [sname svc] _. Qed.

(** A method is on the page exactly when the server would find it. *)
Lemma on_page srv services methods sn mn mt :
  walk srv services methods → has_char dot mn = false →
  (∃ ds, ds ∈ debug_ServeHTTP services methods ∧ ds_Name ds = sn ∧ mkDebugMethod mt mn ∈ ds_Method ds) ↔
  resolve (serviceMap srv) (mkRequest (sn +:+ String dot mn) 0 0) = Ok mt.
Proof.
  intros [Hs Hm] Hdot. unfold resolve. simpl. rewrite cut_last_app by done.
  assert (∀ svc, mkDebugMethod mt mn ∈ Sort debugMethod method_Less ((λ m, mkDebugMethod m.2 m.1) <$> methods svc) ↔
    sv_method svc !! mn = Some mt) as Hmeth.
  { intros svc. rewrite (proj1 (HSort _ _ _)), list_elem_of_fmap. rewrite <- elem_of_map_to_list. split.
    - intros ([n t] & [= -> ->] & Hin). by rewrite <- Hm.
    - intros Hin. exists (mn, mt). split; [done|]. by rewrite Hm. }
  split.
  - intros (ds & Hds & <- & Hin). unfold debug_ServeHTTP in Hds.
    rewrite (proj1 (HSort _ _ _)) in Hds. apply list_elem_of_fmap in Hds as ([sname svc] & -> & Hp).
    rewrite Hs in Hp. apply elem_of_map_to_list in Hp. simpl in *. rewrite Hp.
    apply Hmeth in Hin. by rewrite Hin.
  - destruct (serviceMap srv !! sn) as [svc|] eqn:Esv; [|done]. simpl.
    destruct (sv_method svc !! mn) as [t|] eqn:Em; [|done]. intros [= ->].
    exists (debug_service methods (sn, svc)). split; [|split; [done|by apply Hmeth]].
    unfold debug_ServeHTTP. rewrite (proj1 (HSort _ _ _)). apply list_elem_of_fmap_2.
    rewrite Hs. by apply elem_of_map_to_list.
Qed.

(** C40: in whatever order the maps are walked the page is the same: the services in the
    order of their names, and on it exactly the methods that a request would find, each
    under the name it is found by. *)
Theorem debug_page_fixed srv s1 m1 s2 m2 :
  walk srv s1 m1 → walk srv s2 m2 →
  debug_ServeHTTP s1 m1 = debug_ServeHTTP s2 m2 ∧
  StronglySorted (λ a b, String.le (ds_Name a) (ds_Name b)) (debug_ServeHTTP s1 m1) ∧
  ∀ sn mn mt, has_char dot mn = false →
    (∃ ds, ds ∈ debug_ServeHTTP s1 m1 ∧ ds_Name ds = sn ∧ mkDebugMethod mt mn ∈ ds_Method ds) ↔
    resolve (serviceMap srv) (mkRequest (sn +:+ String dot mn) 0 0) = Ok mt.
Proof.
  intros H1 H2. split; [|split; [apply sorted_by_name|by intros; apply on_page]].
  unfold debug_ServeHTTP. rewrite (list_fmap_ext (debug_service m1) (debug_service m2) s1)
    by (intros; eauto using debug_service_same).
  apply (sort_unique ds_Name).
  - rewrite debug_names. exact (keys_of_walk _ _ (wk_services _ _ _ H1)).
  - by rewrite (wk_services _ _ _ H1), (wk_services _ _ _ H2).
Qed.
End page.

(** ** Witness: a server with two services, walked both ways, and a sort by merging *)
Definition merged (A : Type) (less : A → A → bool) (l : list A) : list A :=
  @merge_sort A (λ x y, less y x = false) (λ x y, bool_eq_dec (less y x) false) l.
Lemma merged_sorts : sorts merged.
Proof.
  intros A less l. split; [apply merge_sort_Permutation|]. intros Has. apply Sorted_merge_sort.
  intros x y. destruct (Has x y); auto.
Qed.

Definition leave_method : rmethod :=
  mkRMethod "Leave" "" [TPtr (TType "room" "Room" KOther); TType "" "int" KOther] [typeOfError].
Definition room_service : service :=
  mkService "Room" (TPtr (TType "room" "Room" KOther)) {["Leave" := mkMethodType leave_method (TType "" "int" KOther) None]}.
Definition two_services : Server nat := set_services (<["Room" := room_service]> (serviceMap (@NewServer nat))) NewServer.
Definition walked : list (string * service) := map_to_list (serviceMap two_services).
Definition methods_of (svc : service) : list (string * methodType) := map_to_list (sv_method svc).

Lemma debug_page_fixed_witness :
  debug_ServeHTTP merged walked methods_of = debug_ServeHTTP merged (reverse walked) methods_of ∧
  ds_Name <$> debug_ServeHTTP merged (reverse walked) methods_of = ["InnerResponse"; "Room"].
Proof.
  assert (walk two_services walked methods_of) as H1 by by split.
  assert (walk two_services (reverse walked) methods_of) as H2 by (split; [apply reverse_Permutation|done]).
  split; [|vm_compute; reflexivity].
  exact (proj1 (debug_page_fixed merged merged_sorts two_services _ _ _ _ H1 H2)).
Defined.
