(* ===== verification/RpcCodec.v ===== *)
(** * hRpc: the gob codecs and the connections of the server

    client.go and server.go.  A request and a response are two messages on a stream,
    header and body, that go through a buffer.  encoding/gob refuses a value it cannot
    encode and then writes nothing of it; bufio keeps an error once the connection has
    failed.  What the connection does at a write comes as an argument: [None] when it
    takes everything, [Some k] when it fails after [k] messages. *)
From stdpp Require Import functions.
From S2P Require Import Prelude GoString GoReflect RpcClient RpcServer.

Section stream.
(** Headers and bodies; [encodable] is whether gob accepts a body. *)
Context {H B : Type} (encodable : B → bool).

Inductive item := Head (h : H) | Body (b : B).

(** [bufio.Writer] and the connection behind it, with what has come out at the other end.
    Messages that a full buffer passes on early are counted as in the buffer. *)
Record stream := mkStream { s_buf : list item; s_out : list item; s_broken : bool; s_open : bool }.
Definition new_stream : stream := mkStream [] [] false true.

Definition write_fails (k : nat) (st : stream) : stream :=
  let k := if s_open st then k else 0 in
  mkStream (drop k (s_buf st)) (s_out st ++ take k (s_buf st)) true (s_open st).

(** [enc.Encode(x)] and [encBuf.Flush()]: whether there was no error, and the stream. *)
Definition enc_Encode (x : item) (e : option nat) (st : stream) : bool * stream :=
  if s_broken st then (false, st)
  else if negb match x with Head _ => true | Body b => encodable b end then (false, st)
  else
    let st := mkStream (s_buf st ++ [x]) (s_out st) false (s_open st) in
    match e with None => (true, st) | Some k => (false, write_fails k st) end.
Definition encBuf_Flush (e : option nat) (st : stream) : bool * stream :=
  if s_broken st then (false, st)
  else match e with
       | None => if s_open st then (true, mkStream [] (s_out st ++ s_buf st) false true)
                 else (false, write_fails 0 st)
       | Some k => (false, write_fails k st)
       end.

(** [gobClientCodec.WriteRequest] *)
Definition WriteRequest (r : H) (body : B) (e1 e2 e3 : option nat) (st : stream) : bool * stream :=
  match enc_Encode (Head r) e1 st with
  | (false, st) => (false, st)
  | (true, st) =>
      match enc_Encode (Body body) e2 st with
      | (false, st) => (false, st)
      | (true, st) => encBuf_Flush e3 st
      end
  end.

(** [gobServerCodec], with the number of times it has closed the connection. *)
Record server_codec := mkCodec { sc_stream : stream; sc_closed : bool; sc_closes : nat }.
Definition new_codec : server_codec := mkCodec new_stream false 0.

Definition codec_Close (c : server_codec) : server_codec :=
  if sc_closed c then c
  else let st := sc_stream c in
       mkCodec (mkStream (s_buf st) (s_out st) (s_broken st) false) true (S (sc_closes c)).
Definition with_stream (st : stream) (c : server_codec) : server_codec := mkCodec st (sc_closed c) (sc_closes c).

(** [gobServerCodec.WriteResponse]: after an encoding error the buffer is flushed, and if
    that goes well the connection is closed. *)
Definition encoding_failed (e : option nat) (c : server_codec) : server_codec :=
  match encBuf_Flush e (sc_stream c) with
  | (true, st) => codec_Close (with_stream st c)
  | (false, st) => with_stream st c
  end.
Definition WriteResponse (r : H) (body : B) (e1 e2 e3 : option nat) (c : server_codec) : bool * server_codec :=
  match enc_Encode (Head r) e1 (sc_stream c) with
  | (false, st) => (false, encoding_failed e3 (with_stream st c))
  | (true, st) =>
      match enc_Encode (Body body) e2 st with
      | (false, st) => (false, encoding_failed e3 (with_stream st c))
      | (true, st) => let '(ok, st) := encBuf_Flush e3 st in (ok, with_stream st c)
      end
  end.

(** The other end reads a header and a body in turns, and stops at a message of the wrong
    kind, or when there is none. *)
Definition frames (ps : list (H * B)) : list item := ps ≫= λ p, [Head p.1; Body p.2].
Fixpoint read_frames (l : list item) : list (H * B) :=
  match l with
  | Head h :: Body b :: l => (h, b) :: read_frames l
  | _ => []
  end.

Lemma frames_app ps qs : frames (ps ++ qs) = frames ps ++ frames qs.
Proof. apply bind_app. Qed.
Lemma read_frames_app ps l : read_frames (frames ps ++ l) = ps ++ read_frames l.
Proof. induction ps as [|[h b] ps IH]; [done|]. simpl. by rewrite IH. Qed.

(** ** What is on a stream *)

(** Nothing more comes out of it. *)
Definition stuck (st : stream) : Prop := s_broken st = true ∨ s_open st = false.

(** [log] are the pairs there was an attempt to write, [acc] those whose writing
    succeeded. *)
Record stream_ok (log acc : list (H * B)) (st : stream) : Prop := {
  st_going : ¬ stuck st → s_buf st = [] ∧ s_out st = frames acc ∧ acc = log;
  st_log : s_out st `prefix_of` frames log ∧ acc `prefix_of` log;
  st_stuck : stuck st → ∃ l, s_out st = frames acc ++ l ∧ (l = [] ∨ ∃ h, l = [Head h] ∨ ∃ b, l = [Head h; Body b]) }.

Lemma stuck_dec st : stuck st ∨ st = mkStream (s_buf st) (s_out st) false true.
Proof. unfold stuck. destruct st as [b o [] []]; simpl; auto. Qed.

(** A stuck stream stays as it is. *)
Lemma stuck_fails k st : stuck st → s_broken st = false → s_out (write_fails k st) = s_out st ∧ stuck (write_fails k st).
Proof.
  intros [Hb|Ho] Hb'; [congruence|]. unfold write_fails, stuck. rewrite Ho. simpl. rewrite app_nil_r. auto.
Qed.
Lemma stuck_Encode x e st ok st' :
  stuck st → enc_Encode x e st = (ok, st') → s_out st' = s_out st ∧ stuck st' ∧ s_open st' = s_open st.
Proof.
  intros Hst E. unfold enc_Encode in E. destruct (s_broken st) eqn:Eb; [injection E as _ <-; auto|].
  destruct (negb _); [injection E as _ <-; auto|]. destruct Hst as [?|Ho]; [congruence|].
  destruct e as [k|]; injection E as _ <-; unfold write_fails, stuck; simpl; rewrite ?Ho; simpl; rewrite ?app_nil_r; auto.
Qed.
Lemma stuck_Flush e st ok st' :
  stuck st → encBuf_Flush e st = (ok, st') → ok = false ∧ s_out st' = s_out st ∧ stuck st' ∧ s_open st' = s_open st.
Proof.
  intros Hst E. unfold encBuf_Flush in E. destruct (s_broken st) eqn:Eb; [injection E as <- <-; auto|].
  destruct Hst as [?|Ho]; [congruence|]. rewrite Ho in E.
  destruct e; injection E as <- <-; unfold write_fails, stuck; simpl; rewrite ?Ho; simpl; rewrite ?app_nil_r; auto.
Qed.
Lemma stuck_write r b e1 e2 e3 st ok st' :
  stuck st → WriteRequest r b e1 e2 e3 st = (ok, st') →
  ok = false ∧ s_out st' = s_out st ∧ stuck st' ∧ s_open st' = s_open st.
Proof.
  intros Hst E. unfold WriteRequest in E. destruct (enc_Encode (Head r) e1 st) as [ok1 st1] eqn:E1.
  destruct (stuck_Encode _ _ _ _ _ Hst E1) as (Ho1 & Hs1 & Hp1). destruct ok1; [|injection E as <- <-; auto].
  destruct (enc_Encode (Body b) e2 st1) as [ok2 st2] eqn:E2.
  destruct (stuck_Encode _ _ _ _ _ Hs1 E2) as (Ho2 & Hs2 & Hp2).
  destruct ok2; [|injection E as <- <-; split_and!; congruence].
  destruct (stuck_Flush _ _ _ _ Hs2 E) as (-> & ? & ? & ?). split_and!; congruence.
Qed.
Lemma stuck_ok log acc k st st' :
  stream_ok log acc st → stuck st → stuck st' → s_out st' = s_out st → stream_ok (log ++ k) acc st'.
Proof.
  intros [_ [Hl Ha] Hs] H1 H2 E. split; rewrite ?E; [done| |auto]. split; [|by apply prefix_app_r].
  rewrite frames_app. by apply prefix_app_r.
Qed.

(** Part of a frame, after the complete ones. *)
Lemma part_ok acc r b k st :
  stuck st → (s_out st = frames acc ++ take k [Head r] ∨ s_out st = frames acc ++ take k [Head r; Body b]) →
  stream_ok (acc ++ [(r, b)]) acc st.
Proof.
  intros Hst Hor. split; [done| |].
  - split; [|by apply prefix_app_r]. rewrite frames_app. destruct Hor as [->| ->]; apply prefix_app; simpl.
    + destruct k as [|k]; simpl; [apply prefix_nil|]. rewrite take_nil. by exists [Body b].
    + apply prefix_take.
  - intros _. destruct Hor as [->| ->]; eexists; (split; [done|]).
    + destruct k as [|k]; [by left|right]. exists r. left. simpl. by rewrite take_nil.
    + destruct k as [|[|k]]; [by left|right; exists r; by left|right]. exists r. right. exists b. simpl. by rewrite take_nil.
Qed.
Lemma whole_ok acc r b : stream_ok (acc ++ [(r, b)]) (acc ++ [(r, b)]) (mkStream [] (frames acc ++ [Head r; Body b]) false true).
Proof.
  split; simpl; [by rewrite frames_app| |by intros [?|?]]. rewrite frames_app. by split.
Qed.

Lemma write_ok log acc r b e1 e2 e3 st ok st' :
  stream_ok log acc st → encodable b = true → WriteRequest r b e1 e2 e3 st = (ok, st') →
  stream_ok (log ++ [(r, b)]) (if ok then acc ++ [(r, b)] else acc) st'.
Proof.
  intros Hok Hb E. destruct (stuck_dec st) as [Hst|Est].
  - destruct (stuck_write _ _ _ _ _ _ _ _ Hst E) as (-> & Ho & Hs & Hp). by eapply stuck_ok.
  - destruct (st_going _ _ _ Hok) as (Ebuf & Eout & <-); [rewrite Est; by intros [?|?]|].
    rewrite Est, Ebuf, Eout in E. unfold WriteRequest, enc_Encode in E. simpl in E. rewrite Hb in E. simpl in E.
    destruct e1 as [k|]; [|destruct e2 as [k|]; [|destruct e3 as [k|]]]; unfold encBuf_Flush in E; simpl in E;
      injection E as <- <-.
    1-3: apply (part_ok acc r b k); [by left|simpl; auto].
    apply whole_ok.
Qed.

(** Several in a row, with those whose writing succeeded. *)
Definition write_env : Type := option nat * option nat * option nat.
Fixpoint requests_written (l : list (H * B * write_env)) (acc : list (H * B)) (st : stream) : list (H * B) * stream :=
  match l with
  | [] => (acc, st)
  | (r, b, (e1, e2, e3)) :: l =>
      let '(ok, st) := WriteRequest r b e1 e2 e3 st in
      requests_written l (if ok then acc ++ [(r, b)] else acc) st
  end.
Fixpoint responses_written (l : list (H * B * write_env)) (acc : list (H * B)) (c : server_codec) : list (H * B) * server_codec :=
  match l with
  | [] => (acc, c)
  | (r, b, (e1, e2, e3)) :: l =>
      let '(ok, c) := WriteResponse r b e1 e2 e3 c in
      responses_written l (if ok then acc ++ [(r, b)] else acc) c
  end.

Lemma frames_prefix ps qs : frames ps `prefix_of` frames qs ++ [] → ps `prefix_of` qs.
Proof.
  rewrite app_nil_r. revert qs. induction ps as [|[h b] ps IH]; intros qs Hp; [apply prefix_nil|].
  destruct qs as [|[h' b'] qs]; [by apply prefix_nil_not in Hp|]. simpl in Hp.
  apply prefix_cons_inv_1 in Hp as E1. apply prefix_cons_inv_2 in Hp as Hp2.
  apply prefix_cons_inv_1 in Hp2 as E2. apply prefix_cons_inv_2 in Hp2. simplify_eq. by apply prefix_cons, IH.
Qed.

(** What the other end reads. *)
Lemma read_ok log acc st : stream_ok log acc st →
  read_frames (s_out st) `prefix_of` log ∧
  (read_frames (s_out st) = acc ∨ ∃ p, read_frames (s_out st) = acc ++ [p]).
Proof.
  intros [Hg [Hl Ha] Hs]. assert (∀ l, s_out st = frames acc ++ l → read_frames (s_out st) = acc ++ read_frames l) as Hr
    by (intros l ->; apply read_frames_app).
  destruct (stuck_dec st) as [Hst|Est].
  - destruct (Hs Hst) as (l & E & [->|(h & [->|(b & ->)])]); rewrite (Hr _ E); simpl; rewrite ?app_nil_r; [eauto..|].
    split; [|by eauto]. apply frames_prefix. rewrite app_nil_r.
    replace (frames (acc ++ [(h, b)])) with (s_out st); [done|]. by rewrite E, frames_app.
  - destruct Hg as (_ & E & ->); [rewrite Est; by intros [?|?]|]. rewrite (Hr []), app_nil_r; [auto|by rewrite app_nil_r].
Qed.

Lemma requests_written_ok l log acc st acc' st' :
  stream_ok log acc st → Forall (λ x, encodable x.1.2 = true) l → requests_written l acc st = (acc', st') →
  stream_ok (log ++ l.*1) acc' st'.
Proof.
  intros Hok Hl. revert log acc st Hok. induction Hl as [|[[r b] [[e1 e2] e3]] l Hb _ IH]; intros log acc st Hok E; simpl in E |- *.
  - injection E as <- <-. by rewrite app_nil_r.
  - destruct (WriteRequest r b e1 e2 e3 st) as [ok st1] eqn:E1.
    pose proof (write_ok _ _ _ _ _ _ _ _ _ _ Hok Hb E1) as Hok1. rewrite cons_middle, app_assoc. by eapply IH.
Qed.

Record codec_ok (log acc : list (H * B)) (c : server_codec) : Prop := {
  cd_stream : stream_ok log acc (sc_stream c);
  cd_open : s_open (sc_stream c) = negb (sc_closed c);
  cd_closes : sc_closes c = if sc_closed c then 1 else 0 }.

Lemma codec_stuck_ok log acc k c c' :
  codec_ok log acc c → stuck (sc_stream c) → stuck (sc_stream c') → s_out (sc_stream c') = s_out (sc_stream c) →
  s_open (sc_stream c') = s_open (sc_stream c) → sc_closed c' = sc_closed c → sc_closes c' = sc_closes c →
  codec_ok (log ++ k) acc c'.
Proof.
  intros [Hs Ho Hc] H1 H2 E1 E2 E3 E4. split; [by eapply stuck_ok|by rewrite E2, E3|by rewrite E4, E3].
Qed.

Lemma stuck_encoding_failed e c : stuck (sc_stream c) →
  stuck (sc_stream (encoding_failed e c)) ∧ s_out (sc_stream (encoding_failed e c)) = s_out (sc_stream c) ∧
  s_open (sc_stream (encoding_failed e c)) = s_open (sc_stream c) ∧ sc_closed (encoding_failed e c) = sc_closed c ∧
  sc_closes (encoding_failed e c) = sc_closes c.
Proof.
  intros Hst. unfold encoding_failed. destruct (encBuf_Flush e (sc_stream c)) as [ok st] eqn:E.
  by destruct (stuck_Flush _ _ _ _ Hst E) as (-> & ? & ? & ?).
Qed.

Lemma stuck_response r b e1 e2 e3 c ok c' :
  stuck (sc_stream c) → WriteResponse r b e1 e2 e3 c = (ok, c') →
  ok = false ∧ stuck (sc_stream c') ∧ s_out (sc_stream c') = s_out (sc_stream c) ∧
  s_open (sc_stream c') = s_open (sc_stream c) ∧ sc_closed c' = sc_closed c ∧ sc_closes c' = sc_closes c.
Proof.
  intros Hst E. unfold WriteResponse in E. destruct (enc_Encode (Head r) e1 (sc_stream c)) as [ok1 st1] eqn:E1.
  destruct (stuck_Encode _ _ _ _ _ Hst E1) as (Ho1 & Hs1 & Hp1). destruct ok1; cycle 1.
  { injection E as <- <-. destruct (stuck_encoding_failed e3 (with_stream st1 c) Hs1) as (? & ? & ? & ? & ?). simpl in *.
    split_and!; (done || congruence). }
  destruct (enc_Encode (Body b) e2 st1) as [ok2 st2] eqn:E2.
  destruct (stuck_Encode _ _ _ _ _ Hs1 E2) as (Ho2 & Hs2 & Hp2). destruct ok2; cycle 1.
  { injection E as <- <-. destruct (stuck_encoding_failed e3 (with_stream st2 c) Hs2) as (? & ? & ? & ? & ?). simpl in *.
    split_and!; congruence. }
  destruct (encBuf_Flush e3 st2) as [ok3 st3] eqn:E3. destruct (stuck_Flush _ _ _ _ Hs2 E3) as (-> & ? & ? & ?).
  injection E as <- <-. simpl. split_and!; congruence.
Qed.

Lemma response_ok log acc r b e1 e2 e3 c ok c' :
  codec_ok log acc c → WriteResponse r b e1 e2 e3 c = (ok, c') →
  codec_ok (log ++ [(r, b)]) (if ok then acc ++ [(r, b)] else acc) c' ∧ (ok = false → stuck (sc_stream c')).
Proof.
  intros Hok E. destruct (stuck_dec (sc_stream c)) as [Hst|Est].
  { destruct (stuck_response _ _ _ _ _ _ _ _ Hst E) as (-> & ? & ? & ? & ? & ?).
    split; [by eapply codec_stuck_ok|done]. }
  destruct Hok as [[Hg _ _] Ho Hc]. destruct Hg as (Ebuf & Eout & <-); [rewrite Est; by intros [?|?]|].
  destruct c as [[bf o br op] cl n]. simpl in *. injection Est as -> ->. subst bf o. destruct cl; [done|]. subst n.
  unfold WriteResponse, enc_Encode, encoding_failed, encBuf_Flush in E. simpl in E.
  destruct e1 as [k|]; simpl in E; [|destruct (encodable b); [destruct e2 as [k|]; [|destruct e3 as [k|]]|destruct e3 as [k|]]];
    simpl in E; injection E as <- <-.
  1-3, 5: split; [split; [apply (part_ok acc r b k); [by left|simpl; auto]|done|done]|by left].
  - split; [|done]. split; [apply whole_ok|done|done].
  - split; [split; [apply (part_ok acc r b 1); [by right|simpl; auto]|done|done]|by right].
Qed.

Lemma responses_written_ok l log acc c acc' c' :
  codec_ok log acc c → responses_written l acc c = (acc', c') →
  codec_ok (log ++ l.*1) acc' c' ∧ length acc' ≤ length acc + length l ∧
  (length acc' < length acc + length l → stuck (sc_stream c')).
Proof.
  revert log acc c. induction l as [|[[r b] [[e1 e2] e3]] l IH]; intros log acc c Hok E; simpl in E |- *.
  - injection E as <- <-. rewrite app_nil_r. split_and!; [done|lia|lia].
  - destruct (WriteResponse r b e1 e2 e3 c) as [ok c1] eqn:E1.
    destruct (response_ok _ _ _ _ _ _ _ _ _ _ Hok E1) as [Hok1 Hf]. destruct (IH _ _ _ Hok1 E) as (H1 & H2 & H3).
    split; [by rewrite cons_middle, app_assoc|]. destruct ok; [rewrite length_app in H2, H3; simpl in H2, H3; split; [lia|]; intros ?; apply H3; lia|].
    split; [lia|]. intros _. assert (∀ l acc c, stuck (sc_stream c) → stuck (sc_stream (responses_written l acc c).2)) as Hst.
    { clear. induction l as [|[[r b] [[e1 e2] e3]] l IH]; intros acc c Hs; simpl; [done|].
      destruct (WriteResponse r b e1 e2 e3 c) as [ok c1] eqn:E1. apply IH.
      by destruct (stuck_response _ _ _ _ _ _ _ _ Hs E1) as (_ & ? & _). }
    specialize (Hst l acc c1 (Hf eq_refl)). by rewrite E in Hst.
Qed.

(** Whatever the server writes to a connection, and whatever fails, the client reads
    from it the responses in the order they were written in, whole: those whose writing
    succeeded and at most one more, whose writing failed at the end; as soon as one
    writing has failed nothing more comes out; and the connection is closed at most
    once.  The same holds of the requests a client writes, as long as their arguments
    can be encoded. *)
Theorem frames_arrive :
  (∀ l acc c, responses_written l [] new_codec = (acc, c) →
     read_frames (s_out (sc_stream c)) `prefix_of` l.*1 ∧
     (read_frames (s_out (sc_stream c)) = acc ∨ ∃ p, read_frames (s_out (sc_stream c)) = acc ++ [p]) ∧
     (length acc < length l → stuck (sc_stream c)) ∧ sc_closes c ≤ 1 ∧
     ∀ r b e1 e2 e3, stuck (sc_stream c) →
       s_out (sc_stream (WriteResponse r b e1 e2 e3 c).2) = s_out (sc_stream c)) ∧
  (∀ l acc st, Forall (λ x, encodable x.1.2 = true) l → requests_written l [] new_stream = (acc, st) →
     read_frames (s_out st) `prefix_of` l.*1 ∧
     (read_frames (s_out st) = acc ∨ ∃ p, read_frames (s_out st) = acc ++ [p])).
Proof.
  assert (stream_ok [] [] new_stream) as H0 by (split; [done|done|by intros [?|?]]).
  split.
  - intros l acc c E. assert (codec_ok [] [] new_codec) as H1 by done.
    destruct (responses_written_ok _ _ _ _ _ _ H1 E) as ([Hs _ Hc] & _ & Hst).
    destruct (read_ok _ _ _ Hs) as [Hp Hor]. split_and!; [done|done|exact Hst| |].
    + rewrite Hc. destruct (sc_closed c); lia.
    + intros r b e1 e2 e3 Hstk. destruct (WriteResponse r b e1 e2 e3 c) as [ok c'] eqn:E'.
      by destruct (stuck_response _ _ _ _ _ _ _ _ Hstk E') as (_ & _ & ? & _).
  - intros l acc st Hl E. exact (read_ok _ _ _ (requests_written_ok _ _ _ _ _ _ H0 Hl E)).
Qed.

(** A request whose argument cannot be encoded leaves its header behind: the call fails,
    and the next request that is written comes out as the header of the one refused
    followed by its own header, where its argument should be. *)
Theorem refused_argument_shifts acc r1 b1 r2 b2 st :
  stream_ok acc acc st → ¬ stuck st → encodable b1 = false → encodable b2 = true →
  let '(ok1, st1) := WriteRequest r1 b1 None None None st in
  let '(ok2, st2) := WriteRequest r2 b2 None None None st1 in
  ok1 = false ∧ ok2 = true ∧ s_out st2 = frames acc ++ [Head r1; Head r2; Body b2] ∧ read_frames (s_out st2) = acc.
Proof.
  intros [Hg _ _] Hn H1 H2. destruct (Hg Hn) as (Eb & Eo & _). destruct (stuck_dec st) as [?|Est]; [done|].
  rewrite Est, Eb, Eo. unfold WriteRequest, enc_Encode, encBuf_Flush. simpl. rewrite H1. simpl. rewrite H2. simpl.
  split_and!; [done|done|done|]. by rewrite read_frames_app, app_nil_r.
Qed.
End stream.
Arguments server_codec H B : clear implicits.
Arguments stream H B : clear implicits.

(** ** The goroutines that answer, and the end of a connection

    [sendResponse] step by step: many goroutines take cells for their responses from one
    free list and fill them, but write one at a time on a connection.  [ServeCodec] reads
    until a header cannot be read, waits for the calls it started, and closes. *)
(** Where a goroutine stands; the cell is the [Response] it holds. *)
Inductive job_pc :=
| JHandler                 (* in the handler *)
| JGet                     (* about to call [getResponse] *)
| JFill (cell : positive) | JLock (cell : positive) | JWrite (cell : positive)
| JUnlock (cell : positive) | JFree (cell : positive)
| JAnswered                (* about to return *)
| JDone.
#[global] Instance job_pc_eq_dec : EqDecision job_pc.
Proof. solve_decision. Defined.

Section answering.
Context {V : Type} (encodable : option V → bool).

(** What [sendResponse] writes; [None] is [invalidRequest]. *)
Definition answer_of (req : Request) (errmsg : string) (reply : option V) : Response * option V :=
  (mkResponse (rq_ServiceMethod req) (rq_Seq req) errmsg, if decide (errmsg = "") then reply else None).

(** [jb_own]: the reading loop itself answers, a request it refuses. *)
Record job := mkJob { jb_conn : positive; jb_own : bool; jb_req : Request; jb_err : string;
  jb_reply : option V; jb_pc : job_pc }.
Definition at_pc (pc : job_pc) (j : job) : job :=
  mkJob (jb_conn j) (jb_own j) (jb_req j) (jb_err j) (jb_reply j) pc.
Definition job_answer (j : job) : Response * option V := answer_of (jb_req j) (jb_err j) (jb_reply j).

(** Where the reading loop of a connection stands. *)
Inductive loop_pc := LReading | LAnswering (id : positive) | LWaiting | LClosed.

Record serving := mkServing {
  resp_cells : gmap positive Response;
  freeResp : list positive;
  codecs : positive → server_codec Response (option V);
  sending : positive → option positive;
  loops : positive → loop_pc;
  wg : positive → nat;
  jobs : gmap positive job;
  (** what was written, by whom, on each connection *)
  written : positive → list (positive * (Response * option V)) }.

Definition no_jobs : serving :=
  mkServing ∅ [] (λ _, new_codec) (λ _, None) (λ _, LReading) (λ _, 0) ∅ (λ _, []).

Definition set_job (id : positive) (j : job) (s : serving) : serving :=
  mkServing (resp_cells s) (freeResp s) (codecs s) (sending s) (loops s) (wg s) (<[id := j]> (jobs s)) (written s).

(** [getResponse] and [freeResponse] *)
Definition zero_response : Response := mkResponse "" 0 "".
Definition getResponse (s : serving) : positive * serving :=
  let '(r, free) := match freeResp s with [] => (fresh (dom (resp_cells s)), []) | r :: free => (r, free) end in
  (r, mkServing (<[r := zero_response]> (resp_cells s)) free (codecs s) (sending s) (loops s) (wg s) (jobs s) (written s)).
Definition freeResponse (r : positive) (s : serving) : serving :=
  mkServing (resp_cells s) (r :: freeResp s) (codecs s) (sending s) (loops s) (wg s) (jobs s) (written s).

Inductive serve_event :=
| AStart (c id : positive) (req : Request)                  (* a request for a handler is read *)
| ARefuse (c id : positive) (req : Request) (e : string)    (* one that is answered with an error *)
| AReturn (id : positive) (errmsg : string) (reply : option V)
| AGet (id : positive) | AFill (id : positive) | ALock (id : positive)
| AWrite (id : positive) (env : write_env)
| AUnlock (id : positive) | AFree (id : positive) | ADone (id : positive)
| AStop (c : positive)                                      (* a header cannot be read *)
| AClose (c : positive).

Definition serve_run (e : serve_event) (s : serving) : option serving :=
  match e with
  | AStart c id req =>
      match loops s c, jobs s !! id with
      | LReading, None =>
          Some (mkServing (resp_cells s) (freeResp s) (codecs s) (sending s) (loops s)
            (<[c := S (wg s c)]> (wg s)) (<[id := mkJob c false req "" None JHandler]> (jobs s)) (written s))
      | _, _ => None
      end
  | ARefuse c id req e =>
      match loops s c, jobs s !! id with
      | LReading, None =>
          Some (mkServing (resp_cells s) (freeResp s) (codecs s) (sending s) (<[c := LAnswering id]> (loops s))
            (wg s) (<[id := mkJob c true req e None JGet]> (jobs s)) (written s))
      | _, _ => None
      end
  | AReturn id errmsg reply =>
      j ← jobs s !! id;
      match jb_pc j with
      | JHandler =>
          let pc := if decide (rq_Type (jb_req j) = RPC_CALL_TYPE_NORMAL) then JGet else JAnswered in
          Some (set_job id (mkJob (jb_conn j) (jb_own j) (jb_req j) errmsg reply pc) s)
      | _ => None
      end
  | AGet id =>
      j ← jobs s !! id;
      match jb_pc j with
      | JGet => let '(r, s) := getResponse s in Some (set_job id (at_pc (JFill r) j) s)
      | _ => None
      end
  | AFill id =>
      j ← jobs s !! id;
      match jb_pc j with
      | JFill r =>
          Some (mkServing (<[r := (job_answer j).1]> (resp_cells s)) (freeResp s) (codecs s) (sending s) (loops s)
            (wg s) (<[id := at_pc (JLock r) j]> (jobs s)) (written s))
      | _ => None
      end
  | ALock id =>
      j ← jobs s !! id;
      match jb_pc j, sending s (jb_conn j) with
      | JLock r, None =>
          Some (mkServing (resp_cells s) (freeResp s) (codecs s) (<[jb_conn j := Some id]> (sending s)) (loops s)
            (wg s) (<[id := at_pc (JWrite r) j]> (jobs s)) (written s))
      | _, _ => None
      end
  | AWrite id (e1, e2, e3) =>
      j ← jobs s !! id;
      match jb_pc j with
      | JWrite r =>
          resp ← resp_cells s !! r;
          let c := jb_conn j in
          let body := (job_answer j).2 in
          Some (mkServing (resp_cells s) (freeResp s)
            (<[c := (WriteResponse encodable resp body e1 e2 e3 (codecs s c)).2]> (codecs s)) (sending s) (loops s)
            (wg s) (<[id := at_pc (JUnlock r) j]> (jobs s)) (<[c := written s c ++ [(id, (resp, body))]]> (written s)))
      | _ => None
      end
  | AUnlock id =>
      j ← jobs s !! id;
      match jb_pc j with
      | JUnlock r =>
          Some (mkServing (resp_cells s) (freeResp s) (codecs s) (<[jb_conn j := None]> (sending s)) (loops s)
            (wg s) (<[id := at_pc (JFree r) j]> (jobs s)) (written s))
      | _ => None
      end
  | AFree id =>
      j ← jobs s !! id;
      match jb_pc j with JFree r => Some (set_job id (at_pc JAnswered j) (freeResponse r s)) | _ => None end
  | ADone id =>
      j ← jobs s !! id;
      match jb_pc j with
      | JAnswered =>
          let c := jb_conn j in
          Some (if jb_own j then
            mkServing (resp_cells s) (freeResp s) (codecs s) (sending s) (<[c := LReading]> (loops s)) (wg s)
              (<[id := at_pc JDone j]> (jobs s)) (written s)
          else
            mkServing (resp_cells s) (freeResp s) (codecs s) (sending s) (loops s) (<[c := pred (wg s c)]> (wg s))
              (<[id := at_pc JDone j]> (jobs s)) (written s))
      | _ => None
      end
  | AStop c =>
      match loops s c with
      | LReading => Some (mkServing (resp_cells s) (freeResp s) (codecs s) (sending s) (<[c := LWaiting]> (loops s))
                     (wg s) (jobs s) (written s))
      | _ => None
      end
  | AClose c =>
      match loops s c, wg s c with
      | LWaiting, 0 =>
          Some (mkServing (resp_cells s) (freeResp s) (<[c := codec_Close (codecs s c)]> (codecs s)) (sending s)
            (<[c := LClosed]> (loops s)) (wg s) (jobs s) (written s))
      | _, _ => None
      end
  end.
Definition serve_step : relation serving := step_of serve_run.

(** It is the [sendResponse] of the server, where it is one step. *)
Lemma sendResponse_answer c r reply errmsg (srv : Server V) :
  responses (sendResponse c r reply errmsg srv) = responses srv ++
    [(c, (answer_of (default RpcServer.zero_request (requests srv !! r)) errmsg reply).1,
         (answer_of (default RpcServer.zero_request (requests srv !! r)) errmsg reply).2)].
Proof. done. Qed.

(** *** The cells: each is free or one goroutine's *)
Definition cell_of (pc : job_pc) : option positive :=
  match pc with JFill r | JLock r | JWrite r | JUnlock r | JFree r => Some r | _ => None end.
Definition filled (pc : job_pc) : bool := match pc with JLock _ | JWrite _ => true | _ => false end.

Record cells_ok (cells : gmap positive Response) (free : list positive) (js : gmap positive job) : Prop := {
  ce_nodup : NoDup free;
  ce_free r : r ∈ free → is_Some (cells !! r);
  ce_held id j r : js !! id = Some j → cell_of (jb_pc j) = Some r → r ∉ free ∧ is_Some (cells !! r);
  ce_one id1 id2 j1 j2 r : js !! id1 = Some j1 → js !! id2 = Some j2 →
    cell_of (jb_pc j1) = Some r → cell_of (jb_pc j2) = Some r → id1 = id2;
  ce_filled id j r : js !! id = Some j → filled (jb_pc j) = true → cell_of (jb_pc j) = Some r →
    cells !! r = Some (job_answer j).1 }.

(** A goroutine that keeps its cell, or gives up having one. *)
Lemma cells_move cells free js id j' :
  cells_ok cells free js →
  (∀ r, cell_of (jb_pc j') = Some r → ∃ j, js !! id = Some j ∧ cell_of (jb_pc j) = Some r ∧
     (filled (jb_pc j') = true → filled (jb_pc j) = true ∧ job_answer j' = job_answer j)) →
  cells_ok cells free (<[id := j']> js).
Proof.
  intros [Hn Hf Hh Ho Hc] Hj. split; [done|done| | |].
  - intros i d r [[<- <-]|[_ Hi]]%lookup_insert_Some Hr; [|by eauto].
    destruct (Hj r Hr) as (j & Hid & Hjr & _). by eapply Hh.
  - intros i1 i2 d1 d2 r [[<- <-]|[N1 H1]]%lookup_insert_Some [[<- <-]|[N2 H2]]%lookup_insert_Some Hr1 Hr2.
    + done.
    + destruct (Hj r Hr1) as (j & Hid & Hjr & _). by eapply (Ho id i2).
    + destruct (Hj r Hr2) as (j & Hid & Hjr & _). by eapply (Ho i1 id).
    + by eapply Ho.
  - intros i d r [[<- <-]|[_ Hi]]%lookup_insert_Some Hfl Hr; [|by eauto].
    destruct (Hj r Hr) as (j & Hid & Hjr & Ha). destruct (Ha Hfl) as [Hfl' ->]. by eapply Hc.
Qed.

Lemma cells_take cells free js id j r :
  cells_ok cells free js → cell_of (jb_pc j) = Some r → filled (jb_pc j) = false →
  r ∉ free → (∀ i d, js !! i = Some d → cell_of (jb_pc d) ≠ Some r) →
  cells_ok (<[r := zero_response]> cells) free (<[id := j]> js).
Proof.
  intros [Hn Hf Hh Ho Hc] Hr Hfl Hnf Hnone. split; [done| | | |].
  - intros r' Hr'. rewrite lookup_insert_is_Some. destruct (decide (r = r')); [by left|right]. split; [done|by apply Hf].
  - intros i d r' [[<- <-]|[_ Hi]]%lookup_insert_Some Hr'.
    + assert (r' = r) as -> by congruence. split; [done|]. rewrite lookup_insert_eq. eauto.
    + destruct (Hh _ _ _ Hi Hr') as [H1 H2]. split; [done|]. rewrite lookup_insert_is_Some.
      destruct (decide (r = r')); [by left|by right].
  - intros i1 i2 d1 d2 r' [[<- <-]|[N1 H1]]%lookup_insert_Some [[<- <-]|[N2 H2]]%lookup_insert_Some Hr1 Hr2.
    + done.
    + destruct (Hnone _ _ H2). congruence.
    + destruct (Hnone _ _ H1). congruence.
    + by eapply Ho.
  - intros i d r' [[<- <-]|[_ Hi]]%lookup_insert_Some Hfl' Hr'; [congruence|].
    rewrite lookup_insert_ne; [by eapply Hc|]. intros <-. by destruct (Hnone _ _ Hi).
Qed.

Lemma cells_fill cells free js id j r :
  cells_ok cells free js → js !! id = Some j → jb_pc j = JFill r →
  cells_ok (<[r := (job_answer j).1]> cells) free (<[id := at_pc (JLock r) j]> js).
Proof.
  intros [Hn Hf Hh Ho Hc] Hid Hpc. assert (cell_of (jb_pc j) = Some r) as Hjr by by rewrite Hpc.
  assert (∀ r', is_Some (cells !! r') → is_Some (<[r := (job_answer j).1]> cells !! r')) as Hins.
  { intros r' Hr'. rewrite lookup_insert_is_Some. destruct (decide (r = r')); [by left|by right]. }
  split; [done|by auto| | |].
  - intros i d r' [[<- <-]|[_ Hi]]%lookup_insert_Some Hr'.
    + injection Hr' as <-. destruct (Hh _ _ _ Hid Hjr). auto.
    + destruct (Hh _ _ _ Hi Hr'). auto.
  - intros i1 i2 d1 d2 r' [[<- <-]|[N1 H1]]%lookup_insert_Some [[<- <-]|[N2 H2]]%lookup_insert_Some Hr1 Hr2.
    + done.
    + injection Hr1 as <-. by eapply (Ho id i2).
    + injection Hr2 as <-. by eapply (Ho i1 id).
    + by eapply Ho.
  - intros i d r' [[<- <-]|[Hne Hi]]%lookup_insert_Some Hfl' Hr'; [injection Hr' as <-; apply lookup_insert_eq|].
    rewrite lookup_insert_ne; [by eapply Hc|]. intros <-. apply Hne. by eapply (Ho id i).
Qed.

Lemma cells_give cells free js id j r :
  cells_ok cells free js → js !! id = Some j → jb_pc j = JFree r →
  cells_ok cells (r :: free) (<[id := at_pc JAnswered j]> js).
Proof.
  intros Hok Hid Hpc. assert (cell_of (jb_pc j) = Some r) as Hjr by by rewrite Hpc.
  destruct (cells_move _ _ _ id (at_pc JAnswered j) Hok) as [Hn Hf Hh Ho Hc]; [done|].
  destruct (ce_held _ _ _ Hok _ _ _ Hid Hjr) as [Hnf Hs]. split; [by constructor| | |done|done].
  - intros r' [->|Hr']%elem_of_cons; [done|by apply Hf].
  - intros i d r' Hi Hr'. destruct (Hh _ _ _ Hi Hr') as [H1 H2]. split; [|done].
    rewrite not_elem_of_cons. split; [|done]. intros ->. apply lookup_insert_Some in Hi as [[<- <-]|[Hne Hi]]; [done|].
    apply Hne. by eapply (ce_one _ _ _ Hok id i).
Qed.

Definition serving_cells (s : serving) : Prop := cells_ok (resp_cells s) (freeResp s) (jobs s).
Lemma getResponse_ok s id j r s' :
  serving_cells s → getResponse s = (r, s') → cell_of (jb_pc j) = Some r → filled (jb_pc j) = false →
  cells_ok (resp_cells s') (freeResp s') (<[id := j]> (jobs s')).
Proof.
  intros Hok E Hr Hfl. pose proof Hok as [Hn Hf Hh Ho Hc]. unfold getResponse in E. destruct (freeResp s) as [|r' free] eqn:Efr;
    injection E as <- <-; simpl.
  - assert (resp_cells s !! fresh (dom (resp_cells s)) = None) as Hnone by (apply not_elem_of_dom, is_fresh).
    apply cells_take; [unfold serving_cells in Hok; by rewrite Efr in Hok|done|done|apply not_elem_of_nil|].
    intros i d Hi Hd. destruct (Hh _ _ _ Hi Hd) as [_ [x Hx]]. congruence.
  - apply NoDup_cons in Hn as [Hnin Hn]. apply cells_take; [|done|done|done|].
    + split; [done|by intros ??; apply Hf; right| |done|done].
      intros i d x Hi Hd. destruct (Hh _ _ _ Hi Hd) as [Hx ?]. split; [|done]. intros ?. apply Hx. by right.
    + intros i d Hi Hd. destruct (Hh _ _ _ Hi Hd) as [Hx _]. apply Hx. by left.
Qed.

Lemma serving_cells_step s s' : serving_cells s → serve_step s s' → serving_cells s'.
Proof.
  intros Hok [e E]. unfold serving_cells in *.
  destruct e as [c id req|c id req e|id em reply|id|id|id|id [[e1 e2] e3]|id|id|id|c|c]; cbn [serve_run] in E;
    try (apply bind_Some in E as (j & Hid & E); destruct (jb_pc j) as [| |r|r|r|r|r| |] eqn:Epc; try done).
  - destruct (loops s c); try done. destruct (jobs s !! id); [done|]. injection E as <-. by apply cells_move.
  - destruct (loops s c); try done. destruct (jobs s !! id); [done|]. injection E as <-. by apply cells_move.
  - injection E as <-. apply cells_move; [done|]. simpl. by case_decide.
  - destruct (getResponse s) as [r s1] eqn:Eg. injection E as <-. simpl. by eapply getResponse_ok.
  - injection E as <-. by apply cells_fill.
  - destruct (sending s (jb_conn j)); [done|]. injection E as <-. apply cells_move; [done|].
    simpl. intros r' [= <-]. exists j. by rewrite Epc.
  - apply bind_Some in E as (resp & Hr & E). injection E as <-. apply cells_move; [done|].
    simpl. intros r' [= <-]. exists j. by rewrite Epc.
  - injection E as <-. apply cells_move; [done|]. simpl. intros r' [= <-]. exists j. by rewrite Epc.
  - injection E as <-. simpl. by apply cells_give.
  - destruct (jb_own j); injection E as <-; by apply cells_move.
  - destruct (loops s c); try done. by injection E as <-.
  - destruct (loops s c); try done. destruct (wg s c); [|done]. by injection E as <-.
Qed.

(** *** What is written: each answer once, as its request has it *)
Definition past_writing (pc : job_pc) : bool :=
  match pc with JUnlock _ | JFree _ | JAnswered | JDone => true | _ => false end.
(** Does it get an answer? *)
Definition owed (j : job) : bool := jb_own j || bool_decide (rq_Type (jb_req j) = RPC_CALL_TYPE_NORMAL).

Record written_ok (s : serving) : Prop := {
  wr_codec c : ∃ acc, codec_ok (written s c).*2 acc (codecs s c);
  wr_nodup c : NoDup (written s c).*1;
  wr_job c id p : (id, p) ∈ written s c →
    ∃ j, jobs s !! id = Some j ∧ jb_conn j = c ∧ p = job_answer j ∧ past_writing (jb_pc j) = true;
  wr_all id j : jobs s !! id = Some j → past_writing (jb_pc j) = true → owed j = true →
    id ∈ (written s (jb_conn j)).*1;
  wr_own id j : jobs s !! id = Some j → jb_own j = true → jb_pc j ≠ JHandler }.

Lemma codec_Close_ok {H B} (log acc : list (H * B)) c : codec_ok log acc c → codec_ok log acc (codec_Close c).
Proof.
  intros [[Hg Hl Hs] Ho Hc]. unfold codec_Close. destruct (sc_closed c) eqn:Ec; [split; [done|by rewrite Ec|by rewrite Ec]|].
  split; simpl; [|done|by rewrite Hc]. split; simpl; [intros Hn; destruct Hn; by right|done|].
  intros _. destruct (stuck_dec (sc_stream c)) as [Hst|Est]; [by apply Hs|].
  destruct Hg as (_ & -> & _); [rewrite Est; by intros [?|?]|]. exists []. rewrite app_nil_r. auto.
Qed.

(** A goroutine goes on without writing; [codecs'] are as good as the old ones. *)
Lemma written_move s id j' codecs' js' cells free snd lps w :
  written_ok s → js' = <[id := j']> (jobs s) →
  (∀ c acc, codec_ok (written s c).*2 acc (codecs s c) → codec_ok (written s c).*2 acc (codecs' c)) →
  (jb_own j' = true → jb_pc j' ≠ JHandler) →
  (∀ j, jobs s !! id = Some j → past_writing (jb_pc j) = true →
     jb_conn j' = jb_conn j ∧ job_answer j' = job_answer j ∧ past_writing (jb_pc j') = true) →
  (past_writing (jb_pc j') = true → owed j' = true →
     ∃ j, jobs s !! id = Some j ∧ jb_conn j = jb_conn j' ∧ past_writing (jb_pc j) = true ∧ owed j = true) →
  written_ok (mkServing cells free codecs' snd lps w js' (written s)).
Proof.
  intros [Hc Hn Hj Ha Ho] -> Hcd Hown Hold Hnew. split; simpl.
  - intros c. destruct (Hc c) as [acc Hacc]. exists acc. by apply Hcd.
  - done.
  - intros c i p Hin. destruct (Hj c i p Hin) as (j & Hi & Hcn & Hp & Hpc). destruct (decide (i = id)) as [->|].
    + destruct (Hold j Hi Hpc) as (E1 & E2 & E3). exists j'. rewrite lookup_insert_eq. split_and!; congruence.
    + exists j. by rewrite lookup_insert_ne.
  - intros i d [[<- <-]|[_ Hi]]%lookup_insert_Some Hpc Hd; [|by apply Ha].
    destruct (Hnew Hpc Hd) as (j & Hid & <- & Hpj & Hdj). by apply Ha.
  - intros i d [[<- <-]|[_ Hi]]%lookup_insert_Some; [done|by eapply Ho].
Qed.

Lemma written_write s id j r e1 e2 e3 :
  written_ok s → jobs s !! id = Some j → jb_pc j = JWrite r →
  written_ok (mkServing (resp_cells s) (freeResp s)
    (<[jb_conn j := (WriteResponse encodable (job_answer j).1 (job_answer j).2 e1 e2 e3 (codecs s (jb_conn j))).2]> (codecs s))
    (sending s) (loops s) (wg s) (<[id := at_pc (JUnlock r) j]> (jobs s))
    (<[jb_conn j := written s (jb_conn j) ++ [(id, job_answer j)]]> (written s))).
Proof.
  intros [Hc Hn Hj Ha Ho] Hid Hpc. set (c0 := jb_conn j).
  assert (∀ c p, (id, p) ∉ written s c) as Hnot.
  { intros c p Hin. destruct (Hj c id p Hin) as (d & Hd & _ & _ & Hpd). simplify_eq. by rewrite Hpc in Hpd. }
  split; cbn [codecs written jobs].
  - intros c. destruct (decide (c0 = c)) as [<-|]; [|by rewrite !fn_lookup_insert_ne].
    rewrite !fn_lookup_insert, fmap_app. destruct (Hc c0) as [acc Hacc].
    destruct (WriteResponse encodable (job_answer j).1 (job_answer j).2 e1 e2 e3 (codecs s c0)) as [ok c'] eqn:E.
    destruct (response_ok _ _ _ _ _ _ _ _ _ _ _ Hacc E) as [Hok _]. eexists. exact Hok.
  - intros c. destruct (decide (c0 = c)) as [<-|]; [|by rewrite fn_lookup_insert_ne].
    rewrite fn_lookup_insert, fmap_app. apply NoDup_app. split_and!; [apply Hn| |apply NoDup_singleton].
    intros i Hi Hi'. cbn in Hi'. apply list_elem_of_singleton in Hi' as ->. apply list_elem_of_fmap in Hi as ([i p] & -> & Hi). by eapply Hnot.
  - intros c i p Hin. assert ((i, p) ∈ written s c ∨ c = c0 ∧ i = id ∧ p = job_answer j) as [Hin'|(-> & -> & ->)].
    { destruct (decide (c0 = c)) as [<-|]; [|rewrite fn_lookup_insert_ne in Hin by done; by left].
      rewrite fn_lookup_insert in Hin. apply elem_of_app in Hin as [Hin|[= -> ->]%list_elem_of_singleton]; auto. }
    + destruct (Hj c i p Hin') as (d & Hd & ?). exists d. rewrite lookup_insert_ne; [done|]. intros <-.
      by destruct (Hnot c p).
    + exists (at_pc (JUnlock r) j). by rewrite lookup_insert_eq.
  - intros i d [[<- <-]|[Hne Hi]]%lookup_insert_Some Hpd Hd; simpl.
    + rewrite fn_lookup_insert, fmap_app. apply elem_of_app. right. by apply list_elem_of_singleton.
    + specialize (Ha i d Hi Hpd Hd). destruct (decide (c0 = jb_conn d)) as [Ecd|]; [|by rewrite fn_lookup_insert_ne].
      rewrite <- Ecd in Ha |- *. rewrite fn_lookup_insert, fmap_app. apply elem_of_app. by left.
  - intros i d [[<- <-]|[_ Hi]]%lookup_insert_Some; [done|by eapply Ho].
Qed.

Lemma written_step s s' : serving_cells s → written_ok s → serve_step s s' → written_ok s'.
Proof.
  intros Hcl Hok [e E]. pose proof Hok as [Hc Hn Hj Ha Ho].
  destruct e as [c id req|c id req e|id em reply|id|id|id|id [[e1 e2] e3]|id|id|id|c|c]; cbn [serve_run] in E;
    try (apply bind_Some in E as (j & Hid & E); destruct (jb_pc j) as [| |r|r|r|r|r| |] eqn:Epc; try done).
  - destruct (loops s c); try done. destruct (jobs s !! id) eqn:Hid; [done|]. injection E as <-.
    eapply (written_move s id); [done|done|by auto|done| |done]. intros j. congruence.
  - destruct (loops s c); try done. destruct (jobs s !! id) eqn:Hid; [done|]. injection E as <-.
    eapply (written_move s id); [done|done|by auto|done| |done]. intros j. congruence.
  - injection E as <-. eapply (written_move s id); [done|reflexivity|by auto| | |]; simpl.
    + intros Hown. by destruct (Ho _ _ Hid Hown).
    + intros d Hd. simplify_eq. by rewrite Epc.
    + assert (jb_own j = false) as Hown.
      { destruct (jb_own j) eqn:Eo; [|done]. by destruct (Ho _ _ Hid Eo). }
      unfold owed. simpl. rewrite Hown. case_decide; [done|]. by rewrite bool_decide_false.
  - destruct (getResponse s) as [r s1] eqn:Eg. injection E as <-.
    unfold getResponse in Eg. destruct (freeResp s); injection Eg as <- <-;
      (eapply (written_move s id); [done|reflexivity|by auto|done| |done]; intros d Hd; simplify_eq; by rewrite Epc).
  - injection E as <-. eapply (written_move s id); [done|reflexivity|by auto|done| |done]. intros d Hd. simplify_eq. by rewrite Epc.
  - destruct (sending s (jb_conn j)); [done|]. injection E as <-.
    eapply (written_move s id); [done|reflexivity|by auto|done| |done]. intros d Hd. simplify_eq. by rewrite Epc.
  - apply bind_Some in E as (resp & Hr & E). injection E as <-.
    rewrite (ce_filled _ _ _ Hcl id j r Hid) in Hr by (by rewrite Epc). injection Hr as <-.
    replace ((job_answer j).1, (job_answer j).2) with (job_answer j) by done. by eapply written_write.
  - injection E as <-. eapply (written_move s id); [done|reflexivity|by auto|done| |].
    + intros d Hd _. simplify_eq. done.
    + intros _ Hd. exists j. by rewrite Epc.
  - injection E as <-. eapply (written_move s id); [done|reflexivity|by auto|done| |].
    + intros d Hd _. simplify_eq. done.
    + intros _ Hd. exists j. by rewrite Epc.
  - destruct (jb_own j) eqn:Eo; injection E as <-; (eapply (written_move s id); [done|reflexivity|by auto|done| |]).
    1, 3: intros d Hd _; simplify_eq; done.
    all: intros _ Hd; exists j; by rewrite Epc.
  - destruct (loops s c); try done. injection E as <-. by split.
  - destruct (loops s c); try done. destruct (wg s c); [|done]. injection E as <-. split; try done. simpl.
    intros c'. destruct (Hc c') as [acc Hacc]. exists acc. destruct (decide (c = c')) as [<-|].
    + rewrite fn_lookup_insert. by apply codec_Close_ok.
    + by rewrite fn_lookup_insert_ne.
Qed.

(** *** One goroutine at a time writes on a connection *)
Definition holds (pc : job_pc) : bool := match pc with JWrite _ | JUnlock _ => true | _ => false end.
Definition lock_ok (s : serving) : Prop :=
  ∀ c id, sending s c = Some id ↔ ∃ j, jobs s !! id = Some j ∧ jb_conn j = c ∧ holds (jb_pc j) = true.

Lemma lock_move s s' id j' :
  lock_ok s → sending s' = sending s → jobs s' = <[id := j']> (jobs s) →
  (∀ j, jobs s !! id = Some j → jb_conn j' = jb_conn j ∧ holds (jb_pc j') = holds (jb_pc j)) →
  (jobs s !! id = None → holds (jb_pc j') = false) → lock_ok s'.
Proof.
  intros Hok Es Ej Hold Hnew c i. rewrite Es, Ej, (Hok c i). destruct (decide (i = id)) as [->|]; [|by rewrite lookup_insert_ne].
  rewrite lookup_insert_eq. destruct (jobs s !! id) as [j|].
  - destruct (Hold j eq_refl) as [E1 E2]. split.
    + intros (d & [= <-] & <- & Hd). exists j'. by rewrite E1, E2.
    + intros (d & [= <-] & <- & Hd). exists j. by rewrite <- E1, <- E2.
  - split; [by intros (d & ? & _)|]. intros (d & [= <-] & _ & Hd). by rewrite Hnew in Hd.
Qed.

Lemma lock_step s s' : lock_ok s → serve_step s s' → lock_ok s'.
Proof.
  intros Hok [e E].
  destruct e as [c id req|c id req e|id em reply|id|id|id|id [[e1 e2] e3]|id|id|id|c|c]; cbn [serve_run] in E;
    try (apply bind_Some in E as (j & Hid & E); destruct (jb_pc j) as [| |r|r|r|r|r| |] eqn:Epc; try done).
  - destruct (loops s c); try done. destruct (jobs s !! id) eqn:Hid; [done|]. injection E as <-.
    eapply (lock_move s _ id); [done|reflexivity|reflexivity|congruence|done].
  - destruct (loops s c); try done. destruct (jobs s !! id) eqn:Hid; [done|]. injection E as <-.
    eapply (lock_move s _ id); [done|reflexivity|reflexivity|congruence|done].
  - injection E as <-. eapply (lock_move s _ id); [done|reflexivity|reflexivity| |simpl; by case_decide].
    intros d Hd. simplify_eq. rewrite Epc. by case_decide.
  - destruct (getResponse s) as [r s1] eqn:Eg. injection E as <-. unfold getResponse in Eg.
    destruct (freeResp s); injection Eg as <- <-; (eapply (lock_move s _ id); [done|reflexivity|reflexivity| |done];
      intros d Hd; simplify_eq; by rewrite Epc).
  - injection E as <-. eapply (lock_move s _ id); [done|reflexivity|reflexivity| |done]. intros d Hd. simplify_eq. by rewrite Epc.
  - destruct (sending s (jb_conn j)) eqn:Es; [done|]. injection E as <-. intros c i. simpl.
    destruct (decide (jb_conn j = c)) as [<-|Hne].
    + rewrite fn_lookup_insert. split.
      * intros [= <-]. eexists. by rewrite lookup_insert_eq.
      * intros (d & Hd & Ec & Hh). apply lookup_insert_Some in Hd as [[-> _]|[_ Hd]]; [done|].
        assert (sending s (jb_conn j) = Some i) by (apply Hok; eauto). congruence.
    + rewrite fn_lookup_insert_ne, (Hok c i) by done. destruct (decide (i = id)) as [->|]; [|by rewrite lookup_insert_ne].
      rewrite lookup_insert_eq. split; intros (d & Hd & Ec & Hh); by simplify_eq/=.
  - apply bind_Some in E as (resp & Hr & E). injection E as <-.
    eapply (lock_move s _ id); [done|reflexivity|reflexivity| |congruence]. intros d Hd. simplify_eq. by rewrite Epc.
  - injection E as <-. intros c i. simpl. destruct (decide (jb_conn j = c)) as [<-|Hne].
    + rewrite fn_lookup_insert. split; [done|]. intros (d & Hd & Ec & Hh).
      apply lookup_insert_Some in Hd as [[<- <-]|[Hni Hd]]; [done|].
      assert (sending s (jb_conn j) = Some i) by (apply Hok; eauto).
      assert (sending s (jb_conn j) = Some id) by (apply Hok; exists j; by rewrite Epc). congruence.
    + rewrite fn_lookup_insert_ne, (Hok c i) by done. destruct (decide (i = id)) as [->|]; [|by rewrite lookup_insert_ne].
      rewrite lookup_insert_eq. split; intros (d & Hd & Ec & Hh); by simplify_eq.
  - injection E as <-. eapply (lock_move s _ id); [done|reflexivity|reflexivity| |done]. intros d Hd. simplify_eq. by rewrite Epc.
  - destruct (jb_own j); injection E as <-; (eapply (lock_move s _ id); [done|reflexivity|reflexivity| |done];
      intros d Hd; simplify_eq; by rewrite Epc).
  - destruct (loops s c); try done. by injection E as <-.
  - destruct (loops s c); try done. destruct (wg s c); [|done]. by injection E as <-.
Qed.

(** *** The reading loop waits for the calls it has started *)
Definition running (js : gmap positive job) (c : positive) (id : positive) : Prop :=
  ∃ j, js !! id = Some j ∧ jb_conn j = c ∧ jb_own j = false ∧ jb_pc j ≠ JDone.
Record loop_ok (lps : positive → loop_pc) (w : positive → nat) (js : gmap positive job) : Prop := {
  lo_wg c : ∃ l, NoDup l ∧ w c = length l ∧ ∀ id, id ∈ l ↔ running js c id;
  lo_own id j : js !! id = Some j → jb_own j = true → jb_pc j ≠ JDone → lps (jb_conn j) = LAnswering id;
  lo_closed c : lps c = LClosed → w c = 0 }.

Lemma loop_move lps w js id j j' :
  loop_ok lps w js → js !! id = Some j → jb_conn j' = jb_conn j → jb_own j' = jb_own j →
  jb_pc j ≠ JDone → jb_pc j' ≠ JDone → loop_ok lps w (<[id := j']> js).
Proof.
  intros [Hw Ho Hc] Hid E1 E2 Hp Hp'. split; [| |done].
  - intros c. destruct (Hw c) as (l & Hnd & Hlen & Hl). exists l. split_and!; [done|done|]. intros i. rewrite Hl.
    unfold running. destruct (decide (i = id)) as [->|]; [|by rewrite lookup_insert_ne]. rewrite lookup_insert_eq, Hid.
    split; intros (d & [= <-] & <- & Ho' & _); [exists j'|exists j]; split_and!; congruence.
  - intros i d [[<- <-]|[_ Hi]]%lookup_insert_Some Hd Hpd; [|by eapply Ho].
    rewrite E1. apply (Ho id j Hid); congruence.
Qed.

Lemma loop_start lps w js c id req :
  loop_ok lps w js → lps c = LReading → js !! id = None →
  loop_ok lps (<[c := S (w c)]> w) (<[id := mkJob c false req "" None JHandler]> js).
Proof.
  intros [Hw Ho Hc] Hl Hid. split.
  - intros c'. destruct (Hw c') as (l & Hnd & Hlen & Hel). destruct (decide (c = c')) as [<-|Hne].
    + exists (id :: l). rewrite fn_lookup_insert, Hlen. split_and!; [|done|].
      * constructor; [|done]. rewrite Hel. intros (j & ? & _). congruence.
      * intros i. rewrite elem_of_cons, Hel. unfold running. destruct (decide (i = id)) as [->|].
        -- rewrite lookup_insert_eq. split; [intros _; by eexists|auto].
        -- rewrite lookup_insert_ne by done. naive_solver.
    + exists l. rewrite fn_lookup_insert_ne by done. split_and!; [done|done|]. intros i. rewrite Hel.
      unfold running. destruct (decide (i = id)) as [->|]; [|by rewrite lookup_insert_ne].
      rewrite lookup_insert_eq, Hid. split; intros (d & Hd & Ec & _); simplify_eq/=.
  - intros i d [[<- <-]|[_ Hi]]%lookup_insert_Some Hd Hpd; [done|by eapply Ho].
  - intros c' Hc'. rewrite fn_lookup_insert_ne by congruence. by apply Hc.
Qed.

Lemma loop_refuse lps w js c id req e :
  loop_ok lps w js → lps c = LReading → js !! id = None →
  loop_ok (<[c := LAnswering id]> lps) w (<[id := mkJob c true req e None JGet]> js).
Proof.
  intros [Hw Ho Hc] Hl Hid. split.
  - intros c'. destruct (Hw c') as (l & Hnd & Hlen & Hel). exists l. split_and!; [done|done|]. intros i. rewrite Hel.
    unfold running. destruct (decide (i = id)) as [->|]; [|by rewrite lookup_insert_ne].
    rewrite lookup_insert_eq, Hid. split; intros (d & Hd & _ & Hown & _); simplify_eq/=.
  - intros i d [[<- <-]|[_ Hi]]%lookup_insert_Some Hd Hpd; simpl; [apply fn_lookup_insert|].
    specialize (Ho i d Hi Hd Hpd). rewrite fn_lookup_insert_ne; [done|congruence].
  - intros c' Hc'. apply Hc. destruct (decide (c = c')) as [<-|]; [by rewrite fn_lookup_insert in Hc'|].
    by rewrite fn_lookup_insert_ne in Hc'.
Qed.

Lemma loop_own_done lps w js id j :
  loop_ok lps w js → js !! id = Some j → jb_own j = true → jb_pc j = JAnswered →
  loop_ok (<[jb_conn j := LReading]> lps) w (<[id := at_pc JDone j]> js).
Proof.
  intros [Hw Ho Hc] Hid Hown Hpc. assert (lps (jb_conn j) = LAnswering id) as Hl by (apply Ho; [done|done|congruence]).
  split.
  - intros c'. destruct (Hw c') as (l & Hnd & Hlen & Hel). exists l. split_and!; [done|done|]. intros i. rewrite Hel.
    unfold running. destruct (decide (i = id)) as [->|]; [|by rewrite lookup_insert_ne].
    rewrite lookup_insert_eq, Hid. split; intros (d & Hd & _ & Hown' & Hp); simplify_eq/=; congruence.
  - intros i d [[<- <-]|[Hne Hi]]%lookup_insert_Some Hd Hpd; [done|].
    specialize (Ho i d Hi Hd Hpd). rewrite fn_lookup_insert_ne; [done|]. intros E. rewrite <- E in Ho. congruence.
  - intros c' Hc'. apply Hc. destruct (decide (jb_conn j = c')) as [<-|]; [by rewrite fn_lookup_insert in Hc'|].
    by rewrite fn_lookup_insert_ne in Hc'.
Qed.

Lemma loop_call_done lps w js id j :
  loop_ok lps w js → js !! id = Some j → jb_own j = false → jb_pc j = JAnswered →
  loop_ok lps (<[jb_conn j := pred (w (jb_conn j))]> w) (<[id := at_pc JDone j]> js).
Proof.
  intros [Hw Ho Hc] Hid Hown Hpc. split.
  - intros c'. destruct (Hw c') as (l & Hnd & Hlen & Hel). destruct (decide (jb_conn j = c')) as [<-|Hne].
    + assert (id ∈ l) as Hin by (apply Hel; exists j; by rewrite Hpc).
      destruct (list_elem_of_split _ _ Hin) as (l1 & l2 & ->). exists (l1 ++ l2). rewrite fn_lookup_insert.
      rewrite <- Permutation_middle in Hnd. apply NoDup_cons in Hnd as [Hnin Hnd].
      split_and!; [done|rewrite Hlen, !length_app; simpl; lia|]. intros i. destruct (decide (i = id)) as [->|Hni].
      * split; [done|]. intros (d & Hd & _ & _ & Hp). rewrite lookup_insert_eq in Hd. by injection Hd as <-.
      * transitivity (running js (jb_conn j) i); [rewrite <- Hel; set_solver|].
        unfold running. by rewrite lookup_insert_ne.
    + exists l. rewrite fn_lookup_insert_ne by done. split_and!; [done|done|]. intros i. rewrite Hel.
      unfold running. destruct (decide (i = id)) as [->|]; [|by rewrite lookup_insert_ne].
      rewrite lookup_insert_eq, Hid. split; intros (d & Hd & Ec & _ & Hp); simplify_eq/=.
  - intros i d [[<- <-]|[Hne Hi]]%lookup_insert_Some Hd Hpd; [done|by eapply Ho].
  - intros c' Hc'. destruct (decide (jb_conn j = c')) as [<-|]; [rewrite fn_lookup_insert; by rewrite Hc|].
    rewrite fn_lookup_insert_ne by done. by apply Hc.
Qed.

(** The loop leaves its reading, or closes. *)
Lemma loop_leave lps w js c pc :
  loop_ok lps w js → (lps c = LReading ∧ pc = LWaiting ∨ lps c = LWaiting ∧ w c = 0 ∧ pc = LClosed) →
  loop_ok (<[c := pc]> lps) w js.
Proof.
  intros [Hw Ho Hc] Hor. split; [done| |].
  - intros i d Hi Hd Hpd. specialize (Ho i d Hi Hd Hpd). rewrite fn_lookup_insert_ne; [done|].
    intros ->. destruct Hor as [[? _]|[? _]]; congruence.
  - intros c' Hc'. destruct (decide (c = c')) as [<-|]; [|by rewrite fn_lookup_insert_ne in Hc'; auto].
    rewrite fn_lookup_insert in Hc'. destruct Hor as [[_ ->]|(_ & ? & _)]; done.
Qed.

Definition serving_loops (s : serving) : Prop := loop_ok (loops s) (wg s) (jobs s).
Lemma serving_loops_step s s' : serving_loops s → serve_step s s' → serving_loops s'.
Proof.
  intros Hok [e E]. unfold serving_loops in *.
  destruct e as [c id req|c id req e|id em reply|id|id|id|id [[e1 e2] e3]|id|id|id|c|c]; cbn [serve_run] in E;
    try (apply bind_Some in E as (j & Hid & E); destruct (jb_pc j) as [| |r|r|r|r|r| |] eqn:Epc; try done).
  - destruct (loops s c) eqn:El; try done. destruct (jobs s !! id) eqn:Hid; [done|]. injection E as <-. by apply loop_start.
  - destruct (loops s c) eqn:El; try done. destruct (jobs s !! id) eqn:Hid; [done|]. injection E as <-. by apply loop_refuse.
  - injection E as <-. apply (loop_move _ _ _ _ j); simpl; (done || congruence || by case_decide).
  - destruct (getResponse s) as [r s1] eqn:Eg. injection E as <-. unfold getResponse in Eg.
    destruct (freeResp s); injection Eg as <- <-; apply (loop_move _ _ _ _ j); (done || congruence).
  - injection E as <-. apply (loop_move _ _ _ _ j); (done || congruence).
  - destruct (sending s (jb_conn j)); [done|]. injection E as <-. apply (loop_move _ _ _ _ j); (done || congruence).
  - apply bind_Some in E as (resp & Hr & E). injection E as <-. apply (loop_move _ _ _ _ j); (done || congruence).
  - injection E as <-. apply (loop_move _ _ _ _ j); (done || congruence).
  - injection E as <-. apply (loop_move _ _ _ _ j); (done || congruence).
  - destruct (jb_own j) eqn:Eo; injection E as <-; [by apply loop_own_done|by apply loop_call_done].
  - destruct (loops s c) eqn:El; try done. injection E as <-. apply loop_leave; [done|by left].
  - destruct (loops s c) eqn:El; try done. destruct (wg s c) eqn:Ew; [|done]. injection E as <-. apply loop_leave; [done|by right].
Qed.

(** A connection that was closed stays closed. *)
Definition shut_ok (s : serving) : Prop := ∀ c, loops s c = LClosed → sc_closed (codecs s c) = true.
Lemma WriteResponse_closed r b e1 e2 e3 (c : server_codec Response (option V)) :
  sc_closed c = true → sc_closed (WriteResponse encodable r b e1 e2 e3 c).2 = true.
Proof.
  intros Hc. unfold WriteResponse, encoding_failed, codec_Close. destruct (enc_Encode _ _ _ _) as [[] st1]; simpl.
  - destruct (enc_Encode _ _ _ _) as [[] st2]; simpl; [by destruct (encBuf_Flush e3 st2)|].
    destruct (encBuf_Flush e3 st2) as [[] st3]; simpl; by rewrite ?Hc.
  - destruct (encBuf_Flush e3 st1) as [[] st2]; simpl; by rewrite ?Hc.
Qed.
Lemma shut_step s s' : shut_ok s → serve_step s s' → shut_ok s'.
Proof.
  intros Hok [e E] c0. specialize (Hok c0).
  destruct e as [c id req|c id req e|id em reply|id|id|id|id [[e1 e2] e3]|id|id|id|c|c]; cbn [serve_run] in E;
    try (apply bind_Some in E as (j & Hid & E); destruct (jb_pc j) as [| |r|r|r|r|r| |] eqn:Epc; try done).
  - destruct (loops s c) eqn:El; try done. destruct (jobs s !! id); [done|]. by injection E as <-.
  - destruct (loops s c) eqn:El; try done. destruct (jobs s !! id); [done|]. injection E as <-. simpl.
    destruct (decide (c = c0)) as [<-|]; [by rewrite fn_lookup_insert|by rewrite fn_lookup_insert_ne].
  - by injection E as <-.
  - destruct (getResponse s) as [r s1] eqn:Eg. injection E as <-. unfold getResponse in Eg.
    by destruct (freeResp s); injection Eg as <- <-.
  - by injection E as <-.
  - destruct (sending s (jb_conn j)); [done|]. by injection E as <-.
  - apply bind_Some in E as (resp & Hr & E). injection E as <-. cbn [loops codecs]. intros Hl.
    destruct (decide (jb_conn j = c0)) as [<-|]; [|by rewrite fn_lookup_insert_ne; auto].
    rewrite fn_lookup_insert. apply WriteResponse_closed. auto.
  - by injection E as <-.
  - by injection E as <-.
  - destruct (jb_own j); injection E as <-; [|done]. simpl.
    destruct (decide (jb_conn j = c0)) as [<-|]; [by rewrite fn_lookup_insert|by rewrite fn_lookup_insert_ne].
  - destruct (loops s c) eqn:El; try done. injection E as <-. simpl.
    destruct (decide (c = c0)) as [<-|]; [by rewrite fn_lookup_insert|by rewrite fn_lookup_insert_ne].
  - destruct (loops s c) eqn:El; try done. destruct (wg s c); [|done]. injection E as <-. simpl.
    destruct (decide (c = c0)) as [<-|]; [|by rewrite !fn_lookup_insert_ne].
    rewrite !fn_lookup_insert. intros _. unfold codec_Close. by destruct (sc_closed (codecs s c)) eqn:Ec.
Qed.

Record serving_ok (s : serving) : Prop := {
  so_cell : serving_cells s;
  so_written : written_ok s;
  so_lock : lock_ok s;
  so_loops : serving_loops s;
  so_shut : shut_ok s }.
Lemma no_jobs_ok : serving_ok no_jobs.
Proof.
  split.
  - split; try done; [constructor|set_solver].
  - split; simpl; try done; [|constructor|by intros c id p ?%elem_of_nil].
    intros c. exists []. split; [|done|done]. split; [done|done|by intros [?|?]].
  - intros c id. simpl. split; [done|]. by intros (j & ? & _).
  - split; simpl; try done. intros c. exists []. split_and!; [constructor|done|]. intros id. split; [by intros ?%elem_of_nil|].
    by intros (j & ? & _).
  - done.
Qed.
Lemma serving_step_ok s s' : serving_ok s → serve_step s s' → serving_ok s'.
Proof.
  intros [H1 H2 H3 H4 H5] Hs. split;
    eauto using serving_cells_step, written_step, lock_step, serving_loops_step, shut_step.
Qed.

(** C16: however the goroutines of all connections interleave, and whatever fails: a
    response is written by one goroutine at a time on its connection; what the client
    reads are the first of the responses written, each as a whole and as the request it
    answers has it, at most one for a request, although the cells they are put together
    in are handed round; and when the server's loop has closed a connection, every call
    it had started there has returned and every answer owed has been written before. *)
Theorem answers_whole s c :
  rtc serve_step no_jobs s →
  read_frames (s_out (sc_stream (codecs s c))) `prefix_of` (written s c).*2 ∧
  NoDup (written s c).*1 ∧
  (∀ id p, (id, p) ∈ written s c → ∃ j, jobs s !! id = Some j ∧ jb_conn j = c ∧ p = job_answer j) ∧
  (∀ id1 id2 j1 j2, jobs s !! id1 = Some j1 → jobs s !! id2 = Some j2 → jb_conn j1 = jb_conn j2 →
     holds (jb_pc j1) = true → holds (jb_pc j2) = true → id1 = id2) ∧
  sc_closes (codecs s c) ≤ 1 ∧
  (loops s c = LClosed → sc_closed (codecs s c) = true ∧
     ∀ id j, jobs s !! id = Some j → jb_conn j = c → jb_pc j = JDone ∧ (owed j = true → id ∈ (written s c).*1)).
Proof.
  intros Hr. pose proof (rtc_preserves _ _ _ _ serving_step_ok no_jobs_ok Hr) as [_ [Hcd Hnd Hj Ha Ho] Hlk [Hw Hown Hcl] Hsh].
  destruct (Hcd c) as (acc & [Hst _ Hcs]). split_and!.
  - by apply (read_ok _ _ _ Hst).
  - done.
  - intros id p Hin. destruct (Hj _ _ _ Hin) as (j & ? & ? & ? & _). eauto.
  - intros id1 id2 j1 j2 H1 H2 Ec Hh1 Hh2.
    assert (sending s (jb_conn j2) = Some id1) by (apply Hlk; eauto).
    assert (sending s (jb_conn j2) = Some id2) by (apply Hlk; eauto). congruence.
  - rewrite Hcs. destruct (sc_closed (codecs s c)); lia.
  - intros Hc. split; [by apply Hsh|]. intros id j Hid Ec.
    assert (jb_pc j = JDone) as Hpc.
    { destruct (decide (jb_pc j = JDone)) as [|Hne]; [done|]. destruct (jb_own j) eqn:Eo.
      - specialize (Hown _ _ Hid Eo Hne). congruence.
      - destruct (Hw c) as (l & _ & Hlen & Hel). rewrite (Hcl c Hc) in Hlen. destruct l; [|done].
        assert (id ∈ @nil positive) as ?%elem_of_nil; [|done]. apply Hel. by exists j. }
    split; [done|]. intros Hd. rewrite <- Ec. apply Ha; [done|by rewrite Hpc|done].
Qed.
End answering.

(** ** Witnesses

    Two calls of one connection whose answers are written in the other order, and a
    second connection where the client has gone before its answer. *)
Definition always (_ : option nat) : bool := true.
Definition clean : write_env := (None, None, None).
Definition two_answers : list (serve_event (V := nat)) :=
  [AStart 1 1 (mkRequest "Room.Join" 4 1); AStart 1 2 (mkRequest "Room.Leave" 5 1); AStart 2 3 (mkRequest "Room.Join" 9 1);
   AReturn 2 "" (Some 50); AReturn 1 "full" (Some 40); AReturn 3 "" (Some 90);
   AGet 1; AGet 2; AGet 3; AFill 2; AFill 1; AFill 3; ALock 3; ALock 2; AWrite 3 (None, None, Some 1);
   AWrite 2 clean; AUnlock 2; AFree 2; ALock 1; AWrite 1 clean; AUnlock 1; AFree 1; AStop 1; ADone 1; ADone 2; AClose 1].

Lemma answers_whole_witness :
  ∃ s, rtc (serve_step always) no_jobs s ∧ loops s 1 = LClosed ∧
    read_frames (s_out (sc_stream (codecs s 1))) =
      [(mkResponse "Room.Leave" 5 "", Some 50); (mkResponse "Room.Join" 4 "full", None)] ∧
    read_frames (s_out (sc_stream (codecs s 2))) = [] ∧
    sc_closed (codecs s 1) = true ∧
    ∀ id j, jobs s !! id = Some j → jb_conn j = 1%positive → jb_pc j = JDone ∧ (owed j = true → id ∈ (written s 1).*1).
Proof.
  assert (∃ s, runs (serve_run always) two_answers no_jobs = Some s ∧ loops s 1 = LClosed ∧
    read_frames (s_out (sc_stream (codecs s 1))) =
      [(mkResponse "Room.Leave" 5 "", Some 50); (mkResponse "Room.Join" 4 "full", None)] ∧
    read_frames (s_out (sc_stream (codecs s 2))) = []) as (s & E & Hl & H1 & H2).
  { eexists. split; [vm_compute; reflexivity|]. split_and!; reflexivity. }
  assert (rtc (serve_step always) no_jobs s) as Hr by exact (runs_steps _ _ _ _ E).
  exists s. split_and!; [done|done|done|done| |]; by apply (answers_whole always s 1 Hr).
Defined.

Lemma refused_argument_shifts_witness :
  let enc (b : nat) := bool_decide (b ≠ 0) in
  (WriteRequest (H := string) enc "Room.Join" 0 None None None new_stream).1 = false ∧
  read_frames (s_out (WriteRequest enc "Room.Leave" 7 None None None
    (WriteRequest (H := string) enc "Room.Join" 0 None None None new_stream).2).2) = [].
Proof.
  assert (stream_ok (H := string) (B := nat) [] [] new_stream) as H0 by (split; [done|done|by intros [?|?]]).
  destruct (refused_argument_shifts (λ b : nat, bool_decide (b ≠ 0)) [] "Room.Join" 0 "Room.Leave" 7 new_stream H0)
    as (H1 & _ & _ & H2); [by intros [?|?]|reflexivity|reflexivity|]. by split.
Defined.
