(* ===== verification/ActorId.v ===== *)
(** * hActor: addresses, groups, the proxy and the service caller

    ActorID.go, ActorIDGroup.go, ActorProxyComponent.go, ActorProxyService.go,
    ActorServiceCaller.go.  The sync.Maps of the proxy are finite maps; what a remote
    node answers is a parameter. *)
From S2P Require Import Prelude GoString.

(** ** ActorID.go *)
Abbreviation ActorID := (list string).

Definition ErrActorWrongFormat : string := "this format is wrong,should be : IP:Port:LocalActorID".
(** The character ':'. *)
Definition colon : Ascii.ascii := Ascii.Ascii false true false true true true false false.

Definition EmptyActorID : ActorID := [""; ""; ""].

(** [Equal]: the loop over the elements. *)
Fixpoint Equal_loop (this target : ActorID) : bool :=
  match this, target with
  | value :: this, t :: target => if decide (value ≠ t) then false else Equal_loop this target
  | _, _ => true
  end.
Definition Equal (this target : ActorID) : bool :=
  if decide (length this ≠ length target) then false else Equal_loop this target.

(** [String]: the loop that writes the values and the separators. *)
Fixpoint String_loop (this : ActorID) : string :=
  match this with
  | [] => ""
  | [value] => value
  | value :: this => value +:+ String colon (String_loop this)
  end.
Definition ActorID_String (this : ActorID) : string :=
  match this with [] => "unknown" | _ => String_loop this end.

#[global] Arguments ActorID_String _ : simpl never.

(** An element of the slice is written in place; the caller sees it. *)
Definition set_elem (i : nat) (v : string) (this : ActorID) : outcome ActorID :=
  if decide (i < length this) then Ret (<[i := v]> this) else Panic IndexOutOfRange.

Definition SetNodeID (address : string) (this : ActorID) : outcome (ActorID * option string) :=
  match Split colon address with
  | [ip; port] => this ← set_elem 0 ip this; this ← set_elem 1 port this; Ret (this, None)
  | _ => Ret (this, Some ErrActorWrongFormat)
  end.
Definition SetLocalActorID (id : string) (this : ActorID) : outcome ActorID := set_elem 2 id this.

Definition Parse (address : string) (this : ActorID) : ActorID * option string :=
  match Split colon address with
  | [a; b; c] => ([a; b; c], None)
  | _ => (this, Some ErrActorWrongFormat)
  end.

Definition elem_at (i : nat) (this : ActorID) : outcome string :=
  match this !! i with Some v => Ret v | None => Panic IndexOutOfRange end.
Definition GetNodeID (this : ActorID) : outcome string :=
  a ← elem_at 0 this; b ← elem_at 1 this; Ret (a +:+ String colon b).
Definition GetLocalActorID (this : ActorID) : outcome string := elem_at 2 this.

(** ** ActorIDGroup.go *)
Abbreviation ActorIDGroup := (list ActorID).

Definition isRepeated (target : ActorID) (this : ActorIDGroup) : bool := existsb (λ v, Equal v target) this.
Definition Group_Add (id : ActorID) (this : ActorIDGroup) : ActorIDGroup :=
  if isRepeated id this then this else this ++ [id].
Definition Group_Sub (id : ActorID) (this : ActorIDGroup) : ActorIDGroup :=
  default this (remove_first (λ v, Equal v id = true) this).
Definition Group_Has (id : ActorID) (this : ActorIDGroup) : bool := existsb (λ v, Equal v id) this.
(** [copy] fills a slice of length zero. *)
Definition Group_Get (this : ActorIDGroup) : list ActorID := [].
Definition RndOne (Intn : Z → Z) (this : ActorIDGroup) : outcome (result string ActorID) :=
  if decide (length this = 0) then Ret (Err "this actor id group is empty")
  else match this !! Z.to_nat (Intn (Z.of_nat (length this))) with
       | Some v => Ret (Ok v)
       | None => Panic IndexOutOfRange
       end.

(** ** Laws of the addresses *)
Lemma Equal_loop_spec this target :
  length this = length target → Equal_loop this target = bool_decide (this = target).
Proof.
  revert target. induction this as [|v this IH]; intros [|t target] Hl; simplify_eq/=; [done|].
  case_decide as Hv.
  - symmetry. apply bool_decide_false. congruence.
  - subst. rewrite IH by done. apply bool_decide_ext. naive_solver.
Qed.

Lemma Equal_spec this target : Equal this target = bool_decide (this = target).
Proof.
  unfold Equal. case_decide as Hl; [|by apply Equal_loop_spec].
  symmetry. apply bool_decide_false. congruence.
Qed.

Lemma String_loop_Join this : String_loop this = Join (String colon "") this.
Proof.
  induction this as [|v [|v' this] IH]; [done|done|].
  change (v +:+ String colon (String_loop (v' :: this)) =
    v +:+ (String colon "" +:+ Join (String colon "") (v' :: this))).
  by rewrite IH.
Qed.

(** An address of three parts without colons is written and read back as it was; what
    reads as an address is written back as it was; and nothing else than a string
    with exactly two colons is read. *)
Theorem ActorID_roundtrip this id s :
  (length id = 3 → Forall (λ p, has_char colon p = false) id →
    Parse (ActorID_String id) this = (id, None)) ∧
  (∀ id', Parse s this = (id', None) →
    ActorID_String id' = s ∧ length id' = 3 ∧ Forall (λ p, has_char colon p = false) id' ∧
    ∀ a b c, id' = [a; b; c] →
      GetNodeID id' = Ret (a +:+ String colon b) ∧ GetLocalActorID id' = Ret c) ∧
  (∀ e, (Parse s this).2 = Some e → (Parse s this).1 = this ∧ length (Split colon s) ≠ 3).
Proof.
  split_and!.
  - intros Hl Hp. destruct id as [|a [|b [|c [|]]]]; try done. unfold Parse, ActorID_String.
    by rewrite String_loop_Join, Split_Join.
  - intros id'. unfold Parse. destruct (Split colon s) as [|a [|b [|c [|]]]] eqn:E; try done.
    intros [= <-]. split_and!; [|done| |].
    + unfold ActorID_String. rewrite String_loop_Join, <- E. apply Join_Split.
    + rewrite <- E. apply Split_parts.
    + by intros ??? [= -> -> ->].
  - intros e. unfold Parse. destruct (Split colon s) as [|a [|b [|c [|]]]]; simpl; by intros.
Qed.

(** ** The proxy *)
Definition ErrNoThisService : string := "no this service".
Definition ErrNoThisActor : string := "no this actor".
Definition LOCAL_SERVICE : string := "".

Abbreviation actor := positive.

(** An [IActor]: a component of this node, or the address of one elsewhere. *)
Inductive IActor := LocalActor (a : actor) | RemoteActor (id : ActorID).

Record ActorService := mkService { as_actor : IActor; as_Service : string }.

(** [ap_ids] is the [ActorID] each local component holds. *)
Record ActorProxyComponent := mkProxy {
  ap_nodeID : string;
  ap_localActors : gmap string actor;
  ap_service : gmap string ActorService;
  ap_ids : gmap actor ActorID }.

Definition GetLocalActorService (serviceName : string) (this : ActorProxyComponent)
    : result string ActorService :=
  match ap_service this !! serviceName with Some s => Ok s | None => Err ErrNoThisService end.

Definition RegisterService (a : IActor) (service : string) (this : ActorProxyComponent)
    : ActorProxyComponent * option string :=
  match ap_service this !! service with
  | Some _ => (this, Some "this service is repeated")
  | None => (mkProxy (ap_nodeID this) (ap_localActors this)
               (<[service := mkService a service]> (ap_service this)) (ap_ids this), None)
  end.
Definition UnregisterService (service : string) (this : ActorProxyComponent) : ActorProxyComponent :=
  mkProxy (ap_nodeID this) (ap_localActors this) (delete service (ap_service this)) (ap_ids this).

(** [Register]: the slice [id] is the component's own; [uuid] is what [GetUUID] gives. *)
Definition Register (uuid : string) (a : actor) (this : ActorProxyComponent)
    : outcome (ActorProxyComponent * option string) :=
  let id := default [] (ap_ids this !! a) in
  id ← SetLocalActorID uuid id;
  '(id, err) ← SetNodeID (ap_nodeID this) id;
  let ids := <[a := id]> (ap_ids this) in
  match err with
  | Some e => Ret (mkProxy (ap_nodeID this) (ap_localActors this) (ap_service this) ids, Some e)
  | None => Ret (mkProxy (ap_nodeID this) (<[ActorID_String id := a]> (ap_localActors this))
                   (ap_service this) ids, None)
  end.
Definition Unregister (a : actor) (this : ActorProxyComponent) : ActorProxyComponent :=
  let id := ActorID_String (default [] (ap_ids this !! a)) in
  match ap_localActors this !! id with
  | Some _ => mkProxy (ap_nodeID this) (delete id (ap_localActors this)) (ap_service this) (ap_ids this)
  | None => this
  end.

Section routing.
(** The world the node is in; a message, its reply, the ways to select; how the local
    component, the node's clients and a remote node answer. *)
Context {World M R client Sel : Type}.
Context (tell : actor → M → prog World (result string R)).
Context (get_client : string → prog World (result string client)).
Context (remote : client → ActorID → M → prog World (result string R)).
Context (client_by_role : string → list Sel → prog World (result string client)).
Context (inquiry : client → string → prog World (result string ActorID)).

Definition LocalTell (id : ActorID) (m : M) (this : ActorProxyComponent) : prog World (result string R) :=
  match ap_localActors this !! ActorID_String id with
  | None => mret (Err ErrNoThisActor)
  | Some a => tell a m
  end.

Definition Emit (id : ActorID) (m : M) (this : ActorProxyComponent) : prog World (result string R) :=
  nodeID ← of_outcome (GetNodeID id);
  if decide (nodeID = ap_nodeID this) then LocalTell id m this else
  r ← get_client nodeID;
  match r with Err e => mret (Err e) | Ok c => remote c id m end.

Definition GetRemoteActorService (role serviceName : string) (selectorType : list Sel)
    : prog World (result string ActorService) :=
  if decide (role = LOCAL_SERVICE) then mret (Err "role is empty") else
  r ← client_by_role role selectorType;
  match r with
  | Err e => mret (Err e)
  | Ok c => r ← inquiry c serviceName;
            mret (match r with Err e => Err e | Ok id => Ok (mkService (RemoteActor id) serviceName) end)
  end.

Definition GetActorService (role serviceName : string) (selectorType : list Sel)
    (this : ActorProxyComponent) : prog World (result string ActorService) :=
  match GetLocalActorService serviceName this with
  | Ok s => mret (Ok s)
  | Err _ => GetRemoteActorService role serviceName selectorType
  end.

(** ActorProxyService.go *)
Definition ServiceInquiry (service : string) (this : ActorProxyComponent) : result string ActorID :=
  match GetLocalActorService service this with
  | Err e => Err e
  | Ok s => Ok (match as_actor s with LocalActor a => default [] (ap_ids this !! a) | RemoteActor id => id end)
  end.
End routing.

(** ** A registered actor is found *)
(** A component that has been registered holds an address on its own node under the
    number it was given; that address is found in the table, until the component is
    unregistered; the other addresses are found as before. *)
Lemma Register_run uuid a (p p' : ActorProxyComponent) :
  Register uuid a p = Ret (p', None) → length (default [] (ap_ids p !! a)) = 3 →
  ∃ ip port, let id := [ip; port; uuid] in
    GetNodeID id = Ret (ap_nodeID p) ∧
    p' = mkProxy (ap_nodeID p) (<[ActorID_String id := a]> (ap_localActors p)) (ap_service p) (<[a := id]> (ap_ids p)).
Proof.
  intros E Hl. unfold Register in E. destruct (default [] (ap_ids p !! a)) as [|x [|y [|z [|]]]]; try done.
  simpl in E. unfold SetNodeID in E.
  destruct (Split colon (ap_nodeID p)) as [|ip [|port [|]]] eqn:Es; try done. simpl in E. simplify_eq.
  exists ip, port. split; [|done].
  unfold GetNodeID. simpl. f_equal. rewrite <- (Join_Split colon (ap_nodeID p)), Es. done.
Qed.
Lemma Unregister_run id a p :
  ap_ids p !! a = Some id → is_Some (ap_localActors p !! ActorID_String id) →
  Unregister a p = mkProxy (ap_nodeID p) (delete (ActorID_String id) (ap_localActors p)) (ap_service p) (ap_ids p).
Proof. intros Hid [x Hx]. unfold Unregister. by rewrite Hid; simpl; rewrite Hx. Qed.

Section registered.
Context {World M R client : Type}.
Context (tell : actor → M → prog World (result string R)).
Context (get_client : string → prog World (result string client)).
Context (remote : client → ActorID → M → prog World (result string R)).

(** A message emitted to a registered component's address reaches it without the
    network, until it is unregistered; from then on there is no such actor. *)
Theorem registered_actor_reached uuid a (p p' : ActorProxyComponent) :
  Register uuid a p = Ret (p', None) → length (default [] (ap_ids p !! a)) = 3 →
  ∃ ip port, let id := [ip; port; uuid] in
    ap_ids p' !! a = Some id ∧ GetNodeID id = Ret (ap_nodeID p) ∧
    (∀ m w, Emit tell get_client remote id m p' w = tell a m w ∧
          Emit tell get_client remote id m (Unregister a p') w = (w, Ret (Err ErrNoThisActor))) ∧
    (∀ s, s ≠ ActorID_String id → ap_localActors (Unregister a p') !! s = ap_localActors p !! s).
Proof.
  intros E Hl. destruct (Register_run uuid a p p' E Hl) as (ip & port & Hn & ->). exists ip, port. cbn zeta.
  rewrite (Unregister_run [ip; port; uuid] a) by (cbn; rewrite lookup_insert_eq; by eauto). cbn [ap_ids ap_localActors].
  split; [apply lookup_insert_eq|]. split; [done|]. split.
  - intros m w. unfold Emit, of_outcome. rewrite Hn. unfold mbind, prog_bind. cbn [ap_nodeID].
    rewrite !decide_True by done. unfold LocalTell. cbn [ap_localActors]. by rewrite lookup_insert_eq, lookup_delete_eq.
  - intros s Hs. rewrite lookup_delete_ne by done. by rewrite lookup_insert_ne.
Qed.
End registered.

(** ** ActorServiceCaller.go *)
Section caller.
(** The world the calls happen in, what a service answers there and what the proxy
    finds there. *)
Context {World A R : Type}.
Context (service_call : ActorService → A → prog World (result string R)).
Context (get_service : string → string → prog World (result string ActorService)).

Abbreviation Caller := (prog (World * gmap string ActorService)).

Definition in_world {X} (m : prog World X) : Caller X := λ '(w, cache),
  let '(w, r) := m w in ((w, cache), r).
Definition cached (serviceName : string) : Caller (option ActorService) := λ '(w, cache),
  ((w, cache), Ret (cache !! serviceName)).
Definition store (serviceName : string) (s : ActorService) : Caller unit :=
  modify (λ '(w, cache), (w, <[serviceName := s]> cache)).
Definition forget (serviceName : string) : Caller unit :=
  modify (λ '(w, cache), (w, delete serviceName cache)).

(** [Call], [CallWait] and, with the remote lookup, [CallWithSelectType]. *)
Definition Caller_Call (role serviceName : string) (args : A) : Caller (result string R) :=
  service ← cached serviceName;
  first ← match service with
          | Some service =>
              res ← in_world (service_call service args);
              match res with
              | Err _ => _ ← forget serviceName; mret None
              | Ok r => mret (Some r)
              end
          | None => mret None
          end;
  match first with
  | Some r => mret (Ok r)
  | None =>
      service ← in_world (get_service role serviceName);
      match service with
      | Err e => mret (Err e)
      | Ok service =>
          _ ← store serviceName service;
          res ← in_world (service_call service args);
          match res with
          | Err e => _ ← forget serviceName; mret (Err e)
          | Ok r => mret (Ok r)
          end
      end
  end.

(** The same code over [ActorService.CallWait], and with the remote lookup. *)
Definition Caller_CallWait (service_callwait : ActorService → A → prog World (result string R))
    (role serviceName : string) (args : A) : Caller (result string R) :=
  service ← cached serviceName;
  first ← match service with
          | Some service =>
              res ← in_world (service_callwait service args);
              match res with
              | Err _ => _ ← forget serviceName; mret None
              | Ok r => mret (Some r)
              end
          | None => mret None
          end;
  match first with
  | Some r => mret (Ok r)
  | None =>
      service ← in_world (get_service role serviceName);
      match service with
      | Err e => mret (Err e)
      | Ok service =>
          _ ← store serviceName service;
          res ← in_world (service_callwait service args);
          match res with
          | Err e => _ ← forget serviceName; mret (Err e)
          | Ok r => mret (Ok r)
          end
      end
  end.
Definition CallWithSelectType {Sel}
    (get_remote : list Sel → string → string → prog World (result string ActorService))
    (role serviceName : string) (selectType : list Sel) (args : A) : Caller (result string R) :=
  service ← cached serviceName;
  first ← match service with
          | Some service =>
              res ← in_world (service_call service args);
              match res with
              | Err _ => _ ← forget serviceName; mret None
              | Ok r => mret (Some r)
              end
          | None => mret None
          end;
  match first with
  | Some r => mret (Ok r)
  | None =>
      service ← in_world (get_remote selectType role serviceName);
      match service with
      | Err e => mret (Err e)
      | Ok service =>
          _ ← store serviceName service;
          res ← in_world (service_call service args);
          match res with
          | Err e => _ ← forget serviceName; mret (Err e)
          | Ok r => mret (Ok r)
          end
      end
  end.

(** In all three a failed call is forgotten: what is answered with an error is not
    in the cache any more, and what is answered without one is. *)
Theorem caller_cache role serviceName args w cache w' cache' r :
  Caller_Call role serviceName args (w, cache) = ((w', cache'), Ret r) →
  match r with
  | Err _ => cache' = delete serviceName cache
  | Ok _ => ∃ s, cache' !! serviceName = Some s ∧ delete serviceName cache' = delete serviceName cache
  end.
Proof.
  unfold Caller_Call, cached, in_world, store, forget, modify.
  unfold mbind, mret, prog_bind, prog_ret. intros E.
  destruct (cache !! serviceName) as [s0|] eqn:E0; cbn in E.
  - destruct (service_call s0 args w) as [w1 [[x|e]|p|]] eqn:E1; cbn in E; simplify_eq.
    + by exists s0.
    + destruct (get_service role serviceName w1) as [w2 [[s|e2]|p|]] eqn:E2; cbn in E; simplify_eq; [|done].
      destruct (service_call s args w2) as [w3 [[x|e3]|p|]] eqn:E3; cbn in E; simplify_eq.
      * exists s. rewrite lookup_insert_eq. split; [done|]. rewrite delete_insert_eq, delete_delete_eq. done.
      * by rewrite delete_insert_eq, delete_delete_eq.
  - destruct (get_service role serviceName w) as [w2 [[s|e2]|p|]] eqn:E2; cbn in E; simplify_eq.
    + destruct (service_call s args w2) as [w3 [[x|e3]|p|]] eqn:E3; cbn in E; simplify_eq.
      * exists s. rewrite lookup_insert_eq. split; [done|]. by rewrite delete_insert_eq.
      * by rewrite delete_insert_eq.
    + by rewrite delete_id.
Qed.
End caller.

(** ** Witnesses *)
Lemma ActorID_roundtrip_witness :
  Parse (ActorID_String ["10.0.0.1"; "8888"; "player"]) EmptyActorID = (["10.0.0.1"; "8888"; "player"], None) ∧
  ActorID_String ["10.0.0.1"; "8888"; "player"] = "10.0.0.1:8888:player".
Proof.
  split; [|vm_compute; reflexivity].
  apply (proj1 (ActorID_roundtrip EmptyActorID ["10.0.0.1"; "8888"; "player"] "")); [done|].
  repeat constructor.
Defined.

Definition proxy : ActorProxyComponent := mkProxy "10.0.0.1:8888" ∅ ∅ {[1%positive := EmptyActorID]}.
Definition proxy_registered : ActorProxyComponent :=
  mkProxy "10.0.0.1:8888" {["10.0.0.1:8888:player" := 1%positive]} ∅
    {[1%positive := ["10.0.0.1"; "8888"; "player"]]}.

Lemma registered_actor_reached_witness :
  Register "player" 1 proxy = Ret (proxy_registered, None) ∧
  ∃ ip port, ap_ids proxy_registered !! 1%positive = Some [ip; port; "player"].
Proof.
  assert (Register "player" 1 proxy = Ret (proxy_registered, None)) as E by (vm_compute; reflexivity).
  split; [exact E|].
  destruct (registered_actor_reached (World := unit) (M := unit) (R := unit) (client := unit) (λ _ _, mret (Err ""))
    (λ _, mret (Err "")) (λ _ _ _, mret (Err "")) "player" 1 proxy proxy_registered E eq_refl) as (ip & port & H & _).
  by exists ip, port.
Defined.
