(* ===== verification/ActorBase.v ===== *)
(** * ActorBase: services and the base of actors (hActor/ActorBase.go, ActorService.go, Actor.go)

    A call of a service makes a message and a place for the reply, tells the actor
    and reads the place; a handler writes it by [ReplyWithService]. The base of a
    component with handlers finds or adds its object's actor when it is needed. *)
From S2P Require Import Prelude.

(** ** Messages and replies *)
Section messages.
(** The arguments, and the actors that can be told. *)
Context {A actor : Type}.

(** [ActorMessage]; [none] is the zero value [&ActorMessage{}]. *)
Record ActorMessage := mkMessage { Service : string; Data : list A; IsWaitCall : bool }.
Definition zero_message : ActorMessage := mkMessage "" [] false.
Definition NewActorMessage (service : string) (args : list A) : ActorMessage := mkMessage service args false.

(** The places for replies, by address. *)
Abbreviation replies := (gmap nat ActorMessage).

(** [ActorMessageInfo]: [reply] points to the caller's pointer to its place, [done]
    says whether the channel was made. *)
Record ActorMessageInfo := mkInfo {
  Message : ActorMessage; reply : option nat; done : bool }.
Definition NeedReply (isReply : bool) (m : ActorMessageInfo) : ActorMessageInfo :=
  mkInfo (Message m) (reply m) (if isReply then true else done m).
Definition IsNeedReply (m : ActorMessageInfo) : bool := done m.

Definition ReplyWithService (service : string) (args : list A) (m : ActorMessageInfo)
  : prog replies (option string) :=
  if done m then
    match reply m with
    | Some l => modify (<[l := mkMessage service args false]>) ≫= λ _, mret None
    | None => panicking NilDereference
    end
  else mret (Some "this message invalid").
Definition ReplyData (args : list A) (m : ActorMessageInfo) : prog replies (option string) :=
  ReplyWithService "" args m.

(** *** ActorService.go, over what telling an actor a message does *)
Context (Tell : actor → ActorMessage → nat → prog replies (option string)).
Record ServiceRef := mkService { as_actor : actor; as_Service : string }.
Definition NewActorService (a : actor) (service : string) : ServiceRef := mkService a service.

Definition new_reply : prog replies nat := λ s,
  let l := fresh (dom s) in (<[l := zero_message]> s, Ret l).
Definition told (this : ServiceRef) (mes : ActorMessage) : prog replies (result string (list A)) :=
  new_reply ≫= λ l,
  Tell (as_actor this) mes l ≫= λ err,
  match err with
  | Some e => mret (Err e)
  | None => get_state ≫= λ s, mret (Ok (Data (default zero_message (s !! l))))
  end.
Definition Service_Call (this : ServiceRef) (args : list A) := told this (NewActorMessage (as_Service this) args).
Definition Service_CallWait (this : ServiceRef) (args : list A) :=
  told this (mkMessage (as_Service this) args true).

(** A local actor whose handler for the service answers [f args] and no error. *)
Definition answers (a : actor) (service : string) (f : list A → list A) : Prop :=
  ∀ args wait l s, is_Some (s !! l) →
    Tell a (mkMessage service args wait) l s =
      ((ReplyData (f args) (NeedReply true (mkInfo (mkMessage service args wait) (Some l) false)) s).1, Ret None).

(** Calling a service gives what its handler replies, by Call and by CallWait; the
    replies of other calls are not touched. *)
Theorem Service_answers (a : actor) service f args s : answers a service f →
  (Service_Call (NewActorService a service) args s).2 = Ret (Ok (f args)) ∧
  (Service_CallWait (NewActorService a service) args s).2 = Ret (Ok (f args)) ∧
  ∀ l m, s !! l = Some m → (Service_Call (NewActorService a service) args s).1 !! l = Some m.
Proof.
  intros Ha. pose proof (is_fresh (dom s)) as Hf. apply not_elem_of_dom in Hf.
  assert (∀ wait, told (NewActorService a service) (mkMessage service args wait) s =
    (<[fresh (dom s) := mkMessage "" (f args) false]> s, Ret (Ok (f args)))) as E.
  { intros wait. unfold told. rewrite (bind_Ret new_reply _ s _ _ eq_refl).
    rewrite (bind_Ret (Tell _ _ _) _ _ _ _ (Ha args wait (fresh (dom s)) _ ltac:(rewrite lookup_insert_eq; by eexists))).
    unfold ReplyData, ReplyWithService, NeedReply. cbn.
    unfold mbind, prog_bind, get_state, modify, mret, prog_ret.
    cbn [fst]. by rewrite lookup_insert_eq, insert_insert_eq. }
  unfold Service_Call, Service_CallWait, NewActorMessage. cbn [as_Service NewActorService]. rewrite !E.
  split; [done|]. split; [done|]. intros l m Hl. cbn. rewrite lookup_insert_ne; [done|congruence].
Qed.
End messages.

(** ** ActorBase.go *)
Section base.
(** The world: finding an actor in an object, adding one, registering a service;
    handlers and objects are the application's. *)
Context {World obj actor handler : Type}.
Context (Find : obj → World → option actor) (AddActor : obj → Z → prog World actor)
  (RegisterService : actor → string → prog World (option string)).

Record ActorBase := mkBase {
  MessageHandler : option (gmap string handler); ab_actor : option actor; actorType : Z; parent : option obj }.
Abbreviation Base := (prog (World * ActorBase)).
Definition not_initialized : panic := PanicVal "actor base must be initialized first".

Definition in_World {X} (m : prog World X) : Base X := λ '(w, b), let '(w, r) := m w in ((w, b), r).
Definition update (f : ActorBase → ActorBase) : Base unit := modify (λ '(w, b), (w, f b)).

Definition ActorInit (o : obj) (types : list Z) : Base unit :=
  update (λ b, mkBase (MessageHandler b) (ab_actor b) (match types with [] => 0%Z | t :: _ => t end) (Some o)).
Definition check_parent : Base obj :=
  get_state ≫= λ '(_, b), match parent b with Some o => mret o | None => panicking not_initialized end.
Definition set_actor (a : actor) : Base unit :=
  update (λ b, mkBase (MessageHandler b) (Some a) (actorType b) (parent b)).
(** [Actor]: the one remembered, the object's, or a new one of the object. *)
Definition Actor : Base actor :=
  check_parent ≫= λ o,
  get_state ≫= λ '(w, b),
  match ab_actor b with
  | Some a => mret a
  | None =>
      match Find o w with
      | Some a => set_actor a ≫= λ _, mret a
      | None => in_World (AddActor o (actorType b)) ≫= λ a, set_actor a ≫= λ _, mret a
      end
  end.
Definition MessageHandlers : Base (option (gmap string handler)) :=
  check_parent ≫= λ _, get_state ≫= λ '(_, b), mret (MessageHandler b).
(** Only the number of the flags is looked at; an error of the registration is logged. *)
Definition AddHandler (service : string) (h : handler) (isService : list bool) : Base unit :=
  check_parent ≫= λ _,
  update (λ b, mkBase (Some (<[service := h]> (default ∅ (MessageHandler b)))) (ab_actor b) (actorType b) (parent b)) ≫= λ _,
  Actor ≫= λ a,
  if decide (0 < length isService) then in_World (RegisterService a service) ≫= λ _, mret tt else mret tt.

(** Before ActorInit a handler cannot be added. Afterwards it is there, with those
    before it, the actor is remembered, and the service is registered exactly when
    a flag is given, also when that is [false]. *)
Theorem AddHandler_result service h isService w b :
  (parent b = None → AddHandler service h isService (w, b) = ((w, b), Panic not_initialized)) ∧
  (∀ o a, parent b = Some o → ab_actor b = Some a →
     (∀ w, ∃ w' e, RegisterService a service w = (w', Ret e)) →
     ∃ w', AddHandler service h isService (w, b) =
       ((w', mkBase (Some (<[service := h]> (default ∅ (MessageHandler b)))) (Some a) (actorType b) (Some o)), Ret tt) ∧
     w' = if decide (0 < length isService) then (RegisterService a service w).1 else w).
Proof.
  destruct b as [hs ac t p]. split.
  - simpl. intros ->. done.
  - simpl. intros o a -> -> Hreg. destruct (Hreg w) as (w' & e & E).
    exists (if decide (0 < length isService) then w' else w). split; [|by rewrite E].
    unfold AddHandler, Actor, check_parent, get_state, update, modify, mbind, mret, prog_bind, prog_ret.
    cbn. case_decide; [|done]. unfold in_World. by rewrite E.
Qed.
End base.
