(* ===== verification/ActorNet.v ===== *)
(** * Actors: the proxies of many nodes together (hActor/)

    Any number of nodes, each with its ActorProxyComponent, that reach each other by
    RPC. A message to an address goes to a component of the node itself or, through
    ActorProxyService, to one of the node that the address names; a service is found by
    asking a node of the role. The local components, the clients of a node and the
    connections are arguments: their own behaviour is in Actor, Node and RpcSystem. *)
From stdpp Require Import functions.
From S2P Require Import Prelude GoString ActorBase ActorId.

Abbreviation node := positive.

(** ** Messages between nodes *)
Section net.
(** The rest of the world, arguments of messages, the ends of connections, selectors. *)
Context {World Arg client Sel : Type}.
Abbreviation ActorMessage := (@ActorMessage Arg).

(** [ActorMessageInfo] as a proxy handles it; [has_place] is whether [reply] is a
    pointer to a place and not nil. *)
Record Info := mkInfo { Sender : option IActor; Message : ActorMessage; has_place : bool }.
Record ActorRpcMessageInfo := mkRpcInfo { Target : ActorID; rm_Sender : ActorID; rm_Message : ActorMessage }.

(** The optional argument [reply] of [Tell]: absent, nil, or a pointer. *)
Inductive reply_arg := NoReply | NilReply | Place.

(** The proxies of the nodes, and everything else. *)
Record NodeWorld := mkNodeWorld { proxies : node → ActorProxyComponent; rest : World }.

(** [Tell] of a component of a node: an error, or what the place holds then. *)
Context (component_tell : node → actor → option IActor → ActorMessage → reply_arg →
  prog NodeWorld (result string ActorMessage)).
(** [GetNodeClient] and [GetNodeClientByRole] of a node. *)
Context (get_client : node → string → prog NodeWorld (result string client)).
Context (client_by_role : node → string → list Sel → prog NodeWorld (result string client)).
(** The node at the other end, whether a request gets there, whether the answer gets
    back in time, and the end of the connection. *)
Context (peer : client → node) (lost : client → NodeWorld → option string) (late : client → NodeWorld → option string).
Context (hang_up : client → NodeWorld → NodeWorld).

(** [Call] of a method of the node at the other end, and [CallWait] when [wait]: a
    handler that panics takes its process with it, one that never returns runs into the
    time-out of [Call]. *)
Definition ErrConnection : string := "unexpected EOF".
Definition ErrCallTimeout : string := "rpc timeout".
Definition rpc {X} (c : client) (wait : bool) (handler : node → prog NodeWorld (result string X))
    : prog NodeWorld (result string X) := λ w,
  match lost c w with
  | Some e => (w, Ret (Err e))
  | None =>
      match handler (peer c) w with
      | (w', Ret r) => (w', Ret (match late c w' with Some e => Err e | None => r end))
      | (w', Panic _) => (w', Ret (Err ErrConnection))
      | (w', Stuck) => (w', if wait then Stuck else Ret (Err ErrCallTimeout))
      end
  end.

(** [LocalTell] passes the reply on also when it is nil. *)
Definition local_tell (n : node) (a : actor) (m : Info) : prog NodeWorld (result string ActorMessage) :=
  component_tell n a (Sender m) (Message m) (if has_place m then Place else NilReply).
(** [messageInfo.Sender.ID()] *)
Definition sender_id (this : ActorProxyComponent) (s : option IActor) : ActorID :=
  match s with
  | None => []
  | Some (LocalActor a) => default [] (ap_ids this !! a)
  | Some (RemoteActor id) => id
  end.
(** gob refuses to decode into a nil pointer, which ends the connection. *)
Definition ErrNilReply : string := "reading body gob: DecodeValue of unassignable value".

Section hops.
Context (emit : node → ActorID → Info → prog NodeWorld (result string ActorMessage)).
(** [ActorProxyService.Tell]: the place of the reply is the RPC's. *)
Definition ActorProxyService_Tell (b : node) (args : ActorRpcMessageInfo) : prog NodeWorld (result string ActorMessage) :=
  emit b (Target args) (mkInfo (Some (RemoteActor (rm_Sender args))) (rm_Message args) true).
Definition remote_tell (n : node) (c : client) (id : ActorID) (m : Info) : prog NodeWorld (result string ActorMessage) :=
  w ← get_state;
  let args := mkRpcInfo id (sender_id (proxies w n) (Sender m)) (Message m) in
  r ← rpc c (IsWaitCall (Message m)) (λ b, ActorProxyService_Tell b args);
  match r with
  | Err e => mret (Err e)
  | Ok v => if has_place m then mret (Ok v) else _ ← modify (hang_up c); mret (Err ErrNilReply)
  end.
End hops.

(** [Emit] of the proxy of a node, for messages that hop at most [fuel] times. *)
Fixpoint Net_Emit (fuel : nat) (n : node) (id : ActorID) (m : Info) : prog NodeWorld (result string ActorMessage) :=
  match fuel with
  | O => stuck
  | S fuel =>
      w ← get_state;
      Emit (local_tell n) (get_client n) (remote_tell (Net_Emit fuel) n) id m (proxies w n)
  end.

(** [Tell] of an [IActor] that a node holds. *)
Definition IActor_Tell (n : node) (a : IActor) (sender : option IActor) (m : ActorMessage) (reply : reply_arg)
    : prog NodeWorld (result string ActorMessage) :=
  match a with
  | LocalActor a => component_tell n a sender m reply
  | RemoteActor id => Net_Emit 2 n id (mkInfo sender m (match reply with Place => true | _ => false end))
  end.

(** ActorService.go *)
Definition Net_Call (n : node) (s : ActorService) (args : list Arg) : prog NodeWorld (result string (list Arg)) :=
  r ← IActor_Tell n (as_actor s) None (NewActorMessage (as_Service s) args) Place;
  mret (match r with Err e => Err e | Ok m => Ok (Data m) end).
Definition Net_CallWait (n : node) (s : ActorService) (args : list Arg) : prog NodeWorld (result string (list Arg)) :=
  r ← IActor_Tell n (as_actor s) None (mkMessage (as_Service s) args true) Place;
  mret (match r with Err e => Err e | Ok m => Ok (Data m) end).

Definition inquiry (c : client) (service : string) : prog NodeWorld (result string ActorID) :=
  rpc c false (λ b w, (w, Ret (ServiceInquiry service (proxies w b)))).
Definition Net_GetActorService (n : node) (role service : string) (sel : list Sel)
    : prog NodeWorld (result string ActorService) :=
  w ← get_state; GetActorService (client_by_role n) inquiry role service sel (proxies w n).

(** A ServiceCaller of a node. *)
Definition Net_ServiceCall (n : node) (role service : string) (args : list Arg) :=
  Caller_Call (Net_Call n) (λ role service, Net_GetActorService n role service []) role service args.

(** ** What emitting a message comes to *)
(** The message as it arrives at another node. *)
Definition received (sender : ActorID) (m : Info) : Info := mkInfo (Some (RemoteActor sender)) (Message m) true.
Definition tell_here (n : node) (id : ActorID) (m : Info) : prog NodeWorld (result string ActorMessage) :=
  w ← get_state; LocalTell (local_tell n) id m (proxies w n).
(** On the node itself, or one RPC to the node of the address and there. *)
Definition one_hop (n : node) (id : ActorID) (m : Info) : prog NodeWorld (result string ActorMessage) :=
  nodeID ← of_outcome (GetNodeID id);
  w ← get_state;
  if decide (nodeID = ap_nodeID (proxies w n)) then tell_here n id m else
  r ← get_client n nodeID;
  match r with
  | Err e => mret (Err e)
  | Ok c =>
      w ← get_state;
      r ← rpc c (IsWaitCall (Message m)) (λ b, tell_here b id (received (sender_id (proxies w n) (Sender m)) m));
      match r with
      | Err e => mret (Err e)
      | Ok v => if has_place m then mret (Ok v) else _ ← modify (hang_up c); mret (Err ErrNilReply)
      end
  end.

(** Connecting changes no registry, and who is connected to an address finds the node
    of that address there. *)
Definition clients_honest : Prop := ∀ n addr w w' r, get_client n addr w = (w', r) →
  proxies w' = proxies w ∧ ∀ c, r = Ret (Ok c) → ap_nodeID (proxies w (peer c)) = addr.

Section routes.
Hypothesis honest : clients_honest.

Lemma rpc_ext {X} c wait (h h' : node → prog NodeWorld (result string X)) w :
  h (peer c) w = h' (peer c) w → rpc c wait h w = rpc c wait h' w.
Proof. intros E. unfold rpc. by rewrite E. Qed.

Lemma Net_Emit_S fuel n id m w : Net_Emit (S fuel) n id m w =
  Emit (local_tell n) (get_client n) (remote_tell (Net_Emit fuel) n) id m (proxies w n) w.
Proof. done. Qed.

Lemma emit_here fuel b id m w :
  GetNodeID id = Ret (ap_nodeID (proxies w b)) → Net_Emit (S fuel) b id m w = tell_here b id m w.
Proof.
  intros Hid. rewrite Net_Emit_S. unfold Emit. rewrite Hid, (bind_Ret _ _ w w (ap_nodeID (proxies w b))) by done.
  by rewrite decide_True.
Qed.

Lemma emit_hop fuel n id m w : Net_Emit (S (S fuel)) n id m w = one_hop n id m w.
Proof.
  rewrite Net_Emit_S. unfold one_hop, Emit. destruct (GetNodeID id) as [addr|p|] eqn:Eid; [|done..].
  rewrite !(bind_Ret (of_outcome _) _ w w addr), (bind_Ret get_state _ w w w) by done.
  case_decide; [done|].
  destruct (get_client n addr w) as [w1 [r|p|]] eqn:Ec;
    [|by rewrite !(bind_Panic _ _ _ _ _ Ec)|by rewrite !(bind_Stuck _ _ _ _ Ec)].
  rewrite !(bind_Ret _ _ _ _ _ Ec). destruct r as [c|e]; [|done].
  destruct (honest _ _ _ _ _ Ec) as [Hp Hc]. specialize (Hc c eq_refl).
  unfold remote_tell. rewrite !(bind_Ret get_state _ w1 w1 w1) by done.
  set (args := mkRpcInfo _ _ _).
  assert (rpc c (IsWaitCall (Message m)) (λ b, ActorProxyService_Tell (Net_Emit (S fuel)) b args) w1 =
    rpc c (IsWaitCall (Message m)) (λ b, tell_here b id (received (sender_id (proxies w1 n) (Sender m)) m)) w1) as E.
  { apply rpc_ext. apply emit_here. simpl. by rewrite Hp, Hc. }
  unfold mbind, prog_bind. by rewrite E.
Qed.

(** C17: whatever the fuel beyond two, emitting a message comes to one step: a message for
    the own node goes to the component registered there under the address, any other by one
    RPC to the node the address names and to the component registered there, or nowhere
    with an error; it never goes on from there. The component is told at most once, with
    the sender's address, and its answer is the answer, except that without a place for it
    the message is delivered, the call fails and the connection ends. *)
Theorem emit_one_hop fuel n id m w : 2 ≤ fuel → Net_Emit fuel n id m w = one_hop n id m w.
Proof. destruct fuel as [|[|fuel]]; [lia..|]. intros _. apply emit_hop. Qed.

(** ** Services *)
(** From node [n] the service is looked for on [b], by one connection, and told by
    another. *)
Record route (n b : node) (role svc : string) (w w1 w2 : NodeWorld) (c c2 : client) : Prop := {
  r_not_here : ap_service (proxies w n) !! svc = None;
  r_role : role ≠ LOCAL_SERVICE;
  r_by_role : client_by_role n role [] w = (w1, Ret (Ok c));
  r_same : proxies w1 = proxies w;
  r_peer : peer c = b;
  r_sent : lost c w1 = None;
  r_answered : late c w1 = None;
  r_other : ap_nodeID (proxies w b) ≠ ap_nodeID (proxies w n);
  r_client : get_client n (ap_nodeID (proxies w b)) w1 = (w2, Ret (Ok c2));
  r_peer2 : peer c2 = b;
  r_sent2 : lost c2 w2 = None }.

Lemma route_service n b role svc w w1 w2 c c2 id :
  route n b role svc w w1 w2 c c2 → ServiceInquiry svc (proxies w b) = Ok id →
  Net_GetActorService n role svc [] w = (w1, Ret (Ok (mkService (RemoteActor id) svc))).
Proof.
  intros [] Hs. unfold Net_GetActorService. rewrite (bind_Ret get_state _ w w w) by done.
  unfold GetActorService, GetLocalActorService. rewrite r_not_here0. unfold GetRemoteActorService.
  rewrite decide_False by done. rewrite (bind_Ret _ _ _ _ _ r_by_role0).
  assert (inquiry c svc w1 = (w1, Ret (Ok id))) as E
    by (unfold inquiry, rpc; by rewrite r_sent0, r_peer0, r_same0, Hs, r_answered0).
  by rewrite (bind_Ret _ _ _ _ _ E).
Qed.

(** Telling what the inquiry answered. *)
Lemma route_call n b role svc w w1 w2 c c2 id args w3 r :
  route n b role svc w w1 w2 c c2 → GetNodeID id = Ret (ap_nodeID (proxies w b)) →
  tell_here b id (received [] (mkInfo None (NewActorMessage svc args) true)) w2 = (w3, Ret r) → late c2 w3 = None →
  Net_Call n (mkService (RemoteActor id) svc) args w1 =
    (w3, Ret (match r with Err e => Err e | Ok m => Ok (Data m) end)).
Proof.
  intros [] Hid Ht Hl. unfold Net_Call, IActor_Tell. cbn [as_actor as_Service].
  assert (one_hop n id (mkInfo None (NewActorMessage svc args) true) w1 = (w3, Ret r)) as E.
  { unfold one_hop. rewrite Hid, (bind_Ret _ _ w1 w1 (ap_nodeID (proxies w b))), (bind_Ret get_state _ w1 w1 w1) by done.
    rewrite decide_False by (by rewrite r_same0). rewrite (bind_Ret _ _ _ _ _ r_client0), (bind_Ret get_state _ w2 w2 w2) by done.
    assert (∀ P : node → prog NodeWorld (result string ActorMessage), P b w2 = (w3, Ret r) →
      rpc c2 false P w2 = (w3, Ret r)) as Er by (intros P EP; unfold rpc; by rewrite r_sent3, r_peer3, EP, Hl).
    rewrite (bind_Ret _ _ _ _ _ (Er _ Ht)). by destruct r. }
  rewrite <- (emit_hop 0) in E. by rewrite (bind_Ret _ _ _ _ _ E).
Qed.

Lemma route_run n b role svc w w1 w2 c c2 id args w3 r cache :
  route n b role svc w w1 w2 c c2 → ServiceInquiry svc (proxies w b) = Ok id → cache !! svc = None →
  GetNodeID id = Ret (ap_nodeID (proxies w b)) →
  tell_here b id (received [] (mkInfo None (NewActorMessage svc args) true)) w2 = (w3, Ret r) → late c2 w3 = None →
  Net_ServiceCall n role svc args (w, cache) =
    match r with
    | Ok m => ((w3, <[svc := mkService (RemoteActor id) svc]> cache), Ret (Ok (Data m)))
    | Err e => ((w3, cache), Ret (Err e))
    end.
Proof.
  intros Hr Hs Hc Hid Ht Hl. pose proof (route_service _ _ _ _ _ _ _ _ _ _ Hr Hs) as E1.
  pose proof (route_call _ _ _ _ _ _ _ _ _ _ _ _ _ Hr Hid Ht Hl) as E2.
  unfold Net_ServiceCall, Caller_Call, cached, in_world, store, forget, modify, mbind, mret, prog_bind, prog_ret. rewrite Hc.
  rewrite E1, E2. destruct r; [done|]. by rewrite delete_insert_id.
Qed.

(** What telling the address does where the proxy has been replaced by [p]. *)
Lemma tell_registered b id m w a :
  ap_localActors (proxies w b) !! ActorID_String id = Some a → tell_here b id m w = local_tell b a m w.
Proof. intros Ha. unfold tell_here. rewrite (bind_Ret get_state _ w w w) by done. unfold LocalTell. by rewrite Ha. Qed.
Lemma tell_unregistered b id m w :
  ap_localActors (proxies w b) !! ActorID_String id = None → tell_here b id m w = (w, Ret (Err ErrNoThisActor)).
Proof. intros Ha. unfold tell_here. rewrite (bind_Ret get_state _ w w w) by done. unfold LocalTell. by rewrite Ha. Qed.

(** C18: an actor that registers itself and a service on one node is reached by any other
    node whose look-up leads there: the component is told the arguments once, its reply is
    what the call answers, and the address is remembered for the next call. When the actor
    is destroyed its service stays: every call that is led there answers that there is no
    such actor, nothing is remembered, and no other actor can take the service over. *)
Theorem service_reaches_actor uuid a svc b p p1 p2 :
  Register uuid a p = Ret (p1, None) → length (default [] (ap_ids p !! a)) = 3 →
  RegisterService (LocalActor a) svc p1 = (p2, None) →
  ∃ id, ap_ids p2 !! a = Some id ∧
    (∀ n role w w1 w2 c c2 args w3 r cache,
       proxies w b = p2 → route n b role svc w w1 w2 c c2 → cache !! svc = None →
       component_tell b a (Some (RemoteActor [])) (NewActorMessage svc args) Place w2 = (w3, Ret r) → late c2 w3 = None →
       Net_ServiceCall n role svc args (w, cache) =
         match r with
         | Ok m => ((w3, <[svc := mkService (RemoteActor id) svc]> cache), Ret (Ok (Data m)))
         | Err e => ((w3, cache), Ret (Err e))
         end) ∧
    (∀ n role w w1 w2 c c2 args cache,
       proxies w b = Unregister a p2 → route n b role svc w w1 w2 c c2 → cache !! svc = None → late c2 w2 = None →
       Net_ServiceCall n role svc args (w, cache) = ((w2, cache), Ret (Err ErrNoThisActor))) ∧
    ∀ other, RegisterService other svc (Unregister a p2) = (Unregister a p2, Some "this service is repeated").
Proof.
  intros E1 Hl E2. destruct (Register_run uuid a p p1 E1 Hl) as (ip & port & Hn & ->).
  set (id := [ip; port; uuid]) in *. unfold RegisterService in E2. cbn [ap_service ap_nodeID ap_localActors ap_ids] in E2.
  destruct (ap_service p !! svc) eqn:Es; [done|]. injection E2 as <-. exists id. split; [apply lookup_insert_eq|].
  rewrite (Unregister_run id a) by (cbn; rewrite lookup_insert_eq; by eauto). cbn [ap_nodeID ap_localActors ap_ids ap_service].
  split; [|split; [|intros other; unfold RegisterService; cbn [ap_service]; by rewrite lookup_insert_eq]].
  - intros n role w w1 w2 c c2 args w3 r cache Hp Hr Hc Ht Hlate.
    pose proof (honest _ _ _ _ _ (r_client _ _ _ _ _ _ _ _ _ Hr)) as [Hp2 _]. rewrite (r_same _ _ _ _ _ _ _ _ _ Hr) in Hp2.
    eapply (route_run n b role svc); [exact Hr| |exact Hc|by rewrite Hp| |exact Hlate].
    + unfold ServiceInquiry, GetLocalActorService. rewrite Hp. cbn [ap_service ap_ids]. rewrite lookup_insert_eq. cbn [as_actor].
      by rewrite lookup_insert_eq.
    + rewrite (tell_registered b id _ w2 a); [exact Ht|]. rewrite Hp2, Hp. apply lookup_insert_eq.
  - intros n role w w1 w2 c c2 args cache Hp Hr Hc Hlate.
    pose proof (honest _ _ _ _ _ (r_client _ _ _ _ _ _ _ _ _ Hr)) as [Hp2 _]. rewrite (r_same _ _ _ _ _ _ _ _ _ Hr) in Hp2.
    apply (route_run n b role svc w w1 w2 c c2 id args w2 (Err ErrNoThisActor) cache Hr);
      [|exact Hc|by rewrite Hp| |exact Hlate].
    + unfold ServiceInquiry, GetLocalActorService. rewrite Hp. cbn [ap_service ap_ids]. rewrite lookup_insert_eq. cbn [as_actor].
      by rewrite lookup_insert_eq.
    + apply tell_unregistered. rewrite Hp2, Hp. apply lookup_delete_eq.
Qed.

(** *** Two faults *)
(** A message without a place for the reply is delivered to another node's component, and
    answered there, but the sender gets an error and its connection is gone (the reading
    goroutine of RpcClient stops at a body it cannot decode). *)
Lemma no_place_hangs_up n id m w addr w1 c w2 v :
  GetNodeID id = Ret addr → addr ≠ ap_nodeID (proxies w n) → has_place m = false →
  get_client n addr w = (w1, Ret (Ok c)) → lost c w1 = None →
  tell_here (peer c) id (received (sender_id (proxies w1 n) (Sender m)) m) w1 = (w2, Ret (Ok v)) → late c w2 = None →
  Net_Emit 2 n id m w = (hang_up c w2, Ret (Err ErrNilReply)).
Proof.
  intros Hid Hne Hm Hc Hs Ht Hl. rewrite emit_hop. unfold one_hop.
  rewrite Hid, (bind_Ret _ _ w w addr), (bind_Ret get_state _ w w w) by done. rewrite decide_False by done.
  rewrite (bind_Ret _ _ _ _ _ Hc), (bind_Ret get_state _ w1 w1 w1) by done.
  assert (∀ wait (P : node → prog NodeWorld (result string ActorMessage)), P (peer c) w1 = (w2, Ret (Ok v)) →
    rpc c wait P w1 = (w2, Ret (Ok v))) as Er by (intros wait P EP; unfold rpc; by rewrite Hs, EP, Hl).
  by rewrite (bind_Ret _ _ _ _ _ (Er _ _ Ht)), Hm.
Qed.

(** A message without a sender arrives with one whose address is empty: answering it by
    telling that sender panics. *)
Lemma anonymous_sender_panics n sender m r w :
  Some (RemoteActor []) = Sender (received (sender_id (proxies w n) None) (mkInfo None m true)) ∧
  IActor_Tell n (RemoteActor []) sender m r w = (w, Panic IndexOutOfRange).
Proof. by split. Qed.

(** A remembered service that answers with an error, also with a late answer to arguments
    it was told, is looked for and told once more. *)
Lemma error_calls_again n role svc args w cache s w1 e :
  cache !! svc = Some s → Net_Call n s args w = (w1, Ret (Err e)) →
  Net_ServiceCall n role svc args (w, cache) = Net_ServiceCall n role svc args (w1, delete svc cache).
Proof.
  intros Hc E. unfold Net_ServiceCall, Caller_Call, cached, in_world, forget, modify, mbind, mret, prog_bind, prog_ret.
  by rewrite Hc, E, lookup_delete_eq.
Qed.
End routes.
End net.

(** ** Two nodes *)
Definition lobby_proxy : ActorProxyComponent := mkProxy "10.0.0.1:8888" ∅ ∅ ∅.
Definition game_proxy : ActorProxyComponent := mkProxy "10.0.0.2:8888" ∅ ∅ {[1%positive := EmptyActorID]}.
Definition game_registered : ActorProxyComponent :=
  mkProxy "10.0.0.2:8888" {["10.0.0.2:8888:room" := 1%positive]} ∅ {[1%positive := ["10.0.0.2"; "8888"; "room"]]}.
Definition game_offers : ActorProxyComponent :=
  mkProxy "10.0.0.2:8888" {["10.0.0.2:8888:room" := 1%positive]} {["match" := mkService (LocalActor 1) "match"]}
    {[1%positive := ["10.0.0.2"; "8888"; "room"]]}.
(** The room answers what it is told and counts. *)
Definition room_tell (n : node) (a : actor) (s : option IActor) (m : ActorMessage) (r : reply_arg)
    : prog (NodeWorld (World := nat)) (result string (ActorMessage (A := nat))) := λ w,
  (mkNodeWorld (proxies w) (S (rest w)), Ret (Ok (mkMessage "" (Data m) false))).
Definition second_node (n : node) (addr : string) : prog (NodeWorld (World := nat)) (result string node) := λ w,
  (w, Ret (if decide (ap_nodeID (proxies w 2%positive) = addr) then Ok 2%positive else Err "no node")).
Definition two_nodes : NodeWorld (World := nat) := mkNodeWorld (<[2%positive := game_offers]> (λ _, lobby_proxy)) 0.

Lemma second_node_honest : clients_honest second_node id.
Proof. intros n addr w w' r [= <- <-]. split; [done|]. intros c E. case_decide; [|done]. by injection E as <-. Qed.

Lemma service_reaches_actor_witness :
  ∃ w cache, Net_ServiceCall (Sel := unit) room_tell second_node (λ n _ _, second_node n "10.0.0.2:8888") id
      (λ _ _, None) (λ _ _, None) (λ _ w, w) 1 "game" "match" [7] (two_nodes, ∅) = ((w, cache), Ret (Ok [7])) ∧
    rest w = 1 ∧ is_Some (cache !! "match").
Proof.
  assert (Register "room" 1 game_proxy = Ret (game_registered, None)) as E1 by (vm_compute; reflexivity).
  assert (RegisterService (LocalActor 1) "match" game_registered = (game_offers, None)) as E2 by (vm_compute; reflexivity).
  destruct (service_reaches_actor (Sel := unit) room_tell second_node (λ n _ _, second_node n "10.0.0.2:8888") id
    (λ _ _, None) (λ _ _, None) (λ _ w, w) second_node_honest "room" 1 "match" 2 game_proxy game_registered game_offers
    E1 eq_refl E2) as (i & _ & Hcall & _).
  assert (route (Sel := unit) second_node (λ n _ _, second_node n "10.0.0.2:8888") id (λ _ _, None) (λ _ _, None)
    1 2 "game" "match" two_nodes two_nodes two_nodes 2%positive 2%positive) as Hr by by split.
  pose proof (Hcall 1%positive "game" two_nodes two_nodes two_nodes 2%positive 2%positive [7]
    (mkNodeWorld (proxies two_nodes) 1) (Ok (mkMessage "" [7] false)) ∅ eq_refl Hr eq_refl eq_refl eq_refl) as E.
  do 2 eexists. split; [exact E|]. split; [reflexivity|]. rewrite lookup_insert_eq. by eexists.
Defined.

Lemma emit_one_hop_witness :
  Net_Emit room_tell second_node id (λ _ _, None) (λ _ _, None) (λ _ w, w) 9 1
    ["10.0.0.2"; "8888"; "room"] (mkInfo None (mkMessage "match" [7] false) true) two_nodes =
  (mkNodeWorld (proxies two_nodes) 1, Ret (Ok (mkMessage "" [7] false))).
Proof.
  rewrite (emit_one_hop room_tell second_node id (λ _ _, None) (λ _ _, None) (λ _ w, w) second_node_honest) by lia.
  vm_compute. reflexivity.
Defined.
