(* ===== verification/Actor.v ===== *)
(** * hActor: an actor and its messages

    ActorComponent.go and ActorMessageInfo.go.  Any number of goroutines tell the
    actor messages; its dispatcher takes them from a channel of capacity 20 and
    handles each itself (a serial actor) or in a goroutine of its own.  An event is
    one step of one goroutine; [run_event] answers [None] when it has to wait. *)
From S2P Require Import Prelude.

Abbreviation ActorType := Z.
Definition ACTOR_TYPE_DEFAULT : ActorType := 0.
Definition ACTOR_TYPE_SYNC : ActorType := 1.
Definition ACTOR_TYPE_ASYNC : ActorType := 2.

Definition ErrTimeout : string := "actor tell time out".
Definition ErrInactive : string := "this actor is inactive or destroyed".

(** Where the goroutine in [Tell] stands. *)
Inductive teller :=
| TSend                              (* at the send on the queue *)
| TWait                              (* at the select on [done] *)
| TRead                              (* past it, at [return messageInfo.err] *)
| TReturned (err : option string)
| TPanicked.                         (* sent on the closed queue *)

(** [ActorMessageInfo]; [m_handlers] are the handlers the actor's components have for
    the service, by what each comes back with (a panic it recovers is an error). *)
Record Msg := mkMsg {
  m_handlers : list (option string);
  m_need : bool;                     (* [done] was made *)
  m_wait : bool;                     (* [IsWaitCall] *)
  m_isDone : bool;
  m_err : option string;
  m_teller : teller }.

(** Where the goroutine in [handle] stands: before the handlers that are left, or at
    the send on [done] between two of them. *)
Inductive worker := HRun (rest : list (option string)) | HSend (rest : list (option string)).

Inductive dispatcher_pc := DSelect | DBusy (id : positive) | DEnded | DPanicked.

Record ActorComponent := mkActor {
  a_type : ActorType;
  active : bool;
  qclosed : bool;
  queueReceive : list positive;
  msgs : gmap positive Msg;
  workers : gmap positive worker;
  dispatcher : dispatcher_pc }.

Definition set_msgs ms (a : ActorComponent) :=
  mkActor (a_type a) (active a) (qclosed a) (queueReceive a) ms (workers a) (dispatcher a).
Definition set_workers ws (a : ActorComponent) :=
  mkActor (a_type a) (active a) (qclosed a) (queueReceive a) (msgs a) ws (dispatcher a).
Definition with_teller t (m : Msg) :=
  mkMsg (m_handlers m) (m_need m) (m_wait m) (m_isDone m) (m_err m) t.

(** [Initialize], when the proxy accepted the actor. *)
Definition Initialize (t : ActorType) : ActorComponent :=
  mkActor (if decide (t = ACTOR_TYPE_DEFAULT) then ACTOR_TYPE_ASYNC else t) true false [] ∅ ∅ DSelect.

(** [Tell], up to the send. *)
Definition Tell (id : positive) (handlers : list (option string)) (need wait : bool)
    (a : ActorComponent) : option ActorComponent :=
  match msgs a !! id with
  | Some _ => None
  | None =>
      Some (set_msgs (<[id := mkMsg handlers need wait false None
        (if active a then TSend else TReturned (Some ErrInactive))]> (msgs a)) a)
  end.

(** The send on the queue. *)
Definition enqueue (id : positive) (a : ActorComponent) : option ActorComponent :=
  match msgs a !! id with
  | Some m =>
      match m_teller m with
      | TSend =>
          if qclosed a then Some (set_msgs (<[id := with_teller TPanicked m]> (msgs a)) a)
          else if decide (length (queueReceive a) < 20) then
            let t := if m_need m then TWait else TRead in
            Some (mkActor (a_type a) (active a) (qclosed a) (queueReceive a ++ [id])
                    (<[id := with_teller t m]> (msgs a)) (workers a) (dispatcher a))
          else None
      | _ => None
      end
  | None => None
  end.

(** The select of [Tell] when the time is over. *)
Definition tell_timeout (id : positive) (a : ActorComponent) : option ActorComponent :=
  match msgs a !! id with
  | Some m =>
      match m_teller m with
      | TWait =>
          if m_wait m then None
          else Some (set_msgs (<[id := mkMsg (m_handlers m) (m_need m) (m_wait m) (m_isDone m)
                 (Some ErrTimeout) TRead]> (msgs a)) a)
      | _ => None
      end
  | None => None
  end.

(** [dispatch]: a message, the closed queue, the close signal ([Destroy]). *)
Definition dispatch_take (a : ActorComponent) : option ActorComponent :=
  match dispatcher a, queueReceive a with
  | DSelect, id :: q =>
      let hs := match msgs a !! id with Some m => m_handlers m | None => [] end in
      let started := <[id := HRun hs]> (workers a) in
      Some (if decide (a_type a = ACTOR_TYPE_SYNC) then
              mkActor (a_type a) (active a) (qclosed a) q (msgs a) started (DBusy id)
            else if decide (a_type a = ACTOR_TYPE_ASYNC) then
              mkActor (a_type a) (active a) (qclosed a) q (msgs a) started DSelect
            else mkActor (a_type a) (active a) (qclosed a) q (msgs a) (workers a) DSelect)
  | _, _ => None
  end.
Definition dispatch_end (a : ActorComponent) : option ActorComponent :=
  match dispatcher a, queueReceive a, qclosed a with
  | DSelect, [], true =>
      Some (mkActor (a_type a) (active a) (qclosed a) [] (msgs a) (workers a) DEnded)
  | _, _, _ => None
  end.
Definition Destroy (a : ActorComponent) : option ActorComponent :=
  match dispatcher a with
  | DSelect =>
      Some (mkActor (a_type a) false true (queueReceive a) (msgs a) (workers a)
              (if qclosed a then DPanicked else DSelect))
  | _ => None
  end.

(** [Catch], one handler: [replyError] or [replySuccess], up to the send on [done]. *)
Definition Catch (id : positive) (a : ActorComponent) : option ActorComponent :=
  match workers a !! id, msgs a !! id with
  | Some (HRun (o :: rest)), Some m =>
      let err := match o with Some e => Some e | None => m_err m end in
      let w := if m_need m && negb (m_isDone m) then HSend rest else HRun rest in
      Some (set_workers (<[id := w]> (workers a))
        (set_msgs (<[id := mkMsg (m_handlers m) (m_need m) (m_wait m) (m_isDone m) err (m_teller m)]>
          (msgs a)) a))
  | _, _ => None
  end.

(** The send on [done] meets the select of [Tell]. *)
Definition send_done (id : positive) (a : ActorComponent) : option ActorComponent :=
  match workers a !! id, msgs a !! id with
  | Some (HSend rest), Some m =>
      match m_teller m with
      | TWait =>
          Some (set_workers (<[id := HRun rest]> (workers a))
            (set_msgs (<[id := mkMsg (m_handlers m) (m_need m) (m_wait m) true (m_err m) TRead]>
              (msgs a)) a))
      | _ => None
      end
  | _, _ => None
  end.

(** [return messageInfo.err]: by then a handler of another component may have written it. *)
Definition read_err (id : positive) (a : ActorComponent) : option ActorComponent :=
  match msgs a !! id with
  | Some m =>
      match m_teller m with
      | TRead => Some (set_msgs (<[id := with_teller (TReturned (m_err m)) m]> (msgs a)) a)
      | _ => None
      end
  | None => None
  end.

(** [handle] comes to the end of the components. *)
Definition handle_end (id : positive) (a : ActorComponent) : option ActorComponent :=
  match workers a !! id with
  | Some (HRun []) =>
      Some (mkActor (a_type a) (active a) (qclosed a) (queueReceive a) (msgs a) (delete id (workers a))
        (match dispatcher a with
         | DBusy id' => if decide (id' = id) then DSelect else DBusy id'
         | d => d
         end))
  | _ => None
  end.

Inductive actor_event :=
| ETell (id : positive) (handlers : list (option string)) (need wait : bool)
| EEnqueue (id : positive)
| ETellTimeout (id : positive)
| ETake | EEnd | EDestroy
| ECatch (id : positive)
| EDone (id : positive)
| ERead (id : positive)
| EHandled (id : positive).

Definition run_event (e : actor_event) (a : ActorComponent) : option ActorComponent :=
  match e with
  | ETell id hs need wait => Tell id hs need wait a
  | EEnqueue id => enqueue id a
  | ETellTimeout id => tell_timeout id a
  | ETake => dispatch_take a
  | EEnd => dispatch_end a
  | EDestroy => Destroy a
  | ECatch id => Catch id a
  | EDone id => send_done id a
  | ERead id => read_err id a
  | EHandled id => handle_end id a
  end.

Definition actor_step (a a' : ActorComponent) : Prop := ∃ e, run_event e a = Some a'.

(** ** The invariant *)

(** What an answer can be: what the first handler came back with, the error of a later
    one, or no handler's. *)
Definition answer_ok (m : Msg) (r : option string) : Prop :=
  m_need m = false ∨ (m_wait m = false ∧ r = Some ErrTimeout) ∨ r = Some ErrInactive ∨ (∃ rest, m_handlers m = r :: rest) ∨
  ∃ e, r = Some e ∧ Some e ∈ m_handlers m.

(** A message with its worker, and whether it is in the queue. *)
Definition msg_ok (typ : ActorType) (m : Msg) (w : option worker) (queued : Prop) : Prop :=
  match m_teller m with
  | TSend => w = None ∧ ¬ queued ∧ m_err m = None ∧ m_isDone m = false
  | TWait => m_need m = true ∧ m_isDone m = false ∧
      match w with
      | None => m_err m = None ∧
          (queued ∨ m_handlers m = [] ∨ typ ≠ ACTOR_TYPE_SYNC ∧ typ ≠ ACTOR_TYPE_ASYNC)
      | Some (HRun rest) => rest = m_handlers m ∧ m_err m = None
      | Some (HSend rest) => m_handlers m = m_err m :: rest
      end
  | TRead => answer_ok m (m_err m)
  | TReturned r => answer_ok m r
  | TPanicked => True
  end.

Record act_ok (a : ActorComponent) : Prop := {
  ao_nodup : NoDup (queueReceive a);
  ao_queue id : id ∈ queueReceive a →
    workers a !! id = None ∧ ∃ m, msgs a !! id = Some m ∧ m_teller m ≠ TSend;
  ao_worker id w : workers a !! id = Some w → ∃ m, msgs a !! id = Some m ∧ m_teller m ≠ TSend;
  ao_msg id m : msgs a !! id = Some m →
    msg_ok (a_type a) m (workers a !! id) (id ∈ queueReceive a);
  ao_busy : a_type a = ACTOR_TYPE_SYNC →
    match dispatcher a with DBusy id => dom (workers a) = {[id]} | _ => workers a = ∅ end }.

(** The handlers that are left are some of the message's. *)
Definition rest_of (w : worker) : list (option string) := match w with HRun rest | HSend rest => rest end.
Definition rests (ws : gmap positive worker) (ms : gmap positive Msg) : Prop := ∀ id w m,
  ws !! id = Some w → ms !! id = Some m → rest_of w ⊆ m_handlers m.
Definition rest_ok (a : ActorComponent) : Prop := rests (workers a) (msgs a).

(** Steps that leave the queue alone and touch one message and its worker. *)
Lemma act_ok_at id m' (a a' : ActorComponent) :
  act_ok a → a_type a' = a_type a → queueReceive a' = queueReceive a →
  msgs a' = <[id := m']> (msgs a) → (∀ id', id' ≠ id → workers a' !! id' = workers a !! id') →
  (id ∈ queueReceive a → workers a' !! id = None ∧ m_teller m' ≠ TSend) →
  (is_Some (workers a' !! id) → m_teller m' ≠ TSend) →
  msg_ok (a_type a) m' (workers a' !! id) (id ∈ queueReceive a) →
  (a_type a = ACTOR_TYPE_SYNC →
    match dispatcher a' with DBusy id => dom (workers a') = {[id]} | _ => workers a' = ∅ end) →
  act_ok a'.
Proof.
  intros [Hn Hq Hw Hm Hb] Et Eq Em Ew H1 H2 H3 H4. split; rewrite ?Eq, ?Et, ?Em; try done.
  - intros i Hi. destruct (decide (i = id)) as [->|Hne].
    + destruct (H1 Hi). split; [done|]. exists m'. by rewrite lookup_insert_eq.
    + destruct (Hq _ Hi) as [? ?]. rewrite Ew, lookup_insert_ne by done. done.
  - intros i w Hi. destruct (decide (i = id)) as [->|Hne].
    + exists m'. rewrite lookup_insert_eq. split; [done|]. apply H2. by eexists.
    + rewrite Ew in Hi by done. rewrite lookup_insert_ne by done. by eapply Hw.
  - intros i m [[<- <-]|[Hne Hi]]%lookup_insert_Some; [done|]. rewrite Ew by done. by apply Hm.
Qed.

Lemma same_dom (ws : gmap positive worker) id w w' d :
  ws !! id = Some w →
  match d with DBusy i => dom ws = {[i]} | _ => ws = ∅ end →
  match d with DBusy i => dom (<[id := w']> ws) = {[i]} | _ => <[id := w']> ws = ∅ end.
Proof.
  intros Hid Hd. destruct d; try (subst ws; by rewrite lookup_empty in Hid).
  rewrite dom_insert_L. rewrite Hd. apply elem_of_dom_2 in Hid. set_solver.
Qed.

Lemma msg_ok_queue typ m w (Q Q' : Prop) : (Q ↔ Q') → msg_ok typ m w Q → msg_ok typ m w Q'.
Proof.
  intros HQ. unfold msg_ok. destruct (m_teller m); try done.
  - intros (? & ? & ?). naive_solver.
  - intros (? & ? & Hw). split_and!; try done. destruct w as [[]|]; try done. naive_solver.
Qed.

Lemma run_event_rest e (a a' : ActorComponent) : act_ok a → rest_ok a → run_event e a = Some a' → rest_ok a'.
Proof.
  intros [Hn Hq Hw Hm Hb] Hro Hrun.
  assert (∀ i m', (∀ m, msgs a !! i = Some m → m_handlers m' = m_handlers m) →
    (msgs a !! i = None → workers a !! i = None) → rests (workers a) (<[i := m']> (msgs a))) as Hset.
  { intros i m' Hi Hno id w m Hid [[<- <-]|[Hne Hmm]]%lookup_insert_Some; [|by eapply Hro].
    destruct (msgs a !! i) as [m0|] eqn:E; [|by rewrite (Hno eq_refl) in Hid].
    rewrite (Hi m0 eq_refl). by eapply Hro. }
  destruct e as [id hs need wait|id|id| | | |id|id|id|id]; simpl in Hrun.
  - unfold Tell in Hrun. destruct (msgs a !! id) as [m|] eqn:Hid; [done|]. simplify_eq.
    unfold rest_ok; simpl; apply Hset; [congruence|]. intros _. destruct (workers a !! id) eqn:E; [|done].
    destruct (Hw _ _ E) as (? & ? & _); congruence.
  - unfold enqueue in Hrun. destruct (msgs a !! id) as [m|] eqn:Hid; [|done].
    destruct (m_teller m); try done.
    destruct (qclosed a); [|destruct (decide _); [|done]]; simplify_eq; unfold rest_ok; simpl; apply Hset; simpl; congruence.
  - unfold tell_timeout in Hrun. destruct (msgs a !! id) as [m|] eqn:Hid; [|done].
    destruct (m_teller m); try done. destruct (m_wait m); [done|]. simplify_eq. unfold rest_ok; simpl; apply Hset; simpl; congruence.
  - unfold dispatch_take in Hrun. destruct (dispatcher a); try done.
    destruct (queueReceive a) as [|id q] eqn:Eq; [done|].
    repeat case_decide; simplify_eq; [..|done]; unfold rest_ok; simpl;
      intros i w m [[<- <-]|[Hne Hi]]%lookup_insert_Some Hmm; simpl in *; first [by eapply Hro|by rewrite Hmm].
  - unfold dispatch_end in Hrun. destruct (dispatcher a), (queueReceive a), (qclosed a); by simplify_eq.
  - unfold Destroy in Hrun. destruct (dispatcher a); by simplify_eq.
  - unfold Catch in Hrun. destruct (workers a !! id) as [[[|o rest]|]|] eqn:Hwk; try done.
    destruct (msgs a !! id) as [m|] eqn:Hid; [|done]. simplify_eq.
    assert (rest ⊆ m_handlers m) as Hr by (specialize (Hro _ _ _ Hwk Hid); simpl in Hro; set_solver).
    intros i w m' Hi Hmm. simpl in Hi, Hmm. destruct (decide (i = id)) as [->|Hne].
    + rewrite lookup_insert_eq in Hi. rewrite lookup_insert_eq in Hmm. simplify_eq. simpl. by destruct (m_need m && negb (m_isDone m)).
    + rewrite lookup_insert_ne in Hi by done. rewrite lookup_insert_ne in Hmm by done. by eapply Hro.
  - unfold send_done in Hrun. destruct (workers a !! id) as [[|rest]|] eqn:Hwk; try done.
    destruct (msgs a !! id) as [m|] eqn:Hid; [|done]. destruct (m_teller m); try done. simplify_eq.
    intros i w m' Hi Hmm. simpl in Hi, Hmm. destruct (decide (i = id)) as [->|Hne].
    + rewrite lookup_insert_eq in Hi. rewrite lookup_insert_eq in Hmm. simplify_eq. exact (Hro _ _ _ Hwk Hid).
    + rewrite lookup_insert_ne in Hi by done. rewrite lookup_insert_ne in Hmm by done. by eapply Hro.
  - unfold read_err in Hrun. destruct (msgs a !! id) as [m|] eqn:Hid; [|done].
    destruct (m_teller m); try done. simplify_eq. unfold rest_ok; simpl; apply Hset; simpl; congruence.
  - unfold handle_end in Hrun. destruct (workers a !! id) as [[[|]|]|] eqn:Hwk; try done. simplify_eq.
    unfold rest_ok. simpl. intros i w m [Hne Hi]%lookup_delete_Some Hmm. by eapply Hro.
Qed.

Lemma run_event_ok e (a a' : ActorComponent) : act_ok a → rest_ok a → run_event e a = Some a' → act_ok a'.
Proof.
  intros Hok Hro Hrun. pose proof Hok as [Hn Hq Hw Hm Hb].
  destruct e as [id hs need wait|id|id| | | |id|id|id|id]; simpl in Hrun.
  - unfold Tell in Hrun. destruct (msgs a !! id) as [m|] eqn:Hid; [done|]. simplify_eq.
    assert (id ∉ queueReceive a) as Hnq by (intros Hi; destruct (Hq _ Hi) as (_ & ? & ? & _); congruence).
    assert (workers a !! id = None) as Hnw.
    { destruct (workers a !! id) eqn:E; [|done]. destruct (Hw _ _ E) as (? & ? & _); congruence. }
    eapply (act_ok_at id _ a _ Hok); simpl; try done.
    + by rewrite Hnw; intros [].
    + unfold msg_ok, answer_ok. simpl. destruct (active a); simpl; [done|auto].
  - unfold enqueue in Hrun. destruct (msgs a !! id) as [m|] eqn:Hid; [|done].
    pose proof (Hm _ _ Hid) as Hmok. unfold msg_ok in Hmok.
    destruct (m_teller m) eqn:Ht; try done. destruct Hmok as (Hnw & Hnq & He & Hd).
    destruct (qclosed a); [|destruct (decide _); [|done]]; simplify_eq.
    + eapply (act_ok_at id _ a _ Hok); simpl; try done.
    + split; simpl.
      * apply NoDup_app. split_and!; [done| |apply NoDup_singleton].
        intros x Hx ->%list_elem_of_singleton. done.
      * intros i [Hi| ->%list_elem_of_singleton]%elem_of_app.
        -- destruct (Hq _ Hi) as [? ?]. rewrite lookup_insert_ne by (by intros <-). done.
        -- split; [done|]. eexists. rewrite lookup_insert_eq. split; [done|]. simpl. by destruct (m_need m).
      * intros i w Hi. destruct (Hw _ _ Hi) as (m0 & Hm0 & ?). exists m0.
        rewrite lookup_insert_ne by (intros <-; congruence). done.
      * intros i m0 [[<- <-]|[Hne Hi]]%lookup_insert_Some.
        -- unfold msg_ok. simpl. rewrite Hnw. destruct (m_need m) eqn:Hnd.
           ++ split_and!; try done. left. apply elem_of_app. right. by left.
           ++ by left.
        -- specialize (Hm _ _ Hi). unfold msg_ok in *. destruct (m_teller m0); try done.
           ++ destruct Hm as (? & Hno & ?). split_and!; try done; [|naive_solver..].
              rewrite elem_of_app, list_elem_of_singleton. naive_solver.
           ++ destruct Hm as (? & ? & Hm). split_and!; try done. destruct (workers a !! i) as [[]|]; try done.
              rewrite elem_of_app. naive_solver.
      * done.
  - unfold tell_timeout in Hrun. destruct (msgs a !! id) as [m|] eqn:Hid; [|done].
    destruct (m_teller m) eqn:Ht; try done. destruct (m_wait m); [done|]. simplify_eq.
    eapply (act_ok_at id _ a _ Hok); simpl; try done.
    + intros Hi. split; [by apply Hq|done].
    + unfold msg_ok, answer_ok. simpl. auto.
  - unfold dispatch_take in Hrun. destruct (dispatcher a) eqn:Hd; try done.
    destruct (queueReceive a) as [|id q] eqn:Eq; [done|].
    apply NoDup_cons in Hn as [Hnin Hn]. destruct (Hq id) as (Hnw & m & Hid & Hns); [by left|].
    rewrite Hid in Hrun.
    assert (∀ i m0 w, i ≠ id → msg_ok (a_type a) m0 w (i ∈ id :: q) → msg_ok (a_type a) m0 w (i ∈ q)) as Hrest.
    { intros i m0 w Hne. apply msg_ok_queue. rewrite elem_of_cons. naive_solver. }
    pose proof (Hm _ _ Hid) as Hmok. unfold msg_ok in Hmok. rewrite Hnw in Hmok.
    assert (∀ d, (a_type a = ACTOR_TYPE_SYNC → d = DBusy id) →
      act_ok (mkActor (a_type a) (active a) (qclosed a) q (msgs a)
                (<[id := HRun (m_handlers m)]> (workers a)) d)) as Hstart.
    { intros d Hdd. split; simpl; [done| | | |].
      - intros i Hi. rewrite lookup_insert_ne by (by intros <-). apply Hq. by right.
      - intros i w [[<- <-]|[Hne Hi]]%lookup_insert_Some; [by exists m|by eapply Hw].
      - intros i m0 Hi. destruct (decide (i = id)) as [->|Hne].
        + assert (m0 = m) as -> by congruence. rewrite lookup_insert_eq. unfold msg_ok.
          destruct (m_teller m); try done. naive_solver.
        + rewrite lookup_insert_ne by done. apply Hrest; [done|]. by apply Hm.
      - intros Et. rewrite (Hdd Et). rewrite dom_insert_L, (Hb Et). set_solver. }
    destruct (decide (a_type a = ACTOR_TYPE_SYNC)) as [Et|Et]; [|destruct (decide (a_type a = ACTOR_TYPE_ASYNC)) as [Ea|Ea]];
      simplify_eq; [by apply Hstart|by apply Hstart|].
    split; simpl; [done| |done| |done].
    + intros i Hi. apply Hq. by right.
    + intros i m0 Hi. destruct (decide (i = id)) as [->|Hne]; [|apply Hrest; [done|by apply Hm]].
      assert (m0 = m) as -> by congruence. rewrite Hnw. unfold msg_ok.
      destruct (m_teller m); try done. naive_solver.
  - unfold dispatch_end in Hrun. destruct (dispatcher a) eqn:Hd; try done.
    destruct (queueReceive a) eqn:Eq; [|done]. destruct (qclosed a); [|done]. simplify_eq.
    split; simpl; try done; by rewrite <- Eq.
  - unfold Destroy in Hrun. destruct (dispatcher a) eqn:Hd; try done. simplify_eq.
    split; simpl; try done. by destruct (qclosed a).
  - unfold Catch in Hrun. destruct (workers a !! id) as [[[|o rest]|]|] eqn:Hwk; try done.
    destruct (msgs a !! id) as [m|] eqn:Hid; [|done]. simplify_eq.
    destruct (Hw _ _ Hwk) as (m1 & ? & Hns). simplify_eq.
    eapply (act_ok_at id _ a _ Hok); simpl; try done.
    + intros i Hne. by apply lookup_insert_ne.
    + intros Hi. destruct (Hq _ Hi) as [? _]. congruence.
    + pose proof (Hm _ _ Hid) as Hmok. unfold msg_ok in *. rewrite Hwk in Hmok. rewrite lookup_insert_eq.
      simpl. destruct (m_teller m); try done.
      * destruct Hmok as (Hnd & Hdn & Hr & He). rewrite Hnd, Hdn. simpl. split_and!; try done.
        rewrite <- Hr, He. by destruct o.
      * destruct o as [e|]; [|done]. do 4 right. exists e. split; [done|].
        apply (Hro _ _ _ Hwk Hid). by left.
    + intros Et. apply Hb in Et. by eapply same_dom.
  - unfold send_done in Hrun. destruct (workers a !! id) as [[|rest]|] eqn:Hwk; try done.
    destruct (msgs a !! id) as [m|] eqn:Hid; [|done]. destruct (m_teller m) eqn:Ht; try done. simplify_eq.
    eapply (act_ok_at id _ a _ Hok); simpl; try done.
    + intros i Hne. by apply lookup_insert_ne.
    + intros Hi. destruct (Hq _ Hi) as [? _]. congruence.
    + pose proof (Hm _ _ Hid) as Hmok. unfold msg_ok, answer_ok in *. rewrite Hwk, Ht in Hmok.
      rewrite lookup_insert_eq. simpl. do 3 right. left. exists rest. apply Hmok.
    + intros Et. apply Hb in Et. by eapply same_dom.
  - unfold read_err in Hrun. destruct (msgs a !! id) as [m|] eqn:Hid; [|done].
    pose proof (Hm _ _ Hid) as Hmok. unfold msg_ok in Hmok.
    destruct (m_teller m) eqn:Ht; try done. simplify_eq.
    eapply (act_ok_at id _ a _ Hok); simpl; try done. intros Hi. split; [by apply Hq|done].
  - unfold handle_end in Hrun. destruct (workers a !! id) as [[[|]|]|] eqn:Hwk; try done. simplify_eq.
    destruct (Hw _ _ Hwk) as (m & Hid & Hns).
    eapply (act_ok_at id m a _ Hok); simpl; try done.
    + by rewrite insert_id.
    + intros i Hne. by apply lookup_delete_ne.
    + intros Hi. destruct (Hq _ Hi) as [? _]. congruence.
    + pose proof (Hm _ _ Hid) as Hmok. unfold msg_ok in *. rewrite Hwk in Hmok. rewrite lookup_delete_eq.
      destruct (m_teller m); try done.
      destruct Hmok as (? & ? & Hr & He). split_and!; try done. right. by left.
    + intros Et. apply Hb in Et. destruct (dispatcher a) as [|i| |]; try (rewrite Et in Hwk; by rewrite lookup_empty in Hwk).
      assert (id = i) as -> by (apply elem_of_dom_2 in Hwk; rewrite Et in Hwk; set_solver).
      rewrite decide_True by done. apply dom_empty_iff_L. rewrite dom_delete_L, Et. set_solver.
Qed.

Lemma Initialize_ok t : act_ok (Initialize t).
Proof.
  split; simpl; try done.
  - constructor.
  - by intros id ?%elem_of_nil.
Qed.

Lemma actor_reachable_ok t a : rtc actor_step (Initialize t) a → act_ok a ∧ a_type a = a_type (Initialize t).
Proof.
  intros Hr. pose proof (Initialize_ok t) as H0. assert (rest_ok (Initialize t)) as H1 by done.
  revert Hr H0 H1. generalize (Initialize t). intros a0 Hr.
  induction Hr as [|a1 a2 a3 [e Hs] _ IH]; [done|]. intros Hok Hro.
  destruct IH as [Hok' Et]; [by eapply run_event_ok|by eapply run_event_rest|].
  split; [done|]. rewrite Et. clear -Hs.
  destruct e; simpl in Hs;
    unfold Tell, enqueue, tell_timeout, dispatch_take, dispatch_end, Destroy, Catch, send_done, read_err, handle_end in Hs;
    repeat (case_match; simplify_eq/=; try done).
Qed.

(** An actor with two components that handle a service: the first comes back without an
    error, the second with one before the caller has read the answer. *)
Definition overtaken_call : list actor_event :=
  [ETell 1 [None; Some "full"] true false; EEnqueue 1; ETake; ECatch 1; EDone 1; ECatch 1; ERead 1].

(** C20: a serial actor handles one message at a time: while one is handled the dispatcher
    takes no other.  A goroutine that told the actor a message and wants the answer
    gets what the first handler came back with, or the error of a later one, or a time
    out, or the refusal of an actor that is gone.  So it is told of success only when the
    first handler succeeded, and when there is one handler the answer is that handler's;
    a message for which there is no handler is never answered.  That the answer is the
    first handler's does not hold with more: the caller reads the error after it has been
    woken, and a second handler may have written it by then. *)
Theorem actor_answers t a id m :
  rtc actor_step (Initialize t) a →
  (t = ACTOR_TYPE_SYNC → ∀ id1 id2, is_Some (workers a !! id1) → is_Some (workers a !! id2) →
     id1 = id2 ∧ dispatcher a = DBusy id1) ∧
  (msgs a !! id = Some m → ∀ r, m_need m = true → m_teller m = TReturned r →
     (m_wait m = false ∧ r = Some ErrTimeout) ∨ r = Some ErrInactive ∨
     (∃ rest, m_handlers m = r :: rest) ∨
     ∃ e first rest, r = Some e ∧ m_handlers m = first :: rest ∧ Some e ∈ rest) ∧
  (msgs a !! id = Some m → m_handlers m = [] → m_need m = true → m_wait m = true →
     ∀ r, m_teller m = TReturned r → r = Some ErrInactive) ∧
  (∃ a' m', runs run_event overtaken_call (Initialize ACTOR_TYPE_SYNC) = Some a' ∧
     msgs a' !! 1%positive = Some m' ∧ m_handlers m' = [None; Some "full"] ∧
     m_teller m' = TReturned (Some "full")).
Proof.
  intros Hr. destruct (actor_reachable_ok t a Hr) as [[Hn Hq Hw Hm Hb] Et]. split_and!.
  - intros -> id1 id2 H1 H2. specialize (Hb Et).
    destruct (dispatcher a) as [|i| |]; try (rewrite Hb in H1; by destruct H1).
    apply elem_of_dom in H1, H2. rewrite Hb in H1, H2. split; [set_solver|]. f_equal. set_solver.
  - intros Hid r Hnd Ht. pose proof (Hm _ _ Hid) as Hmok. unfold msg_ok, answer_ok in Hmok. rewrite Ht in Hmok.
    destruct Hmok as [?|[?|[?|[?|(e & -> & He)]]]]; [congruence|by left|by right; left|by do 2 right; left|].
    destruct (m_handlers m) as [|first rest] eqn:Eh; [by apply elem_of_nil in He|].
    do 2 right. apply elem_of_cons in He as [<-|He]; [left; by eexists|right; by exists e, first, rest].
  - intros Hid Hh Hnd Hwt r Ht. pose proof (Hm _ _ Hid) as Hmok. unfold msg_ok, answer_ok in Hmok.
    rewrite Ht, Hh in Hmok. destruct Hmok as [?|[[? _]|[?|[[rest ?]|(e & _ & He)]]]]; try congruence.
    by apply elem_of_nil in He.
  - eexists _, _. split; [vm_compute; reflexivity|]. split; [vm_compute; reflexivity|]. by split.
Qed.

(** ** A serial actor whose caller has given up *)

(** The handler of [id] is at the send on [done], and nobody is at the select. *)
Record stuck_at (id : positive) (a : ActorComponent) : Prop := {
  sa_type : a_type a = ACTOR_TYPE_SYNC;
  sa_busy : dispatcher a = DBusy id;
  sa_only i : is_Some (workers a !! i) → i = id;
  sa_send : ∃ rest, workers a !! id = Some (HSend rest);
  sa_gone : ∃ m r, msgs a !! id = Some m ∧ m_teller m = TReturned r }.

Lemma stuck_step id a a' :
  stuck_at id a → actor_step a a' →
  stuck_at id a' ∧ queueReceive a `prefix_of` queueReceive a' ∧
  ∀ i m, msgs a !! i = Some m → m_teller m = TWait → m_wait m = true → msgs a' !! i = Some m.
Proof.
  intros [Ht Hb Ho (rest & Hs) (m & r & Hid & Hr)] [e Hrun].
  assert (∀ i m', i ≠ id → stuck_at id (set_msgs (<[i := m']> (msgs a)) a)) as Hset.
  { intros i m' Hne. split; simpl; try done; [by exists rest|]. exists m, r. by rewrite lookup_insert_ne. }
  assert (∀ i m0 m', msgs a !! i = Some m0 → (m_teller m0 = TWait → m_wait m0 = true → False) →
    ∀ j n, msgs a !! j = Some n → m_teller n = TWait → m_wait n = true → <[i := m']> (msgs a) !! j = Some n) as Hkeep.
  { intros i m0 m' Hi Hno j n Hj Hw Hwt. rewrite lookup_insert_ne; [done|]. intros <-. simplify_eq. by apply Hno. }
  destruct e as [i hs need wait|i|i| | | |i|i|i|i]; simpl in Hrun.
  - unfold Tell in Hrun. destruct (msgs a !! i) eqn:Hi; simplify_eq. split_and!; [|done|].
    + apply Hset. congruence.
    + intros j n Hj _ _. simpl. rewrite lookup_insert_ne; [done|congruence].
  - unfold enqueue in Hrun. destruct (msgs a !! i) as [m0|] eqn:Hi; [|done].
    destruct (m_teller m0) eqn:Ht0; try done.
    assert (i ≠ id) as Hne by (intros ->; congruence).
    destruct (qclosed a); [|destruct (decide _); [|done]]; simplify_eq; simpl; split_and!;
      try (apply (Hkeep i m0 _ Hi); by rewrite Ht0).
    + by apply Hset.
    + done.
    + split; simpl; try done; [by exists rest|]. exists m, r. by rewrite lookup_insert_ne.
    + by apply prefix_app_r.
  - unfold tell_timeout in Hrun. destruct (msgs a !! i) as [m0|] eqn:Hi; [|done].
    destruct (m_teller m0) eqn:Ht0; try done. destruct (m_wait m0) eqn:Hw0; [done|]. simplify_eq.
    split_and!; [apply Hset; intros ->; congruence|done|]. apply (Hkeep i m0 _ Hi). by rewrite Hw0.
  - unfold dispatch_take in Hrun. by rewrite Hb in Hrun.
  - unfold dispatch_end in Hrun. by rewrite Hb in Hrun.
  - unfold Destroy in Hrun. by rewrite Hb in Hrun.
  - unfold Catch in Hrun. destruct (workers a !! i) as [w|] eqn:Hi; [|done].
    assert (i = id) as -> by (apply Ho; by eexists). rewrite Hs in Hi. by simplify_eq.
  - unfold send_done in Hrun. destruct (workers a !! i) as [w|] eqn:Hi; [|done].
    assert (i = id) as -> by (apply Ho; by eexists). rewrite Hs in Hi. simplify_eq. by rewrite Hid, Hr in Hrun.
  - unfold read_err in Hrun. destruct (msgs a !! i) as [m0|] eqn:Hi; [|done].
    destruct (m_teller m0) eqn:Ht0; try done. simplify_eq.
    split_and!; [apply Hset; intros ->; congruence|done|]. apply (Hkeep i m0 _ Hi). by rewrite Ht0.
  - unfold handle_end in Hrun. destruct (workers a !! i) as [w|] eqn:Hi; [|done].
    assert (i = id) as -> by (apply Ho; by eexists). rewrite Hs in Hi. by simplify_eq.
Qed.

(** When the goroutine that told a serial actor a message has timed out before the
    handler comes back, the actor is lost: the dispatcher stays at the send of the
    answer for ever, no other message is ever handled, the queue only grows, and a
    goroutine that waits without a time out for one of its messages never returns. *)
Theorem serial_actor_lost t a a' id rest m r :
  t = ACTOR_TYPE_SYNC → rtc actor_step (Initialize t) a →
  workers a !! id = Some (HSend rest) → msgs a !! id = Some m → m_teller m = TReturned r →
  rtc actor_step a a' →
  dispatcher a' = DBusy id ∧ (∀ i, is_Some (workers a' !! i) → i = id) ∧
  queueReceive a `prefix_of` queueReceive a' ∧
  ∀ i n, msgs a !! i = Some n → m_teller n = TWait → m_wait n = true → msgs a' !! i = Some n.
Proof.
  intros -> Hr Hs Hid Hm Hr'. destruct (actor_reachable_ok _ a Hr) as [Hok Et].
  assert (stuck_at id a) as Hst.
  { pose proof (ao_busy _ Hok Et) as Hb. destruct (dispatcher a) as [|i| |] eqn:Hd;
      try (rewrite Hb in Hs; by rewrite lookup_empty in Hs).
    assert (i = id) as -> by (apply elem_of_dom_2 in Hs; rewrite Hb in Hs; set_solver).
    split; [done|done| |by exists rest|by exists m, r].
    intros i Hi. apply elem_of_dom in Hi. rewrite Hb in Hi. set_solver. }
  clear Hr Hs Hid Hm Hok Et. induction Hr' as [a|a1 a2 a3 Hst1 _ IH]; [by destruct Hst|].
  destruct (stuck_step _ _ _ Hst Hst1) as (Hst2 & Hp & Hk). destruct (IH Hst2) as (? & ? & Hp' & Hk').
  split_and!; [done|done|by etrans|]. intros i n Hi Ht Hw. apply Hk'; [by apply Hk|done|done].
Qed.

(** ** Witnesses *)

(** A call whose handler answers, and one that times out while its handler runs. *)
Definition answered_call : list actor_event :=
  [ETell 1 [Some "full"] true false; EEnqueue 1; ETake; ECatch 1; EDone 1; ERead 1].
Definition late_call : list actor_event :=
  [ETell 1 [None] true false; EEnqueue 1; ETake; ETell 2 [None] true true; EEnqueue 2;
   ETellTimeout 1; ERead 1; ECatch 1].

Definition after (es : list actor_event) : ActorComponent :=
  default (Initialize ACTOR_TYPE_SYNC) (runs run_event es (Initialize ACTOR_TYPE_SYNC)).

Lemma after_steps es : is_Some (runs run_event es (Initialize ACTOR_TYPE_SYNC)) →
  rtc actor_step (Initialize ACTOR_TYPE_SYNC) (after es).
Proof. intros [a Ha]. apply (runs_steps run_event es). unfold after. by rewrite Ha. Qed.

Lemma answered_call_runs : is_Some (runs run_event answered_call (Initialize ACTOR_TYPE_SYNC)).
Proof. eexists. vm_compute. reflexivity. Qed.
Lemma late_call_runs : is_Some (runs run_event late_call (Initialize ACTOR_TYPE_SYNC)).
Proof. eexists. vm_compute. reflexivity. Qed.

Definition full_answer : Msg := mkMsg [Some "full"] true false true (Some "full") (TReturned (Some "full")).

Lemma actor_answers_witness :
  msgs (after answered_call) !! 1%positive = Some full_answer ∧
  ∃ rest, m_handlers full_answer = Some "full" :: rest.
Proof.
  split; [vm_compute; reflexivity|].
  destruct (actor_answers ACTOR_TYPE_SYNC (after answered_call) 1 full_answer
    (after_steps _ answered_call_runs)) as (_ & H & _).
  destruct (H ltac:(vm_compute; reflexivity) (Some "full") eq_refl eq_refl) as [[_ E]|[E|[E|(e & f & r & _ & E & He)]]];
    [discriminate E|discriminate E|exact E|].
  injection E as <- <-. by apply elem_of_nil in He.
Defined.

Definition late_message : Msg := mkMsg [None] true false false (Some ErrTimeout) (TReturned (Some ErrTimeout)).

Lemma serial_actor_lost_witness :
  msgs (after late_call) !! 1%positive = Some late_message ∧ dispatcher (after late_call) = DBusy 1.
Proof.
  split; [vm_compute; reflexivity|].
  apply (serial_actor_lost ACTOR_TYPE_SYNC (after late_call) (after late_call) 1 [] late_message
    (Some ErrTimeout) eq_refl (after_steps _ late_call_runs)
    ltac:(vm_compute; reflexivity) ltac:(vm_compute; reflexivity) eq_refl (rtc_refl _ _)).
Defined.
